(* ===== verification/_CoqProject ===== *)
-Q . S2P
Prelude.v
GoStrings.v
GoPath.v
GoTime.v
Cron.v
CronParse.v
CronNext.v
Model.v
Config.v
Codec.v
Etcd.v
Exec.v
System.v
Effects.v
Footprint.v
Queue.v
History.v
HistoryFacts.v
Docker.v
DockerFacts.v
Cluster.v
QueueFacts.v
QueueGC.v
ClaimRuns.v
QueueFindings.v
Jobs.v
JobFacts.v
Scheduler.v
Worker.v
WorkerFacts.v
Api.v
Server.v
NodeViews.v
ServerFacts.v
Programs.v
TicketProtocol.v
TicketSafety.v
JobProtocol.v
ClusterSystem.v
ClusterSafety.v
ClusterRuns.v
SchedulerFacts.v
SchedulerRuns.v
Retries.v
Main.v
MainFacts.v
Witnesses.v
NodeWitnesses.v
