(* ===== verification/Prelude.v ===== *)
(** * Orbix scheduler: verification library

    Orbix is a distributed cron: nodes share an etcd cluster, one of them leads
    and enqueues due jobs, all of them claim and run tickets, each keeps a local
    history and answers an HTTP API.  This library models its Go packages (all of
    [src/internal] and [src/cmd/orbixd/main.go]) and proves what they promise each
    other.  It is read in the order of [_CoqProject]:

    - [Prelude]: results, 64-bit arithmetic ([wrap64], [shl64]), loops with
      fuel ([run_loop]), tactics.  [GoStrings], [GoPath], [GoTime]: what the
      program uses of Go's [strings], [strconv], [path/filepath] and [time] (RFC
      3339, the civil calendar, truncation, [AddDate]).  Strings are byte
      strings; a time is a number of nanoseconds since the epoch, a location a
      function from Unix seconds to the offset of its zone.
    - [Cron] is [cron/parser.go] and [cron/schedule.go], one definition per
      function.  [CronParse]: a grammar of items apart from the parser
      ([item_text]), which accepts exactly what it reads; an accepted field
      denotes the union of its items ([parseField_denotes], [parseField_print]),
      masks are in range ([Parse_wf]); both as long as no step overflows.
      [CronNext]: the search ends ([Next_terminates]), answers the first matching
      instant, and is the search without skipping ([Next_is_scan], for six fields
      in zones of whole hours); three deviations.
    - [Model] is [model/model.go], with the interface [Json] to
      [encoding/json]: reading back what was written, for valid UTF-8 and 64-bit
      numbers.  [Codec] is a concrete instance of it, for witnesses.  [Config] is
      [config/config.go]: what [Load] accepts and refuses, the intervals.
    - [Etcd]: the key space (entries with version, revision and lease), and
      programs as trees of requests ([ProgE E], for any type of requests [E];
      [Prog] for those to etcd, [Ev]): reads, transactions, the clock, random
      numbers, leadership, the claim lease, external commands.  etcd is not part
      of the repository: [ev_ok] states what its answers may be, errors included
      (a transaction that fails may have been applied).  [World] is the interface
      programs run in; [MemWorld] a concrete world.
    - [Exec]: runs among other clients: between two requests the store may move
      to any [later] one.  [System]: any number of programs in any interleaving,
      with crashes and lease expiry ([sys_step], [reachable]); a program logic
      ([wp]) for protocols (invariant, guarantee, rely) and its soundness.
      [Effects]: the same for programs with requests of their own ([execE],
      [wpE]), computed runs ([runE]), programs that make only some requests.
      [Footprint]: the keys a program may write, framing, isolation.
    - [Queue] is [queue/*.go], one definition per method.  [QueueFacts]: keys,
      enqueueing, claiming, finishing, abandoning, backoff, each on every branch
      of its answer.  [QueueGC]: garbage collection.  [ClaimRuns]: a claim among
      other clients is atomic.  [QueueFindings]: five deviations.
    - [History] is [history/mirror.go] and [store/store.go], with the statements
      of the source as requests and their meaning on a table ([db_ok]).
      [HistoryFacts]: queries and counts, opening, a history that never lies
      ([mirror_sound]) and misses nothing between a listing and its watch
      ([mirror_no_gap]).
    - [Docker] is [docker/docker.go]; [DockerFacts]: which container a request
      names, what is posted (path, body and answer), and that what is started is
      what was created ([AddNode_spec]).
    - [Jobs], [JobFacts]: [jobs/jobs.go], validation and the id counter.
    - [Scheduler] is [scheduler/*.go]; [SchedulerFacts]: the fires that are due,
      what a tick may write, the fires it loses; [SchedulerRuns]: [run_all]
      on the fires of one tick, six minutes under each policy, the sweep of
      orphans.
    - [Worker], [WorkerFacts]: [worker/worker.go], [executor/executor.go]; the
      result of a run tells what the command answered ([execute_finishes]).
      [Retries]: one worker, no faults: a ticket at the head of the queue that
      keeps failing ends after [MaxRetries + 1] runs.
    - [Api]: the handlers of [api/api.go] for jobs, and the cron preview.
      [Server]: the rest of [internal/api], that is status, history, nodes,
      health, metrics, the routing table and the counters around the handlers.
      [NodeViews], [ServerFacts]: the list of nodes, names of new ones, routing,
      counting, readiness, and what a request may change.
    - [Cluster] is [cluster/session.go] and [election.go]: sessions, mutexes,
      membership, campaign, [Run] and [MaintainClaims].  The fields goroutines
      share are read and written by requests ([NEv]).
    - [Programs]: the programs of a cluster and their footprints.
      [TicketProtocol], [TicketSafety]: no pending ticket vanishes without a
      result, claims and locks do not change hands.  [JobProtocol]: ids are
      never reused.
    - [ClusterSystem]: a cluster of whole nodes, each with its goroutines, state
      and sessions, that join, crash, and close while their goroutines still run
      ([cl_close]); every state it reaches is one of the system of [Programs]
      ([cluster_refines_system]), whose theorems therefore hold of it.
      [ClusterSafety]: at most one running node leads on a live lease
      ([leader_exclusive]).  [ClusterRuns]: runs, and two nodes that both believe
      they lead ([two_leaders]) with writes that are not fenced.
    - [Main] is [cmd/orbixd/main.go]: [main], and the process it is part of with
      the goroutine that serves HTTP and may end it ([process_step],
      [process_ends]); [MainFacts]: what starts, in which order it stops, and how
      else it may end ([main_spec]).
    - [Witnesses], [NodeWitnesses]: the theorems with hypotheses, applied to
      concrete inputs.

    State and operations.  The cluster keeps its state in etcd: the model's
    [Store].  A Go method that makes requests is a definition of type [ProgE]
    with the same requests in the same order; a Go pair (value, error) is a
    [result] (a pair where the source reads the value of a failed call); a nil
    dereference or a slice out of range is [Panic].  Log lines are left out.  The
    state of a worker (limit, slots, goroutines) is the record [Worker], that of
    a node the record [Node]; the scheduler's [lastGC] is passed along
    [sched_turns].

    Fuel.  [run_loop step k] makes at most [2 ^ k] turns: 8 for a cron field
    ([field_loop_terminates], at most 60 values), the logarithm of the distance
    to the limit for the search ([Next_terminates]).  [gc_loop] has one turn per
    doomed key, [collect] eight, [create_loop] eight, as in the code.  The loops
    of the goroutines ([Node_Run], [MaintainClaims], [Mirror_Run], [follow_loop],
    [ensure_loop]) run forever: they take a number of turns, and their theorems
    hold for every number.

    Assumed of the surroundings, as parameters or interfaces: the zone database
    ([loadLocation]), [Sscanf] in the cron preview, the quoting of metric labels,
    the codec, the YAML decoder, the environment and the file system, the JSON of
    Docker's answers, and what etcd, SQLite and Docker answer.  An etcd session is
    a lease that is granted once and may expire at any time; its keep-alive and
    its [Done] channel belong to the client.

    Not modelled: the dashboard and the deployment files; the text of JSON bodies;
    request timeouts other than as errors of what they cut short.  Waiting
    between turns and context cancellation are answers of requests, or a program
    that stops between two of them, which [System] covers as a crash; a node that
    is told to stop goes through the steps of [Close] ([cl_close]).

    Possible next steps: the JSON text itself in place of the interface; the
    history mirror and the API server among the goroutines of [ClusterSystem]. *)
From Stdlib Require Export ZArith Lia.
From stdpp Require Export base tactics decidable list strings gmap pretty sorting.

#[export] Set Default Goal Selector "!".

Declare Scope orbix_scope.
Delimit Scope orbix_scope with orbix.
Global Open Scope Z_scope.

(** Concatenation of strings computes on constructors. *)
Global Arguments String.append : simpl nomatch.

(** ** Results: a Go [(value, error)] pair

    A Go function that returns [(T, error)] either returns a value and a nil
    error or an error; the source never reads the value when the error is not
    nil (where it does, the model says so). *)

Inductive result (E A : Type) : Type :=
| Ok (a : A)
| Err (e : E).
Arguments Ok {E A} a.
Arguments Err {E A} e.

#[export] Instance result_ret E : MRet (result E) := fun A a => Ok a.
#[export] Instance result_bind E : MBind (result E) := fun A B f m =>
  match m with Ok a => f a | Err e => Err e end.

Lemma result_bind_Ok {E A B} (f : A -> result E B) (m : result E A) b :
  m ≫= f = Ok b -> exists a, m = Ok a /\ f a = Ok b.
Proof. destruct m as [a|e]; [by exists a|done]. Qed.

Definition is_ok {E A} (r : result E A) : bool :=
  match r with Ok _ => true | Err _ => false end.

(** [opt_or o e] is the value of [o], or the error [e]. *)
Definition opt_or {E A} (o : option A) (e : E) : result E A :=
  match o with Some a => Ok a | None => Err e end.

(** Bounds of clock and calendar fields. *)
Create HintDb orbix_time.

(** ** Tactics of the development *)

(** Case analysis on the boolean or optional scrutinees of the goal, keeping
    the equations. *)
Ltac case_all :=
  repeat match goal with
  | |- context [match ?x with _ => _ end] => destruct x eqn:?
  end.

(** Turn boolean comparisons of the context and the goal into propositions. *)
Ltac bool_prop :=
  repeat match goal with
  | H : (_ && _)%bool = true |- _ => apply andb_true_iff in H as [? ?]
  | H : (_ || _)%bool = false |- _ => apply orb_false_iff in H as [? ?]
  | H : (_ <? _) = true |- _ => apply Z.ltb_lt in H
  | H : (_ <? _) = false |- _ => apply Z.ltb_ge in H
  | H : (_ <=? _) = true |- _ => apply Z.leb_le in H
  | H : (_ <=? _) = false |- _ => apply Z.leb_gt in H
  | H : (_ =? _) = true |- _ => apply Z.eqb_eq in H
  | H : (_ =? _) = false |- _ => apply Z.eqb_neq in H
  | H : negb _ = true |- _ => apply negb_true_iff in H
  | H : negb _ = false |- _ => apply negb_false_iff in H
  end.

(** Linear arithmetic with division and remainder by constants. *)
Ltac div_lia := Z.div_mod_to_equations; lia.

(** ** 64-bit integers *)

(** The value of a Go [int] or [int64] (64-bit targets) after wrap-around. *)
Definition wrap64 (z : Z) : Z := (z + 2 ^ 63) mod 2 ^ 64 - 2 ^ 63.

Definition in_int64 (z : Z) : bool := (- 2 ^ 63 <=? z) && (z <? 2 ^ 63).

Lemma in_int64_spec z : in_int64 z = true <-> - 2 ^ 63 <= z < 2 ^ 63.
Proof. unfold in_int64. rewrite andb_true_iff, Z.leb_le, Z.ltb_lt. lia. Qed.

Lemma wrap64_id z : - 2 ^ 63 <= z < 2 ^ 63 -> wrap64 z = z.
Proof. unfold wrap64. intros ?. rewrite Z.mod_small; lia. Qed.

Lemma wrap64_in z : in_int64 (wrap64 z) = true.
Proof.
  apply in_int64_spec. unfold wrap64.
  pose proof (Z.mod_pos_bound (z + 2 ^ 63) (2 ^ 64) ltac:(lia)). lia.
Qed.

Lemma wrap64_over z : 2 ^ 63 <= z < 3 * 2 ^ 63 -> wrap64 z = z - 2 ^ 64.
Proof.
  unfold wrap64. intros ?.
  rewrite <- (Z.mod_unique (z + 2 ^ 63) (2 ^ 64) 1 (z + 2 ^ 63 - 2 ^ 64)); lia.
Qed.

(** [1 << uint(n)] as a [uint64]: Go converts a negative [n] to a huge shift
    count, and a shift of 64 or more gives 0. *)
Definition shl64 (n : Z) : Z := if (0 <=? n) && (n <? 64) then Z.shiftl 1 n else 0.

Lemma shl64_testbit n b :
  0 <= b -> Z.testbit (shl64 n) b = (0 <=? n) && (n <? 64) && (b =? n).
Proof.
  intros Hb. unfold shl64. destruct ((0 <=? n) && (n <? 64)) eqn:E.
  - bool_prop. rewrite Z.shiftl_1_l, Z.pow2_bits_eqb by lia. simpl. apply Z.eqb_sym.
  - apply Z.bits_0.
Qed.

(** [x & (1 << uint(n)) == 0]: the test the source makes on a field mask. *)
Definition bit_clear (x n : Z) : bool := Z.land x (shl64 n) =? 0.

Lemma bit_clear_testbit x n : 0 <= n < 64 -> bit_clear x n = negb (Z.testbit x n).
Proof.
  intros Hn. unfold bit_clear.
  destruct (Z.testbit x n) eqn:E; simpl.
  - apply Z.eqb_neq. intros H.
    apply (f_equal (fun y => Z.testbit y n)) in H.
    rewrite Z.land_spec, E, shl64_testbit, Z.bits_0, Z.eqb_refl in H by lia.
    replace (0 <=? n) with true in H by lia. replace (n <? 64) with true in H by lia.
    discriminate H.
  - apply Z.eqb_eq, Z.bits_inj'. intros b Hb.
    rewrite Z.land_spec, shl64_testbit, Z.bits_0 by lia.
    destruct (Z.eqb_spec b n); [subst; by rewrite E|]. by rewrite !andb_false_r.
Qed.

(** ** Loops

    [run_loop step k s] iterates [step] from [s], at most [2 ^ k] times, until
    it answers [inr].  The exponent keeps the fuel small where a loop may take
    millions of turns; every use has a theorem that the fuel is enough. *)

Fixpoint run_loop {A R} (step : A -> A + R) (k : nat) (s : A) : A + R :=
  match k with
  | O => step s
  | S k' => match run_loop step k' s with
            | inl s' => run_loop step k' s'
            | inr r => inr r
            end
  end.

(** An invariant of the loop body holds where the loop stops. *)
Lemma run_loop_inv {A R} (step : A -> A + R) (I : A -> Prop) k s :
  (forall a a', I a -> step a = inl a' -> I a') -> I s ->
  match run_loop step k s with
  | inl s' => I s'
  | inr r => exists s', I s' /\ step s' = inr r
  end.
Proof.
  intros Hstep. revert s. induction k as [|k IH]; intros s Hs; simpl.
  - destruct (step s) eqn:E; eauto.
  - specialize (IH s Hs) as IH1.
    destruct (run_loop step k s) as [s'|r]; [by apply IH|done].
Qed.

(** While it goes on, the loop lowers a measure by its number of turns. *)
Lemma run_loop_measure {A R} (step : A -> A + R) (I : A -> Prop) (m : A -> Z) k s s' :
  (forall a a', I a -> step a = inl a' -> I a' /\ m a' < m a) -> I s ->
  run_loop step k s = inl s' -> I s' /\ m s' + 2 ^ Z.of_nat k <= m s.
Proof.
  intros Hstep. revert s s'. induction k as [|k IH]; intros s s' Hs Hrun; simpl in Hrun.
  - apply Hstep in Hrun as [? ?]; [|done]. simpl. split; [done|lia].
  - destruct (run_loop step k s) as [s1|r] eqn:E1; [|discriminate].
    destruct (IH _ _ Hs E1) as [Hs1 ?]. destruct (IH _ _ Hs1 Hrun) as [? ?].
    rewrite Nat2Z.inj_succ, Z.pow_succ_r by lia. split; [done|lia].
Qed.

(** With a nonnegative measure below [2 ^ k] the loop stops. *)
Lemma run_loop_terminates {A R} (step : A -> A + R) (I : A -> Prop) (m : A -> Z) k s :
  (forall a a', I a -> step a = inl a' -> I a' /\ m a' < m a) ->
  (forall a, I a -> 0 <= m a) -> I s -> m s < 2 ^ Z.of_nat k ->
  exists r, run_loop step k s = inr r.
Proof.
  intros Hstep Hpos Hs Hlt. destruct (run_loop step k s) as [s'|r] eqn:E; [|eauto].
  destruct (run_loop_measure step I m k s s' Hstep Hs E) as [HI ?].
  specialize (Hpos _ HI). lia.
Qed.

(** A loop that has stopped answers the same with more fuel. *)
Lemma run_loop_more {A R} (step : A -> A + R) k k' s r :
  (k <= k')%nat -> run_loop step k s = inr r -> run_loop step k' s = inr r.
Proof.
  intros Hle Hr. induction Hle as [|k' _ IH]; [done|]. simpl. by rewrite IH.
Qed.

(** ** Lists *)

Lemma elem_of_take_sub {A} (n : nat) (l : list A) x : x ∈ take n l -> x ∈ l.
Proof.
  intros Hx. rewrite <- (take_drop n l). apply elem_of_app. by left.
Qed.

(** A fold whose step only adds elements keeps what it had. *)
Lemma foldl_inv {A B} (P : B -> Prop) (f : B -> A -> B) l b :
  (forall b a, a ∈ l -> P b -> P (f b a)) -> P b -> P (foldl f b l).
Proof.
  revert b. induction l as [|a l IH]; intros b Hf Hb; simpl; [done|].
  apply IH.
  - intros b' a' Ha'. apply Hf. by right.
  - apply Hf; [by left|done].
Qed.

(** An update in place, up to order. *)
Lemma insert_delete_Permutation {A} (l : list A) i x y :
  l !! i = Some x -> <[i := y]> l ≡ₚ y :: delete i l.
Proof.
  revert i. induction l as [|a l IH]; intros [|i] Hi; simpl in *; [done..|].
  rewrite (IH i Hi). apply Permutation_swap.
Qed.

Lemma delete_out_of_range {A} (l : list A) i : l !! i = None -> delete i l = l.
Proof.
  revert i. induction l as [|a l IH]; intros [|i] Hi; simpl in *; [done..|]. f_equal. by apply IH.
Qed.
