(* ===== verification/GoStrings.v ===== *)
(** * The parts of Go's [strings] and [strconv] the program calls

    A Go string is a sequence of bytes; here a [string] (a list of 8-bit
    characters).  White space and lower case follow [unicode] on the UTF-8
    encodings: the white-space runes are all listed, and the only runes whose
    lower case is ASCII are the ASCII letters, U+0130 and U+212A.  Other
    non-ASCII runes are left as they are by [ToLower]: no caller accepts a
    non-ASCII byte after it, so this shows in the text of errors only. *)
From S2P Require Import Prelude.
From Stdlib Require Import Ascii.

Open Scope string_scope.
Open Scope Z_scope.

Definition byte_at (i : nat) (s : string) : Z :=
  match String.get i s with Some c => Z.of_N (N_of_ascii c) | None => -1 end.

(** Number of bytes of the white-space rune [s] starts with, 0 if none. *)
Definition space_len (s : string) : nat :=
  let b0 := byte_at 0 s in
  let b1 := byte_at 1 s in
  let b2 := byte_at 2 s in
  if ((9 <=? b0) && (b0 <=? 13)) || (b0 =? 32) then 1%nat
  else if (b0 =? 0xC2) && ((b1 =? 0x85) || (b1 =? 0xA0)) then 2%nat
  else if (b0 =? 0xE1) && (b1 =? 0x9A) && (b2 =? 0x80) then 3%nat
  else if (b0 =? 0xE2) && (b1 =? 0x80) &&
          (((0x80 <=? b2) && (b2 <=? 0x8A)) || (b2 =? 0xA8) || (b2 =? 0xA9) || (b2 =? 0xAF))
       then 3%nat
  else if (b0 =? 0xE2) && (b1 =? 0x81) && (b2 =? 0x9F) then 3%nat
  else if (b0 =? 0xE3) && (b1 =? 0x80) && (b2 =? 0x80) then 3%nat
  else 0%nat.

Fixpoint trim_left_from (skip : nat) (s : string) : string :=
  match s with
  | EmptyString => ""
  | String _ r =>
      match skip with
      | S k => trim_left_from k r
      | O => match space_len s with O => s | S k => trim_left_from k r end
      end
  end.

Definition trim_left (s : string) : string := trim_left_from 0 s.

Fixpoint trim_right (s : string) : string :=
  match s with
  | EmptyString => ""
  | String c r => if String.eqb (trim_left s) "" then "" else String c (trim_right r)
  end.

(** [strings.TrimSpace] *)
Definition TrimSpace (s : string) : string := trim_right (trim_left s).

(** [strings.Fields]: [cur] is the word read so far. *)
Fixpoint fields_from (skip : nat) (cur : string) (s : string) : list string :=
  match s with
  | EmptyString => if String.eqb cur "" then [] else [cur]
  | String c r =>
      match skip with
      | S k => fields_from k cur r
      | O => match space_len s with
             | O => fields_from 0 (cur +:+ String c "") r
             | S k => if String.eqb cur "" then fields_from k "" r
                      else cur :: fields_from k "" r
             end
      end
  end.

Definition Fields (s : string) : list string := fields_from 0 "" s.

Definition lower_byte (c : ascii) : ascii :=
  let n := N_of_ascii c in
  if ((65 <=? n) && (n <=? 90))%N then ascii_of_N (n + 32) else c.

(** [strings.ToLower] *)
Fixpoint ToLower (s : string) : string :=
  match s with
  | EmptyString => ""
  | String a r1 =>
      match r1 with
      | String b r2 =>
          if (byte_at 0 s =? 0xC4) && (byte_at 1 s =? 0xB0) then String "i" (ToLower r2)
          else match r2 with
               | String c r3 =>
                   if (byte_at 0 s =? 0xE2) && (byte_at 1 s =? 0x84) && (byte_at 2 s =? 0xAA)
                   then String "k" (ToLower r3)
                   else String (lower_byte a) (ToLower r1)
               | EmptyString => String (lower_byte a) (ToLower r1)
               end
      | EmptyString => String (lower_byte a) ""
      end
  end.

(** [strings.HasPrefix] and [strings.TrimPrefix] *)
Definition HasPrefix (s p : string) : bool := String.prefix p s.

Fixpoint str_drop (n : nat) (s : string) : string :=
  match n, s with
  | S k, String _ r => str_drop k r
  | _, _ => s
  end.

(** [strings.HasSuffix] *)
Definition HasSuffix (s p : string) : bool :=
  (String.length p <=? String.length s)%nat &&
  String.eqb (str_drop (String.length s - String.length p) s) p.

Definition TrimPrefix (s p : string) : string :=
  if HasPrefix s p then str_drop (String.length p) s else s.

(** [strings.Split] on a one-byte separator *)
Fixpoint Split (sep : ascii) (s : string) : list string :=
  match s with
  | EmptyString => [""]
  | String c r =>
      if Ascii.eqb c sep then "" :: Split sep r
      else match Split sep r with
           | h :: t => String c h :: t
           | [] => [String c ""]
           end
  end.

(** [i := strings.Index(s, sep)] on a one-byte separator, with the two slices
    the callers take when [i >= 0]: [s[:i]] and [s[i+1:]]. *)
Fixpoint cut (sep : ascii) (s : string) : option (string * string) :=
  match s with
  | EmptyString => None
  | String c r =>
      if Ascii.eqb c sep then Some ("", r)
      else match cut sep r with
           | Some (a, b) => Some (String c a, b)
           | None => None
           end
  end.

Definition digit_of (c : ascii) : option Z :=
  let n := Z.of_N (N_of_ascii c) in
  if (48 <=? n) && (n <=? 57) then Some (n - 48) else None.

(** Value of a string of decimal digits read after [acc]. *)
Fixpoint digits_from (acc : Z) (s : string) : option Z :=
  match s with
  | EmptyString => Some acc
  | String c r => match digit_of c with
                  | Some d => digits_from (acc * 10 + d) r
                  | None => None
                  end
  end.

(** [strconv.ParseInt(s, 10, 64)], which is [strconv.Atoi] on 64-bit targets:
    an optional sign, at least one digit, nothing else, in range. *)
Definition ParseInt (s : string) : option Z :=
  let '(neg, body) :=
    match s with
    | String c r => if Ascii.eqb c "-" then (true, r)
                    else if Ascii.eqb c "+" then (false, r) else (false, s)
    | EmptyString => (false, s)
    end in
  if String.eqb body "" then None
  else match digits_from 0 body with
       | Some v => let z := if neg then - v else v in
                   if in_int64 z then Some z else None
       | None => None
       end.

Definition Atoi : string -> option Z := ParseInt.

(** [strconv.FormatInt(z, 10)], [strconv.Itoa] and the verb [%d] *)
Definition FormatInt (z : Z) : string := pretty z.

(** ** Lemmas on bytes *)

(** Every character of [s] satisfies [p]. *)
Fixpoint str_forall (p : ascii -> bool) (s : string) : bool :=
  match s with EmptyString => true | String c r => p c && str_forall p r end.

Definition not_char (c : ascii) : ascii -> bool := fun a => negb (Ascii.eqb a c).

Definition is_digit (c : ascii) : bool :=
  match digit_of c with Some _ => true | None => false end.

Lemma str_forall_app p a b : str_forall p (a +:+ b) = str_forall p a && str_forall p b.
Proof. induction a as [|c a IH]; simpl; [done|]. by rewrite IH, andb_assoc. Qed.

Lemma str_forall_impl (p q : ascii -> bool) s :
  (forall c, p c = true -> q c = true) -> str_forall p s = true -> str_forall q s = true.
Proof.
  intros Hpq. induction s as [|c s IH]; simpl; [done|].
  intros H. bool_prop. rewrite Hpq by done. by apply IH.
Qed.

Lemma string_app_nil_r s : s +:+ "" = s.
Proof. induction s; simpl; congruence. Qed.

Lemma string_app_assoc a b c : (a +:+ b) +:+ c = a +:+ (b +:+ c).
Proof. induction a as [|x a IH]; simpl; [done|by rewrite IH]. Qed.

Lemma string_app_inj_l a b c : a +:+ b = a +:+ c -> b = c.
Proof. induction a as [|x a IH]; simpl; [done|]. intros [=]. auto. Qed.

Lemma string_app_length a b : String.length (a +:+ b) = (String.length a + String.length b)%nat.
Proof. induction a as [|x a IH]; simpl; [done|by rewrite IH]. Qed.

Lemma HasPrefix_app p s : HasPrefix (p +:+ s) p = true.
Proof.
  unfold HasPrefix. induction p as [|c p IH]; simpl; [by destruct s|].
  by destruct (ascii_dec c c).
Qed.

Lemma HasPrefix_spec s p : HasPrefix s p = true <-> exists r, s = p +:+ r.
Proof.
  split; [|intros [r ->]; apply HasPrefix_app].
  unfold HasPrefix. revert s. induction p as [|c p IH]; intros s; simpl; [eauto|].
  destruct s as [|d s]; simpl; [done|].
  destruct (Ascii.ascii_dec c d) as [->|]; [|done].
  intros [r ->]%IH. by exists r.
Qed.

(** Two prefixes neither of which begins the other start no common string. *)
Definition prefix_apart (p q : string) : bool := negb (HasPrefix p q) && negb (HasPrefix q p).

Lemma prefix_ne p q a b : prefix_apart p q = true -> p +:+ a <> q +:+ b.
Proof.
  unfold prefix_apart, HasPrefix. revert q.
  induction p as [|c p IH]; intros [|d q]; simpl; try done.
  destruct (Ascii.ascii_dec c d), (Ascii.ascii_dec d c); try congruence.
  intros H [=]. by eapply IH.
Qed.

Lemma HasPrefix_apart p q a : prefix_apart p q = true -> HasPrefix (p +:+ a) q = false.
Proof.
  intros H. destruct (HasPrefix (p +:+ a) q) eqn:E; [|done].
  apply HasPrefix_spec in E as [r E]. by apply prefix_ne in E.
Qed.

Lemma TrimPrefix_app p s : TrimPrefix (p +:+ s) p = s.
Proof.
  unfold TrimPrefix. rewrite HasPrefix_app. by induction p.
Qed.

(** *** Cutting and splitting *)

Lemma string_leb_trans a b c : String.leb a b = true -> String.leb b c = true -> String.leb a c = true.
Proof.
  unfold String.leb. revert b c. induction a as [|x a IH]; intros [|y b] [|z c]; simpl; try done.
  specialize (IH b c). unfold Ascii.compare.
  destruct (N.compare_spec (N_of_ascii x) (N_of_ascii y)) as [H1|H1|H1]; [| |done];
  destruct (N.compare_spec (N_of_ascii y) (N_of_ascii z)) as [H2|H2|H2]; try done;
  intros; destruct (N.compare_spec (N_of_ascii x) (N_of_ascii z)) as [H3|H3|H3]; try done; try (exfalso; lia).
  by apply IH.
Qed.

Lemma cut_app sep a b : str_forall (not_char sep) a = true ->
  cut sep (a +:+ String sep b) = Some (a, b).
Proof.
  induction a as [|c a IH]; simpl; intros H.
  - by rewrite Ascii.eqb_refl.
  - unfold not_char in *. bool_prop. rewrite H. by rewrite IH.
Qed.

Lemma cut_none sep s : str_forall (not_char sep) s = true -> cut sep s = None.
Proof.
  induction s as [|c a IH]; simpl; [done|]. unfold not_char in *. intros H. bool_prop.
  rewrite H. by rewrite IH.
Qed.

Lemma cut_None sep s : cut sep s = None -> str_forall (not_char sep) s = true.
Proof.
  induction s as [|c a IH]; simpl; [done|]. unfold not_char in *.
  destruct (Ascii.eqb c sep); [done|]. destruct (cut sep a) as [[]|]; [done|].
  intros _. by apply IH.
Qed.

Lemma cut_Some sep s a b : cut sep s = Some (a, b) ->
  s = a +:+ String sep b /\ str_forall (not_char sep) a = true.
Proof.
  revert a b. induction s as [|c s IH]; simpl; intros a b H; [done|].
  destruct (Ascii.eqb_spec c sep) as [->|Hc].
  - by injection H as <- <-.
  - destruct (cut sep s) as [[a' b']|]; [|done]. injection H as <- <-.
    destruct (IH _ _ eq_refl) as [-> Ha]. simpl. split; [done|].
    rewrite Ha. unfold not_char. apply Ascii.eqb_neq in Hc. by rewrite Hc.
Qed.

Lemma Split_app sep a b : str_forall (not_char sep) a = true ->
  Split sep (a +:+ String sep b) = a :: Split sep b.
Proof.
  induction a as [|c a IH]; simpl; intros H.
  - by rewrite Ascii.eqb_refl.
  - unfold not_char in *. bool_prop. rewrite H. by rewrite IH.
Qed.

Lemma Split_none sep s : str_forall (not_char sep) s = true -> Split sep s = [s].
Proof.
  induction s as [|c a IH]; simpl; [done|]. unfold not_char in *. intros H. bool_prop.
  rewrite H. by rewrite IH.
Qed.

Lemma Split_nonempty sep s : Split sep s <> [].
Proof.
  destruct s as [|c s]; simpl; [done|]. case_match; [done|].
  by destruct (Split sep s).
Qed.

(** *** Decimal numbers *)

Lemma N_of_digit n : (n < 10)%N -> digit_of (pretty_N_char n) = Some (Z.of_N n).
Proof.
  intros Hn. destruct n as [|p]; [done|].
  do 4 (destruct p as [p|p|]; try done; try lia).
Qed.

Lemma digits_pretty_go x s acc :
  acc = 0 -> digits_from acc (pretty_N_go x s) = digits_from (Z.of_N x) s.
Proof.
  revert s. induction x as [x IH] using (well_founded_induction N.lt_wf_0); intros s ->.
  destruct (decide (0 < x)%N) as [Hx|Hx].
  - rewrite pretty_N_go_step by done.
    rewrite IH; [|apply N.div_lt; lia|done]. simpl.
    rewrite N_of_digit by (apply N.mod_upper_bound; lia).
    f_equal. rewrite N2Z.inj_div, N2Z.inj_mod. simpl. div_lia.
  - replace x with 0%N by lia. by rewrite pretty_N_go_0.
Qed.

Lemma digits_pretty_N n : digits_from 0 (pretty n) = Some (Z.of_N n).
Proof.
  unfold pretty, pretty_N. case_decide as Hn; [by subst|]. by rewrite digits_pretty_go.
Qed.

Lemma pretty_go_digits x s :
  str_forall is_digit s = true -> str_forall is_digit (pretty_N_go x s) = true.
Proof.
  revert s. induction x as [x IH] using (well_founded_induction N.lt_wf_0); intros s Hs.
  destruct (decide (0 < x)%N) as [Hx|Hx].
  - rewrite pretty_N_go_step by done. apply IH; [apply N.div_lt; lia|]. simpl.
    unfold is_digit at 1. by rewrite N_of_digit by (apply N.mod_upper_bound; lia).
  - replace x with 0%N by lia. by rewrite pretty_N_go_0.
Qed.

Lemma pretty_N_digits (n : N) : str_forall is_digit (pretty n) = true.
Proof.
  unfold pretty, pretty_N. case_decide; [done|]. by apply pretty_go_digits.
Qed.

Lemma pretty_N_ne_empty (n : N) : pretty n <> "".
Proof.
  unfold pretty, pretty_N. case_decide; [done|]. revert n H. generalize "" at 1 as s.
  intros s n Hn. rewrite pretty_N_go_step by lia. generalize (n `mod` 10)%N as d.
  revert s. induction (n / 10)%N as [x IH] using (well_founded_induction N.lt_wf_0).
  intros s d. destruct (decide (0 < x)%N).
  - rewrite pretty_N_go_step by done. apply IH, N.div_lt; lia.
  - replace x with 0%N by lia. by rewrite pretty_N_go_0.
Qed.

Lemma FormatInt_nonneg z : 0 <= z -> FormatInt z = pretty (Z.to_N z).
Proof. by destruct z. Qed.

Lemma FormatInt_digits z : 0 <= z -> str_forall is_digit (FormatInt z) = true.
Proof. intros. rewrite FormatInt_nonneg by done. apply pretty_N_digits. Qed.

(** The bytes of a decimal number: digits, or the sign. *)
Lemma FormatInt_chars z (p : ascii -> bool) :
  (forall c, is_digit c = true -> p c = true) -> p "-"%char = true ->
  str_forall p (FormatInt z) = true.
Proof.
  intros Hp Hm. destruct z as [|x|x].
  - apply (str_forall_impl is_digit); [done|]. by apply FormatInt_digits.
  - apply (str_forall_impl is_digit); [done|]. by apply FormatInt_digits.
  - change (FormatInt (Zneg x)) with (String "-" (pretty (Npos x))). simpl.
    rewrite Hm. apply (str_forall_impl is_digit); [done|]. apply pretty_N_digits.
Qed.

Lemma FormatInt_inj z1 z2 : FormatInt z1 = FormatInt z2 -> z1 = z2.
Proof. apply (inj pretty). Qed.

Lemma ParseInt_digits s v : str_forall is_digit s = true -> s <> "" ->
  digits_from 0 s = Some v -> in_int64 v = true -> ParseInt s = Some v.
Proof.
  intros Hd Hne Hv Hr. unfold ParseInt. destruct s as [|c s]; [done|].
  simpl in Hd. bool_prop.
  destruct (Ascii.eqb_spec c "-"); [by subst|].
  destruct (Ascii.eqb_spec c "+"); [by subst|]. simpl String.eqb. cbn iota.
  by rewrite Hv, Hr.
Qed.

(** Reading back a printed 64-bit integer. *)
Lemma ParseInt_FormatInt z : in_int64 z = true -> ParseInt (FormatInt z) = Some z.
Proof.
  intros Hz. destruct (decide (0 <= z)) as [Hp|Hn].
  - rewrite FormatInt_nonneg by done. apply ParseInt_digits.
    + apply pretty_N_digits.
    + apply pretty_N_ne_empty.
    + rewrite digits_pretty_N. f_equal. lia.
    + done.
  - destruct z as [|x|x]; [lia|lia|].
    change (FormatInt (Zneg x)) with (String "-" (pretty (Npos x))).
    unfold ParseInt. rewrite Ascii.eqb_refl.
    destruct (String.eqb_spec (pretty (N.pos x)) "") as [E|_];
      [by apply pretty_N_ne_empty in E|].
    rewrite digits_pretty_N. change (- Z.of_N (N.pos x)) with (Z.neg x). by rewrite Hz.
Qed.
