(* ===== verification/GoPath.v ===== *)
(** * The parts of Go's [path/filepath] the program calls, on Unix

    [Clean] keeps a stack of elements, here in reverse: [.] and empty elements
    are dropped, [..] takes the last element back unless it is itself a [..] that
    could not be; a rooted path drops a [..] at its root. *)
From S2P Require Import Prelude GoStrings.
From Stdlib Require Import Ascii.

Open Scope string_scope.
Open Scope list_scope.
Open Scope Z_scope.

Fixpoint clean_segs (rooted : bool) (stack : list string) (segs : list string) : list string :=
  match segs with
  | [] => rev stack
  | s :: rest =>
      if String.eqb s "" || String.eqb s "." then clean_segs rooted stack rest
      else if String.eqb s ".." then
        match stack with
        | [] => if rooted then clean_segs rooted [] rest else clean_segs rooted [".."] rest
        | top :: stack' =>
            if String.eqb top ".." then clean_segs rooted (".." :: stack) rest
            else clean_segs rooted stack' rest
        end
      else clean_segs rooted (s :: stack) rest
  end.

Definition Clean (p : string) : string :=
  if String.eqb p "" then "."
  else
    let rooted := HasPrefix p "/" in
    let body := String.concat "/" (clean_segs rooted [] (Split "/" p)) in
    if rooted then String "/" body else if String.eqb body "" then "." else body.

Definition Join (a b : string) : string :=
  if String.eqb a "" then (if String.eqb b "" then "" else Clean b)
  else if String.eqb b "" then Clean a else Clean (a +:+ String "/" b).

(** Up to the last separator, and what follows it. *)
Fixpoint split_last (s : string) : string * string :=
  match s with
  | EmptyString => ("", "")
  | String c r =>
      let '(d, f) := split_last r in
      if negb (String.eqb d "") then (String c d, f)
      else if Ascii.eqb c "/" then ("/", r)
      else ("", String c r)
  end.

(** [filepath.Dir] *)
Definition Dir (p : string) : string := Clean (split_last p).1.
