(* ===== verification/GoTime.v ===== *)
(** * The parts of Go's [time] package the program calls

    A [Time] is an instant: nanoseconds since the Unix epoch, in [Z].  (Go's
    range of about 292 billion years is not modelled.)  A [Location] maps Unix
    seconds to the offset from UTC in force then; the zone database behind
    [time.LoadLocation] is data, so it is a parameter where it is used.  The
    calendar is the proleptic Gregorian one. *)
From S2P Require Import Prelude GoStrings.
From Stdlib Require Import Ascii.

Open Scope string_scope.
Open Scope Z_scope.

Definition Time := Z.
Definition Duration := Z.
Definition Location := Z -> Z.

Definition Second : Duration := 1000000000.
Definition Minute : Duration := 60 * Second.
Definition Hour : Duration := 60 * Minute.

Definition UTC : Location := fun _ => 0.

Definition unix (t : Time) : Z := t / Second.

(** Seconds since the epoch on the wall clock of [loc]. *)
Definition wall (loc : Location) (t : Time) : Z := unix t + loc (unix t).

(** [t.Truncate(d)].  Go rounds down relative to the zero time, 1 January of
    year 1; that instant is a whole number of hours before the epoch, so for
    the durations used (divisors of an hour) this is rounding in [Z]. *)
Definition Truncate (t : Time) (d : Duration) : Time := t - t mod d.

(** ** Calendar *)

(** Days since the epoch of a date; [d] may lie outside the month. *)
Definition days_of_civil (y m d : Z) : Z :=
  let y' := if m <=? 2 then y - 1 else y in
  let mp := if m <=? 2 then m + 9 else m - 3 in
  365 * y' + y' / 4 - y' / 100 + y' / 400 + (153 * mp + 2) / 5 + d - 1 - 719468.

(** Year, month and day of a day number: cycles of 400, 100, 4 and 1 years
    counted from 1 March. *)
Definition civil_of_days (n : Z) : Z * Z * Z :=
  let a := n + 719468 in
  let era := a / 146097 in
  let doe := a mod 146097 in
  let c := Z.min 3 (doe / 36524) in
  let doc := doe - 36524 * c in
  let q := doc / 1461 in
  let doq := doc mod 1461 in
  let yq := Z.min 3 (doq / 365) in
  let doy := doq - 365 * yq in
  let mp := (5 * doy + 2) / 153 in
  let d := doy - (153 * mp + 2) / 5 + 1 in
  let m := if mp <? 10 then mp + 3 else mp - 9 in
  let y := 400 * era + 100 * c + 4 * q + yq in
  ((if m <=? 2 then y + 1 else y), m, d).

Definition is_leap (y : Z) : bool :=
  (y mod 4 =? 0) && (negb (y mod 100 =? 0) || (y mod 400 =? 0)).

Definition daysIn (m y : Z) : Z :=
  if m =? 2 then (if is_leap y then 29 else 28)
  else if (m =? 4) || (m =? 6) || (m =? 9) || (m =? 11) then 30 else 31.

Definition Date_of (loc : Location) (t : Time) : Z * Z * Z := civil_of_days (wall loc t / 86400).
Definition Month (loc : Location) (t : Time) : Z := (Date_of loc t).1.2.
Definition Day (loc : Location) (t : Time) : Z := (Date_of loc t).2.
Definition HourOf (loc : Location) (t : Time) : Z := wall loc t mod 86400 / 3600.
Definition MinuteOf (loc : Location) (t : Time) : Z := wall loc t mod 3600 / 60.
Definition SecondOf (loc : Location) (t : Time) : Z := wall loc t mod 60.
(** Sunday is 0; the epoch was a Thursday. *)
Definition Weekday (loc : Location) (t : Time) : Z := (wall loc t / 86400 + 4) mod 7.

(** Wall-clock seconds to Unix seconds, as [time.Date] resolves them: try the
    offset in force at that number, then the one in force at the result. *)
Definition resolve (loc : Location) (w : Z) : Z :=
  let o := loc w in if o =? 0 then w else w - loc (w - o).

(** [t.AddDate(years, 0, 0)] *)
Definition AddYears (loc : Location) (t : Time) (years : Z) : Time :=
  let '(y, m, d) := Date_of loc t in
  resolve loc (days_of_civil (y + years) m d * 86400 + wall loc t mod 86400) * Second
  + t mod Second.

(** ** RFC 3339 *)

Definition digit_char (n : Z) : ascii := ascii_of_N (48 + Z.to_N n).

Definition pad2 (n : Z) (r : string) : string :=
  String (digit_char (n / 10)) (String (digit_char (n mod 10)) r).

Fixpoint zeros (k : nat) (s : string) : string :=
  match k with O => s | S k' => String "0" (zeros k' s) end.

Definition pad_left (w : nat) (s : string) : string := zeros (w - String.length s) s.

Definition year_str (y : Z) (r : string) : string :=
  if (0 <=? y) && (y <? 10000) then pad2 (y / 100) (pad2 (y mod 100) r)
  else if y <? 0 then "-" +:+ pad_left 4 (FormatInt (- y)) +:+ r
  else FormatInt y +:+ r.

(** Nanoseconds without trailing zeros, [k] digits at most. *)
Fixpoint frac_str (k : nat) (n : Z) : string :=
  match k with
  | O => ""
  | S k' => if n mod 10 =? 0 then frac_str k' (n / 10) else pad_left k (FormatInt n)
  end.

(** [t.UTC().Format(layout)]: date, time, a fraction, the zone [Z]. *)
Definition format_with (frac : string) (t : Time) : string :=
  let '(y, m, d) := Date_of UTC t in
  year_str y (String "-" (pad2 m (String "-" (pad2 d (String "T"
    (pad2 (HourOf UTC t) (String ":" (pad2 (MinuteOf UTC t) (String ":"
    (pad2 (SecondOf UTC t) (frac +:+ "Z"))))))))))).

Definition FormatRFC3339 (t : Time) : string := format_with "" t.

Definition FormatRFC3339Nano (t : Time) : string :=
  format_with (if t mod Second =? 0 then "" else "." +:+ frac_str 9 (t mod Second)) t.

(** *** Parsing *)

Definition getdigit (s : string) : option (Z * string) :=
  match s with
  | String c r => match digit_of c with Some d => Some (d, r) | None => None end
  | EmptyString => None
  end.

(** Two digits, or one when [fixed] is false and no second one follows. *)
Definition getnum (fixed : bool) (s : string) : option (Z * string) :=
  match getdigit s with
  | Some (a, r) =>
      match getdigit r with
      | Some (b, r') => Some (10 * a + b, r')
      | None => if fixed then None else Some (a, r)
      end
  | None => None
  end.

Definition skip_char (c : ascii) (s : string) : option string :=
  match s with
  | String d r => if Ascii.eqb d c then Some r else None
  | EmptyString => None
  end.

(** Digits of a fraction: up to nine count, the rest are dropped. *)
Fixpoint frac_digits (k : nat) (acc : Z) (s : string) : Z * string :=
  match s with
  | String c r =>
      match digit_of c with
      | Some d => match k with
                  | S k' => frac_digits k' (acc * 10 + d) r
                  | O => frac_digits O acc r
                  end
      | None => (acc * 10 ^ Z.of_nat k, s)
      end
  | EmptyString => (acc * 10 ^ Z.of_nat k, s)
  end.

(** The optional fraction after the seconds: a period or comma, then a digit. *)
Definition get_frac (s : string) : Z * string :=
  match s with
  | String p ((String c _) as r) =>
      if (Ascii.eqb p "." || Ascii.eqb p ",") && is_digit c then frac_digits 9 0 r else (0, s)
  | _ => (0, s)
  end.

(** The zone: [Z], or a sign with hours and minutes. *)
Definition get_zone (s : string) : option (Z * string) :=
  match s with
  | String c r =>
      if Ascii.eqb c "Z" then Some (0, r)
      else '(hh, r1) ← getnum true r; r2 ← skip_char ":" r1; '(mm, r3) ← getnum true r2;
           if (24 <? hh) || (60 <? mm) then None
           else let o := (hh * 60 + mm) * 60 in
                if Ascii.eqb c "+" then Some (o, r3)
                else if Ascii.eqb c "-" then Some (- o, r3) else None
  | EmptyString => None
  end.

(** [time.Parse(time.RFC3339, s)] *)
Definition ParseRFC3339 (s : string) : option Time :=
  '(y1, r) ← getnum true s; '(y2, r) ← getnum true r;
  r ← skip_char "-" r; '(m, r) ← getnum true r;
  r ← skip_char "-" r; '(d, r) ← getnum true r;
  r ← skip_char "T" r; '(hh, r) ← getnum false r;
  r ← skip_char ":" r; '(mi, r) ← getnum true r;
  r ← skip_char ":" r; '(ss, r) ← getnum true r;
  let '(ns, r) := get_frac r in
  '(off, r) ← get_zone r;
  let y := 100 * y1 + y2 in
  if (1 <=? m) && (m <=? 12) && (hh <? 24) && (mi <? 60) && (ss <? 60)
     && (1 <=? d) && (d <=? daysIn m y) && String.eqb r ""
  then Some ((days_of_civil y m d * 86400 + hh * 3600 + mi * 60 + ss - off) * Second + ns)
  else None.

(** ** Lemmas *)

Lemma Truncate_le t d : 0 < d -> Truncate t d <= t < Truncate t d + d.
Proof. intros. unfold Truncate. pose proof (Z.mod_pos_bound t d). lia. Qed.

Lemma Truncate_divide t d : 0 < d -> (d | Truncate t d).
Proof.
  intros. exists (t / d). unfold Truncate. pose proof (Z.div_mod t d). lia.
Qed.

Section calendar.
Local Opaque Z.mul Z.add Z.sub.

Lemma days_of_civil_of_days n :
  let '(y, m, d) := civil_of_days n in days_of_civil y m d = n.
Proof.
  unfold civil_of_days, days_of_civil. cbv zeta.
  set (a := n + 719468). set (era := a / 146097). set (doe := a mod 146097).
  set (c := Z.min 3 (doe / 36524)). set (doc := doe - 36524 * c).
  set (q := doc / 1461). set (doq := doc mod 1461).
  set (yq := Z.min 3 (doq / 365)). set (doy := doq - 365 * yq).
  set (mp := (5 * doy + 2) / 153).
  assert (Hd : 0 <= doy < 366) by (subst doy yq doq doc c doe; div_lia).
  assert (Hc : 0 <= c <= 3) by (subst c doe; div_lia).
  assert (Hq : 0 <= q <= 24) by (subst q doc c doe; div_lia).
  assert (Hy : 0 <= yq <= 3) by (subst yq doq doc c doe; div_lia).
  assert (Hm : 0 <= mp <= 11) by (subst mp; div_lia).
  assert (Hn : n = 146097 * era + 36524 * c + 1461 * q + 365 * yq + doy - 719468)
    by (subst doy yq doq doc q era doe; div_lia).
  clearbody mp doy yq q c era. clear - Hd Hc Hq Hy Hm Hn.
  set (Y := 400 * era + 100 * c + 4 * q + yq).
  assert (E1 : Y / 4 = 100 * era + 25 * c + q) by (subst Y; div_lia).
  assert (E2 : Y / 100 = 4 * era + c) by (subst Y; div_lia).
  assert (E3 : Y / 400 = era) by (subst Y; div_lia).
  destruct (mp <? 10) eqn:Emp; bool_prop.
  - destruct (Z.leb_spec (mp + 3) 2); [lia|].
    replace (mp + 3 - 3) with mp by lia. rewrite E1, E2, E3. lia.
  - destruct (Z.leb_spec (mp - 9) 2); [|lia].
    replace (Y + 1 - 1) with Y by lia. replace (mp - 9 + 9) with mp by lia.
    rewrite E1, E2, E3. lia.
Qed.

Lemma is_leap_spec y : is_leap y = true <->
  y mod 4 = 0 /\ (y mod 100 <> 0 \/ y mod 400 = 0).
Proof.
  unfold is_leap. rewrite andb_true_iff, orb_true_iff, negb_true_iff, !Z.eqb_eq, Z.eqb_neq.
  tauto.
Qed.

Lemma civil_of_days_range n :
  let '(y, m, d) := civil_of_days n in 1 <= m <= 12 /\ 1 <= d <= daysIn m y.
Proof.
  unfold civil_of_days. cbv zeta.
  set (a := n + 719468). set (era := a / 146097). set (doe := a mod 146097).
  set (c := Z.min 3 (doe / 36524)). set (doc := doe - 36524 * c).
  set (q := doc / 1461). set (doq := doc mod 1461).
  set (yq := Z.min 3 (doq / 365)). set (doy := doq - 365 * yq).
  set (mp := (5 * doy + 2) / 153). set (d := doy - (153 * mp + 2) / 5 + 1).
  set (Y := 400 * era + 100 * c + 4 * q + yq).
  assert (Hdoy : 0 <= doy < 366) by (subst doy yq doq doc c doe; div_lia).
  assert (Hlast : doy = 365 -> is_leap (Y + 1) = true).
  { intros E. apply is_leap_spec.
    assert (yq = 3 /\ 0 <= c <= 3 /\ 0 <= q <= 24 /\ (q = 24 -> c = 3)) as (? & ? & ? & ?)
      by (subst doy yq doq q doc c doe; div_lia).
    subst Y. clear - H H0 H1 H2. div_lia. }
  clearbody doy Y. clear - Hdoy Hlast.
  assert (0 <= mp <= 11) as Hmp by (subst mp; div_lia).
  assert (1 <= d) by (subst d mp; div_lia).
  assert (Hup : 153 * mp <= 5 * doy + 2 <= 153 * mp + 152) by (subst mp; div_lia).
  unfold daysIn. clearbody mp.
  assert (Hd5 : 5 * d <= 5 * doy + 9 - 153 * mp - 2) by (subst d; div_lia).
  clearbody d.
  destruct (mp <? 10) eqn:E; bool_prop.
  - split; [lia|]. split; [lia|]. case_all; bool_prop; lia.
  - split; [lia|]. split; [lia|].
    destruct (Z.leb_spec (mp - 9) 2); [|lia]. case_all; bool_prop; lia.
Qed.

(** The fields of the wall clock rebuild the wall-clock seconds. *)
Lemma wall_fields loc t :
  let '(y, m, d) := Date_of loc t in
  days_of_civil y m d * 86400 + HourOf loc t * 3600 + MinuteOf loc t * 60 + SecondOf loc t
  = wall loc t.
Proof.
  unfold Date_of, HourOf, MinuteOf, SecondOf.
  pose proof (days_of_civil_of_days (wall loc t / 86400)) as H.
  destruct (civil_of_days _) as [[y m] d]. rewrite H. generalize (wall loc t). intros w.
  clear H. div_lia.
Qed.

Lemma HourOf_range loc t : 0 <= HourOf loc t < 24.
Proof. unfold HourOf. generalize (wall loc t). intros. div_lia. Qed.

Lemma MinuteOf_range loc t : 0 <= MinuteOf loc t < 60.
Proof. unfold MinuteOf. generalize (wall loc t). intros. div_lia. Qed.

Lemma SecondOf_range loc t : 0 <= SecondOf loc t < 60.
Proof. unfold SecondOf. generalize (wall loc t). intros. div_lia. Qed.

Lemma Month_range loc t : 1 <= Month loc t <= 12.
Proof.
  unfold Month, Date_of. pose proof (civil_of_days_range (wall loc t / 86400)) as H.
  destruct (civil_of_days _) as [[y m] d]. simpl. lia.
Qed.

Lemma daysIn_le m y : daysIn m y <= 31.
Proof. unfold daysIn. case_all; lia. Qed.

Lemma Day_range loc t : 1 <= Day loc t <= 31.
Proof.
  unfold Day, Date_of. pose proof (civil_of_days_range (wall loc t / 86400)) as H.
  destruct (civil_of_days _) as [[y m] d]. simpl. pose proof (daysIn_le m y). lia.
Qed.

Lemma Weekday_range loc t : 0 <= Weekday loc t < 7.
Proof. unfold Weekday. apply Z.mod_pos_bound. lia. Qed.

(** *** Printing and reading two-digit numbers *)

Lemma digit_of_digit_char n : 0 <= n < 10 -> digit_of (digit_char n) = Some n.
Proof.
  intros Hn. destruct n as [|p|p]; [done| |lia].
  do 4 (destruct p as [p|p|]; try done; try lia).
Qed.

Lemma getnum_pad2 fixed n r : 0 <= n < 100 -> getnum fixed (pad2 n r) = Some (n, r).
Proof.
  intros Hn. unfold getnum, pad2. simpl.
  rewrite digit_of_digit_char by div_lia. simpl.
  rewrite digit_of_digit_char by div_lia. do 2 f_equal. div_lia.
Qed.

Lemma skip_char_hit c r : skip_char c (String c r) = Some r.
Proof. simpl. by rewrite Ascii.eqb_refl. Qed.

Definition year_of (t : Time) : Z := (Date_of UTC t).1.1.

(** The instants of the years 0 to 9999. *)
Definition four_digit_year (t : Time) : Prop := -62167219200 <= unix t < 253402300800.

Lemma year_of_range t : four_digit_year t -> 0 <= year_of t < 10000.
Proof.
  unfold four_digit_year, year_of, Date_of. intros Ht.
  pose proof (days_of_civil_of_days (wall UTC t / 86400)) as Hn.
  pose proof (civil_of_days_range (wall UTC t / 86400)) as Hr.
  destruct (civil_of_days (wall UTC t / 86400)) as [[y m] d]. cbn [fst].
  destruct Hr as [Hm Hd]. pose proof (daysIn_le m y).
  assert (-719528 <= wall UTC t / 86400 < 2932897) as Hw by (unfold wall, UTC; div_lia).
  rewrite <- Hn in Hw. clear Hn Ht. unfold days_of_civil in Hw.
  destruct (m <=? 2) eqn:Em; bool_prop; split; apply Z.nlt_ge || apply Z.nle_gt; intros Hy; div_lia.
Qed.

(** Reading a printed instant: whole seconds survive, in years of four digits. *)
Lemma ParseRFC3339_Format t : 0 <= year_of t < 10000 ->
  ParseRFC3339 (FormatRFC3339 t) = Some (unix t * Second).
Proof.
  unfold year_of, FormatRFC3339, format_with. intros Hy.
  pose proof (wall_fields UTC t) as Hw.
  pose proof (civil_of_days_range (wall UTC t / 86400)) as Hr.
  change (civil_of_days (wall UTC t / 86400)) with (Date_of UTC t) in Hr.
  pose proof (HourOf_range UTC t). pose proof (MinuteOf_range UTC t).
  pose proof (SecondOf_range UTC t).
  destruct (Date_of UTC t) as [[y m] d]. simpl in Hy.
  pose proof (daysIn_le m y).
  unfold year_str. replace ((0 <=? y) && (y <? 10000)) with true by lia.
  unfold ParseRFC3339.
  repeat first [rewrite getnum_pad2 by div_lia | rewrite skip_char_hit | progress cbn [mbind option_bind]].
  change (get_frac ("" +:+ "Z")) with (0, "Z"). cbn iota beta.
  assert (get_zone "Z" = Some (0, "")) as -> by reflexivity. cbn [mbind option_bind].
  replace (100 * (y / 100) + y mod 100) with y by div_lia.
  replace (String.eqb "" "") with true by done.
  match goal with |- context [if ?b then _ else _] => destruct b eqn:E end.
  - f_equal. rewrite !Z.sub_0_r, Z.add_0_r. f_equal. rewrite Hw. unfold wall, UTC. lia.
  - exfalso. repeat (apply andb_false_iff in E as [E|E]); bool_prop; lia || done.
Qed.

End calendar.

#[export] Hint Resolve HourOf_range MinuteOf_range SecondOf_range Month_range Day_range
  Weekday_range : orbix_time.
