(* ===== verification/Cron.v ===== *)
(** * Cron expressions: [internal/cron/parser.go] and [internal/cron/schedule.go]

    The parser ([Parse], [parseField], [parseValue]) and the search for the
    next fire time ([Next], [matches], [NextAfter]).  [CronParse] and [CronNext]
    prove what the two promise. *)
From S2P Require Import Prelude GoStrings GoTime.
From Stdlib Require Import Ascii.

Open Scope string_scope.
Open Scope Z_scope.

(** ** Data *)

Definition secMin := 0.
Definition secMax := 59.
Definition minMin := 0.
Definition minMax := 59.
Definition hourMin := 0.
Definition hourMax := 23.
Definition domMin := 1.
Definition domMax := 31.
Definition monMin := 1.
Definition monMax := 12.
Definition dowMin := 0.
Definition dowMax := 7.

(** The masks are [uint64] values: bit [b] stands for the field value [b]. *)
Record Schedule := mkSchedule {
  seconds : Z;
  minutes : Z;
  hours : Z;
  doms : Z;
  months : Z;
  dows : Z;
  domStar : bool;
  dowStar : bool;
  hasSeconds : bool;
}.

(** The errors, with the values their messages quote. *)
Inductive CronErr :=
| EmptyExpression
| UnsupportedMacro (expr : string)
| FieldCount (n : nat) (expr : string)
| EmptyItem (what : string)
| InvalidStep (what part : string)
| MissingValue (what : string)
| BadValue (s what : string)
| RangeOutOfBounds (what part : string)
| MatchesNothing (what : string)
| UnknownTimezone (tz : string)
| NoFireTime (expr : string).

Definition monthNames : gmap string Z := list_to_map
  [("jan", 1); ("feb", 2); ("mar", 3); ("apr", 4); ("may", 5); ("jun", 6);
   ("jul", 7); ("aug", 8); ("sep", 9); ("oct", 10); ("nov", 11); ("dec", 12)].

Definition dowNames : gmap string Z := list_to_map
  [("sun", 0); ("mon", 1); ("tue", 2); ("wed", 3); ("thu", 4); ("fri", 5); ("sat", 6)].

(** ** Parser *)

(** [names] is [None] for Go's nil map. *)
Definition parseValue (s : string) (names : option (gmap string Z)) (what : string)
    : result CronErr Z :=
  if String.eqb s "" then Err (MissingValue what)
  else match names ≫= lookup s with
       | Some v => Ok v
       | None => opt_or (Atoi s) (BadValue s what)
       end.

(** One item of a field, up to the loop that sets the bits: the first and the
    last value, and the step. *)
Definition parse_item (part : string) (lo hi : Z) (names : option (gmap string Z))
    (what : string) : result CronErr (Z * Z * Z) :=
  if String.eqb part "" then Err (EmptyItem what)
  else
    '(rng, step, stepped) ←
      match cut "/" part with
      | Some (rng, st) =>
          match Atoi st with
          | Some v => if v <? 1 then Err (InvalidStep what part) else Ok (rng, v, true)
          | None => Err (InvalidStep what part)
          end
      | None => Ok (part, 1, false)
      end;
    if String.eqb rng "*" then Ok (lo, hi, step)
    else
      let '(a, b, isRange) :=
        match cut "-" rng with
        | Some (a, b) => (a, b, true)
        | None => (rng, rng, false)
        end in
      av ← parseValue a names what;
      bv ← parseValue b names what;
      if (av <? lo) || (hi <? av) || (bv <? lo) || (hi <? bv) || (bv <? av)
      then Err (RangeOutOfBounds what part)
      else Ok (av, if stepped && negb isRange then hi else bv, step).

(** The bit a value sets: day-of-week wraps 7 to 0. *)
Definition field_bit (wrap v : Z) : Z := if 0 <? wrap then Z.rem v wrap else v.

(** One turn of [for v := from; v <= to; v += step], in 64-bit arithmetic. *)
Definition field_step (to step wrap : Z) (st : Z * Z) : (Z * Z) + Z :=
  let '(v, bits) := st in
  if v <=? to
  then inl (wrap64 (v + step), Z.lor bits (shl64 (field_bit wrap v)))
  else inr bits.

(** The loop; 256 turns are enough ([set_range_stops]). *)
Definition set_range (from to step wrap bits : Z) : Z :=
  match run_loop (field_step to step wrap) 8 (from, bits) with
  | inl (_, b) => b
  | inr b => b
  end.

Fixpoint parse_parts (parts : list string) (lo hi wrap : Z) (names : option (gmap string Z))
    (what : string) (bits : Z) : result CronErr Z :=
  match parts with
  | [] => Ok bits
  | part :: rest =>
      '(from, to, step) ← parse_item part lo hi names what;
      parse_parts rest lo hi wrap names what (set_range from to step wrap bits)
  end.

Definition parseField (field : string) (lo hi wrap : Z) (names : option (gmap string Z))
    (what : string) : result CronErr Z :=
  bits ← parse_parts (Split "," field) lo hi wrap names what 0;
  if bits =? 0 then Err (MatchesNothing what) else Ok bits.

Definition expand_macro (e : string) : string :=
  if String.eqb e "@yearly" || String.eqb e "@annually" then "0 0 1 1 *"
  else if String.eqb e "@monthly" then "0 0 1 * *"
  else if String.eqb e "@weekly" then "0 0 * * 0"
  else if String.eqb e "@daily" || String.eqb e "@midnight" then "0 0 * * *"
  else if String.eqb e "@hourly" then "0 * * * *"
  else e.

(** The five last fields, after the seconds. *)
Definition parse_five (sec : Z) (hasSec : bool) (fmin fhour fdom fmon fdow : string)
    : result CronErr Schedule :=
  mins ← parseField fmin minMin minMax 0 None "minute";
  hrs ← parseField fhour hourMin hourMax 0 None "hour";
  ds ← parseField fdom domMin domMax 0 None "day-of-month";
  mons ← parseField fmon monMin monMax 0 (Some monthNames) "month";
  dws ← parseField fdow dowMin dowMax 7 (Some dowNames) "day-of-week";
  Ok {| seconds := sec; minutes := mins; hours := hrs; doms := ds; months := mons;
        dows := dws; domStar := HasPrefix fdom "*"; dowStar := HasPrefix fdow "*";
        hasSeconds := hasSec |}.

Definition Parse (expr : string) : result CronErr Schedule :=
  let e := TrimSpace (ToLower expr) in
  if String.eqb e "" then Err EmptyExpression
  else
    let e := expand_macro e in
    if HasPrefix e "@" then Err (UnsupportedMacro expr)
    else match Fields e with
         | [f0; f1; f2; f3; f4] => parse_five 0 false f0 f1 f2 f3 f4
         | [f0; f1; f2; f3; f4; f5] =>
             sec ← parseField f0 secMin secMax 0 None "seconds";
             parse_five sec true f1 f2 f3 f4 f5
         | fields => Err (FieldCount (length fields) expr)
         end.

Definition Validate (expr : string) : option CronErr :=
  match Parse expr with Ok _ => None | Err e => Some e end.

(** ** Search *)

Definition matches (s : Schedule) (loc : Location) (t : Time) : bool :=
  if bit_clear (months s) (Month loc t) then false
  else if bit_clear (hours s) (HourOf loc t) then false
  else if bit_clear (minutes s) (MinuteOf loc t) then false
  else if hasSeconds s && bit_clear (seconds s) (SecondOf loc t) then false
  else
    let domOK := negb (bit_clear (doms s) (Day loc t)) in
    let dowOK := negb (bit_clear (dows s) (Weekday loc t)) in
    if domStar s && dowStar s then true
    else if domStar s then dowOK
    else if dowStar s then domOK
    else domOK || dowOK.

(** One turn of the loop [for t.Before(limit)]. *)
Definition next_step (s : Schedule) (loc : Location) (limit t : Time) : Time + option Time :=
  if t <? limit then
    if matches s loc t then inr (Some t)
    else if hasSeconds s then
      if bit_clear (hours s) (HourOf loc t) then inl (Truncate t Hour + Hour)
      else if bit_clear (minutes s) (MinuteOf loc t) then inl (Truncate t Minute + Minute)
      else inl (t + Second)
    else inl (t + Minute)
  else inr None.

Definition first_candidate (s : Schedule) (from : Time) : Time :=
  if hasSeconds s then Truncate from Second + Second else Truncate from Minute + Minute.

(** Every turn moves at least one nanosecond towards the limit, so [2 ^ k] turns
    are enough when [limit - t < 2 ^ k] ([Next_loop]). *)
Definition next_fuel (t limit : Time) : nat := Z.to_nat (Z.log2 (Z.max 1 (limit - t)) + 1).

(** [(t, true)] is [Some t]; the zero time and [false] are [None]. *)
Definition Next (s : Schedule) (loc : Location) (from : Time) : option Time :=
  let t := first_candidate s from in
  let limit := AddYears loc from 4 in
  match run_loop (next_step s loc limit) (next_fuel t limit) t with
  | inr r => r
  | inl _ => None
  end.

(** [loadLocation] is [time.LoadLocation]: a name of the zone database. *)
Definition NextAfter (loadLocation : string -> option Location) (expr tz : string) (now : Time)
    : result CronErr Time :=
  s ← Parse expr;
  loc ← (if String.eqb tz "" then Ok UTC else opt_or (loadLocation tz) (UnknownTimezone tz));
  match Next s loc now with
  | Some nxt => Ok nxt
  | None => Err (NoFireTime expr)
  end.
