(* ===== verification/CronParse.v ===== *)
(** * What the cron parser promises

    Termination of the loop that sets the bits (also when the step overflows),
    the set of values a field denotes, the ranges of an accepted schedule, and
    the reading of printed items. *)
From S2P Require Import Prelude GoStrings GoTime Cron.
From Stdlib Require Import Ascii.

Open Scope string_scope.
Open Scope Z_scope.

(** ** The loop of one item *)

Section field_loop.
Context (from to step wrap : Z).
Hypothesis Hft : 0 <= from <= to.
Hypothesis Hto : to <= 59.
Hypothesis Hstep : 1 <= step < 2 ^ 63.

(** No overflow: [to + step] is an [int]. The distance to the end shrinks. *)
Lemma loop_terminates_plain bits : to + step < 2 ^ 63 ->
  exists b, run_loop (field_step to step wrap) 8 (from, bits) = inr b.
Proof.
  intros Hno.
  apply (run_loop_terminates _ (fun st => 0 <= st.1 <= to + step)
           (fun st => if st.1 <=? to then to - st.1 + 1 else 0)).
  - intros [v b] a' Hv Hs. unfold field_step in Hs. simpl in *.
    destruct (v <=? to) eqn:E; [|done]. injection Hs as <-. bool_prop. simpl.
    rewrite wrap64_id by lia. destruct (v + step <=? to) eqn:E'; bool_prop; lia.
  - intros [v b] ?. simpl in *. destruct (v <=? to) eqn:E; bool_prop; lia.
  - simpl. lia.
  - simpl. destruct (from <=? to) eqn:E; bool_prop; simpl; lia.
Qed.

(** With overflow the value alternates between a small one and a very negative
    one, two turns lowering the small one by [2 * (2 ^ 63 - step)]. *)
Lemma loop_terminates_overflow bits : 2 ^ 63 <= to + step ->
  exists b, run_loop (field_step to step wrap) 8 (from, bits) = inr b.
Proof.
  intros Hov. set (D := 2 ^ 63 - step).
  apply (run_loop_terminates _
    (fun st => (-59 <= st.1 <= to) \/ (D <= st.1 + D + 2 ^ 63 <= to) \/ to < st.1)
    (fun st => if to <? st.1 then 0
               else if -59 <=? st.1 then 2 * (st.1 + 60)
               else 2 * (st.1 + 2 ^ 63 - D + 60) + 1)).
  - intros [v b] a' Hv Hs. unfold field_step in Hs. simpl in Hv, Hs.
    destruct (v <=? to) eqn:E; [|done]. injection Hs as <-. bool_prop. cbn [fst].
    assert (to < v -> False) by lia.
    destruct (decide (v + step < 2 ^ 63)) as [Hs|Hs].
    + rewrite wrap64_id by lia. split; [lia|].
      destruct (to <? v) eqn:E1; bool_prop; [lia|].
      destruct (to <? v + step) eqn:E2; bool_prop.
      * destruct (-59 <=? v) eqn:E3; bool_prop; lia.
      * destruct (-59 <=? v) eqn:E3; bool_prop; [lia|].
        destruct (-59 <=? v + step) eqn:E4; bool_prop; lia.
    + rewrite wrap64_over by lia. split; [lia|].
      destruct (to <? v) eqn:E1; bool_prop; [lia|].
      destruct (to <? v + step - 2 ^ 64) eqn:E2; bool_prop; [lia|].
      destruct (-59 <=? v) eqn:E3; bool_prop; [|lia].
      destruct (-59 <=? v + step - 2 ^ 64) eqn:E4; bool_prop; lia.
  - intros [v b] Hv. cbn [fst] in *.
    destruct (to <? v) eqn:E1; bool_prop; [lia|].
    destruct (-59 <=? v) eqn:E3; bool_prop; lia.
  - cbn [fst]. lia.
  - cbn [fst]. destruct (to <? from) eqn:E1; bool_prop; [lia|].
    destruct (-59 <=? from) eqn:E3; bool_prop; simpl; lia.
Qed.

Lemma set_range_stops bits :
  run_loop (field_step to step wrap) 8 (from, bits) = inr (set_range from to step wrap bits).
Proof.
  unfold set_range.
  destruct (decide (to + step < 2 ^ 63)).
  - destruct (loop_terminates_plain bits) as [b ->]; done.
  - destruct (loop_terminates_overflow bits) as [b ->]; [lia|done].
Qed.

(** The values the loop visits when it does not overflow. *)
Definition visited (v u : Z) : Prop := from <= u < v /\ u <= to /\ (step | u - from).

Lemma visited_step v u : (step | v - from) -> from <= v <= to ->
  visited (v + step) u <-> visited v u \/ u = v.
Proof using Hstep.
  intros Hd Hv. unfold visited. split.
  - intros (H1 & H2 & H3). destruct (decide (u = v)) as [|Hne]; [by right|]. left.
    split; [|done]. split; [lia|].
    destruct (decide (u < v)); [done|]. exfalso.
    assert (step | u - v) as [k Hk]
      by (replace (u - v) with ((u - from) - (v - from)) by lia; by apply Z.divide_sub_r).
    assert (1 <= step) by lia. clear - Hk H1 Hne n H. destruct (Z.le_gt_cases k 0); nia.
  - intros [(H1 & H2 & H3) | ->]; (split; [lia|]; split; [lia|]; done).
Qed.

(** The mask after the loop: what it was, and the bits of the values visited. *)
Lemma set_range_testbit bits b : to + step < 2 ^ 63 -> 0 <= b ->
  Z.testbit (set_range from to step wrap bits) b = true <->
  Z.testbit bits b = true \/
  exists u, from <= u <= to /\ (step | u - from) /\ b = field_bit wrap u.
Proof.
  intros Hno Hb.
  pose (I := fun st : Z * Z => from <= st.1 <= to + step /\ (step | st.1 - from) /\
    (Z.testbit st.2 b = true <->
     Z.testbit bits b = true \/ exists u, visited st.1 u /\ b = field_bit wrap u)).
  assert (Hbit : forall u, from <= u <= to -> 0 <= field_bit wrap u < 64).
  { intros u Hu. unfold field_bit. destruct (0 <? wrap) eqn:E; bool_prop; [|lia].
    rewrite Z.rem_mod_nonneg by lia. pose proof (Z.mod_le u wrap).
    pose proof (Z.mod_pos_bound u wrap). lia. }
  pose proof (run_loop_inv (field_step to step wrap) I 8 (from, bits)) as H.
  rewrite set_range_stops in H. destruct H as ([v acc] & HI & Hs).
  - intros [v acc] a' (Hv & Hd & Hacc) Hs. unfold field_step in Hs. cbn [fst snd] in *.
    destruct (v <=? to) eqn:E; [|done]. injection Hs as <-. bool_prop.
    unfold I. cbn [fst snd]. rewrite wrap64_id by lia. split; [lia|]. split.
    { replace (v + step - from) with (v - from + step) by lia.
      by apply Z.divide_add_r. }
    rewrite Z.lor_spec, orb_true_iff, Hacc, shl64_testbit by done.
    specialize (Hbit v ltac:(lia)).
    replace (0 <=? field_bit wrap v) with true by lia.
    replace (field_bit wrap v <? 64) with true by lia. simpl.
    setoid_rewrite visited_step; [|done|lia]. rewrite Z.eqb_eq.
    split; [intros [[?|(u & ? & ?)]|?]; eauto 6|intros [?|(u & [?| ->] & ?)]; eauto 6].
  - unfold I. cbn [fst snd]. split; [lia|]. split; [rewrite Z.sub_diag; apply Z.divide_0_r|].
    split; [by left|]. intros [?|(u & [? _] & _)]; [done|lia].
  - unfold field_step in Hs. destruct (v <=? to) eqn:E; [done|]. injection Hs as <-.
    destruct HI as (Hv & Hd & Hacc). cbn [fst snd] in *. bool_prop.
    rewrite Hacc. unfold visited. split.
    + intros [?|(u & (? & ? & ?) & ?)]; [by left|]. right. exists u. split; [lia|done].
    + intros [?|(u & ? & ? & ?)]; [by left|]. right. exists u. split; [|done]. split; [lia|].
      split; [lia|done].
Qed.

(** In every case the first value's bit is set and no bit is lost. *)
Lemma set_range_keeps bits b : 0 <= b ->
  Z.testbit bits b = true \/ b = field_bit wrap from ->
  Z.testbit (set_range from to step wrap bits) b = true.
Proof.
  intros Hb Hor.
  assert (Hbit : b = field_bit wrap from -> b < 64).
  { intros ->. unfold field_bit. destruct (0 <? wrap) eqn:E; bool_prop; [|lia].
    rewrite Z.rem_mod_nonneg by lia. pose proof (Z.mod_le from wrap). lia. }
  pose proof (run_loop_inv (field_step to step wrap)
    (fun st => Z.testbit st.2 b = true \/ (st.1 = from /\ b = field_bit wrap from))
    8 (from, bits)) as H.
  rewrite set_range_stops in H. destruct H as ([v acc] & HI & Hs).
  - intros [v acc] a' HI Hs. unfold field_step in Hs. cbn [fst snd] in *.
    destruct (v <=? to); [|done]. injection Hs as <-. cbn [fst snd]. left.
    rewrite Z.lor_spec. destruct HI as [->|[-> ->]]; [done|].
    rewrite shl64_testbit, Z.eqb_refl by done.
    replace (0 <=? field_bit wrap from) with true by lia.
    replace (field_bit wrap from <? 64) with true by (specialize (Hbit eq_refl); lia).
    by rewrite !orb_true_r.
  - cbn [fst snd]. tauto.
  - unfold field_step in Hs. cbn [fst snd] in *. destruct (v <=? to) eqn:E; [done|].
    injection Hs as <-. destruct HI as [?|[-> _]]; [done|]. bool_prop. lia.
Qed.

(** The loop stays below the highest bit of the field. *)
Lemma set_range_bound bits top : 0 <= bits < 2 ^ (top + 1) -> 0 <= top < 64 ->
  (forall v, v <= to -> field_bit wrap v <= top) ->
  0 <= set_range from to step wrap bits < 2 ^ (top + 1).
Proof.
  intros Hbits Htop Hf.
  pose proof (run_loop_inv (field_step to step wrap)
    (fun st => 0 <= st.2 < 2 ^ (top + 1)) 8 (from, bits)) as H.
  rewrite set_range_stops in H. destruct H as ([v acc] & HI & Hs).
  - intros [v acc] a' HI Hs. unfold field_step in Hs. cbn [fst snd] in *.
    destruct (v <=? to) eqn:E; [|done]. injection Hs as <-. cbn [fst snd]. bool_prop.
    assert (Hs : 0 <= shl64 (field_bit wrap v) < 2 ^ (top + 1)).
    { unfold shl64. destruct ((0 <=? field_bit wrap v) && _) eqn:E2; bool_prop; [|lia].
      rewrite Z.shiftl_1_l. specialize (Hf v E). split; [lia|].
      apply Z.pow_lt_mono_r; lia. }
    split; [apply Z.lor_nonneg; lia|].
    destruct (decide (Z.lor acc (shl64 (field_bit wrap v)) = 0)) as [->|]; [lia|].
    apply Z.log2_lt_pow2; [pose proof (Z.lor_nonneg acc (shl64 (field_bit wrap v))); lia|].
    rewrite Z.log2_lor by lia.
    assert (forall x, 0 <= x < 2 ^ (top + 1) -> Z.log2 x < top + 1) as Hlog.
    { intros x Hx. destruct (decide (x = 0)) as [->|]; [simpl; lia|].
      apply Z.log2_lt_pow2; lia. }
    apply Z.max_lub_lt; by apply Hlog.
  - done.
  - unfold field_step in Hs. destruct (v <=? to) eqn:E; [done|]. by injection Hs as <-.
Qed.

End field_loop.

(** ** Items *)

(** An accepted item lies inside its field and has a positive step. *)
Lemma parse_item_range part lo hi names what from to step :
  lo <= hi -> parse_item part lo hi names what = Ok (from, to, step) ->
  lo <= from <= to /\ to <= hi /\ 1 <= step < 2 ^ 63.
Proof.
  unfold parse_item. intros Hlh. destruct (String.eqb part ""); [done|].
  assert (Hst : forall st v, Atoi st = Some v -> v < 2 ^ 63).
  { intros st v. unfold Atoi, ParseInt. intros H. repeat case_match; simplify_eq; try done.
    all: match goal with E : in_int64 _ = true |- _ => apply in_int64_spec in E end; lia. }
  match goal with |- mbind _ ?x = _ -> _ => destruct x as [[[rng st] stepped]|] eqn:E end;
    [|done]. cbn [mbind result_bind].
  assert (1 <= st < 2 ^ 63).
  { destruct (cut "/" part) as [[r s]|]; [|simplify_eq; lia].
    destruct (Atoi s) as [v|] eqn:Ev; [|done]. apply Hst in Ev.
    destruct (v <? 1) eqn:E1; simplify_eq; bool_prop; lia. }
  destruct (String.eqb rng "*"); [intros [=]; subst; lia|].
  destruct (match cut "-" rng with Some (a, b) => (a, b, true) | None => (rng, rng, false) end)
    as [[a b] isRange].
  destruct (parseValue a names what) as [av|]; [|done]. cbn [mbind result_bind].
  destruct (parseValue b names what) as [bv|]; [|done]. cbn [mbind result_bind].
  destruct (_ || _) eqn:Er; [done|]. bool_prop.
  destruct (stepped && negb isRange); intros [=]; subst; lia.
Qed.

(** The ranges of the item read by [E]. *)
Ltac item_range E :=
  let H := fresh in
  pose proof E as H; apply parse_item_range in H as (? & ? & ?); [|lia].

(** ** What an item means

    The grammar of an item, by the texts it is put together from: none of these
    relations runs the parser.  [Atoi] is [strconv.Atoi]. *)
Section item_meaning.
Context (lo hi : Z) (names : option (gmap string Z)).

(** A value is a name of the field, or else a decimal number. *)
Inductive value_text (s : string) (v : Z) : Prop :=
| value_name : s <> "" -> (names ≫= lookup s) = Some v -> value_text s v
| value_number : s <> "" -> (names ≫= lookup s) = None -> Atoi s = Some v -> value_text s v.

(** The text before the first ['/'] is the range, the text after it a positive
    step. *)
Inductive step_text : string -> string -> option Z -> Prop :=
| step_absent rng : str_forall (not_char "/") rng = true -> step_text rng rng None
| step_given rng st n : str_forall (not_char "/") rng = true -> Atoi st = Some n -> 1 <= n ->
    step_text (rng +:+ String "/" st) rng (Some n).

(** A range is ["*"], a value or two values around ['-']; a value with a step
    runs to the end of the field. *)
Inductive range_text : string -> option Z -> Z -> Z -> Prop :=
| range_star st : range_text "*" st lo hi
| range_one a v : a <> "*" -> str_forall (not_char "-") a = true -> value_text a v ->
    lo <= v <= hi -> range_text a None v v
| range_from a v n : a <> "*" -> str_forall (not_char "-") a = true -> value_text a v ->
    lo <= v <= hi -> range_text a (Some n) v hi
| range_two a b v w st : str_forall (not_char "-") a = true -> value_text a v ->
    value_text b w -> lo <= v <= w -> w <= hi ->
    range_text (a +:+ String "-" b) st v w.

(** The item [part] runs from [from] to [to] by [step]. *)
Inductive item_text (part : string) (from to step : Z) : Prop :=
| item_read rng st : step_text part rng st -> range_text rng st from to ->
    step = default 1 st -> item_text part from to step.

(** The value [v] is the bit [v], counted modulo [wrap] when that is not 0. *)
Definition bit_of (wrap v : Z) : Z := if decide (0 < wrap) then v `mod` wrap else v.

Lemma field_bit_of wrap v : 0 <= v -> field_bit wrap v = bit_of wrap v.
Proof.
  intros Hv. unfold field_bit, bit_of. destruct (Z.ltb_spec 0 wrap), (decide (0 < wrap)); try lia.
  apply Z.rem_mod_nonneg; lia.
Qed.

(** The bit [b] belongs to the item [part]. *)
Definition in_item (wrap : Z) (part : string) (b : Z) : Prop :=
  exists from to step v, item_text part from to step /\
    from <= v <= to /\ (step | v - from) /\ b = bit_of wrap v.

(** No step of the items overflows [v += step]. *)
Definition steps_fit (parts : list string) : Prop :=
  forall part from to step, part ∈ parts -> item_text part from to step -> to + step < 2 ^ 63.

(** [parseValue] reads exactly the values. *)
Lemma parseValue_text s what v : parseValue s names what = Ok v <-> value_text s v.
Proof.
  unfold parseValue. destruct (String.eqb_spec s "") as [->|Hs]; [split; [done|by intros []]|].
  destruct (names ≫= lookup s) as [w|] eqn:E.
  - split; [intros [= <-]; by left|intros []; congruence].
  - unfold opt_or. destruct (Atoi s) as [w|] eqn:Ea; split.
    + intros [= <-]. by right.
    + intros []; congruence.
    + done.
    + intros []; congruence.
Qed.

Lemma step_text_spec part rng st : step_text part rng st <->
  (cut "/" part = None /\ rng = part /\ st = None) \/
  (exists s n, cut "/" part = Some (rng, s) /\ Atoi s = Some n /\ 1 <= n /\ st = Some n).
Proof.
  split.
  - intros [r H|r s n H Hn H1].
    + left. by rewrite cut_none.
    + right. exists s, n. by rewrite cut_app.
  - intros [(H & -> & ->)|(s & n & H & Hn & H1 & ->)].
    + constructor. by apply cut_None.
    + apply cut_Some in H as [-> H]. by constructor.
Qed.

(** The values of the two ends around ['-']; without one, of the same text. *)
Lemma range_text_spec rng st from to : range_text rng st from to <->
  (rng = "*" /\ from = lo /\ to = hi) \/
  (rng <> "*" /\ exists v w,
    match cut "-" rng with
    | Some (a, b) => value_text a v /\ value_text b w /\ to = w
    | None => value_text rng v /\ w = v /\ to = match st with Some _ => hi | None => v end
    end /\ from = v /\ lo <= v <= w /\ w <= hi).
Proof.
  split.
  - intros [st'|a v Ha Hm Hv Hr|a v n Ha Hm Hv Hr|a b v w st' Hm Hv Hw H1 H2].
    + by left.
    + right. split; [done|]. exists v, v. rewrite cut_none by done. by split_and!; lia || done.
    + right. split; [done|]. exists v, v. rewrite cut_none by done. by split_and!; lia || done.
    + right. split.
      { intros E. destruct a as [|c a]; [by destruct Hv|]. injection E. by destruct a. }
      exists v, w. rewrite cut_app by done. by split_and!; lia || done.
  - intros [(-> & -> & ->)|(Hs & v & w & H & -> & H1 & H2)]; [constructor|].
    destruct (cut "-" rng) as [[a b]|] eqn:E.
    + destruct H as (Hv & Hw & ->). apply cut_Some in E as [-> E]. by econstructor.
    + apply cut_None in E. destruct H as (Hv & -> & ->).
      destruct st; econstructor; done || lia.
Qed.

(** What [parse_item] does with the text before the ['/']. *)
Definition read_range (what part rng : string) (st : option Z) : result CronErr (Z * Z * Z) :=
  if String.eqb rng "*" then Ok (lo, hi, default 1 st)
  else
    let '(a, b, isRange) :=
      match cut "-" rng with Some (a, b) => (a, b, true) | None => (rng, rng, false) end in
    av ← parseValue a names what;
    bv ← parseValue b names what;
    if (av <? lo) || (hi <? av) || (bv <? lo) || (hi <? bv) || (bv <? av)
    then Err (RangeOutOfBounds what part)
    else Ok (av, if bool_decide (is_Some st) && negb isRange then hi else bv, default 1 st).

Lemma parse_item_read part what : part <> "" ->
  parse_item part lo hi names what =
  match cut "/" part with
  | Some (rng, s) =>
      match Atoi s with
      | Some n => if n <? 1 then Err (InvalidStep what part) else read_range what part rng (Some n)
      | None => Err (InvalidStep what part)
      end
  | None => read_range what part part None
  end.
Proof.
  intros Hne. unfold parse_item. destruct (String.eqb_spec part ""); [done|].
  destruct (cut "/" part) as [[rng s]|]; [|done].
  destruct (Atoi s) as [n'|]; [|done]. by destruct (n' <? 1).
Qed.

Lemma read_range_text what part rng st from to step :
  read_range what part rng st = Ok (from, to, step) <->
  range_text rng st from to /\ step = default 1 st.
Proof.
  rewrite range_text_spec. unfold read_range. destruct (String.eqb_spec rng "*") as [->|Hs].
  { split; [intros [= <- <- <-]; tauto|]. by intros [[(_ & -> & ->)|[? _]] ->]. }
  transitivity ((exists v w,
    match cut "-" rng with
    | Some (a, b) => value_text a v /\ value_text b w /\ to = w
    | None => value_text rng v /\ w = v /\ to = match st with Some _ => hi | None => v end
    end /\ from = v /\ lo <= v <= w /\ w <= hi) /\ step = default 1 st); [|naive_solver].
  destruct (cut "-" rng) as [[a b]|]; setoid_rewrite <- (parseValue_text _ what).
  - destruct (parseValue a names what) as [v|]; [|naive_solver].
    destruct (parseValue b names what) as [w|]; [|naive_solver].
    cbn [mbind result_bind]. rewrite andb_false_r. destruct (_ || _) eqn:E; bool_prop.
    + split; [done|]. intros [(v' & w' & ([= <-] & [= <-] & _) & _ & ? & ?) _]. lia.
    + split; [|naive_solver]. intros [= <- <- <-]. split; [|done]. exists v, w. by split_and!; lia || done.
  - destruct (parseValue rng names what) as [v|]; [|naive_solver].
    cbn [mbind result_bind]. rewrite andb_true_r. destruct (_ || _) eqn:E; bool_prop.
    + split; [done|]. intros [(v' & w' & ([= <-] & -> & _) & _ & ? & ?) _]. lia.
    + split.
      * intros [= <- <- <-]. split; [|done]. exists v, v. destruct st; by split_and!; lia || done.
      * intros [(v' & w' & ([= <-] & -> & ->) & -> & _) ->]. by destruct st.
Qed.

(** An item is accepted exactly when the grammar reads it, and as it reads it. *)
Lemma parse_item_text part what from to step :
  parse_item part lo hi names what = Ok (from, to, step) <-> item_text part from to step.
Proof.
  transitivity (exists rng st, step_text part rng st /\ range_text rng st from to /\
                  step = default 1 st);
    [|split; [intros (r & st & ? & ? & ?); by econstructor|intros [r st]; eauto]].
  setoid_rewrite step_text_spec. destruct (decide (part = "")) as [->|Hne].
  { split; [done|]. intros (r & st & [(_ & -> & _)|(? & ? & ? & _)] & Hr & _); [|done].
    apply range_text_spec in Hr as [[? _]|(_ & v & w & H & _)]; [done|].
    by destruct H as [[] _]. }
  rewrite (parse_item_read _ _ Hne). destruct (cut "/" part) as [[rng s]|] eqn:E.
  - destruct (Atoi s) as [n|] eqn:En; [|naive_solver].
    destruct (n <? 1) eqn:E1; bool_prop.
    + split; [done|]. intros (r & st & [(? & _)|(s' & n' & [= <- <-] & Hn & ? & _)] & _); [done|].
      rewrite En in Hn. injection Hn as <-. lia.
    + rewrite read_range_text. split.
      * intros [Hr ->]. exists rng, (Some n). split; [|done]. right. by exists s, n.
      * intros (r & st & [(? & _)|(s' & n' & [= <- <-] & Hn & ? & ->)] & ? & ?); [done|].
        rewrite En in Hn. by injection Hn as <-.
  - rewrite read_range_text. split.
    + intros [Hr ->]. exists part, None. split; [|done]. by left.
    + by intros (r & st & [(_ & -> & ->)|(? & ? & ? & _)] & ? & ?).
Qed.
End item_meaning.

Section fields.
Context (lo hi wrap : Z) (names : option (gmap string Z)) (what : string).
Hypothesis Hlo : 0 <= lo <= hi.
Hypothesis Hhi : hi <= 59.

Lemma parse_parts_testbit parts bits0 bits b :
  steps_fit lo hi names parts -> 0 <= b ->
  parse_parts parts lo hi wrap names what bits0 = Ok bits ->
  Z.testbit bits b = true <->
  Z.testbit bits0 b = true \/ Exists (fun part => in_item lo hi names wrap part b) parts.
Proof.
  intros Hfit Hb. revert bits0.
  induction parts as [|part rest IH]; intros bits0 H; simpl in H.
  { injection H as ->. rewrite Exists_nil. tauto. }
  destruct (parse_item part lo hi names what) as [[[from to] step]|] eqn:E; [|done].
  cbn [mbind result_bind] in H.
  item_range E.
  rewrite (IH (fun p f t s Hp => Hfit p f t s (list_elem_of_further _ _ _ Hp)) _ H).
  rewrite set_range_testbit; [|lia..|by eapply Hfit, parse_item_text, E; left|done].
  rewrite Exists_cons. unfold in_item at 2. setoid_rewrite <- (parse_item_text _ _ _ _ what).
  setoid_rewrite E. split.
  - intros [[?|(u & ? & ? & ->)]|?]; [by left| |by right; right]. right. left.
    exists from, to, step, u. by rewrite field_bit_of by lia.
  - intros [?|[(f & t & s & v & [=] & ? & ? & ->)|?]]; subst; [by left; left| |by right].
    left. right. exists v. by rewrite field_bit_of by lia.
Qed.

(** A list of items is accepted when the grammar reads each of them. *)
Lemma parse_parts_accepts parts bits0 :
  (exists bits, parse_parts parts lo hi wrap names what bits0 = Ok bits) <->
  Forall (fun part => exists from to step, item_text lo hi names part from to step) parts.
Proof.
  revert bits0. induction parts as [|part rest IH]; intros bits0; simpl.
  { split; [by constructor|eauto]. }
  rewrite Forall_cons. setoid_rewrite <- (parse_item_text _ _ _ _ what) at 1.
  destruct (parse_item part lo hi names what) as [[[from to] step]|]; cbn [mbind result_bind].
  - rewrite IH. naive_solver.
  - naive_solver.
Qed.

Lemma parse_parts_keeps parts bits0 bits b : 0 <= b ->
  parse_parts parts lo hi wrap names what bits0 = Ok bits ->
  Z.testbit bits0 b = true -> Z.testbit bits b = true.
Proof.
  intros Hb. revert bits0. induction parts as [|part rest IH]; intros bits0 H H0; simpl in H.
  { by injection H as ->. }
  destruct (parse_item part lo hi names what) as [[[from to] step]|] eqn:E; [|done].
  item_range E.
  eapply IH; [exact H|]. apply set_range_keeps; [lia..|by left].
Qed.

Lemma parse_parts_bound parts bits0 bits top :
  0 <= top < 64 -> (forall v, v <= hi -> field_bit wrap v <= top) ->
  0 <= bits0 < 2 ^ (top + 1) ->
  parse_parts parts lo hi wrap names what bits0 = Ok bits -> 0 <= bits < 2 ^ (top + 1).
Proof.
  intros Htop Hf. revert bits0. induction parts as [|part rest IH]; intros bits0 H0 H; simpl in H.
  { by injection H as <-. }
  destruct (parse_item part lo hi names what) as [[[from to] step]|] eqn:E; [|done].
  item_range E.
  eapply IH; [|exact H]. apply set_range_bound; [lia..|].
  intros v ?. apply Hf. lia.
Qed.

(** The answer of [parseField] once its items are read: never "matches
    nothing", whatever the steps. *)
Lemma parseField_parts field :
  parseField field lo hi wrap names what = parse_parts (Split "," field) lo hi wrap names what 0.
Proof.
  unfold parseField. destruct (parse_parts _ _ _ _ _ _ 0) as [bits|] eqn:E; [|done].
  cbn [mbind result_bind]. destruct (bits =? 0) eqn:E0; [|done]. bool_prop. subst. exfalso.
  destruct (Split "," field) as [|part rest] eqn:Es; [by apply Split_nonempty in Es|].
  simpl in E. destruct (parse_item part lo hi names what) as [[[from to] step]|] eqn:E'; [|done].
  item_range E'.
  assert (0 <= field_bit wrap from) as Hpos.
  { unfold field_bit. case_match; bool_prop; [|lia]. rewrite Z.rem_mod_nonneg by lia.
    by apply Z.mod_pos_bound. }
  eapply (parse_parts_keeps _ _ _ (field_bit wrap from) Hpos) in E.
  - by rewrite Z.bits_0 in E.
  - apply set_range_keeps; [lia..|by right].
Qed.
End fields.

(** The mask of an accepted field is the union of its items. *)
Lemma parseField_union lo hi wrap names what field bits b :
  0 <= lo <= hi -> hi <= 59 -> steps_fit lo hi names (Split "," field) ->
  parse_parts (Split "," field) lo hi wrap names what 0 = Ok bits -> 0 <= b ->
  Z.testbit bits b = true <->
  Exists (fun part => in_item lo hi names wrap part b) (Split "," field).
Proof.
  intros Hlo Hhi Hfit H Hb.
  rewrite (parse_parts_testbit lo hi wrap names what Hlo Hhi _ _ _ b Hfit Hb H), Z.bits_0.
  split; [by intros [|]|by right].
Qed.

(** ** Theorems on fields and expressions *)

(** C10: [parseField] accepts exactly the fields whose comma-separated items the
    grammar of items reads; when no step of an item overflows [v += step] the
    mask of an accepted field is the union of its items, each the arithmetic
    progression from its first to its last value. *)
Theorem parseField_denotes lo hi wrap names what field :
  0 <= lo <= hi -> hi <= 59 ->
  ((exists bits, parseField field lo hi wrap names what = Ok bits) <->
   Forall (fun part => exists from to step, item_text lo hi names part from to step)
     (Split "," field)) /\
  forall bits b, steps_fit lo hi names (Split "," field) ->
    parseField field lo hi wrap names what = Ok bits -> 0 <= b ->
    Z.testbit bits b = true <->
    Exists (fun part => in_item lo hi names wrap part b) (Split "," field).
Proof.
  intros Hlo Hhi. rewrite parseField_parts by done.
  split; [by apply parse_parts_accepts|]. intros bits b Hfit H Hb.
  by apply parseField_union with what.
Qed.

(** The loop that sets the bits of an accepted item ends within its fuel,
    also for a step so large that the counter overflows. *)
Theorem field_loop_terminates part lo hi wrap names what from to step bits :
  0 <= lo <= hi -> hi <= 59 -> parse_item part lo hi names what = Ok (from, to, step) ->
  run_loop (field_step to step wrap) 8 (from, bits) = inr (set_range from to step wrap bits).
Proof. intros ? ? E. item_range E. apply set_range_stops; lia. Qed.

(** A field mask between 1 and the mask of all values up to [top]. *)
Definition mask_wf (top bits : Z) : Prop := 0 < bits < 2 ^ (top + 1).

Lemma parseField_bound field lo hi wrap names what top bits :
  0 <= lo <= hi -> hi <= 59 -> 0 <= top < 64 ->
  (forall v, v <= hi -> field_bit wrap v <= top) ->
  parseField field lo hi wrap names what = Ok bits -> mask_wf top bits.
Proof.
  intros ? ? ? Hf. unfold parseField.
  destruct (parse_parts _ _ _ _ _ _ 0) as [b|] eqn:E; [|done]. cbn [mbind result_bind].
  destruct (b =? 0) eqn:E0; [done|]. intros [= <-]. bool_prop.
  apply (parse_parts_bound lo hi wrap names what ltac:(lia) ltac:(lia) _ _ _ top) in E;
    [|lia|done|lia].
  unfold mask_wf. lia.
Qed.

(** Every mask is non-empty and has no bit above its field. *)
Definition sched_wf (s : Schedule) : Prop :=
  mask_wf 59 (minutes s) /\ mask_wf 23 (hours s) /\ mask_wf 31 (doms s) /\
  mask_wf 12 (months s) /\ mask_wf 6 (dows s) /\
  (if hasSeconds s then mask_wf 59 (seconds s) else seconds s = 0).

(** A field mask whose bits stand for values from [lo] to [hi]. *)
Definition mask_in (lo hi bits : Z) : Prop :=
  0 < bits /\ forall b, 0 <= b -> Z.testbit bits b = true -> lo <= b <= hi.

(** Every mask is non-empty and all its bits are values of its field. *)
Definition sched_in_range (s : Schedule) : Prop :=
  mask_in 0 59 (minutes s) /\ mask_in 0 23 (hours s) /\ mask_in 1 31 (doms s) /\
  mask_in 1 12 (months s) /\ mask_in 0 6 (dows s) /\
  (if hasSeconds s then mask_in 0 59 (seconds s) else seconds s = 0).

(** The step an item gives, if any, is below [2 ^ 62]. *)
Definition small_step (part : string) : bool :=
  match cut "/" part with
  | Some (_, st) => match Atoi st with Some n => n <? 2 ^ 62 | None => true end
  | None => true
  end.

Definition small_steps_field (field : string) : bool := forallb small_step (Split "," field).

Definition small_steps (expr : string) : bool :=
  forallb small_steps_field (Fields (expand_macro (TrimSpace (ToLower expr)))).

Lemma small_steps_fit lo hi names field : lo <= hi -> hi <= 59 ->
  small_steps_field field = true -> steps_fit lo hi names (Split "," field).
Proof.
  intros Hlh Hhi Hs part from to step Hp Hi. unfold small_steps_field in Hs.
  rewrite forallb_forall in Hs. apply list_elem_of_In, Hs in Hp. unfold small_step in Hp.
  pose proof Hi as Hr. rewrite <- (parse_item_text _ _ _ _ "") in Hr.
  apply parse_item_range in Hr; [|done]. destruct Hi as [rng st Hst _ ->].
  apply step_text_spec in Hst as [(_ & _ & ->)|(s & n & E & En & _ & ->)]; simpl; [lia|].
  rewrite E, En in Hp. bool_prop. lia.
Qed.

(** The bits of an accepted field with small steps are values of the field. *)
Lemma parseField_in field lo hi wrap names what blo bhi bits :
  0 <= lo <= hi -> hi <= 59 ->
  (forall v, lo <= v <= hi -> blo <= field_bit wrap v <= bhi) ->
  small_steps_field field = true ->
  0 < bits -> parseField field lo hi wrap names what = Ok bits -> mask_in blo bhi bits.
Proof.
  intros Hlo Hhi Hf Hs Hpos H. split; [done|]. intros b Hb Ht.
  rewrite parseField_parts in H by done.
  rewrite (parseField_union lo hi wrap names what field) in Ht;
    [|done..|by apply small_steps_fit; [lia|..]|done|done].
  apply Exists_exists in Ht as (part & _ & from & to & step & v & Hi & Hv & _ & ->).
  rewrite <- (parse_item_text _ _ _ _ what) in Hi. apply parse_item_range in Hi; [|lia].
  rewrite <- field_bit_of by lia. apply Hf. lia.
Qed.

(** What an accepted expression is made of: the masks of its fields. *)
Lemma Parse_fields expr s : Parse expr = Ok s -> exists f0 f1 f2 f3 f4 f5,
  Fields (expand_macro (TrimSpace (ToLower expr))) =
    ((if hasSeconds s then [f0] else []) ++ [f1; f2; f3; f4; f5])%list /\
  (if hasSeconds s then parseField f0 secMin secMax 0 None "seconds" = Ok (seconds s)
   else seconds s = 0) /\
  parseField f1 minMin minMax 0 None "minute" = Ok (minutes s) /\
  parseField f2 hourMin hourMax 0 None "hour" = Ok (hours s) /\
  parseField f3 domMin domMax 0 None "day-of-month" = Ok (doms s) /\
  parseField f4 monMin monMax 0 (Some monthNames) "month" = Ok (months s) /\
  parseField f5 dowMin dowMax 7 (Some dowNames) "day-of-week" = Ok (dows s).
Proof.
  assert (Hfive : forall sec hs f1 f2 f3 f4 f5, parse_five sec hs f1 f2 f3 f4 f5 = Ok s ->
    hasSeconds s = hs /\ seconds s = sec /\
    parseField f1 minMin minMax 0 None "minute" = Ok (minutes s) /\
    parseField f2 hourMin hourMax 0 None "hour" = Ok (hours s) /\
    parseField f3 domMin domMax 0 None "day-of-month" = Ok (doms s) /\
    parseField f4 monMin monMax 0 (Some monthNames) "month" = Ok (months s) /\
    parseField f5 dowMin dowMax 7 (Some dowNames) "day-of-week" = Ok (dows s)).
  { intros sec hs f1 f2 f3 f4 f5. unfold parse_five. intros H.
    repeat (apply result_bind_Ok in H as (? & ? & H)). injection H as <-. by split_and!. }
  unfold Parse. destruct (String.eqb _ ""); [done|]. destruct (HasPrefix _ "@"); [done|].
  destruct (Fields _) as [|g0 [|g1 [|g2 [|g3 [|g4 [|g5 [|]]]]]]]; try done.
  - intros H%Hfive. destruct H as (-> & -> & ?). by exists "", g0, g1, g2, g3, g4.
  - intros H. apply result_bind_Ok in H as (sec & Hsec & H). apply Hfive in H as (-> & -> & ?).
    by exists g0, g1, g2, g3, g4, g5.
Qed.

Lemma field_bit_0 v : field_bit 0 v = v.
Proof. done. Qed.

Lemma field_bit_7 v : v <= 7 -> field_bit 7 v <= 6.
Proof. intros. unfold field_bit. simpl. pose proof (Z.rem_bound_abs v 7). lia. Qed.

Lemma field_bit_7_nonneg v : 0 <= v -> 0 <= field_bit 7 v.
Proof. intros. unfold field_bit. simpl. apply Z.rem_nonneg; lia. Qed.

(** The side conditions of [parseField_bound] and [parseField_in] at the fields
    of the program. *)
Ltac field_range :=
  unfold secMin, secMax, minMin, minMax, hourMin, hourMax, domMin, domMax, monMin, monMax,
    dowMin, dowMax;
  first [lia
    | intros v ?; rewrite ?field_bit_0; pose proof (field_bit_7 v);
      pose proof (field_bit_7_nonneg v); lia].

(** C33: every schedule [Parse] accepts has, for each field, a mask that is not
    empty and has no bit above the last value of the field (the Sunday of 7
    being folded to 0); when every number after a ['/'] is below [2 ^ 62] all
    the bits are values of the field, so that no mask has a bit below the first
    value either.  Beyond it [v += step] can overflow: ["2/9223372036854775807"]
    sets the bit of day 0. *)
Theorem Parse_wf expr s : Parse expr = Ok s ->
  sched_wf s /\ (small_steps expr = true -> sched_in_range s).
Proof.
  intros H. apply Parse_fields in H as (f0 & f1 & f2 & f3 & f4 & f5 & Hf & H0 & H1 & H2 & H3 & H4 & H5).
  assert (Hwf : sched_wf s).
  { unfold sched_wf. destruct (hasSeconds s);
    (split_and!; [..|try done]; (eapply parseField_bound; [| | | |eassumption]); field_range). }
  split; [done|]. intros Hs. unfold small_steps in Hs. rewrite Hf, forallb_app in Hs.
  destruct Hwf as (P1 & P2 & P3 & P4 & P5 & P0). unfold mask_wf in *. unfold sched_in_range.
  destruct (hasSeconds s); cbn [forallb] in Hs; bool_prop;
    (split_and!; [..|try done]; (eapply parseField_in; [..|eassumption]);
     first [done | apply P0 | field_range]).
Qed.

(** ** Reading printed fields *)

Inductive item :=
| IStar (step : option Z)
| IOne (a : Z) (step : option Z)
| IRange (a b : Z) (step : option Z).

Definition print_step (st : option Z) : string :=
  match st with Some n => String "/" (FormatInt n) | None => "" end.

Definition print_range (it : item) : string :=
  match it with
  | IStar _ => "*"
  | IOne a _ => FormatInt a
  | IRange a b _ => FormatInt a +:+ String "-" (FormatInt b)
  end.

Definition item_step (it : item) : option Z :=
  match it with IStar st | IOne _ st | IRange _ _ st => st end.

Definition print_item (it : item) : string := print_range it +:+ print_step (item_step it).

Definition print_field (its : list item) : string := String.concat "," (map print_item its).

(** First value, last value and step an item stands for: [a/n] runs to the end
    of the field, [a] alone is one value. *)
Definition item_bounds (lo hi : Z) (it : item) : Z * Z * Z :=
  match it with
  | IStar st => (lo, hi, default 1 st)
  | IOne a None => (a, a, 1)
  | IOne a (Some n) => (a, hi, n)
  | IRange a b st => (a, b, default 1 st)
  end.

Definition item_ok (lo hi : Z) (it : item) : Prop :=
  (forall n, item_step it = Some n -> 1 <= n /\ n + hi < 2 ^ 63) /\
  match it with
  | IStar _ => True
  | IOne a _ => lo <= a <= hi
  | IRange a b _ => lo <= a <= b /\ b <= hi
  end.

(** No decimal number is a name. *)
Definition names_ok (names : option (gmap string Z)) : Prop :=
  forall n, 0 <= n -> (names ≫= lookup (FormatInt n)) = None.

Lemma alpha_names_ok (l : list (string * Z)) :
  Forall (fun p => str_forall is_digit p.1 = false) l -> names_ok (Some (list_to_map l)).
Proof.
  intros Hl n Hn. simpl. apply not_elem_of_list_to_map_1. intros Hin.
  apply list_elem_of_fmap in Hin as ([k v] & E & Hin).
  rewrite Forall_forall in Hl. apply Hl in Hin. simpl in *. subst k.
  by rewrite FormatInt_digits in Hin.
Qed.

Lemma monthNames_ok : names_ok (Some monthNames).
Proof. apply alpha_names_ok. by repeat constructor. Qed.

Lemma dowNames_ok : names_ok (Some dowNames).
Proof. apply alpha_names_ok. by repeat constructor. Qed.

Lemma nil_names_ok : names_ok None.
Proof. done. Qed.

#[export] Hint Resolve monthNames_ok dowNames_ok nil_names_ok : orbix_time.

Lemma FormatInt_ne_empty n : 0 <= n -> FormatInt n <> "".
Proof. intros. rewrite FormatInt_nonneg by done. apply pretty_N_ne_empty. Qed.

Lemma FormatInt_not_char (c : ascii) n :
  is_digit c = false -> 0 <= n -> str_forall (not_char c) (FormatInt n) = true.
Proof.
  intros Hc Hn. apply (str_forall_impl is_digit); [|by apply FormatInt_digits].
  intros d Hd. unfold not_char. apply negb_true_iff, Ascii.eqb_neq. intros ->. congruence.
Qed.

Lemma FormatInt_ne_star n : 0 <= n -> String.eqb (FormatInt n) "*" = false.
Proof.
  intros Hn. apply String.eqb_neq. intros E. pose proof (FormatInt_digits n Hn) as H.
  by rewrite E in H.
Qed.

Section print.
Context (lo hi : Z) (names : option (gmap string Z)) (what : string).
Hypothesis Hlo : 0 <= lo <= hi.
Hypothesis Hhi : hi <= 59.
Hypothesis Hnames : names_ok names.

Lemma Atoi_FormatInt n : 0 <= n < 2 ^ 63 -> Atoi (FormatInt n) = Some n.
Proof. intros. apply ParseInt_FormatInt, in_int64_spec. lia. Qed.

Lemma parseValue_FormatInt n : 0 <= n < 2 ^ 63 -> parseValue (FormatInt n) names what = Ok n.
Proof.
  intros Hn. unfold parseValue.
  destruct (String.eqb_spec (FormatInt n) "") as [E|_];
    [by apply FormatInt_ne_empty in E; [|lia]|].
  rewrite Hnames by lia. by rewrite Atoi_FormatInt by lia.
Qed.

(** The range text: which characters it has, and that it is not empty. *)
Lemma print_range_chars it (c : ascii) :
  is_digit c = false -> c <> "*"%char -> c <> "-"%char -> item_ok lo hi it ->
  str_forall (not_char c) (print_range it) = true.
Proof.
  intros Hd Hs Hm [_ Hok]. destruct it as [st|a st|a b st]; simpl.
  - unfold not_char. by replace (Ascii.eqb "*" c) with false
      by (symmetry; apply Ascii.eqb_neq; congruence).
  - apply FormatInt_not_char; [done|lia].
  - rewrite str_forall_app. simpl. rewrite !FormatInt_not_char by (done || lia).
    unfold not_char. by replace (Ascii.eqb "-" c) with false
      by (symmetry; apply Ascii.eqb_neq; congruence).
Qed.

Lemma print_range_ne it : item_ok lo hi it -> print_range it <> "".
Proof.
  intros [_ Hok]. destruct it as [st|a st|a b st]; simpl; [done|..].
  - apply FormatInt_ne_empty. lia.
  - destruct (FormatInt a) eqn:E; [|done]. by apply FormatInt_ne_empty in E; [|lia].
Qed.

(** Reading the printed range gives back the bounds of the item. *)
Lemma read_print_range it part : item_ok lo hi it ->
  read_range lo hi names what part (print_range it) (item_step it) = Ok (item_bounds lo hi it).
Proof.
  intros [_ Hok]. unfold read_range. destruct it as [st|a st|a b st]; cbn [print_range item_step].
  - done.
  - rewrite FormatInt_ne_star by lia.
    rewrite cut_none by (apply FormatInt_not_char; [done|lia]).
    rewrite parseValue_FormatInt by lia. cbn [mbind result_bind].
    destruct (_ || _) eqn:E; [lia|]. by destruct st.
  - destruct (String.eqb_spec (FormatInt a +:+ String "-" (FormatInt b)) "*") as [E|_].
    { apply (f_equal String.length) in E. rewrite string_app_length in E. simpl in E.
      destruct (FormatInt a) eqn:Ea; [by apply FormatInt_ne_empty in Ea; [|lia]|].
      simpl in E. lia. }
    rewrite cut_app by (apply FormatInt_not_char; [done|lia]).
    rewrite !parseValue_FormatInt by lia. cbn [mbind result_bind].
    destruct (_ || _) eqn:E; [lia|]. by rewrite andb_false_r.
Qed.

(** Reading a printed item gives back its bounds. *)
Lemma parse_print_item it : item_ok lo hi it ->
  parse_item (print_item it) lo hi names what = Ok (item_bounds lo hi it).
Proof.
  intros Hok. rewrite parse_item_read; unfold print_item.
  2:{ pose proof (print_range_ne it Hok). by destruct (print_range it). }
  rewrite <- (read_print_range it (print_item it) Hok). unfold print_item.
  destruct (item_step it) as [n|] eqn:Est; simpl print_step.
  - rewrite cut_app by (apply print_range_chars; done).
    assert (1 <= n /\ n + hi < 2 ^ 63) as [? ?] by (by apply Hok).
    rewrite Atoi_FormatInt by lia. by replace (n <? 1) with false by lia.
  - by rewrite string_app_nil_r, cut_none by (apply print_range_chars; done).
Qed.

Lemma print_item_no_comma it : item_ok lo hi it ->
  str_forall (not_char ",") (print_item it) = true.
Proof.
  intros Hok. unfold print_item. rewrite str_forall_app, print_range_chars by done.
  destruct (item_step it) as [n|] eqn:E; [|done]. simpl.
  apply FormatInt_not_char; [done|]. destruct Hok as [Hs _]. apply Hs in E. lia.
Qed.

Lemma Split_print_field it its : Forall (item_ok lo hi) (it :: its) ->
  Split "," (print_field (it :: its)) = map print_item (it :: its).
Proof.
  unfold print_field. revert it. induction its as [|it' its IH]; intros it H.
  - apply Forall_cons in H as [H _]. simpl. apply Split_none. by apply print_item_no_comma.
  - apply Forall_cons in H as [H Hr].
    change (String.concat "," (map print_item (it :: it' :: its)))
      with (print_item it +:+ String "," (String.concat "," (map print_item (it' :: its)))).
    rewrite Split_app by (by apply print_item_no_comma). by rewrite IH.
Qed.

(** The bit [b] belongs to the item. *)
Definition item_denotes (wrap : Z) (it : item) (b : Z) : Prop :=
  let '(from, to, step) := item_bounds lo hi it in
  exists v, from <= v <= to /\ (step | v - from) /\ b = field_bit wrap v.

Lemma in_item_print wrap it b : item_ok lo hi it ->
  in_item lo hi names wrap (print_item it) b <-> item_denotes wrap it b.
Proof.
  intros Hok. pose proof (parse_print_item it Hok) as Hp.
  unfold in_item, item_denotes. setoid_rewrite <- (parse_item_text _ _ _ _ what). setoid_rewrite Hp.
  destruct (item_bounds lo hi it) as [[f t] s]. apply parse_item_range in Hp as [Hf _]; [|lia]. split.
  - intros (? & ? & ? & v & [= <- <- <-] & Hv & Hd & ->). exists v.
    by rewrite field_bit_of by lia.
  - intros (v & Hv & Hd & ->). exists f, t, s, v. by rewrite field_bit_of by lia.
Qed.

Lemma item_ok_fits it from to step : item_ok lo hi it ->
  item_bounds lo hi it = (from, to, step) -> to + step < 2 ^ 63.
Proof.
  intros [Hs Hok] E. destruct it as [st|a st|a b st], st as [n|]; simpl in *;
    simplify_eq; try (specialize (Hs _ eq_refl)); lia.
Qed.

Lemma parse_parts_ok wrap its bits0 : Forall (item_ok lo hi) its ->
  exists bits, parse_parts (map print_item its) lo hi wrap names what bits0 = Ok bits.
Proof.
  intros H. revert bits0. induction H as [|it its Hit _ IH]; intros bits0; simpl; [eauto|].
  rewrite parse_print_item by done. cbn [mbind result_bind].
  destruct (item_bounds lo hi it) as [[f t] s]. apply IH.
Qed.

Lemma print_steps_fit its : Forall (item_ok lo hi) its ->
  steps_fit lo hi names (map print_item its).
Proof.
  intros Hits p f t s Hp Hparse. apply list_elem_of_In, in_map_iff in Hp as (i & <- & Hi).
  rewrite List.Forall_forall in Hits. specialize (Hits i Hi).
  rewrite <- (parse_item_text _ _ _ _ what), parse_print_item in Hparse by done. injection Hparse as Hb.
  by eapply item_ok_fits.
Qed.

Lemma Exists_in_item_print wrap its b : Forall (item_ok lo hi) its ->
  Exists (fun part => in_item lo hi names wrap part b) (map print_item its) <->
  Exists (fun it => item_denotes wrap it b) its.
Proof.
  induction 1 as [|it its Hit _ IH]; simpl; [by rewrite !Exists_nil|].
  by rewrite !Exists_cons, IH, in_item_print.
Qed.
End print.

(** C36: a printed field is accepted, and its mask is the union of what its
    items stand for. *)
Theorem parseField_print lo hi wrap names what its :
  0 <= lo <= hi -> hi <= 59 -> names_ok names ->
  its <> [] -> Forall (item_ok lo hi) its ->
  exists bits, parseField (print_field its) lo hi wrap names what = Ok bits /\
  forall b, 0 <= b ->
    Z.testbit bits b = true <-> Exists (fun it => item_denotes lo hi wrap it b) its.
Proof.
  intros Hlo Hhi Hn Hne Hits. destruct its as [|it its]; [done|].
  pose proof (Split_print_field lo hi Hlo it its Hits) as Hsp.
  destruct (parse_parts_ok lo hi names what Hlo Hhi Hn wrap _ 0 Hits) as [bits Hbits].
  exists bits. rewrite parseField_parts, Hsp by done. split; [done|]. intros b Hb.
  rewrite (parse_parts_testbit lo hi wrap names what Hlo Hhi _ _ _ b
             (print_steps_fit lo hi names what Hlo Hhi Hn _ Hits) Hb Hbits).
  rewrite Z.bits_0, (Exists_in_item_print lo hi names what Hlo Hhi Hn wrap _ b Hits).
  split; [by intros [|]|by right].
Qed.
