(* ===== verification/CronNext.v ===== *)
(** * What the search for the next fire time promises

    The loop of [Next] ends within its fuel; its answer is the first candidate
    instant (a whole minute, or a whole second for a six-field schedule) that
    matches before the four-year limit.  For six fields this needs a zone whose
    offset is a whole number of hours and changes on the hour: the last section
    shows what happens in other zones, and two more places where the code does
    not do what a cron expression says. *)
From S2P Require Import Prelude GoStrings GoTime Cron CronParse.
From Stdlib Require Import Ascii.

Open Scope string_scope.
Open Scope Z_scope.

(** The candidates [Next] may answer. *)
Definition tick_of (s : Schedule) : Duration := if hasSeconds s then Second else Minute.

Definition candidate (s : Schedule) (t : Time) : Prop := (tick_of s | t).

(** Offsets are whole hours and change on the hour. *)
Definition hour_aligned (loc : Location) : Prop :=
  forall w, loc w mod 3600 = 0 /\ loc w = loc (w - w mod 3600).

Lemma hour_aligned_UTC : hour_aligned UTC.
Proof. done. Qed.

#[export] Hint Resolve hour_aligned_UTC : orbix_time.

Lemma tick_pos s : 0 < tick_of s.
Proof. unfold tick_of, Minute, Second. destruct (hasSeconds s); lia. Qed.

Lemma candidate_first s from : candidate s (first_candidate s from).
Proof.
  unfold candidate, first_candidate, tick_of. destruct (hasSeconds s).
  - apply Z.divide_add_r; [by apply Truncate_divide|done].
  - apply Z.divide_add_r; [by apply Truncate_divide|done].
Qed.

(** No candidate lies strictly between [from] and the first one tried. *)
Lemma first_candidate_least s from :
  from < first_candidate s from /\
  forall u, candidate s u -> from < u -> first_candidate s from <= u.
Proof.
  assert (forall d, 0 < d -> from < Truncate from d + d /\
            forall u, (d | u) -> from < u -> Truncate from d + d <= u) as H.
  { intros d Hd. pose proof (Truncate_le from d Hd). split; [lia|].
    intros u [k ->] Hu. destruct (Truncate_divide from d Hd) as [j Hj].
    rewrite Hj in *. assert (j < k) by (apply (Z.mul_lt_mono_pos_r d); lia).
    pose proof (Z.mul_le_mono_nonneg_r (j + 1) k d). lia. }
  unfold candidate, first_candidate, tick_of.
  destruct (hasSeconds s); by apply H.
Qed.

Section search.
Context (s : Schedule) (loc : Location) (limit : Time).

(** Where a turn goes on, it moves forward, to a candidate again. *)
Lemma next_step_forward t t' : next_step s loc limit t = inl t' ->
  t < limit /\ t < t' /\ matches s loc t = false /\ (candidate s t -> candidate s t').
Proof.
  unfold next_step, candidate, tick_of. destruct (t <? limit) eqn:E; [|done]. bool_prop.
  destruct (matches s loc t); [done|]. destruct (hasSeconds s).
  - assert (forall d, 0 < d -> (Second | d) -> t < Truncate t d + d /\
      (Second | Truncate t d + d)) as H.
    { intros d Hd Hdiv. pose proof (Truncate_le t d Hd). split; [lia|].
      apply Z.divide_add_r; [|done].
      by apply (Z.divide_trans _ d); [|apply Truncate_divide]. }
    destruct (H Hour) as [? ?]; [done|by exists 3600|].
    destruct (H Minute) as [? ?]; [done|by exists 60|].
    destruct (bit_clear _ _); [intros [= <-]; done|].
    destruct (bit_clear _ _); [intros [= <-]; done|].
    intros [= <-]. split_and!; [done|unfold Second; lia|done|].
    intros ?. by apply Z.divide_add_r.
  - intros [= <-]. split_and!; [done|unfold Minute, Second; lia|done|].
    intros ?. by apply Z.divide_add_r.
Qed.

Lemma search_terminates t :
  exists r, run_loop (next_step s loc limit) (next_fuel t limit) t = inr r.
Proof.
  apply (run_loop_terminates _ (fun _ => True) (fun t => Z.max 0 (limit - t))).
  - intros a a' _ H%next_step_forward. split; [done|lia].
  - intros. lia.
  - done.
  - unfold next_fuel. set (m := Z.max 1 (limit - t)).
    rewrite Z2Nat.id by (pose proof (Z.log2_nonneg m); lia).
    pose proof (Z.log2_spec m ltac:(lia)). unfold Z.succ in *. lia.
Qed.

(** A field of the wall clock that stays constant over a whole [d] keeps
    rejecting what it rejects at [t]. *)
Lemma wall_same d t u : 0 < d -> (d | 3600) -> hour_aligned loc ->
  Truncate t (d * Second) <= u < Truncate t (d * Second) + d * Second ->
  wall loc u / d = wall loc t / d.
Proof.
  intros Hd Hdiv Hloc Hu.
  assert (E : unix u / d = unix t / d).
  { unfold unix. rewrite !Z.div_div by (unfold Second; lia).
    pose proof (Z.div_mod t (d * Second)). unfold Truncate in Hu.
    rewrite (Z.mul_comm Second d). symmetry.
    apply (Z.div_unique u (d * Second) _ (u - d * Second * (t / (d * Second)))); [|lia].
    unfold Second in *. lia. }
  unfold wall. set (a := unix u) in *. set (b := unix t) in *. clearbody a b.
  assert (Eh : a - a mod 3600 = b - b mod 3600).
  { destruct Hdiv as [k Hk]. assert (0 < k) by nia.
    assert (a / 3600 = b / 3600).
    { replace 3600 with (d * k) by lia. rewrite <- !Z.div_div by lia. by rewrite E. }
    div_lia. }
  destruct (Hloc a) as [Ha1 Ha2], (Hloc b) as [Hb1 Hb2].
  assert (loc a = loc b) as -> by (rewrite Ha2, Hb2, Eh; done).
  destruct Hdiv as [k Hk]. apply Z.mod_divide in Hb1 as [j Hj]; [|lia].
  rewrite Hj. replace (j * 3600) with (j * k * d) by (rewrite Hk; ring).
  rewrite !Z.div_add by lia. by rewrite E.
Qed.

Lemma HourOf_div t : HourOf loc t = (wall loc t / 3600) mod 24.
Proof. unfold HourOf. generalize (wall loc t). intros. div_lia. Qed.

Lemma MinuteOf_div t : MinuteOf loc t = (wall loc t / 60) mod 60.
Proof. unfold MinuteOf. generalize (wall loc t). intros. div_lia. Qed.

Lemma matches_hour u : matches s loc u = true -> bit_clear (hours s) (HourOf loc u) = false.
Proof. unfold matches. destruct (bit_clear (months s) _); [done|]. by destruct (bit_clear (hours s) _). Qed.

Lemma matches_minute u :
  matches s loc u = true -> bit_clear (minutes s) (MinuteOf loc u) = false.
Proof.
  unfold matches. destruct (bit_clear (months s) _); [done|].
  destruct (bit_clear (hours s) _); [done|]. by destruct (bit_clear (minutes s) _).
Qed.

(** A turn skips no matching candidate. *)
Lemma next_step_skips t t' u :
  (hasSeconds s = true -> hour_aligned loc) -> candidate s t -> candidate s u ->
  next_step s loc limit t = inl t' -> t <= u < t' -> matches s loc u = false.
Proof.
  intros Hloc Ht Hu Hs Hr. pose proof (next_step_forward _ _ Hs) as (_ & _ & Hm & _).
  destruct (matches s loc u) eqn:Em; [|done]. exfalso.
  unfold next_step in Hs. destruct (t <? limit); [|done]. rewrite Hm in Hs.
  assert (Htick : t' = t + tick_of s -> False).
  { intros ->. destruct Ht as [j ->], Hu as [k ->]. pose proof (tick_pos s).
    assert (k = j) by nia. congruence. }
  unfold tick_of in Htick. destruct (hasSeconds s); [|injection Hs as <-; auto].
  assert (Hal : hour_aligned loc) by auto.
  assert (forall d, 0 < d -> Truncate t d <= t) as Htr
    by (intros d Hd; apply Truncate_le, Hd).
  destruct (bit_clear (hours s) (HourOf loc t)) eqn:E1.
  { injection Hs as <-. apply matches_hour in Em. specialize (Htr Hour ltac:(done)).
    rewrite HourOf_div, (wall_same 3600 t u), <- HourOf_div in Em; [congruence|done..|].
    change (3600 * Second) with Hour. lia. }
  destruct (bit_clear (minutes s) (MinuteOf loc t)) eqn:E2; [|injection Hs as <-; auto].
  injection Hs as <-. apply matches_minute in Em. specialize (Htr Minute ltac:(done)).
  rewrite MinuteOf_div, (wall_same 60 t u), <- MinuteOf_div in Em;
    [congruence|done|by exists 60|done|].
  change (60 * Second) with Minute. lia.
Qed.
End search.

(** ** The contract of [Next] *)

(** [t] is the first candidate after [from] and before [limit] that matches. *)
Definition first_fire (s : Schedule) (loc : Location) (from limit t : Time) : Prop :=
  candidate s t /\ from < t < limit /\ matches s loc t = true /\
  forall u, candidate s u -> from < u < t -> matches s loc u = false.

Lemma Next_loop s loc from :
  run_loop (next_step s loc (AddYears loc from 4))
    (next_fuel (first_candidate s from) (AddYears loc from 4)) (first_candidate s from)
  = inr (Next s loc from).
Proof.
  unfold Next. cbv zeta.
  destruct (search_terminates s loc (AddYears loc from 4) (first_candidate s from)) as [r Hr].
  by rewrite Hr.
Qed.

(** C32: the loop of [Next] ends within its fuel, in any zone, and more fuel
    changes nothing: the model's answer is the answer of the loop. *)
Theorem Next_terminates s loc from k :
  (next_fuel (first_candidate s from) (AddYears loc from 4) <= k)%nat ->
  run_loop (next_step s loc (AddYears loc from 4)) k (first_candidate s from)
  = inr (Next s loc from).
Proof. intros Hk. eapply run_loop_more; [exact Hk|]. apply Next_loop. Qed.

(** What [Next] answers is a matching candidate, strictly after [from] and
    before the limit, in any zone. *)
Lemma Next_sound s loc from t : Next s loc from = Some t ->
  candidate s t /\ from < t < AddYears loc from 4 /\ matches s loc t = true.
Proof.
  intros H. pose proof (Next_loop s loc from) as E. rewrite H in E.
  pose proof (run_loop_inv (next_step s loc (AddYears loc from 4))
    (fun t => candidate s t /\ from < t) (next_fuel (first_candidate s from) (AddYears loc from 4))
    (first_candidate s from)) as HI.
  rewrite E in HI. destruct HI as (t1 & [Hc Hf] & Hs).
  - intros a a' [Hc Hf] (? & ? & ? & Hc')%next_step_forward. split; [auto|lia].
  - split; [apply candidate_first|apply first_candidate_least].
  - unfold next_step in Hs. destruct (t1 <? _) eqn:E1; [|done]. bool_prop.
    destruct (matches s loc t1) eqn:E2; [|by repeat case_match].
    injection Hs as <-. split_and!; done.
Qed.

(** Nothing that matches is skipped. *)
Lemma Next_complete s loc from u :
  (hasSeconds s = true -> hour_aligned loc) -> candidate s u -> from < u ->
  match Next s loc from with Some t => u < t | None => u < AddYears loc from 4 end ->
  matches s loc u = false.
Proof.
  intros Hloc Hcu Hu. pose proof (Next_loop s loc from) as E.
  pose proof (run_loop_inv (next_step s loc (AddYears loc from 4))
    (fun t => candidate s t /\ forall u, candidate s u -> from < u < t -> matches s loc u = false)
    (next_fuel (first_candidate s from) (AddYears loc from 4)) (first_candidate s from)) as HI.
  rewrite E in HI. destruct HI as (t1 & [Hc Hno] & Hs).
  - intros a a' [Hc Hno] Hs. pose proof (next_step_forward _ _ _ _ _ Hs) as (_ & _ & _ & Hc').
    split; [auto|]. intros v Hv Hr. destruct (decide (v < a)); [apply Hno; [done|lia]|].
    eapply next_step_skips; [exact Hloc|exact Hc|exact Hv|exact Hs|lia].
  - split; [apply candidate_first|]. intros v Hv Hr.
    destruct (first_candidate_least s from) as [_ Hl]. specialize (Hl v Hv). lia.
  - unfold next_step in Hs. destruct (t1 <? _) eqn:E1; bool_prop.
    + destruct (matches s loc t1); [|by repeat case_match]. injection Hs as <-.
      intros ?. apply Hno; [done|lia].
    + injection Hs as <-. intros ?. apply Hno; [done|lia].
Qed.

(** [Next] implements its contract: it answers the first candidate instant
    that matches before the four-year limit, and "none" only if there is none;
    for six fields, in a zone of whole-hour offsets. *)
Theorem Next_first_fire s loc from :
  (hasSeconds s = true -> hour_aligned loc) ->
  match Next s loc from with
  | Some t => first_fire s loc from (AddYears loc from 4) t
  | None => forall u, candidate s u -> from < u < AddYears loc from 4 -> matches s loc u = false
  end.
Proof.
  intros Hloc. pose proof (fun u Hc Hf => Next_complete s loc from u Hloc Hc Hf) as Hcomp.
  destruct (Next s loc from) as [t|] eqn:E.
  - destruct (Next_sound _ _ _ _ E) as (? & ? & ?). split_and!; try done; try lia.
    intros u Hu Hr. apply Hcomp; [done|lia..].
  - intros u Hu Hr. apply Hcomp; [done|lia..].
Qed.

(** ** The search it replaces *)

(** Every candidate instant from [t] up to the limit, one tick after the other. *)
Definition candidates (s : Schedule) (t limit : Time) : list Time :=
  map (fun k => t + Z.of_nat k * tick_of s) (seq 0 (Z.to_nat ((limit - t + tick_of s - 1) / tick_of s))).

(** The search without any skipping. *)
Definition Next_scan (s : Schedule) (loc : Location) (from : Time) : option Time :=
  find (matches s loc) (candidates s (first_candidate s from) (AddYears loc from 4)).

Lemma elem_of_candidates s from limit t :
  t ∈ candidates s (first_candidate s from) limit <-> candidate s t /\ from < t < limit.
Proof.
  destruct (first_candidate_least s from) as [Hf Hl]. pose proof (candidate_first s from) as [c Hc].
  pose proof (tick_pos s) as Ht. unfold candidates. rewrite list_elem_of_fmap.
  setoid_rewrite elem_of_seq. split.
  - intros (k & -> & Hk). split.
    + exists (c + Z.of_nat k). rewrite Hc. lia.
    + assert (Z.of_nat k < (limit - first_candidate s from + tick_of s - 1) / tick_of s) as Hk2 by lia.
      assert (Z.of_nat k + 1 <= (limit - first_candidate s from + tick_of s - 1) / tick_of s) as Hk3 by lia.
      apply Z.div_le_lower_bound in Hk3 || apply (Zmult_le_compat_r _ _ (tick_of s)) in Hk3; [|lia].
      pose proof (Z.mul_div_le (limit - first_candidate s from + tick_of s - 1) (tick_of s) Ht). nia.
  - intros [[d Hd] [H1 H2]]. pose proof (Hl t (ex_intro _ d Hd) H1) as Hge.
    exists (Z.to_nat (d - c)). assert (c <= d) by nia. split; [nia|].
    split; [lia|]. apply Z2Nat.inj_lt; [lia|apply Z.div_pos; lia|].
    apply Z.lt_le_trans with (d - c + 1); [lia|]. apply Z.div_le_lower_bound; [lia|]. nia.
Qed.

Lemma candidates_sorted s t limit i j x y :
  candidates s t limit !! i = Some x -> candidates s t limit !! j = Some y -> (i < j)%nat -> x < y.
Proof.
  unfold candidates. rewrite !list_lookup_fmap. intros Hi Hj Hlt. pose proof (tick_pos s).
  destruct (seq _ _ !! i) as [a|] eqn:Ea; [|done]. destruct (seq _ _ !! j) as [b|] eqn:Eb; [|done].
  apply lookup_seq in Ea as [-> _], Eb as [-> _]. simpl in *. simplify_eq. nia.
Qed.

(** The first match of an ascending list is below every other one. *)
Lemma find_least (p : Time -> bool) l t : find p l = Some t ->
  (forall i j x y, l !! i = Some x -> l !! j = Some y -> (i < j)%nat -> x < y) ->
  t ∈ l /\ p t = true /\ forall u, u ∈ l -> p u = true -> t <= u.
Proof.
  induction l as [|a l IH]; simpl; [done|]. intros H Hs. destruct (p a) eqn:E.
  - injection H as ->. split_and!; [by left|done|]. intros u [->|Hu]%elem_of_cons _; [lia|].
    apply list_elem_of_lookup in Hu as [j Hj]. pose proof (Hs O (S j) t u eq_refl Hj). lia.
  - destruct (IH H) as (Hin & Hp & Hl); [intros i j x y Hi Hj ?; by eapply (Hs (S i) (S j)); [..|lia]|].
    split_and!; [by right|done|]. intros u [->|Hu]%elem_of_cons Hu2; [congruence|by apply Hl].
Qed.



(** The answer of [Next] only depends on [from] through its first candidate
    and the limit; repeated calls walk through the fires in order. *)
Lemma Next_increasing s loc from t : Next s loc from = Some t -> from < t.
Proof. intros (_ & ? & _)%Next_sound. lia. Qed.

(** ** The cases of [parser_test.go] *)

(** [t] is the instant the text [want] names. *)
Definition fires_at (expr from want : string) : bool :=
  match Parse expr, ParseRFC3339 from, ParseRFC3339 want with
  | Ok s, Some f, Some w => bool_decide (Next s UTC f = Some w)
  | _, _, _ => false
  end.

Definition test_cases : list (string * string * string) :=
  [("0 * * * *", "2026-01-15T10:20:30Z", "2026-01-15T11:00:00Z");
   ("*/15 * * * *", "2026-01-15T10:20:00Z", "2026-01-15T10:30:00Z");
   ("5/15 * * * *", "2026-01-15T10:06:00Z", "2026-01-15T10:20:00Z");
   ("5,35 * * * *", "2026-01-15T10:06:00Z", "2026-01-15T10:35:00Z");
   ("0 9-17 * * *", "2026-01-15T18:00:00Z", "2026-01-16T09:00:00Z");
   ("0 0-12/4 * * *", "2026-01-15T05:00:00Z", "2026-01-15T08:00:00Z");
   ("0 12 * * *", "2026-01-15T10:06:00Z", "2026-01-15T12:00:00Z");
   ("@daily", "2026-01-15T00:00:00Z", "2026-01-16T00:00:00Z");
   ("@hourly", "2026-01-15T10:59:59Z", "2026-01-15T11:00:00Z");
   ("*/10 * * * * *", "2026-01-15T10:00:05Z", "2026-01-15T10:00:10Z");
   ("30 0 12 * * *", "2026-01-15T12:00:31Z", "2026-01-16T12:00:30Z")].

Definition invalid_cases : list string :=
  [""; "* * * *"; "60 * * * *"; "* 24 * * *"; "* * 32 * *"; "* * * 13 *"; "* * * * 8";
   "a * * * *"; "@reboot"; "*/0 * * * *"; "1- * * * *"; "5-3 * * * *"; "1 2 3 4 5 6 7";
   ",5 * * * *"].

(** On the repository's own test cases (those whose search is short) the
    model answers what the tests expect. *)
Theorem cron_test_cases :
  forallb (fun '(e, f, w) => fires_at e f w) test_cases = true /\
  forallb (fun e => negb (is_ok (Parse e))) invalid_cases = true.
Proof. by vm_compute. Qed.

(** ** Where the code does something else *)

Lemma mask_full mask lo n x :
  Forall (fun i => bit_clear mask i = false) (seqZ lo n) -> lo <= x < lo + n ->
  bit_clear mask x = false.
Proof. intros H Hx. rewrite Forall_forall in H. by apply H, elem_of_seqZ. Qed.

Lemma mask_single k x : 0 <= k < 64 -> 0 <= x < 64 -> bit_clear (2 ^ k) x = negb (k =? x).
Proof. intros. rewrite bit_clear_testbit by done. by rewrite Z.pow2_bits_eqb by lia. Qed.

(** *** Zones with half-hour offsets *)

(** India: five hours and a half ahead, all year. *)
Definition IST : Location := fun _ => 19800.

Definition daily_nine : Schedule :=
  mkSchedule (2 ^ 0) (2 ^ 0) (2 ^ 9) 4294967294 8190 127 true true true.

Lemma Parse_daily_nine : Parse "0 0 9 * * *" = Ok daily_nine.
Proof. by vm_compute. Qed.

Lemma daily_nine_matches loc t :
  matches daily_nine loc t = true <-> wall loc t mod 86400 = 32400.
Proof.
  unfold matches, daily_nine. cbn [months hours minutes seconds doms dows domStar dowStar
    hasSeconds andb].
  rewrite (mask_full 8190 1 12) by
    ((by repeat constructor) || (pose proof (Month_range loc t); lia)).
  pose proof (HourOf_range loc t). pose proof (MinuteOf_range loc t).
  pose proof (SecondOf_range loc t). rewrite !mask_single by lia.
  unfold HourOf, MinuteOf, SecondOf in *. generalize dependent (wall loc t). intros w ? ? ?.
  destruct (9 =? _) eqn:E1, (0 =? w mod 3600 / 60) eqn:E2, (0 =? w mod 60) eqn:E3;
    bool_prop; simpl; split; intros; try done; div_lia.
Qed.

Lemma unix_shift t k : unix (t + k * Second) = unix t + k.
Proof. unfold unix. apply Z.div_add. done. Qed.

Lemma wall_IST t : wall IST t = unix t + 19800.
Proof. done. Qed.

(** A turn at another instant than nine o'clock does not land on it. *)
Lemma IST_step limit t t' : wall IST t mod 86400 <> 32400 ->
  next_step daily_nine IST limit t = inl t' -> wall IST t' mod 86400 <> 32400.
Proof.
  intros Hne Hs. unfold next_step in Hs. destruct (t <? limit); [|done].
  destruct (matches _ _ _) eqn:Em; [done|]. cbn [hasSeconds daily_nine hours minutes] in Hs.
  pose proof (HourOf_range IST t). pose proof (MinuteOf_range IST t).
  rewrite !mask_single in Hs by lia. unfold HourOf, MinuteOf in *.
  rewrite !wall_IST in *.
  assert (Htr : forall k, 0 < k -> unix (Truncate t (k * Second) + k * Second)
                          = k * (unix t / k) + k).
  { intros k Hk. rewrite unix_shift. f_equal. unfold unix, Truncate.
    rewrite (Z.div_div t Second k) by (unfold Second; lia).
    pose proof (Z.div_mod t (Second * k)) as Hd.
    rewrite (Z.mul_comm k Second). set (q := t / (Second * k)) in *.
    replace (t - t mod (Second * k)) with ((k * q) * Second) by (unfold Second in *; lia).
    by apply Z.div_mul. }
  destruct (9 =? _) eqn:E1; bool_prop; cbn [negb] in Hs.
  - destruct (0 =? _) eqn:E2; bool_prop; cbn [negb] in Hs; injection Hs as <-.
    + replace (t + Second) with (t + 1 * Second) by lia. rewrite unix_shift. clear Htr. div_lia.
    + change Minute with (60 * Second). rewrite (Htr 60) by done. clear Htr. div_lia.
  - injection Hs as <-. change Hour with (3600 * Second). rewrite (Htr 3600) by done.
    clear Htr. div_lia.
Qed.

(** Finding: a six-field schedule in a zone with a half-hour offset. Every
    day at nine in India matches, but the skip to the next whole hour of the
    absolute clock jumps over it: [NextAfter] reports no fire time within four
    years, whatever the starting instant (outside the second before nine). *)
Theorem half_hour_zone_never_fires loadLocation from :
  loadLocation "Asia/Kolkata" = Some IST ->
  (wall IST from + 1) mod 86400 <> 32400 ->
  NextAfter loadLocation "0 0 9 * * *" "Asia/Kolkata" from = Err (NoFireTime "0 0 9 * * *") /\
  forall day, matches daily_nine IST ((86400 * day + 12600) * Second) = true.
Proof.
  intros Hload Hfrom. split.
  - unfold NextAfter. rewrite Parse_daily_nine. cbn [mbind result_bind].
    change (String.eqb "Asia/Kolkata" "") with false. cbn iota. rewrite Hload.
    cbn [opt_or mbind result_bind].
    pose proof (Next_loop daily_nine IST from) as E.
    pose proof (run_loop_inv (next_step daily_nine IST (AddYears IST from 4))
      (fun t => wall IST t mod 86400 <> 32400) (next_fuel (first_candidate daily_nine from)
      (AddYears IST from 4)) (first_candidate daily_nine from)) as HI.
    rewrite E in HI. destruct HI as (t & Hne & Hs).
    + intros a a'. apply IST_step.
    + unfold first_candidate. cbn [hasSeconds daily_nine]. rewrite wall_IST in *.
      replace (Truncate from Second + Second) with (Truncate from Second + 1 * Second) by lia.
      rewrite unix_shift. unfold unix, Truncate in *.
      pose proof (Z.div_mod from Second).
      replace (from - from mod Second) with ((from / Second) * Second)
        by (unfold Second in *; lia).
      rewrite Z.div_mul by done.
      by replace (from / Second + 1 + 19800) with (from / Second + 19800 + 1) by lia.
    + unfold next_step in Hs. destruct (t <? _); [|by injection Hs as <-].
      destruct (matches _ _ t) eqn:Em; [by apply daily_nine_matches in Em|].
      by repeat case_match.
  - intros day. apply daily_nine_matches. rewrite wall_IST. unfold unix.
    rewrite Z.div_mul by done. div_lia.
Qed.

Lemma half_hour_zone_never_fires_witness :
  NextAfter (fun tz => if String.eqb tz "Asia/Kolkata" then Some IST else None)
    "0 0 9 * * *" "Asia/Kolkata" 1768446000000000000 = Err (NoFireTime "0 0 9 * * *").
Proof.
  apply (half_hour_zone_never_fires
    (fun tz => if String.eqb tz "Asia/Kolkata" then Some IST else None) 1768446000000000000).
  - reflexivity.
  - vm_compute. discriminate.
Defined.

(** *** A step on the day of the month *)

Definition every_other_day : Schedule :=
  mkSchedule 0 (2 ^ 0) (2 ^ 0) 2863311530 8190 127 true true false.

(** Finding: [*/2] in the day-of-month field is parsed to the mask of the
    odd days, but the field begins with a star, so [matches] ignores the mask:
    the schedule fires at midnight of every day, in every zone. *)
Theorem dom_step_ignored :
  Parse "0 0 */2 * *" = Ok every_other_day /\
  forall loc t, matches every_other_day loc t = (HourOf loc t =? 0) && (MinuteOf loc t =? 0).
Proof.
  split; [by vm_compute|]. intros loc t. unfold matches, every_other_day.
  cbn [months hours minutes seconds doms dows domStar dowStar hasSeconds andb].
  rewrite (mask_full 8190 1 12) by
    ((by repeat constructor) || (pose proof (Month_range loc t); lia)).
  pose proof (HourOf_range loc t). pose proof (MinuteOf_range loc t).
  rewrite !mask_single by lia. rewrite !(Z.eqb_sym 0).
  by destruct (HourOf loc t =? 0), (MinuteOf loc t =? 0).
Qed.

(** *** A step that overflows *)

(** Finding: [5/9223372036854775807] stands for the minute 5 alone; the
    counter of the loop overflows and comes back, and the mask also holds the
    minutes 3 and 1; in the same way [2/9223372036854775807] sets the bit of day
    0 of the month. *)
Theorem step_overflow_sets_other_bits :
  parse_item "5/9223372036854775807" minMin minMax None "minute" = Ok (5, 59, 9223372036854775807) /\
  parseField "5/9223372036854775807" minMin minMax 0 None "minute"
  = Ok (Z.lor (2 ^ 5) (Z.lor (2 ^ 3) (2 ^ 1))) /\
  parseField "2/9223372036854775807" domMin domMax 0 None "day-of-month"
  = Ok (Z.lor (2 ^ 2) (2 ^ 0)).
Proof. by vm_compute. Qed.
