(* ===== verification/Model.v ===== *)
(** * The data of [internal/model/model.go]

    The records the parts of the system exchange, with the constants of the
    package, and the interface to [encoding/json]: what is stored in etcd is
    text, and the program relies on reading back what it wrote. *)
From S2P Require Import Prelude GoStrings GoTime.

Open Scope string_scope.
Open Scope Z_scope.

Definition CatchUpRunLatest := "run_latest".
Definition CatchUpRunAll := "run_all".
Definition CatchUpSkip := "skip".

Definition StatusSuccess := "success".
Definition StatusFailed := "failed".
Definition StatusTimeout := "timeout".
Definition StatusFailedPermanent := "failed_permanent".
Definition StatusSkipped := "skipped".
Definition StatusAbandoned := "abandoned".

Record Job := mkJob {
  j_ID : Z;
  j_Name : string;
  j_Cron : string;
  j_Timezone : string;
  j_Command : string;
  j_TimeoutSec : Z;
  j_MaxRetries : Z;
  j_CatchUp : string;
  j_NoOverlap : bool;
  j_Enabled : bool;
  j_NextFire : string;
  j_CreatedAt : string;
  j_UpdatedAt : string;
}.

Record Ticket := mkTicket {
  t_JobID : Z;
  t_Name : string;
  t_Command : string;
  t_TimeoutSec : Z;
  t_MaxRetries : Z;
  t_NoOverlap : bool;
  t_SchedAt : string;
  t_Attempt : Z;
  t_NotBefore : string;
  t_Manual : bool;
}.

Record Result := mkResult {
  r_JobID : Z;
  r_SchedAt : string;
  r_Attempt : Z;
  r_NodeID : string;
  r_Status : string;
  r_ExitCode : Z;
  r_StartedAt : string;
  r_FinishedAt : string;
  r_DurationMS : Z;
  r_Stdout : string;
  r_Stderr : string;
}.

Record Member := mkMember { m_NodeID : string; m_Addr : string; m_JoinedAt : string }.

Record LeaderInfo := mkLeaderInfo { l_NodeID : string; l_Since : string }.

#[export] Instance Job_eq_dec : EqDecision Job.
Proof. solve_decision. Defined.
#[export] Instance Ticket_eq_dec : EqDecision Ticket.
Proof. solve_decision. Defined.
#[export] Instance Result_eq_dec : EqDecision Result.
Proof. solve_decision. Defined.

(** Field updates: the Go code assigns these fields in place. *)
Definition t_set_Attempt (t : Ticket) (a : Z) : Ticket :=
  mkTicket (t_JobID t) (t_Name t) (t_Command t) (t_TimeoutSec t) (t_MaxRetries t)
    (t_NoOverlap t) (t_SchedAt t) a (t_NotBefore t) (t_Manual t).

Definition t_set_NotBefore (t : Ticket) (nb : string) : Ticket :=
  mkTicket (t_JobID t) (t_Name t) (t_Command t) (t_TimeoutSec t) (t_MaxRetries t)
    (t_NoOverlap t) (t_SchedAt t) (t_Attempt t) nb (t_Manual t).

Definition r_set_Status (r : Result) (s : string) : Result :=
  mkResult (r_JobID r) (r_SchedAt r) (r_Attempt r) (r_NodeID r) s (r_ExitCode r)
    (r_StartedAt r) (r_FinishedAt r) (r_DurationMS r) (r_Stdout r) (r_Stderr r).

(** ** Valid UTF-8 ([utf8.ValidString])

    [pend] holds the ranges of the continuation bytes still expected. *)

Definition cont : Z * Z := (0x80, 0xBF).

Definition start_byte (b : Z) : option (list (Z * Z)) :=
  if b <? 0x80 then Some []
  else if (0xC2 <=? b) && (b <=? 0xDF) then Some [cont]
  else if b =? 0xE0 then Some [(0xA0, 0xBF); cont]
  else if b =? 0xED then Some [(0x80, 0x9F); cont]
  else if (0xE1 <=? b) && (b <=? 0xEF) then Some [cont; cont]
  else if b =? 0xF0 then Some [(0x90, 0xBF); cont; cont]
  else if (0xF1 <=? b) && (b <=? 0xF3) then Some [cont; cont; cont]
  else if b =? 0xF4 then Some [(0x80, 0x8F); cont; cont]
  else None.

Definition byte_val (c : Ascii.ascii) : Z := Z.of_N (Ascii.N_of_ascii c).

Fixpoint utf8_from (pend : list (Z * Z)) (s : string) : bool :=
  match s with
  | EmptyString => match pend with [] => true | _ => false end
  | String c r =>
      match pend with
      | [] => match start_byte (byte_val c) with Some p => utf8_from p r | None => false end
      | (lo, hi) :: p => (lo <=? byte_val c) && (byte_val c <=? hi) && utf8_from p r
      end
  end.

Definition utf8_valid (s : string) : bool := utf8_from [] s.

Definition is_ascii (c : Ascii.ascii) : bool := byte_val c <? 0x80.

Lemma ascii_utf8_valid s : str_forall is_ascii s = true -> utf8_valid s = true.
Proof.
  unfold utf8_valid. induction s as [|c s IH]; simpl; [done|]. intros H. bool_prop.
  unfold is_ascii in *. unfold start_byte. rewrite H. auto.
Qed.

(** Printed times are ASCII. *)
Lemma is_digit_ascii c : is_digit c = true -> is_ascii c = true.
Proof. unfold is_digit, is_ascii, byte_val. destruct (digit_of c) eqn:E; [|done].
  revert E. destruct c as [[] [] [] [] [] [] [] []]; vm_compute; done. Qed.

Lemma FormatInt_ascii z : str_forall is_ascii (FormatInt z) = true.
Proof. apply FormatInt_chars; [apply is_digit_ascii|done]. Qed.

Lemma digit_char_ascii n : 0 <= n < 10 -> is_ascii (digit_char n) = true.
Proof.
  intros Hn. apply is_digit_ascii. unfold is_digit.
  by rewrite digit_of_digit_char.
Qed.

Lemma pad2_ascii n r : 0 <= n < 100 -> str_forall is_ascii r = true ->
  str_forall is_ascii (pad2 n r) = true.
Proof.
  intros Hn Hr. unfold pad2. cbn [str_forall].
  rewrite !digit_char_ascii by div_lia. done.
Qed.

Lemma zeros_ascii k s : str_forall is_ascii s = true -> str_forall is_ascii (zeros k s) = true.
Proof. intros Hs. by induction k. Qed.

Lemma frac_str_ascii k n : str_forall is_ascii (frac_str k n) = true.
Proof.
  revert n. induction k as [|k IH]; intros n; [done|]. cbn [frac_str]. case_match; [apply IH|].
  apply zeros_ascii, FormatInt_ascii.
Qed.

Lemma year_str_ascii y r : str_forall is_ascii r = true -> str_forall is_ascii (year_str y r) = true.
Proof.
  intros Hr. unfold year_str. destruct ((0 <=? y) && (y <? 10000)) eqn:E.
  - bool_prop. apply pad2_ascii; [div_lia|]. apply pad2_ascii; [div_lia|done].
  - case_match; rewrite !str_forall_app, ?Hr, ?FormatInt_ascii; [|done].
    unfold pad_left. by rewrite zeros_ascii by apply FormatInt_ascii.
Qed.

Lemma format_with_ascii frac t : str_forall is_ascii frac = true ->
  str_forall is_ascii (format_with frac t) = true.
Proof.
  intros Hf. unfold format_with.
  pose proof (HourOf_range UTC t). pose proof (MinuteOf_range UTC t).
  pose proof (SecondOf_range UTC t). pose proof (Month_range UTC t). pose proof (Day_range UTC t).
  unfold Month, Day in *. destruct (Date_of UTC t) as [[y m] d]. cbn [fst snd] in *.
  apply year_str_ascii.
  repeat first [apply pad2_ascii; [lia|] | progress cbn [str_forall]; simpl (is_ascii _ && _)].
  by rewrite str_forall_app, Hf.
Qed.

Lemma FormatRFC3339_ascii t : str_forall is_ascii (FormatRFC3339 t) = true.
Proof. by apply format_with_ascii. Qed.

Lemma FormatRFC3339Nano_ascii t : str_forall is_ascii (FormatRFC3339Nano t) = true.
Proof.
  apply format_with_ascii. case_match; [done|]. simpl. apply (frac_str_ascii 9).
Qed.

Lemma FormatRFC3339_valid t : utf8_valid (FormatRFC3339 t) = true.
Proof. apply ascii_utf8_valid, FormatRFC3339_ascii. Qed.

Lemma FormatRFC3339Nano_valid t : utf8_valid (FormatRFC3339Nano t) = true.
Proof. apply ascii_utf8_valid, FormatRFC3339Nano_ascii. Qed.

#[export] Hint Resolve FormatRFC3339_valid FormatRFC3339Nano_valid : orbix_time.

Definition ticket_valid (t : Ticket) : Prop :=
  utf8_valid (t_Name t) = true /\ utf8_valid (t_Command t) = true /\
  utf8_valid (t_SchedAt t) = true /\ utf8_valid (t_NotBefore t) = true /\
  in_int64 (t_JobID t) = true /\ in_int64 (t_TimeoutSec t) = true /\
  in_int64 (t_MaxRetries t) = true /\ in_int64 (t_Attempt t) = true.

Definition job_valid (j : Job) : Prop :=
  utf8_valid (j_Name j) = true /\ utf8_valid (j_Cron j) = true /\
  utf8_valid (j_Timezone j) = true /\ utf8_valid (j_Command j) = true /\
  utf8_valid (j_CatchUp j) = true /\ utf8_valid (j_NextFire j) = true /\
  utf8_valid (j_CreatedAt j) = true /\ utf8_valid (j_UpdatedAt j) = true /\
  in_int64 (j_ID j) = true /\ in_int64 (j_TimeoutSec j) = true /\
  in_int64 (j_MaxRetries j) = true.

Definition result_valid (r : Result) : Prop :=
  utf8_valid (r_SchedAt r) = true /\ utf8_valid (r_NodeID r) = true /\
  utf8_valid (r_Status r) = true /\ utf8_valid (r_StartedAt r) = true /\
  utf8_valid (r_FinishedAt r) = true /\ utf8_valid (r_Stdout r) = true /\
  utf8_valid (r_Stderr r) = true /\
  in_int64 (r_JobID r) = true /\ in_int64 (r_Attempt r) = true /\
  in_int64 (r_ExitCode r) = true /\ in_int64 (r_DurationMS r) = true.

Definition leader_valid (i : LeaderInfo) : Prop :=
  utf8_valid (l_NodeID i) = true /\ utf8_valid (l_Since i) = true.

Definition member_valid (m : Member) : Prop :=
  utf8_valid (m_NodeID m) = true /\ utf8_valid (m_Addr m) = true /\ utf8_valid (m_JoinedAt m) = true.

(** ** [encoding/json]

    [marshal] never fails on these structs.  The laws are the documented
    behaviour: reading back what was written gives the same value when its
    strings are valid UTF-8 and its numbers fit their 64 bits (the model's [Z]
    is wider than Go's [int64]), and the values that are read are such. *)

Class Json (A : Type) (valid : A -> Prop) := {
  marshal : A -> string;
  unmarshal : string -> option A;
  unmarshal_marshal : forall a, valid a -> unmarshal (marshal a) = Some a;
  unmarshal_valid : forall s a, unmarshal s = Some a -> valid a;
}.
