(* ===== verification/Codec.v ===== *)
(** * A concrete codec

    An instance of the [Json] interface, so that theorems stated against the
    interface can be applied to concrete stores: a record is the sequence of
    its fields, each one preceded by its length.  It is not the JSON text that
    [encoding/json] writes; nothing but the witnesses uses it. *)
From S2P Require Import Prelude GoStrings GoTime Model.
From Stdlib Require Import Ascii.

Open Scope string_scope.
Open Scope list_scope.
Open Scope Z_scope.

Definition put_field (s rest : string) : string :=
  FormatInt (Z.of_nat (String.length s)) +:+ String ":" (s +:+ rest).

Definition encode_fields (l : list string) : string := foldr put_field "" l.

Definition get_field (s : string) : option (string * string) :=
  '(n, r) ← cut ":" s;
  k ← digits_from 0 n;
  if (0 <=? k) && (k <=? Z.of_nat (String.length r))
  then Some (String.substring 0 (Z.to_nat k) r, str_drop (Z.to_nat k) r) else None.

Fixpoint decode_fields (n : nat) (s : string) : option (list string) :=
  match n with
  | O => if String.eqb s "" then Some [] else None
  | S n' => '(f, r) ← get_field s; l ← decode_fields n' r; Some (f :: l)
  end.

Lemma substring_app a b : String.substring 0 (String.length a) (a +:+ b) = a.
Proof. induction a as [|c a IH]; simpl; [by destruct b|by rewrite IH]. Qed.

Lemma str_drop_length a b : str_drop (String.length a) (a +:+ b) = b.
Proof. induction a; simpl; auto. Qed.

Lemma get_put_field s rest : get_field (put_field s rest) = Some (s, rest).
Proof.
  unfold get_field, put_field. rewrite cut_app.
  - cbn [mbind option_bind]. rewrite FormatInt_nonneg, digits_pretty_N, Z2N.id by lia.
    cbn [mbind option_bind]. rewrite string_app_length, Nat2Z.id, substring_app, str_drop_length.
    case_match eqn:E; [done|]. apply andb_false_iff in E as [E|E]; bool_prop; lia.
  - apply FormatInt_chars; [|done]. intros c Hc. unfold not_char.
    apply negb_true_iff, Ascii.eqb_neq. by intros ->.
Qed.

Lemma decode_encode_fields l : decode_fields (length l) (encode_fields l) = Some l.
Proof.
  induction l as [|s l IH]; [done|]. cbn [length encode_fields foldr decode_fields].
  rewrite get_put_field. cbn [mbind option_bind]. fold (encode_fields l). by rewrite IH.
Qed.

(** *** Fields *)

Definition bool_field (b : bool) : string := if b then "1" else "0".
Definition read_bool (s : string) : option bool :=
  if String.eqb s "1" then Some true else if String.eqb s "0" then Some false else None.

Lemma read_bool_field b : read_bool (bool_field b) = Some b.
Proof. by destruct b. Qed.

Definition ticket_fields (t : Ticket) : list string :=
  [FormatInt (t_JobID t); t_Name t; t_Command t; FormatInt (t_TimeoutSec t);
   FormatInt (t_MaxRetries t); bool_field (t_NoOverlap t); t_SchedAt t; FormatInt (t_Attempt t);
   t_NotBefore t; bool_field (t_Manual t)].

Definition result_fields (r : Result) : list string :=
  [FormatInt (r_JobID r); r_SchedAt r; FormatInt (r_Attempt r); r_NodeID r; r_Status r;
   FormatInt (r_ExitCode r); r_StartedAt r; r_FinishedAt r; FormatInt (r_DurationMS r);
   r_Stdout r; r_Stderr r].

Definition job_fields (j : Job) : list string :=
  [FormatInt (j_ID j); j_Name j; j_Cron j; j_Timezone j; j_Command j; FormatInt (j_TimeoutSec j);
   FormatInt (j_MaxRetries j); j_CatchUp j; bool_field (j_NoOverlap j); bool_field (j_Enabled j);
   j_NextFire j; j_CreatedAt j; j_UpdatedAt j].

Definition read_ticket (l : list string) : option Ticket :=
  match l with
  | [a; b; c; d; e; f; g; h; i; k] =>
      a ← ParseInt a; d ← ParseInt d; e ← ParseInt e; f ← read_bool f; h ← ParseInt h;
      k ← read_bool k; Some (mkTicket a b c d e f g h i k)
  | _ => None
  end.

Definition read_result (l : list string) : option Result :=
  match l with
  | [a; b; c; d; e; f; g; h; i; k; m] =>
      a ← ParseInt a; c ← ParseInt c; f ← ParseInt f; i ← ParseInt i;
      Some (mkResult a b c d e f g h i k m)
  | _ => None
  end.

Definition read_job (l : list string) : option Job :=
  match l with
  | [a; b; c; d; e; f; g; h; i; k; m; n; o] =>
      a ← ParseInt a; f ← ParseInt f; g ← ParseInt g; i ← read_bool i; k ← read_bool k;
      Some (mkJob a b c d e f g h i k m n o)
  | _ => None
  end.

#[export] Instance ticket_valid_dec t : Decision (ticket_valid t).
Proof. unfold ticket_valid. apply _. Defined.
#[export] Instance result_valid_dec r : Decision (result_valid r).
Proof. unfold result_valid. apply _. Defined.
#[export] Instance job_valid_dec j : Decision (job_valid j).
Proof. unfold job_valid. apply _. Defined.

(** ** The instances *)

Definition read_record {A} (valid : A -> Prop) `{forall a, Decision (valid a)} (n : nat)
    (read : list string -> option A) (s : string) : option A :=
  l ← decode_fields n s; a ← read l; if decide (valid a) then Some a else None.

Lemma read_record_valid {A} (valid : A -> Prop) `{forall a, Decision (valid a)} n read s a :
  read_record valid n read s = Some a -> valid a.
Proof.
  unfold read_record. intros (l & _ & (a' & _ & Hd)%bind_Some)%bind_Some.
  case_decide; [|done]. by injection Hd as ->.
Qed.

Lemma read_record_write {A} (valid : A -> Prop) `{forall a, Decision (valid a)} n
    (fields : A -> list string) read a :
  length (fields a) = n -> read (fields a) = Some a -> valid a ->
  read_record valid n read (encode_fields (fields a)) = Some a.
Proof.
  intros <- Hr Hv. unfold read_record. rewrite decode_encode_fields. cbn [mbind option_bind].
  rewrite Hr. cbn [mbind option_bind]. by rewrite decide_True.
Qed.

#[export] Program Instance codec_Ticket : Json Ticket ticket_valid := {|
  marshal t := encode_fields (ticket_fields t);
  unmarshal := read_record ticket_valid 10 read_ticket;
|}.
Next Obligation.
  intros t Hv. apply read_record_write; [done| |done].
  destruct Hv as (_ & _ & _ & _ & ? & ? & ? & ?). destruct t. cbn in *.
  by rewrite !ParseInt_FormatInt, !read_bool_field by done.
Qed.
Next Obligation. intros. by eapply read_record_valid. Qed.

#[export] Program Instance codec_Result : Json Result result_valid := {|
  marshal r := encode_fields (result_fields r);
  unmarshal := read_record result_valid 11 read_result;
|}.
Next Obligation.
  intros r Hv. apply read_record_write; [done| |done].
  destruct Hv as (_ & _ & _ & _ & _ & _ & _ & ? & ? & ? & ?). destruct r. cbn in *.
  by rewrite !ParseInt_FormatInt by done.
Qed.
Next Obligation. intros. by eapply read_record_valid. Qed.

#[export] Program Instance codec_Job : Json Job job_valid := {|
  marshal j := encode_fields (job_fields j);
  unmarshal := read_record job_valid 13 read_job;
|}.
Next Obligation.
  intros j Hv. apply read_record_write; [done| |done].
  destruct Hv as (_ & _ & _ & _ & _ & _ & _ & _ & ? & ? & ?). destruct j. cbn in *.
  by rewrite !ParseInt_FormatInt, !read_bool_field by done.
Qed.
Next Obligation. intros. by eapply read_record_valid. Qed.

(** *** Members and leaders *)

Definition member_fields (m : Member) : list string := [m_NodeID m; m_Addr m; m_JoinedAt m].

Definition read_member_fields (l : list string) : option Member :=
  match l with [n; a; j] => Some (mkMember n a j) | _ => None end.

#[export] Instance member_valid_dec m : Decision (member_valid m).
Proof. unfold member_valid. apply _. Defined.

#[export] Program Instance codec_Member : Json Member member_valid := {|
  marshal m := encode_fields (member_fields m);
  unmarshal := read_record member_valid 3 read_member_fields;
|}.
Next Obligation. intros m Hv. apply read_record_write; [done| |done]. by destruct m. Qed.
Next Obligation. intros. by eapply read_record_valid. Qed.

Definition leader_fields (i : LeaderInfo) : list string := [l_NodeID i; l_Since i].

Definition read_leader_fields (l : list string) : option LeaderInfo :=
  match l with [n; s] => Some (mkLeaderInfo n s) | _ => None end.

#[export] Instance leader_valid_dec i : Decision (leader_valid i).
Proof. unfold leader_valid. apply _. Defined.

#[export] Program Instance codec_LeaderInfo : Json LeaderInfo leader_valid := {|
  marshal i := encode_fields (leader_fields i);
  unmarshal := read_record leader_valid 2 read_leader_fields;
|}.
Next Obligation. intros i Hv. apply read_record_write; [done| |done]. by destruct i. Qed.
Next Obligation. intros. by eapply read_record_valid. Qed.
