(* ===== verification/Etcd.v ===== *)
(** * The interface to etcd, and programs that call it

    etcd is a service: the model of the program never looks inside it.  Code
    that talks to it is a [Prog], a finite tree of requests ([Ev]) and
    continuations.  The other things a program asks its surroundings for (the
    clock, random numbers, whether it leads, its claim lease) are requests too.

    [ev_ok] states the documented behaviour of the answers on the key space:
    transactions are atomic, comparisons are made on the state they commit on,
    a put names a live lease or none, a request that fails may or may not have
    been applied.  [World] is the interface the theorems are proved against;
    [MemWorld] is a concrete instance, with scripted answers, for witnesses. *)
From S2P Require Import Prelude GoStrings GoTime.

Open Scope string_scope.
Open Scope Z_scope.

(** ** The key space *)

Definition LeaseID := Z.
Definition NoLease : LeaseID := 0.
Definition EtcdErr := string.

Record Entry := mkEntry {
  e_value : string;
  e_version : Z;
  e_modrev : Z;
  e_lease : LeaseID;
}.

Record Store := mkStore {
  kvs : gmap string Entry;
  revision : Z;
  leases : gset Z;
}.

Inductive Cmp :=
| CVersion (k : string) (v : Z)
| CModRevision (k : string) (r : Z)
| CValue (k : string) (v : string).

Inductive Op :=
| OpPut (k v : string) (lease : LeaseID)
| OpDelete (k : string).

#[export] Instance Op_eq_dec : EqDecision Op.
Proof. solve_decision. Defined.

(** A missing key has version and revision 0, and no value equals its value. *)
Definition cmp_holds (m : gmap string Entry) (c : Cmp) : bool :=
  match c with
  | CVersion k v => (match m !! k with Some e => e_version e | None => 0 end) =? v
  | CModRevision k r => (match m !! k with Some e => e_modrev e | None => 0 end) =? r
  | CValue k v => match m !! k with Some e => String.eqb (e_value e) v | None => false end
  end.

Definition apply_op (rev : Z) (m : gmap string Entry) (o : Op) : gmap string Entry :=
  match o with
  | OpPut k v l =>
      <[k := mkEntry v (match m !! k with Some e => e_version e | None => 0 end + 1) rev l]> m
  | OpDelete k => delete k m
  end.

Definition op_writes (m : gmap string Entry) (o : Op) : bool :=
  match o with OpPut _ _ _ => true | OpDelete k => bool_decide (is_Some (m !! k)) end.

(** All the operations of a transaction commit at one new revision. *)
Definition apply_ops (st : Store) (ops : list Op) : Store :=
  let rev := revision st + 1 in
  mkStore (foldl (apply_op rev) (kvs st) ops)
    (if existsb (op_writes (kvs st)) ops then rev else revision st) (leases st).

Definition op_admissible (st : Store) (o : Op) : Prop :=
  match o with OpPut _ _ l => l = NoLease \/ l ∈ leases st | OpDelete _ => True end.

(** The keys with a prefix, in ascending order, at most [limit]. *)
Definition key_le (a b : string * Entry) : Prop := String.leb a.1 b.1 = true.

#[export] Instance key_le_dec a b : Decision (key_le a b).
Proof. unfold key_le. apply _. Defined.

Definition range (st : Store) (prefix : string) (limit : option nat) : list (string * Entry) :=
  let l := merge_sort key_le
             (filter (fun p => HasPrefix p.1 prefix = true) (map_to_list (kvs st))) in
  match limit with Some n => take n l | None => l end.

(** A lease that ends takes its keys with it. *)
Definition expire (l : LeaseID) (st : Store) : Store :=
  mkStore (filter (fun p => e_lease p.2 <> l) (kvs st)) (revision st + 1) (leases st ∖ {[l]}).

Definition grant (l : LeaseID) (st : Store) : Store :=
  mkStore (kvs st) (revision st) ({[l]} ∪ leases st).

(** ** Requests and programs *)

(** What is seen of an external command: its output, the time it took, whether
    its deadline passed, and the error of [cmd.Run] ([Some None] is an error that
    carries no exit code). *)
Record CmdOutcome := mkCmd {
  co_stdout : string;
  co_stderr : string;
  co_elapsed : Duration;
  co_deadline : bool;
  co_err : option (option Z);
}.

Inductive Ev : Type -> Type :=
| Get (k : string) : Ev (result EtcdErr (option Entry))
| GetPrefix (p : string) (limit : option nat) : Ev (result EtcdErr (list (string * Entry)))
| CountPrefix (p : string) : Ev (result EtcdErr Z)
| Put (k v : string) (lease : LeaseID) : Ev (result EtcdErr unit)
| Txn (cmps : list Cmp) (thn els : list Op) : Ev (result EtcdErr bool)
| Now : Ev Time
| RandIntn (n : Z) : Ev Z
| IsLeader : Ev bool
| ClaimLease : Ev LeaseID
| Command (argv : list string) (timeout : Duration) : Ev CmdOutcome.

(** Programs are parameterised by the requests they make: [Prog] is a program
    that talks to etcd and its surroundings by [Ev]; other parts of the code have
    requests of their own.  [Panic] is a run-time panic of the Go program. *)
Inductive ProgE (E : Type -> Type) (A : Type) : Type :=
| Ret (a : A)
| Panic
| Vis {X : Type} (e : E X) (k : X -> ProgE E A).
Arguments Ret {E A} a.
Arguments Panic {E A}.
Arguments Vis {E A X} e k.

Abbreviation Prog := (ProgE Ev).

Fixpoint prog_bind {E A B} (p : ProgE E A) (f : A -> ProgE E B) : ProgE E B :=
  match p with
  | Ret a => f a
  | Panic => Panic
  | Vis e k => Vis e (fun x => prog_bind (k x) f)
  end.

Notation "'let!' x ':=' p 'in' k" := (prog_bind p (fun x => k))
  (at level 10, x name, p at level 200, k at level 200,
   format "'let!'  x  ':='  p  'in' '//' k") : orbix_scope.
Notation "'let!' ' x ':=' p 'in' k" := (prog_bind p (fun x => k))
  (at level 10, x strict pattern, p at level 200, k at level 200,
   format "'let!'  ' x  ':='  p  'in' '//' k") : orbix_scope.
Open Scope orbix_scope.

Definition call {E X} (e : E X) : ProgE E X := Vis e Ret.

(** A program whose requests are passed on by a larger part of the code. *)
Fixpoint embed {E F A} (f : forall X, E X -> F X) (p : ProgE E A) : ProgE F A :=
  match p with
  | Ret a => Ret a
  | Panic => Panic
  | Vis e k => Vis (f _ e) (fun x => embed f (k x))
  end.

Inductive outcome (A : Type) : Type :=
| Done (a : A)
| Panicked.
Arguments Done {A} a.
Arguments Panicked {A}.

(** ** The documented behaviour of the answers *)

(** A transaction with these comparisons and branches, answering [r]. *)
Definition txn_ok (cmps : list Cmp) (thn els : list Op) (st : Store)
    (r : result EtcdErr bool) (st' : Store) : Prop :=
  let b := forallb (cmp_holds (kvs st)) cmps in
  let ops := if b then thn else els in
  let applied := Forall (op_admissible st) ops /\ st' = apply_ops st ops in
  match r with
  | Ok b' => b' = b /\ applied
  | Err _ => st' = st \/ applied
  end.

Definition ev_ok {X} (e : Ev X) : Store -> X -> Store -> Prop :=
  match e in Ev X return Store -> X -> Store -> Prop with
  | Get k => fun st r st' => st' = st /\
      match r with Ok o => o = kvs st !! k | Err _ => True end
  | GetPrefix p limit => fun st r st' => st' = st /\
      match r with Ok l => l = range st p limit | Err _ => True end
  | CountPrefix p => fun st r st' => st' = st /\
      match r with Ok n => n = Z.of_nat (length (range st p None)) | Err _ => True end
  | Put k v l => fun st r st' =>
      txn_ok [] [OpPut k v l] [] st
        (match r with Ok _ => Ok true | Err e => Err e end) st'
  | Txn c t f => txn_ok c t f
  | Now => fun st _ st' => st' = st
  | RandIntn n => fun st r st' => st' = st /\ (0 < n -> 0 <= r < n)
  | IsLeader => fun st _ st' => st' = st
  | ClaimLease => fun st _ st' => st' = st
  | Command _ _ => fun st _ st' => st' = st
  end.

Class World (W : Type) := {
  handle : forall {X}, Ev X -> W -> X * W;
  store_of : W -> Store;
  handle_sound : forall X (e : Ev X) w,
    ev_ok e (store_of w) (handle e w).1 (store_of (handle e w).2);
}.

Fixpoint run `{World W} {A} (p : Prog A) (w : W) : outcome A * W :=
  match p with
  | Ret a => (Done a, w)
  | Panic => (Panicked, w)
  | Vis e k => let '(x, w') := handle e w in run (k x) w'
  end.

Lemma run_bind `{World W} {A B} (p : Prog A) (f : A -> Prog B) (w : W) :
  run (prog_bind p f) w =
  match run p w with
  | (Done a, w') => run (f a) w'
  | (Panicked, w') => (Panicked, w')
  end.
Proof.
  revert w. induction p as [a| |X e k IH]; intros w; simpl; [done..|].
  destruct (handle e w) as [x w']. apply IH.
Qed.

(** ** Lemmas on the key space *)

(** What etcd guarantees of the entries: versions start at 1, revisions are
    those of past commits. *)
Definition store_wf (st : Store) : Prop :=
  0 <= revision st /\
  forall k e, kvs st !! k = Some e -> 1 <= e_version e /\ 1 <= e_modrev e <= revision st.

Lemma store_eta st : mkStore (kvs st) (revision st) (leases st) = st.
Proof. by destruct st. Qed.

Lemma apply_ops_nil st : apply_ops st [] = st.
Proof. apply store_eta. Qed.

Definition op_key (o : Op) : string := match o with OpPut k _ _ | OpDelete k => k end.

Lemma lookup_apply_op_ne rev m o k : op_key o <> k -> apply_op rev m o !! k = m !! k.
Proof. destruct o; simpl; intros; [by rewrite lookup_insert_ne|by rewrite lookup_delete_ne]. Qed.

Lemma lookup_apply_ops_ne st ops k : k ∉ map op_key ops ->
  kvs (apply_ops st ops) !! k = kvs st !! k.
Proof.
  unfold apply_ops. cbn [kvs]. generalize (revision st + 1) as rev, (kvs st) as m.
  induction ops as [|o ops IH]; intros rev m Hk; simpl in *; [done|].
  apply not_elem_of_cons in Hk as [? ?]. rewrite IH by done. by apply lookup_apply_op_ne.
Qed.

Lemma cmp_version_0 st k : store_wf st ->
  cmp_holds (kvs st) (CVersion k 0) = true <-> kvs st !! k = None.
Proof.
  intros [_ Hwf]. simpl. rewrite Z.eqb_eq. destruct (kvs st !! k) as [e|] eqn:E; [|done].
  apply Hwf in E. split; [lia|done].
Qed.

Lemma store_wf_apply_ops st ops : store_wf st -> store_wf (apply_ops st ops).
Proof.
  intros [Hr Hwf]. split; [simpl; case_match; lia|]. intros k e.
  destruct (existsb (op_writes (kvs st)) ops) eqn:Ew.
  - assert (forall k e, foldl (apply_op (revision st + 1)) (kvs st) ops !! k = Some e ->
      1 <= e_version e /\ 1 <= e_modrev e <= revision st + 1) as H.
    { apply (foldl_inv (fun m => forall k e, m !! k = Some e ->
        1 <= e_version e /\ 1 <= e_modrev e <= revision st + 1)).
      - intros m o _ IH k' e'. destruct o as [k1 v l|k1]; simpl.
        + rewrite lookup_insert. case_decide; [|apply IH]. intros [= <-]. simpl.
          destruct (m !! k1) eqn:E1; [apply IH in E1|]; lia.
        + rewrite lookup_delete. case_decide; [done|apply IH].
      - intros k' e' H. apply Hwf in H. lia. }
    simpl. rewrite Ew. apply H.
  - simpl. rewrite Ew. intros H. apply (Hwf k).
    assert (forall m, (forall o, o ∈ ops -> op_writes m o = false) ->
      foldl (apply_op (revision st + 1)) m ops = m) as Hid.
    { clear. induction ops as [|o ops IH]; intros m Hm; simpl; [done|].
      assert (apply_op (revision st + 1) m o = m) as ->.
      { specialize (Hm o ltac:(left)). destruct o as [|k]; [done|]. simpl in *.
        apply bool_decide_eq_false in Hm. apply delete_id. by apply eq_None_not_Some. }
      apply IH. intros o' ?. apply Hm. by right. }
    rewrite Hid in H; [done|]. intros o Ho.
    destruct (op_writes (kvs st) o) eqn:Eo; [|done].
    rewrite <- not_true_iff_false in Ew. exfalso. apply Ew, existsb_exists.
    exists o. split; [by apply list_elem_of_In|done].
Qed.

Lemma txn_ok_wf cmps thn els st r st' :
  store_wf st -> txn_ok cmps thn els st r st' -> store_wf st'.
Proof.
  intros Hwf H. unfold txn_ok in H. destruct r as [b|e].
  - destruct H as [_ [_ ->]]. by apply store_wf_apply_ops.
  - destruct H as [->|[_ ->]]; [done|by apply store_wf_apply_ops].
Qed.

Lemma ev_ok_wf {X} (e : Ev X) st x st' : store_wf st -> ev_ok e st x st' -> store_wf st'.
Proof.
  intros Hwf. destruct e; simpl; try (by intros [-> _]); try (by intros ->);
    by apply txn_ok_wf.
Qed.

Lemma store_wf_expire l st : store_wf st -> store_wf (expire l st).
Proof.
  intros [Hr Hwf]. split; [simpl; lia|]. simpl. intros k e [H _]%map_lookup_filter_Some.
  apply Hwf in H. lia.
Qed.

Lemma store_wf_grant l st : store_wf st -> store_wf (grant l st).
Proof. done. Qed.

Lemma run_wf `{World W} {A} (p : Prog A) w :
  store_wf (store_of w) -> store_wf (store_of (run p w).2).
Proof.
  revert w. induction p as [a| |X e k IH]; intros w Hwf; simpl; [done..|].
  pose proof (handle_sound _ e w) as H0. destruct (handle e w) as [x w']. simpl in *.
  apply IH. by eapply ev_ok_wf.
Qed.

(** The outcome of a transaction, branch by branch. *)
Definition txn_cases (cmps : list Cmp) (thn els : list Op) (st : Store)
    (r : result EtcdErr bool) (st' : Store) : Prop :=
  let hold := forallb (cmp_holds (kvs st)) cmps in
  let yes := hold = true /\ Forall (op_admissible st) thn /\ st' = apply_ops st thn in
  let no := hold = false /\ Forall (op_admissible st) els /\ st' = apply_ops st els in
  match r with
  | Ok true => yes
  | Ok false => no
  | Err _ => st' = st \/ yes \/ no
  end.

Lemma txn_ok_cases cmps thn els st r st' :
  txn_ok cmps thn els st r st' -> txn_cases cmps thn els st r st'.
Proof.
  unfold txn_ok, txn_cases. cbv zeta. destruct (forallb _ cmps) eqn:E; intros H.
  - destruct r as [b|e]; [by destruct H as (-> & ? & ->)|destruct H as [|[? ?]]; auto].
  - destruct r as [b|e]; [by destruct H as (-> & ? & ->)|destruct H as [|[? ?]]; auto].
Qed.

(** Comparisons, read as facts on the entries. *)
Lemma cmp_modrev st k r : 1 <= r ->
  cmp_holds (kvs st) (CModRevision k r) = true <->
  exists e, kvs st !! k = Some e /\ e_modrev e = r.
Proof.
  intros Hr. simpl. rewrite Z.eqb_eq. destruct (kvs st !! k) as [e|].
  - split; [eauto|]. by intros (e' & [= ->] & ?).
  - split; [lia|by intros (e' & ? & _)].
Qed.

Lemma cmp_value st k v :
  cmp_holds (kvs st) (CValue k v) = true <-> e_value <$> kvs st !! k = Some v.
Proof.
  simpl. destruct (kvs st !! k) as [e|]; simpl; [|done].
  rewrite String.eqb_eq. split; [by intros ->|by intros [=]].
Qed.

(** Ranges are the entries of the prefix. *)
Lemma elem_of_range_all st p k e :
  (k, e) ∈ range st p None <-> kvs st !! k = Some e /\ HasPrefix k p = true.
Proof.
  unfold range. rewrite merge_sort_Permutation, list_elem_of_filter, elem_of_map_to_list.
  simpl. tauto.
Qed.

Lemma elem_of_range st p limit k e :
  (k, e) ∈ range st p limit -> kvs st !! k = Some e /\ HasPrefix k p = true.
Proof.
  intros H. apply elem_of_range_all. unfold range in *. destruct limit; [|done].
  by eapply elem_of_take_sub.
Qed.

#[export] Instance key_le_trans : Transitive key_le.
Proof. intros x y z. apply string_leb_trans. Qed.

#[export] Instance key_le_total : Total key_le.
Proof. intros x y. apply String.leb_total. Qed.

(** The listing of a prefix starts with the least of its keys. *)
Lemma range_first st p k e n : kvs st !! k = Some e -> HasPrefix k p = true ->
  (forall k', HasPrefix k' p = true -> is_Some (kvs st !! k') -> String.leb k k' = true) ->
  exists rest, range st p (Some (S n)) = (k, e) :: rest.
Proof.
  intros Hk Hp Hmin. unfold range. set (l := filter _ _).
  assert (forall x, x ∈ l <-> HasPrefix x.1 p = true /\ kvs st !! x.1 = Some x.2) as Hl.
  { intros [k' e']. subst l. by rewrite list_elem_of_filter, elem_of_map_to_list. }
  pose proof (Sorted_merge_sort key_le l) as Hs.
  pose proof (merge_sort_Permutation key_le l) as Hperm.
  assert ((k, e) ∈ merge_sort key_le l) as Hin by (rewrite Hperm; by apply Hl).
  destruct (merge_sort key_le l) as [|[k1 e1] rest]; [by apply elem_of_nil in Hin|].
  assert ((k1, e1) ∈ l) as H1 by (rewrite <- Hperm; left).
  apply Hl in H1 as [Hp1 Hk1]. cbn [fst snd] in *.
  assert (k1 = k) as ->.
  { apply elem_of_cons in Hin as [[= -> ->]|Hin]; [done|].
    apply String.leb_antisym; [|apply Hmin; eauto].
    apply Sorted_StronglySorted in Hs; [|exact key_le_trans]. apply StronglySorted_inv in Hs as [_ Hs].
    rewrite Forall_forall in Hs. by apply (Hs _ Hin). }
  assert (e1 = e) as -> by congruence. by exists (take n rest).
Qed.

(** One turn of [run]: name the answer and the new world, keep what the law
    says about them. *)
Ltac run_step x w' H :=
  match goal with
  | |- context [handle ?e ?w] =>
      pose proof (handle_sound _ e w) as H;
      destruct (handle e w) as [x w'] eqn:?; cbn [fst snd] in H; cbn [run]
  end.

(** ** A concrete world

    The key space itself, with scripts for the faults of the requests, the
    clock, the leadership, the claim lease and the random numbers.  A script
    that runs out repeats a default. *)

Inductive fault := FNone | FLost | FApplied.

Record MemWorld := mkMem {
  mem_store : Store;
  mem_faults : list fault;
  mem_clock : list Time;
  mem_leader : list bool;
  mem_lease : list LeaseID;
  mem_rand : list Z;
  mem_cmds : list CmdOutcome;
}.

Definition mem_of (st : Store) : MemWorld := mkMem st [] [] [] [] [] [].

#[export] Instance op_admissible_dec st o : Decision (op_admissible st o).
Proof. unfold op_admissible. destruct o; apply _. Defined.

Definition mem_read {A} (w : MemWorld) (r : A) : result EtcdErr A * MemWorld :=
  match mem_faults w with
  | [] => (Ok r, w)
  | f :: fs =>
      let w' := mkMem (mem_store w) fs (mem_clock w) (mem_leader w) (mem_lease w) (mem_rand w)
                  (mem_cmds w) in
      match f with FNone => (Ok r, w') | _ => (Err "etcd: read failed", w') end
  end.

Definition mem_txn (w : MemWorld) (cmps : list Cmp) (thn els : list Op)
    : result EtcdErr bool * MemWorld :=
  let st := mem_store w in
  let set st' fs := mkMem st' fs (mem_clock w) (mem_leader w) (mem_lease w) (mem_rand w)
                  (mem_cmds w) in
  let b := forallb (cmp_holds (kvs st)) cmps in
  let ops := if b then thn else els in
  let fs := tail (mem_faults w) in
  if decide (Forall (op_admissible st) ops) then
    match head (mem_faults w) with
    | Some FLost => (Err "etcd: request lost", set st fs)
    | Some FApplied => (Err "etcd: answer lost", set (apply_ops st ops) fs)
    | _ => (Ok b, set (apply_ops st ops) fs)
    end
  else (Err "etcdserver: requested lease not found", set st fs).

Definition mem_handle {X} (e : Ev X) : MemWorld -> X * MemWorld :=
  match e in Ev X return MemWorld -> X * MemWorld with
  | Get k => fun w => mem_read w (kvs (mem_store w) !! k)
  | GetPrefix p limit => fun w => mem_read w (range (mem_store w) p limit)
  | CountPrefix p => fun w => mem_read w (Z.of_nat (length (range (mem_store w) p None)))
  | Put k v l => fun w =>
      let '(r, w') := mem_txn w [] [OpPut k v l] [] in
      ((match r with Ok _ => Ok tt | Err e => Err e end), w')
  | Txn c t f => fun w => mem_txn w c t f
  | Now => fun w =>
      (default 0 (head (mem_clock w)),
       mkMem (mem_store w) (mem_faults w) (tail (mem_clock w)) (mem_leader w) (mem_lease w)
         (mem_rand w) (mem_cmds w))
  | RandIntn n => fun w =>
      (default 0 (head (mem_rand w)) mod n,
       mkMem (mem_store w) (mem_faults w) (mem_clock w) (mem_leader w) (mem_lease w)
         (tail (mem_rand w)) (mem_cmds w))
  | IsLeader => fun w =>
      (default true (head (mem_leader w)),
       mkMem (mem_store w) (mem_faults w) (mem_clock w) (tail (mem_leader w)) (mem_lease w)
         (mem_rand w) (mem_cmds w))
  | ClaimLease => fun w =>
      (default NoLease (head (mem_lease w)),
       mkMem (mem_store w) (mem_faults w) (mem_clock w) (mem_leader w) (tail (mem_lease w))
         (mem_rand w) (mem_cmds w))
  | Command argv timeout => fun w =>
      (default (mkCmd "" "" 0 false None) (head (mem_cmds w)),
       mkMem (mem_store w) (mem_faults w) (mem_clock w) (mem_leader w) (mem_lease w)
         (mem_rand w) (tail (mem_cmds w)))
  end.

Lemma mem_read_ok {A} w (r : A) :
  mem_store (mem_read w r).2 = mem_store w /\
  match (mem_read w r).1 with Ok x => x = r | Err _ => True end.
Proof. unfold mem_read. by destruct (mem_faults w) as [|[] ?]. Qed.

Lemma mem_txn_ok w cmps thn els :
  txn_ok cmps thn els (mem_store w) (mem_txn w cmps thn els).1
    (mem_store (mem_txn w cmps thn els).2).
Proof.
  unfold mem_txn, txn_ok. cbv zeta. case_decide; [|by left].
  destruct (head (mem_faults w)) as [[]|]; simpl; auto.
Qed.

#[export] Program Instance MemWorld_World : World MemWorld := {
  handle := @mem_handle;
  store_of := mem_store;
}.
Next Obligation.
  intros X e w. destruct e; simpl; try apply mem_read_ok; try apply mem_txn_ok; try done.
  - pose proof (mem_txn_ok w [] [OpPut k v lease] []) as H.
    destruct (mem_txn w [] [OpPut k v lease] []) as [[b|e] w']; simpl in *; [|done].
    by destruct H as [-> H].
  - split; [done|]. intros. by apply Z.mod_pos_bound.
Qed.

(** A world without faults. *)
Definition calm (w : MemWorld) : Prop := mem_faults w = [].

Lemma mem_txn_calm w cmps thn els : calm w ->
  let ops := if forallb (cmp_holds (kvs (mem_store w))) cmps then thn else els in
  Forall (op_admissible (mem_store w)) ops ->
  (mem_txn w cmps thn els).1 = Ok (forallb (cmp_holds (kvs (mem_store w))) cmps) /\
  mem_store (mem_txn w cmps thn els).2 = apply_ops (mem_store w) ops /\
  calm (mem_txn w cmps thn els).2.
Proof.
  intros Hc ops Ha. unfold mem_txn, calm in *. rewrite Hc. fold ops. by rewrite decide_True.
Qed.

Lemma mem_read_calm {A} w (r : A) : calm w -> mem_read w r = (Ok r, w).
Proof. intros Hc. unfold mem_read. by rewrite Hc. Qed.
