(* ===== verification/Exec.v ===== *)
(** * Runs among other clients of etcd

    [run] (in [Etcd.v]) runs a program alone.  [exec p st o st'] runs it while
    anybody else may use the same key space between its requests: the store may
    have moved to any [later] one before each request and after the last.

    [later] is what etcd guarantees whatever the other clients do: revisions
    grow, and an entry that carries an old revision is the old entry.  It is all
    the theorems on concurrent runs assume. *)
From S2P Require Import Prelude GoStrings GoTime Etcd.

Open Scope string_scope.
Open Scope Z_scope.

Definition later (st st' : Store) : Prop :=
  store_wf st' /\ revision st <= revision st' /\
  forall k e, kvs st' !! k = Some e -> e_modrev e <= revision st -> kvs st !! k = Some e.

Lemma later_refl st : store_wf st -> later st st.
Proof. by intros. Qed.

Lemma later_trans st1 st2 st3 : later st1 st2 -> later st2 st3 -> later st1 st3.
Proof.
  intros (_ & Hr1 & H1) (Hwf & Hr2 & H2). split_and!; [done|lia|].
  intros k e He Hm. apply H1; [|done]. apply H2; [done|lia].
Qed.

Lemma later_wf st st' : later st st' -> store_wf st'.
Proof. by intros []. Qed.

(** A transaction that writes nothing leaves the entries alone; the entries it
    writes carry a new revision. *)
Lemma apply_ops_later st ops : store_wf st -> later st (apply_ops st ops).
Proof.
  intros Hwf. split_and!; [by apply store_wf_apply_ops|simpl; case_match; lia|].
  unfold apply_ops. cbn [kvs]. set (rev := revision st + 1).
  apply (foldl_inv (fun m => forall k e, m !! k = Some e -> e_modrev e <= revision st ->
    kvs st !! k = Some e)); [|by intros].
  intros m [k1 v l|k1] _ IH k e; simpl.
  - rewrite lookup_insert. case_decide; [|apply IH]. intros [= <-]. cbn [e_modrev].
    subst rev. lia.
  - rewrite lookup_delete. case_decide; [done|apply IH].
Qed.

Lemma expire_later l st : store_wf st -> later st (expire l st).
Proof.
  intros Hwf. split_and!; [by apply store_wf_expire|simpl; lia|].
  simpl. by intros k e [H _]%map_lookup_filter_Some.
Qed.

Lemma grant_later l st : store_wf st -> later st (grant l st).
Proof. intros Hwf. by split_and!. Qed.

Lemma txn_ok_later cmps thn els st r st' :
  store_wf st -> txn_ok cmps thn els st r st' -> later st st'.
Proof.
  intros Hwf H. unfold txn_ok in H. destruct r as [b|e].
  - destruct H as (_ & _ & ->). by apply apply_ops_later.
  - destruct H as [->|[_ ->]]; [by apply later_refl|by apply apply_ops_later].
Qed.

Lemma ev_ok_later {X} (e : Ev X) st x st' : store_wf st -> ev_ok e st x st' -> later st st'.
Proof.
  intros Hwf. destruct e; simpl;
    first [by intros [-> _]; apply later_refl | by intros ->; apply later_refl
          | by apply txn_ok_later].
Qed.

(** ** Runs *)

Fixpoint exec {A} (p : Prog A) (st : Store) (o : outcome A) (st' : Store) : Prop :=
  match p with
  | Ret a => o = Done a /\ later st st'
  | Panic => o = Panicked /\ later st st'
  | Vis e k => exists st1 x st2, later st st1 /\ ev_ok e st1 x st2 /\ exec (k x) st2 o st'
  end.

Lemma exec_before {A} (p : Prog A) st0 st o st' : later st0 st -> exec p st o st' -> exec p st0 o st'.
Proof.
  intros Hl. destruct p as [a| |X e k]; simpl.
  - intros [-> H]. split; [done|]. by eapply later_trans.
  - intros [-> H]. split; [done|]. by eapply later_trans.
  - intros (st1 & x & st2 & H1 & H2 & H3). exists st1, x, st2. split_and!; try done.
    by eapply later_trans.
Qed.

Lemma exec_later {A} (p : Prog A) st o st' : store_wf st -> exec p st o st' -> later st st'.
Proof.
  revert st. induction p as [a| |X e k IH]; simpl; intros st Hwf; [by intros []..|].
  intros (st1 & x & st2 & H1 & H2 & H3).
  assert (later st1 st2) as Hl by (eapply ev_ok_later; [by eapply later_wf|done]).
  eapply later_trans; [exact H1|]. eapply later_trans; [exact Hl|].
  eapply IH; [by eapply later_wf|done].
Qed.

Lemma exec_bind {A B} (p : Prog A) (f : A -> Prog B) st o st' :
  store_wf st -> exec (prog_bind p f) st o st' ->
  (exists a st1, exec p st (Done a) st1 /\ exec (f a) st1 o st') \/
  (o = Panicked /\ exec p st Panicked st').
Proof.
  revert st. induction p as [a| |X e k IH]; simpl; intros st Hwf.
  - intros H. left. exists a, st. split; [|done]. split; [done|by apply later_refl].
  - intros [-> H]. by right.
  - intros (st1 & x & st2 & H1 & H2 & H3).
    assert (later st1 st2) as Hl by (eapply ev_ok_later; [by eapply later_wf|done]).
    destruct (IH x st2 ltac:(by eapply later_wf) H3) as [(a & st3 & Ha & Hf)|[-> Hp]].
    + left. exists a, st3. split; [|done]. by exists st1, x, st2.
    + right. split; [done|]. by exists st1, x, st2.
Qed.

(** A run in a world is a run nobody interferes with. *)
Lemma run_exec `{World W} {A} (p : Prog A) (w : W) : store_wf (store_of w) ->
  exec p (store_of w) (run p w).1 (store_of (run p w).2).
Proof.
  revert w. induction p as [a| |X e k IH]; intros w Hwf; simpl.
  - split; [done|]. by apply later_refl.
  - split; [done|]. by apply later_refl.
  - run_step x w' H1. exists (store_of w), x, (store_of w'). split_and!.
    + by apply later_refl.
    + done.
    + apply IH. eapply later_wf. by eapply ev_ok_later.
Qed.

(** Take an [exec] of a request apart: the store the request found, its answer,
    the store it left, and what is known of them. *)
Ltac exec_step H st1 x st2 Hl He :=
  cbn [exec prog_bind call] in H;
  destruct H as (st1 & x & st2 & Hl & He & H).

(** The entry read at [k] with its revision is still there if [k] still carries
    this revision. *)
Lemma later_same_rev st st' k e :
  store_wf st -> later st st' -> kvs st !! k = Some e ->
  cmp_holds (kvs st') (CModRevision k (e_modrev e)) = true -> kvs st' !! k = Some e.
Proof.
  intros Hwf (Hwf' & _ & Hl) Hk Hc. destruct Hwf as [_ Hwf]. pose proof (Hwf _ _ Hk) as [_ Hm].
  apply cmp_modrev in Hc as (e' & He' & Hr); [|lia]. rewrite He'.
  pose proof (Hl _ _ He' ltac:(lia)) as Hk'. rewrite Hk in Hk'. by injection Hk' as ->.
Qed.
