(* ===== verification/System.v ===== *)
(** * Many programs on one etcd

    Any number of programs run against one key space, one request at a time and
    in any order; a program may start or vanish (a crash) at any moment, leases
    are granted and expire at any moment, and every answer is any answer the
    documented behaviour ([ev_ok]) allows, errors included.

    A [Protocol] is what the programs promise each other: an invariant of the
    key space, a guarantee on each of its steps, and what a program may rely on
    across any number of steps of the others.  [wp] proves that a program
    keeps a protocol while the others may move the store between its requests;
    [reachable_ok] and [reachable_step_ok] carry that over to the system. *)
From S2P Require Import Prelude GoStrings GoTime Etcd Exec.

Open Scope orbix_scope.
Open Scope Z_scope.

(** ** Steps of the system *)

Definition config : Type := Store * list (Prog unit).

Section steps.
Context (program : Prog unit -> Prop).

Inductive sys_step : config -> config -> Prop :=
| step_call st st' X (e : Ev X) k x ts i :
    ts !! i = Some (Vis e k) -> ev_ok e st x st' ->
    sys_step (st, ts) (st', <[i := k x]> ts)
| step_start st ts p : program p -> sys_step (st, ts) (st, p :: ts)
| step_crash st ts i : sys_step (st, ts) (st, delete i ts)
| step_expire st ts l : l <> NoLease -> sys_step (st, ts) (expire l st, ts)
| step_grant st ts l : sys_step (st, ts) (grant l st, ts).

Inductive reachable (c0 : config) : config -> Prop :=
| reach_refl : reachable c0 c0
| reach_step c c' : reachable c0 c -> sys_step c c' -> reachable c0 c'.

Lemma reach_trans c0 c1 c2 : reachable c0 c1 -> reachable c1 c2 -> reachable c0 c2.
Proof. intros H1 H2. induction H2; [done|]. by eapply reach_step. Qed.
End steps.

(** *** A program run in a world is a run of the system

    [after n p w]: what is left of [p], and the world, after [n] requests. *)
Fixpoint after `{World W} {A} (n : nat) (p : Prog A) (w : W) : Prog A * W :=
  match n, p with
  | S n', Vis e k => let '(x, w') := handle e w in after n' (k x) w'
  | _, _ => (p, w)
  end.

Definition is_request {A} (p : Prog A) : bool := match p with Vis _ _ => true | _ => false end.

Lemma after_step `{World W} program (p : Prog unit) (w : W) n ts :
  is_request (after n p w).1 = true ->
  sys_step program (store_of (after n p w).2, (after n p w).1 :: ts)
    (store_of (after (S n) p w).2, (after (S n) p w).1 :: ts).
Proof.
  revert p w. induction n as [|n IH]; intros p w Hr.
  - destruct p as [a| |X e k]; [done..|]. cbn [after fst snd]. run_step x w' He.
    apply (step_call program (store_of w) (store_of w') X e k x (Vis e k :: ts) 0); done.
  - destruct p as [a| |X e k]; [done..|]. cbn [after] in Hr |- *.
    destruct (handle e w) as [x w']. by apply IH.
Qed.

Lemma after_reachable `{World W} program (p : Prog unit) (w : W) n ts st0 :
  reachable program (st0, []) (store_of w, p :: ts) ->
  reachable program (st0, []) (store_of (after n p w).2, (after n p w).1 :: ts).
Proof.
  intros H0. induction n as [|n IH]; [by destruct p|].
  destruct (is_request (after n p w).1) eqn:E.
  - eapply reach_step; [exact IH|]. by apply after_step.
  - assert (after (S n) p w = after n p w) as ->; [|done]. clear IH H0.
    revert p w E. induction n as [|n IH]; intros p w E.
    + by destruct p.
    + destruct p as [a| |X e k]; [done..|]. cbn [after] in E |- *.
      destruct (handle e w) as [x w']. by apply IH.
Qed.

(** A program that has just started. *)
Lemma started_reachable (program : Prog unit -> Prop) p st0 : program p ->
  reachable program (st0, []) (st0, [p]).
Proof. intros Hp. eapply reach_step; [apply reach_refl|]. by apply step_start. Qed.

(** ** Protocols *)

Record Protocol := mkProtocol {
  inv : Store -> Prop;
  guar : Store -> Store -> Prop;
  rely : Store -> Store -> Prop;
  inv_wf : forall st, inv st -> store_wf st;
  guar_refl : forall st, guar st st;
  guar_rely : forall st st', guar st st' -> rely st st';
  rely_trans : forall st1 st2 st3, rely st1 st2 -> rely st2 st3 -> rely st1 st3;
  inv_expire : forall l st, inv st -> l <> NoLease -> inv (expire l st) /\ guar st (expire l st);
  inv_grant : forall l st, inv st -> inv (grant l st) /\ guar st (grant l st);
}.

Section logic.
Context (P : Protocol).

(** Every request of [p] keeps the protocol, and [Q] holds where [p] ends. *)
Fixpoint wp {A} (p : Prog A) (Q : A -> Store -> Prop) (st : Store) : Prop :=
  match p with
  | Ret a => Q a st
  | Panic => True
  | @Vis _ _ X e k => forall st1 x st2, later st st1 -> rely P st st1 -> inv P st1 ->
      ev_ok e st1 x st2 -> inv P st2 /\ guar P st1 st2 /\ wp (k x) Q st2
  end.

Definition safe {A} (p : Prog A) : Store -> Prop := wp p (fun _ _ => True).

Lemma wp_bind {A B} (p : Prog A) (f : A -> Prog B) Q st :
  wp p (fun a => wp (f a) Q) st -> wp (prog_bind p f) Q st.
Proof.
  revert st. induction p as [a| |X e k IH]; simpl; intros st H; [done..|].
  intros st1 x st2 H1 H2 H3 H4. destruct (H _ _ _ H1 H2 H3 H4) as (? & ? & ?). auto.
Qed.

Lemma wp_mono {A} (p : Prog A) (Q Q' : A -> Store -> Prop) st :
  wp p Q st -> (forall a st', Q a st' -> Q' a st') -> wp p Q' st.
Proof.
  intros H HQ. revert st H. induction p as [a| |X e k IH]; simpl; intros st H; [by auto|done|].
  intros st1 x st2 H1 H2 H3 H4. destruct (H _ _ _ H1 H2 H3 H4) as (? & ? & ?). auto.
Qed.

(** What a program may do now, it may do later. *)
Lemma safe_later {A} (p : Prog A) st st' :
  later st st' -> rely P st st' -> safe p st -> safe p st'.
Proof.
  intros Hl Hr. destruct p as [a| |X e k]; simpl; [done..|].
  intros H st1 x st2 H1 H2. apply H; [by eapply later_trans|by eapply rely_trans].
Qed.

Lemma safe_ret {A} (a : A) st : safe (Ret a) st.
Proof. done. Qed.

(** Two safe parts make a safe whole. *)
Lemma safe_bind {A B} (p : Prog A) (f : A -> Prog B) st :
  safe p st -> (forall a st', safe (f a) st') -> safe (prog_bind p f) st.
Proof.
  intros Hp Hf. apply wp_bind. eapply wp_mono; [exact Hp|]. intros a st' _. apply Hf.
Qed.

(** A request that cannot write: the protocol holds trivially. *)
Definition reads {X} (e : Ev X) : Prop :=
  forall st x st', ev_ok e st x st' -> st' = st.

Lemma wp_read {X A} (e : Ev X) (k : X -> Prog A) Q st :
  reads e ->
  (forall st1 x, later st st1 -> rely P st st1 -> inv P st1 -> ev_ok e st1 x st1 -> wp (k x) Q st1) ->
  wp (Vis e k) Q st.
Proof.
  intros Hr Hk st1 x st2 Hl Hrely Hi He. assert (st2 = st1) as -> by (by eapply Hr).
  split; [done|]. split; [apply guar_refl|]. by apply Hk.
Qed.

(** Any other request, by what it does to the store. *)
Lemma safe_vis {X A} (e : Ev X) (k : X -> Prog A) st :
  (forall st1 x st2, later st st1 -> rely P st st1 -> inv P st1 -> ev_ok e st1 x st2 ->
     inv P st2 /\ guar P st1 st2) ->
  (forall x st', safe (k x) st') -> safe (Vis e k) st.
Proof.
  intros He Hk st1 x st2 H1 H2 H3 H4. destruct (He _ _ _ H1 H2 H3 H4).
  split_and!; try done. apply Hk.
Qed.

Lemma txn_keeps cmps thn els st r st' :
  inv P st -> txn_ok cmps thn els st r st' ->
  (forallb (cmp_holds (kvs st)) cmps = true -> Forall (op_admissible st) thn ->
     inv P (apply_ops st thn) /\ guar P st (apply_ops st thn)) ->
  (forallb (cmp_holds (kvs st)) cmps = false -> Forall (op_admissible st) els ->
     inv P (apply_ops st els) /\ guar P st (apply_ops st els)) ->
  inv P st' /\ guar P st st'.
Proof.
  intros Hi H%txn_ok_cases Ht He. unfold txn_cases in H. cbv zeta in H.
  destruct r as [[]|e].
  - destruct H as (Hb & Ha & ->). by apply Ht.
  - destruct H as (Hb & Ha & ->). by apply He.
  - destruct H as [->|[(Hb & Ha & ->)|(Hb & Ha & ->)]];
      [split; [done|apply guar_refl]|by apply Ht|by apply He].
Qed.

(** ** From programs to the system *)

Context (program : Prog unit -> Prop).
Hypothesis program_safe : forall p st, program p -> safe p st.

Definition config_ok (c : config) : Prop := inv P c.1 /\ Forall (fun p => safe p c.1) c.2.

Lemma Forall_safe_later ts st st' : later st st' -> rely P st st' ->
  Forall (fun p : Prog unit => safe p st) ts -> Forall (fun p => safe p st') ts.
Proof. intros Hl Hr H. eapply Forall_impl; [exact H|]. intros p. by apply safe_later. Qed.

Lemma sys_step_ok c c' : config_ok c -> sys_step program c c' ->
  config_ok c' /\ guar P c.1 c'.1 /\ later c.1 c'.1.
Proof.
  intros [HI Hts] Hs. pose proof (inv_wf _ _ HI) as Hwf. pose proof (later_refl _ Hwf) as Hrefl.
  destruct Hs as [st st' X e k x ts i Hi He|st ts p Hp|st ts i|st ts l Hl|st ts l];
    cbn [fst snd] in *.
  - assert (later st st') as Hlater by (by eapply ev_ok_later).
    rewrite Forall_lookup in Hts. pose proof (Hts i _ Hi) as Hsafe.
    destruct (Hsafe st x st' Hrefl (guar_rely _ _ _ (guar_refl P st)) HI He) as (HI' & HG & Hk). split; [|done]. split; [done|].
    cbn [snd]. apply Forall_insert; [|done]. apply (Forall_safe_later _ st); [done|by apply guar_rely|].
    by apply Forall_lookup.
  - split; [|split; [apply guar_refl|done]]. split; [done|]. constructor; [by apply program_safe|done].
  - split; [|split; [apply guar_refl|done]]. split; [done|]. by apply Forall_delete.
  - destruct (inv_expire P l st HI Hl). pose proof (expire_later l st Hwf).
    split; [|done]. split; [done|]. eapply Forall_safe_later; [done|by apply guar_rely|done].
  - destruct (inv_grant P l st HI). pose proof (grant_later l st Hwf).
    split; [|done]. split; [done|]. eapply Forall_safe_later; [done|by apply guar_rely|done].
Qed.

Lemma reachable_ok st0 c : inv P st0 -> reachable program (st0, []) c -> config_ok c.
Proof.
  intros H0. induction 1 as [|c c' _ IH Hs]; [split; [done|constructor]|].
  by apply (sys_step_ok c).
Qed.

Lemma reachable_step_ok st0 c c' : inv P st0 -> reachable program (st0, []) c ->
  sys_step program c c' -> inv P c'.1 /\ guar P c.1 c'.1.
Proof.
  intros H0 Hr Hs. pose proof (reachable_ok st0 c H0 Hr) as Hc.
  destruct (sys_step_ok c c' Hc Hs) as ([? _] & ? & _). done.
Qed.
End logic.

(** Step over a request that only reads, keeping its answer. *)
Tactic Notation "wp_next" ident(st) simple_intropattern(x) :=
  apply wp_read;
  [first [by intros ? ? ? -> | by intros ? ? ? [-> _]] | intros st x _ _ _ _].
