(* ===== verification/Effects.v ===== *)
(** * Programs with requests of their own

    [Exec] and [System] run programs whose requests go to etcd alone.  The parts
    of the code that also keep state of their own (a node, the history mirror,
    the API server) have their own type of requests [E] and their own world [W].
    This file runs such programs, given what each request may answer ([ok]) and
    what others may do to the world between two requests ([env]), and gives a
    program logic for them: [wpE p Q w] says that from [w] every request of [p]
    keeps the guarantee [G], and that [Q] holds where [p] ends, also when it ends
    in a panic. *)
From S2P Require Import Prelude GoStrings GoTime Etcd.

Open Scope orbix_scope.
Open Scope Z_scope.

Section effects.
Context {E : Type -> Type} {W : Type}.
Context (ok : forall X, E X -> W -> X -> W -> Prop) (env : W -> W -> Prop).

(** ** Runs *)

Fixpoint execE {A} (p : ProgE E A) (w : W) (o : outcome A) (w' : W) : Prop :=
  match p with
  | Ret a => o = Done a /\ w' = w
  | Panic => o = Panicked /\ w' = w
  | Vis e k => exists w1 x w2, env w w1 /\ ok _ e w1 x w2 /\ execE (k x) w2 o w'
  end.

(** ** The logic *)

Section logic.
Context (G : W -> W -> Prop).

Fixpoint wpE {A} (p : ProgE E A) (Q : outcome A -> W -> Prop) (w : W) : Prop :=
  match p with
  | Ret a => Q (Done a) w
  | Panic => Q Panicked w
  | Vis e k => forall w1 x w2, env w w1 -> ok _ e w1 x w2 -> G w1 w2 /\ wpE (k x) Q w2
  end.

(** Carry on with [f] where a value is returned. *)
Definition after_value {A B} (f : A -> W -> Prop) (Q : outcome B -> W -> Prop)
    (o : outcome A) (w : W) : Prop :=
  match o with Done a => f a w | Panicked => Q Panicked w end.

Lemma wpE_bind {A B} (p : ProgE E A) (f : A -> ProgE E B) Q w :
  wpE p (after_value (fun a => wpE (f a) Q) Q) w -> wpE (prog_bind p f) Q w.
Proof.
  revert w. induction p as [a| |X e k IH]; simpl; intros w H; [done..|].
  intros w1 x w2 H1 H2. destruct (H _ _ _ H1 H2). auto.
Qed.

Lemma wpE_mono {A} (p : ProgE E A) (Q Q' : outcome A -> W -> Prop) w :
  (forall o w', Q o w' -> Q' o w') -> wpE p Q w -> wpE p Q' w.
Proof.
  intros HQ. revert w. induction p as [a| |X e k IH]; simpl; intros w H; [by auto..|].
  intros w1 x w2 H1 H2. destruct (H _ _ _ H1 H2). auto.
Qed.

Lemma wpE_call {X A} (e : E X) (k : X -> ProgE E A) Q w :
  (forall w1 x w2, env w w1 -> ok _ e w1 x w2 -> G w1 w2 /\ wpE (k x) Q w2) ->
  wpE (prog_bind (call e) k) Q w.
Proof. done. Qed.

(** Where a part ends normally, with what it promises. *)
Definition ends {A} (Q : A -> W -> Prop) (o : outcome A) (w : W) : Prop :=
  match o with Done a => Q a w | Panicked => False end.

(** After the first part, the second. *)
Lemma wpE_seq {A B} (p : ProgE E A) (f : A -> ProgE E B) (P : A -> W -> Prop)
    (Q : outcome B -> W -> Prop) w :
  wpE p (ends P) w -> (forall a w', P a w' -> wpE (f a) Q w') -> wpE (prog_bind p f) Q w.
Proof.
  intros Hp Hf. apply wpE_bind. eapply wpE_mono; [|exact Hp].
  intros [a|] w' H; [by apply Hf|done].
Qed.

(** A weaker promise. *)
Lemma wpE_ends {A} (p : ProgE E A) (P P' : A -> W -> Prop) w :
  (forall a w', P a w' -> P' a w') -> wpE p (ends P) w -> wpE p (ends P') w.
Proof. intros HP. apply wpE_mono. intros [a|] w' H; [by apply HP|done]. Qed.

(** Time may pass before a request. *)
Lemma wpE_env {A} (p : ProgE E A) (Q : outcome A -> W -> Prop) w w1 :
  (forall w2 w3, env w2 w3 -> forall o, Q o w2 -> Q o w3) ->
  (forall w2 w3 w4, env w2 w3 -> env w3 w4 -> env w2 w4) ->
  env w w1 -> wpE p Q w -> wpE p Q w1.
Proof.
  intros HQ Htrans He. destruct p as [a| |X e k]; simpl; [by eauto..|].
  intros H w2 x w3 H2. apply H. by eapply Htrans.
Qed.

(** A run meets the postcondition. *)
Lemma wpE_sound {A} (p : ProgE E A) Q w o w' : wpE p Q w -> execE p w o w' -> Q o w'.
Proof.
  revert w. induction p as [a| |X e k IH]; simpl; intros w Hp; [by intros [-> ->]..|].
  intros (w1 & x & w2 & H1 & H2 & H3). destruct (Hp _ _ _ H1 H2). by eapply IH.
Qed.
End logic.

(** Every run of a composition is a run of its parts. *)
Lemma execE_bind {A B} (p : ProgE E A) (f : A -> ProgE E B) w o w' :
  execE (prog_bind p f) w o w' ->
  (exists a w1, execE p w (Done a) w1 /\ execE (f a) w1 o w') \/
  (o = Panicked /\ execE p w Panicked w').
Proof.
  revert w. induction p as [a| |X e k IH]; simpl; intros w.
  - intros H. left. by exists a, w.
  - intros [-> ->]. by right.
  - intros (w1 & x & w2 & H1 & H2 & H3).
    destruct (IH x w2 H3) as [(a & w3 & Ha & Hf)|[-> Hp]].
    + left. exists a, w3. split; [|done]. by exists w1, x, w2.
    + right. split; [done|]. by exists w1, x, w2.
Qed.
End effects.

(** ** Runs that are computed *)

Section computed.
Context {E : Type -> Type} {W : Type} (h : forall X, E X -> W -> X * W).

(** The run that [h] answers, with nobody else around. *)
Fixpoint runE {A} (p : ProgE E A) (w : W) : outcome A * W :=
  match p with
  | Ret a => (Done a, w)
  | Panic => (Panicked, w)
  | Vis e k => let '(x, w') := h _ e w in runE (k x) w'
  end.

Lemma runE_exec (ok : forall X, E X -> W -> X -> W -> Prop) (env : W -> W -> Prop) {A}
    (p : ProgE E A) w :
  (forall w, env w w) -> (forall X (e : E X) w, ok _ e w (h _ e w).1 (h _ e w).2) ->
  execE ok env p w (runE p w).1 (runE p w).2.
Proof.
  intros Henv Hok. revert w. induction p as [a| |X e k IH]; simpl; intros w; [done..|].
  pose proof (Hok X e w) as He. destruct (h X e w) as [x w'] eqn:Eh. exists w, x, w'.
  split; [done|]. split; [exact He|apply IH].
Qed.
End computed.

(** ** Programs that make only some requests *)

Section calls.
Context {E : Type -> Type} (P : forall X, E X -> bool).

Fixpoint calls_only {A} (p : ProgE E A) : Prop :=
  match p with Vis e k => P _ e = true /\ forall x, calls_only (k x) | _ => True end.

Lemma calls_only_bind {A B} (p : ProgE E A) (f : A -> ProgE E B) :
  calls_only p -> (forall a, calls_only (f a)) -> calls_only (prog_bind p f).
Proof. induction p as [| |X e k IH]; simpl; naive_solver. Qed.

Lemma calls_only_embed {F A} (g : forall X, F X -> E X) (p : ProgE F A) :
  (forall X (e : F X), P _ (g _ e) = true) -> calls_only (embed g p).
Proof. intros Hg. induction p; simpl; auto. Qed.

(** What those requests keep, a run of the program keeps. *)
Lemma calls_only_exec {W} (ok : forall X, E X -> W -> X -> W -> Prop) (I : W -> W -> Prop)
    {A} (p : ProgE E A) w o w' :
  (forall w, I w w) -> (forall w1 w2 w3, I w1 w2 -> I w2 w3 -> I w1 w3) ->
  (forall X (e : E X) w x w', P _ e = true -> ok _ e w x w' -> I w w') ->
  calls_only p -> execE ok eq p w o w' -> I w w'.
Proof.
  intros Hr Ht Hk. revert w. induction p as [a| |X e k IH]; simpl; intros w Hp.
  - intros [_ ->]. auto.
  - intros [_ ->]. auto.
  - destruct Hp as [He Hp]. intros (w1 & x & w2 & <- & Hok & Hx). eauto.
Qed.
End calls.

(** Go through a program part by part. *)
Ltac calls_only :=
  repeat first
    [ progress intros
    | apply calls_only_bind
    | apply calls_only_embed
    | match goal with |- calls_only _ (match ?x with _ => _ end) => destruct x end
    | match goal with |- calls_only _ (call _) => split end
    | exact I | reflexivity ].

(** Prove a fact of a run with the logic. *)
Tactic Notation "use_wpE" constr(H) :=
  lazymatch type of H with
  | execE ?ok ?env ?p ?w ?o ?w' =>
      pattern o, w'; refine (wpE_sound ok env (fun _ _ => True) p _ w o w' _ H); cbv beta
  end.
