(* ===== verification/Footprint.v ===== *)
(** * Footprints: the keys a program may write

    [footprint F p]: whatever answers it gets, [p] only puts or deletes keys in
    [F].  A footprint frames a run (other keys keep their entries) and gives
    safety for protocols that do not care about its keys. *)
From S2P Require Import Prelude GoStrings GoTime Etcd Exec System.

Open Scope string_scope.
Open Scope list_scope.
Open Scope orbix_scope.
Open Scope Z_scope.

Definition ev_keys {X} (e : Ev X) : list string :=
  match e with
  | Put k _ _ => [k]
  | Txn _ thn els => map op_key thn ++ map op_key els
  | _ => []
  end.

Definition answer_ok {X} (e : Ev X) (x : X) : Prop := exists st st', ev_ok e st x st'.

Fixpoint footprint (F : string -> Prop) {A} (p : Prog A) : Prop :=
  match p with
  | Ret _ | Panic => True
  | Vis e k => Forall F (ev_keys e) /\ forall x, answer_ok e x -> footprint F (k x)
  end.

(** The keys of some families. *)
Definition in_families (ps : list string) (k : string) : Prop := Exists (fun p => HasPrefix k p = true) ps.

#[export] Instance in_families_dec ps k : Decision (in_families ps k).
Proof. unfold in_families. apply _. Defined.

Lemma footprint_bind F {A B} (p : Prog A) (f : A -> Prog B) :
  footprint F p -> (forall a, footprint F (f a)) -> footprint F (prog_bind p f).
Proof.
  induction p as [a| |X e k IH]; simpl; intros Hp Hf; [done..|].
  destruct Hp as [? Hk]. split; [done|]. intros x Hx. auto.
Qed.

Lemma footprint_mono (F F' : string -> Prop) {A} (p : Prog A) :
  (forall k, F k -> F' k) -> footprint F p -> footprint F' p.
Proof.
  intros HF. induction p as [a| |X e k IH]; simpl; [done..|]. intros [He Hk].
  split; [by eapply Forall_impl|]. auto.
Qed.

(** A request changes its keys at most. *)
Lemma ev_frame {X} (e : Ev X) st x st' k :
  ev_ok e st x st' -> k ∉ ev_keys e -> kvs st' !! k = kvs st !! k.
Proof.
  assert (forall cmps thn els r, txn_ok cmps thn els st r st' ->
    k ∉ map op_key thn ++ map op_key els -> kvs st' !! k = kvs st !! k) as Htxn.
  { intros cmps thn els r H%txn_ok_cases Hk. apply not_elem_of_app in Hk as [Ht He].
    unfold txn_cases in H. cbv zeta in H.
    destruct r as [[]|e']; [destruct H as (_ & _ & ->)|destruct H as (_ & _ & ->)|
      destruct H as [->|[(_ & _ & ->)|(_ & _ & ->)]]];
      solve [done | by apply lookup_apply_ops_ne]. }
  destruct e; simpl; try (by intros [-> _]); try (by intros ->); intros H Hk.
  - eapply Htxn; [exact H|]. simpl. set_solver.
  - by eapply Htxn.
Qed.

(** The frame of a run: nothing outside the footprint changes. *)
Lemma footprint_frame F `{World W} {A} (p : Prog A) (w : W) k :
  footprint F p -> ~ F k -> kvs (store_of (run p w).2) !! k = kvs (store_of w) !! k.
Proof.
  revert w. induction p as [a| |X e f IH]; intros w Hp Hk; simpl; [done..|].
  destruct Hp as [He Hp]. pose proof (handle_sound _ e w) as Hs.
  destruct (handle e w) as [x w']. cbn [fst snd] in Hs.
  rewrite IH; [|apply Hp; by eexists _, _|done].
  eapply ev_frame; [exact Hs|]. intros Hin. rewrite Forall_forall in He. by apply Hk, He.
Qed.

(** A protocol that any write to [F] keeps is kept by programs that write to [F]. *)
Lemma footprint_safe (P : Protocol) (F : string -> Prop) {A} (p : Prog A) st :
  (forall st ops, inv P st -> Forall (fun o => F (op_key o)) ops ->
     Forall (op_admissible st) ops -> inv P (apply_ops st ops) /\ guar P st (apply_ops st ops)) ->
  footprint F p -> safe P p st.
Proof.
  intros HP. revert st. induction p as [a| |X e f IH]; intros st Hp; [done..|].
  destruct Hp as [He Hp]. intros st1 x st2 Hl _ Hi Hx.
  assert (inv P st2 /\ guar P st1 st2) as [? ?].
  { assert (forall cmps thn els r, txn_ok cmps thn els st1 r st2 ->
      Forall F (map op_key thn ++ map op_key els) -> inv P st2 /\ guar P st1 st2) as Htxn.
    { intros cmps thn els r H HF. apply Forall_app in HF as [Ht Hf].
      eapply txn_keeps; [exact Hi|exact H|..]; intros _ Ha; apply HP; try done;
        by apply Forall_map. }
    destruct e; simpl in Hx;
      try (first [subst st2|destruct Hx as [Hx _]; subst st2]; split; [done|apply guar_refl]).
    - eapply Htxn; [exact Hx|]. by rewrite app_nil_r.
    - by eapply Htxn. }
  split_and!; [done..|]. apply IH. apply Hp. by exists st1, st2.
Qed.

(** ** Footprints of programs, step by step *)

(** One request, one branch or one call at a time. *)
Ltac family :=
  solve [ repeat first [ apply HasPrefix_app | assumption | reflexivity | apply Exists_cons_hd; family
                       | apply Exists_cons_tl; family ] ].

Ltac footprint_step :=
  match goal with
  | |- True => exact I
  | |- footprint _ (Ret _) => exact I
  | |- footprint _ Panic => exact I
  | |- footprint _ (prog_bind (call _) _) => cbn [prog_bind call]
  | |- footprint _ (Vis _ _) => split; [cbn [ev_keys map app op_key negb]|intros ? ?]
  | |- footprint _ (call _) => split; [cbn [ev_keys map app op_key negb]|intros ? ?]
  | |- Forall _ [] => constructor
  | |- Forall _ (_ :: _) => constructor
  | |- footprint _ (prog_bind _ _) => apply footprint_bind; [|intros ?]
  | |- footprint _ (match ?x with _ => _ end) => destruct x eqn:?
  end.
