(* ===== verification/Queue.v ===== *)
(** * The queue: [internal/queue]

    Tickets wait under [/cron/tasks/pending/]; a worker that runs one holds a
    key under [/cron/tasks/claimed/], bound to its claim lease, while the
    ticket stays pending; results, overlap locks and watermarks have prefixes
    of their own.  One definition per method, in the order of [queue.go],
    [claim.go], [gc.go] and [snapshot.go]. *)
From S2P Require Import Prelude GoStrings GoTime Model Etcd.
From Stdlib Require Import Ascii.

Open Scope string_scope.
Open Scope list_scope.
Open Scope orbix_scope.
Open Scope Z_scope.

(** ** Keys *)

Definition PendingPrefix := "/cron/tasks/pending/".
Definition ClaimedPrefix := "/cron/tasks/claimed/".
Definition ResultsPrefix := "/cron/results/".
Definition OverlapPrefix := "/cron/overlap/".
Definition WatermarkPrefix := "/cron/watermark/".

Definition stamp_of (id : Z) (sched : string) : string := FormatInt id +:+ String "@" sched.

Definition stamp (t : Ticket) : string := stamp_of (t_JobID t) (t_SchedAt t).

Definition PendingKey (t : Ticket) : string := PendingPrefix +:+ stamp t.
Definition ClaimedKey (t : Ticket) : string := ClaimedPrefix +:+ stamp t.
Definition OverlapKey (jobID : Z) : string := OverlapPrefix +:+ FormatInt jobID.
Definition WatermarkKey (jobID : Z) : string := WatermarkPrefix +:+ FormatInt jobID.
Definition ResultKey (t : Ticket) : string :=
  ResultsPrefix +:+ (stamp t +:+ String "#" (FormatInt (t_Attempt t))).

Definition claimScanLimit : nat := 64.

(** [time.Now().UTC().Format(time.RFC3339)] *)
Definition now_rfc3339 : Prog string := let! now := call Now in Ret (FormatRFC3339 now).

(** [fmt.Errorf("prefix: %w", err)] around an etcd error. *)
Definition wrap_err {A B} (prefix : string) (r : result EtcdErr A) (f : A -> B)
    : result string B :=
  match r with Ok a => Ok (f a) | Err e => Err (prefix +:+ e) end.

Section queue.
Context `{TJ : Json Ticket ticket_valid} `{RJ : Json Result result_valid} (nodeID : string).

(** ** [queue.go] *)

Definition Enqueue (t : Ticket) : Prog (result string bool) :=
  let b := marshal t in
  let key := PendingKey t in
  let! resp := call (Txn [CVersion key 0] [OpPut key b NoLease] []) in
  Ret (wrap_err "queue: enqueue: " resp id).

Definition EnqueueFire (t : Ticket) (fireTime : string) : Prog (result string bool) :=
  let b := marshal t in
  let key := PendingKey t in
  let! resp := call (Txn [CVersion key 0]
                   [OpPut key b NoLease; OpPut (WatermarkKey (t_JobID t)) fireTime NoLease] []) in
  Ret (wrap_err "queue: enqueue fire: " resp id).

Definition AdvanceWatermark (jobID : Z) (fireTime : string) : Prog (result string unit) :=
  let! resp := call (Put (WatermarkKey jobID) fireTime NoLease) in
  Ret (wrap_err "queue: advance watermark: " resp id).

(** [None] is Go's [("", false, nil)]. *)
Definition Watermark (jobID : Z) : Prog (result string (option string)) :=
  let! resp := call (Get (WatermarkKey jobID)) in
  Ret (wrap_err "queue: watermark: " resp (option_map e_value)).

(** Four hexadecimal digits, [%04x] of a number below 65536. *)
Definition hex_digit (n : Z) : ascii :=
  ascii_of_N (if n <? 10 then 48 + Z.to_N n else 87 + Z.to_N n).

Definition hex4 (n : Z) : string :=
  String (hex_digit (n / 4096)) (String (hex_digit (n / 256 mod 16))
    (String (hex_digit (n / 16 mod 16)) (String (hex_digit (n mod 16)) ""))).

Definition manualStamp (now : Time) : Prog string :=
  let! r := call (RandIntn 0xFFFF) in
  Ret (FormatRFC3339Nano now +:+ "-m" +:+ hex4 r).

Definition Trigger (j : Job) : Prog (result string unit) :=
  let! now := call Now in
  let! sched := manualStamp now in
  let t := {| t_JobID := j_ID j; t_Name := j_Name j; t_Command := j_Command j;
              t_TimeoutSec := j_TimeoutSec j; t_MaxRetries := j_MaxRetries j;
              t_NoOverlap := j_NoOverlap j; t_SchedAt := sched; t_Attempt := 0;
              t_NotBefore := ""; t_Manual := true |} in
  let! r := Enqueue t in
  Ret (match r with Ok _ => Ok tt | Err e => Err e end).

(** [time.Duration(1<<uint(attempt)) * time.Second] in 64-bit arithmetic, at
    most five minutes. *)
Definition backoff_delay (attempt : Z) : Duration :=
  let d := wrap64 (wrap64 (shl64 attempt) * Second) in
  if 5 * Minute <? d then 5 * Minute else d.

Definition Backoff (attempt : Z) (now : Time) : Time := now + backoff_delay attempt.

Definition overlapRelease (t : Ticket) : list Op :=
  if negb (t_NoOverlap t) then [] else [OpDelete (OverlapKey (t_JobID t))].

Definition FinishSuccess (t : Ticket) (res : Result) : Prog (result string unit) :=
  let rb := marshal res in
  let pub := OpPut (ResultKey t) rb NoLease in
  let thn := [OpDelete (PendingKey t); OpDelete (ClaimedKey t); pub] ++ overlapRelease t in
  let! resp := call (Txn [CValue (ClaimedKey t) nodeID] thn [pub]) in
  Ret (wrap_err "queue: finish success: " resp (fun _ => tt)).

(** The status a failed run is published with. *)
Definition failure_status (t : Ticket) (res : Result) : string :=
  if t_MaxRetries t <? t_Attempt t then StatusFailedPermanent
  else if String.eqb (r_Status res) "" then StatusFailed else r_Status res.

(** The ticket as it is put back: the same attempt, not before the backoff. *)
Definition retry_ticket (t : Ticket) (now : Time) : Ticket :=
  t_set_NotBefore t (FormatRFC3339 (Backoff (t_Attempt t) now)).

Definition FinishFailure (t : Ticket) (res : Result) (now : Time) : Prog (result string unit) :=
  let giveUp := t_MaxRetries t <? t_Attempt t in
  let res := r_set_Status res (failure_status t res) in
  let rb := marshal res in
  let pub := OpPut (ResultKey t) rb NoLease in
  let thn :=
    if giveUp then [OpDelete (PendingKey t); OpDelete (ClaimedKey t); pub]
    else [OpPut (PendingKey t) (marshal (retry_ticket t now)) NoLease;
          OpDelete (ClaimedKey t); pub] in
  let! resp := call (Txn [CValue (ClaimedKey t) nodeID] (thn ++ overlapRelease t) [pub]) in
  Ret (wrap_err "queue: finish failure: " resp (fun _ => tt)).

(** The result of a ticket that is not run. *)
Definition closing_result (t : Ticket) (status started : string) : Result :=
  {| r_JobID := t_JobID t; r_SchedAt := t_SchedAt t; r_Attempt := t_Attempt t;
     r_NodeID := nodeID; r_Status := status; r_ExitCode := 0; r_StartedAt := started;
     r_FinishedAt := ""; r_DurationMS := 0; r_Stdout := ""; r_Stderr := "" |}.

Definition Abandon (t : Ticket) : Prog (result EtcdErr unit) :=
  let! started := now_rfc3339 in
  let rb := marshal (closing_result t StatusAbandoned started) in
  let! resp := call (Txn [CVersion (ClaimedKey t) 0]
                   [OpDelete (PendingKey t); OpPut (ResultKey t) rb NoLease] []) in
  Ret (match resp with Ok _ => Ok tt | Err e => Err e end).

(** ** [claim.go] *)

(** [key] and [rev] are the key and the [ModRevision] of the entry read.  The
    ticket is changed in place ([t.Attempt++]) also when the claim fails: the
    answer carries it.  On an etcd error the client answers a nil response, and
    the code reads [resp.Succeeded] before it looks at the error. *)
Definition claim (key : string) (rev : Z) (t0 : Ticket) : Prog (bool * Ticket) :=
  let claimK := ClaimedPrefix +:+ str_drop (String.length PendingPrefix) key in
  let t := t_set_Attempt t0 (wrap64 (t_Attempt t0 + 1)) in
  let tb := marshal t in
  let! l1 := call ClaimLease in
  let cmps := [CVersion claimK 0; CModRevision key rev] in
  let thn := [OpPut claimK nodeID l1; OpPut key tb NoLease] in
  let! '(cmps, thn) := (if t_NoOverlap t then
                    let! l2 := call ClaimLease in
                    Ret (cmps ++ [CVersion (OverlapKey (t_JobID t)) 0],
                         thn ++ [OpPut (OverlapKey (t_JobID t)) nodeID l2])
                  else Ret (cmps, thn)) in
  let! resp := call (Txn cmps thn []) in
  match resp with
  | Ok succeeded => Ret (succeeded, t)
  | Err _ => Panic
  end.

Definition overlapHeld (jobID : Z) : Prog bool :=
  let! resp := call (Get (OverlapKey jobID)) in
  Ret (match resp with Ok (Some _) => true | _ => false end).

Definition skipStale (key : string) (rev : Z) (t : Ticket) : Prog (result EtcdErr unit) :=
  let! started := now_rfc3339 in
  let rb := marshal (closing_result t StatusSkipped started) in
  let! resp := call (Txn [CModRevision key rev] [OpDelete key; OpPut (ResultKey t) rb NoLease] []) in
  Ret (match resp with Ok _ => Ok tt | Err e => Err e end).

(** The ticket asks to wait: [NotBefore] is a time after [now]. *)
Definition not_yet (t : Ticket) (now : Time) : bool :=
  if String.eqb (t_NotBefore t) "" then false
  else match ParseRFC3339 (t_NotBefore t) with Some nb => now <? nb | None => false end.

Fixpoint claim_scan (entries : list (string * Entry)) (now : Time)
    : Prog (result string (option Ticket)) :=
  match entries with
  | [] => Ret (Ok None)
  | (key, e) :: rest =>
      match unmarshal (e_value e) with
      | None => claim_scan rest now
      | Some t =>
          if not_yet t now then claim_scan rest now
          else
            let! '(ok, t) := claim key (e_modrev e) t in
            if (ok : bool) then Ret (Ok (Some t))
            else
              let! held := (if t_NoOverlap t then overlapHeld (t_JobID t) else Ret false) in
              if (held : bool) then
                let! r := skipStale key (e_modrev e) t in
                match r with
                | Err err => Ret (Err err)
                | Ok _ => claim_scan rest now
                end
              else claim_scan rest now
      end
  end.

Definition ClaimNext (now : Time) : Prog (result string (option Ticket)) :=
  let! resp := call (GetPrefix PendingPrefix (Some claimScanLimit)) in
  match resp with
  | Err e => Ret (Err ("queue: scan: " +:+ e))
  | Ok entries => claim_scan entries now
  end.

(** ** [gc.go] *)

(** [a.Sub(b)] saturates at the ends of [time.Duration]. *)
Definition time_sub (a b : Time) : Duration := Z.max (- 2 ^ 63) (Z.min (2 ^ 63 - 1) (a - b)).

(** The result is readable, has a readable time, and is older than [retention]. *)
Definition is_doomed (retention : Duration) (now : Time) (e : Entry) : bool :=
  match unmarshal (e_value e) with
  | None => false
  | Some r =>
      let st := if String.eqb (r_FinishedAt r) "" then r_StartedAt r else r_FinishedAt r in
      if String.eqb st "" then false
      else match ParseRFC3339 st with
           | None => false
           | Some t => retention <? time_sub now t
           end
  end.

Definition gc_batch : nat := 100.

(** [for i := 0; i < len(doomed); i += batch]: [rest] is [doomed[i:]]; one turn
    of fuel per batch ([gc_loop_spec]). *)
Fixpoint gc_loop (fuel : nat) (i : Z) (rest : list string) : Prog (Z * option EtcdErr) :=
  match fuel, rest with
  | S fuel', _ :: _ =>
  let! resp := call (Txn [] (map OpDelete (take gc_batch rest)) []) in
      match resp with
      | Err e => Ret (i, Some e)
      | Ok _ => gc_loop fuel' (i + Z.of_nat gc_batch) (drop gc_batch rest)
      end
  | _, _ => Ret (i, None)
  end.

Definition gc_doomed (retention : Duration) (now : Time) (entries : list (string * Entry))
    : list string :=
  map fst (filter (fun p => is_doomed retention now p.2 = true) entries).

(** The count and the error. *)
Definition GCResults (retention : Duration) (now : Time) : Prog (Z * option EtcdErr) :=
  let! resp := call (GetPrefix ResultsPrefix (Some 1000%nat)) in
  match resp with
  | Err e => Ret (0, Some e)
  | Ok entries =>
      let doomed := gc_doomed retention now entries in
      let! '(i, err) := gc_loop (length doomed) 0 doomed in
      match err with
      | Some e => Ret (i, Some e)
      | None => Ret (Z.of_nat (length doomed), None)
      end
  end.

(** ** [snapshot.go] *)

Record Claim := mkClaim { c_JobID : Z; c_SchedAt : string; c_NodeID : string }.

(** What cannot be read as a ticket is left out. *)
Definition read_tickets (entries : list (string * Entry)) : list Ticket :=
  omap (fun p => unmarshal (e_value p.2)) entries.

Definition PendingTickets (limit : Z) : Prog (result EtcdErr (list Ticket)) :=
  let limit := if limit <=? 0 then 50 else limit in
  let! resp := call (GetPrefix PendingPrefix (Some (Z.to_nat limit))) in
  Ret (match resp with
       | Err e => Err e
       | Ok entries => Ok (read_tickets entries)
       end).

Definition CountPending : Prog (result EtcdErr Z) := call (CountPrefix PendingPrefix).

(** A claim key that reads [<id>@<time>], with a first part that is not empty. *)
Definition decode_claim (p : string * Entry) : option Claim :=
  let body := TrimPrefix p.1 ClaimedPrefix in
  match cut "@" body with
  | Some (a, b) =>
      if String.eqb a "" then None
      else match ParseInt a with
           | Some jid => Some (mkClaim jid b (e_value p.2))
           | None => None
           end
  | None => None
  end.

Definition read_claims (entries : list (string * Entry)) : list Claim := omap decode_claim entries.

Definition Claims : Prog (result EtcdErr (list Claim)) :=
  let! resp := call (GetPrefix ClaimedPrefix None) in
  Ret (match resp with Err e => Err e | Ok entries => Ok (read_claims entries) end).

End queue.
