(* ===== verification/History.v ===== *)
(** * Run history: [internal/store/store.go] and [internal/history/mirror.go]

    Every node copies the results it sees in etcd into a SQLite table.  SQLite is
    not part of the repository: the statements of the source are requests
    ([DbEv]), and [db_ok] says what they do to the table, as SQL defines it
    (errors included).  The mirror lists the results, then watches from the next
    revision; [MEv] are its requests, [mirror_ok] the documented behaviour of
    etcd's ranges and watches on a history of events. *)
From S2P Require Import Prelude GoStrings GoPath GoTime Model Etcd Effects Queue.

Open Scope string_scope.
Open Scope list_scope.
Open Scope orbix_scope.
Open Scope Z_scope.

(** ** [store.go] *)

Record Run := mkRun { run_Result : Result; run_Key : string }.

#[export] Instance Run_eq_dec : EqDecision Run.
Proof. solve_decision. Defined.

(** Where a query failed: in [Query], in [Scan], or after some of its rows. *)
Inductive QueryErr (A : Type) :=
| AtQuery (msg : string)
| AtScan (msg : string)
| AtRows (rows : list A) (msg : string).
Arguments AtQuery {A} msg.
Arguments AtScan {A} msg.
Arguments AtRows {A} rows msg.

Inductive DbEv : Type -> Type :=
| MkdirAll (dir : string) : DbEv (result string unit)
| SqlOpen (path : string) : DbEv (result string unit)
| SetMaxOpenConns (n : Z) : DbEv unit
| ExecStmt (stmt : string) : DbEv (result string unit)
| CloseDb : DbEv unit
| InsertOrIgnore (row : Run) : DbEv (result string unit)
| SelectRuns (job : option Z) (limit : Z) : DbEv (result (QueryErr Run) (list Run))
| SelectCounts : DbEv (result (QueryErr (string * Z)) (list (string * Z))).

(** The schema, with its white space folded. *)
Definition schema : string :=
  "CREATE TABLE IF NOT EXISTS runs (key TEXT PRIMARY KEY, job_id INTEGER NOT NULL, sched_at TEXT NOT NULL, attempt INTEGER NOT NULL DEFAULT 1, node_id TEXT NOT NULL, status TEXT NOT NULL, exit_code INTEGER NOT NULL DEFAULT 0, started_at TEXT, finished_at TEXT, duration_ms INTEGER NOT NULL DEFAULT 0, stdout TEXT, stderr TEXT); CREATE INDEX IF NOT EXISTS idx_runs_job ON runs(job_id, key DESC);".

Definition pragmas : list string :=
  ["PRAGMA journal_mode=WAL;"; "PRAGMA busy_timeout=5000;"; "PRAGMA synchronous=NORMAL;"].

Fixpoint exec_pragmas (l : list string) : ProgE DbEv (result string unit) :=
  match l with
  | [] => Ret (Ok tt)
  | pragma :: rest =>
      let! r := call (ExecStmt pragma) in
      match r with
      | Err e => let! _ := call CloseDb in Ret (Err ("store: " +:+ pragma +:+ ": " +:+ e))
      | Ok _ => exec_pragmas rest
      end
  end.

Definition Open (path : string) : ProgE DbEv (result string unit) :=
  let! r := call (MkdirAll (Dir path)) in
  match r with
  | Err e => Ret (Err ("store: " +:+ e))
  | Ok _ =>
      let! r := call (SqlOpen path) in
      match r with
      | Err e => Ret (Err ("store: open: " +:+ e))
      | Ok _ =>
          let! _ := call (SetMaxOpenConns 1) in
          let! r := exec_pragmas pragmas in
          match r with
          | Err e => Ret (Err e)
          | Ok _ =>
              let! r := call (ExecStmt schema) in
              match r with
              | Err e => let! _ := call CloseDb in Ret (Err ("store: migrate: " +:+ e))
              | Ok _ => Ret (Ok tt)
              end
          end
      end
  end.

Definition InsertRun (key : string) (r : Result) : ProgE DbEv (result string unit) :=
  let! e := call (InsertOrIgnore (mkRun r key)) in
  Ret match e with Err e => Err ("store: insert run: " +:+ e) | Ok _ => Ok tt end.

Definition ListRuns (jobID limit : Z) : ProgE DbEv (result string (list Run)) :=
  let limit := if (limit <=? 0) || (500 <? limit) then 50 else limit in
  let! rows := call (SelectRuns (if 0 <? jobID then Some jobID else None) limit) in
  Ret match rows with
      | Ok out => Ok out
      | Err (AtQuery e) => Err ("store: list runs: " +:+ e)
      | Err (AtScan e) => Err ("store: scan run: " +:+ e)
      | Err (AtRows _ e) => Err e
      end.

(** [out[st] = n], row by row. *)
Definition count_map (rows : list (string * Z)) : gmap string Z :=
  foldl (fun m p => <[p.1 := p.2]> m) ∅ rows.

(** The map and the error: rows read before a failure are answered with it. *)
Definition Counts : ProgE DbEv (gmap string Z * option string) :=
  let! rows := call SelectCounts in
  Ret match rows with
      | Ok rows => (count_map rows, None)
      | Err (AtQuery e) => (∅, Some ("store: counts: " +:+ e))
      | Err (AtScan e) => (∅, Some e)
      | Err (AtRows rows e) => (count_map rows, Some e)
      end.

(** *** The statements on the table

    The table is the list of its rows by ascending [rowid]: nothing is ever
    deleted, so a new row has the largest. *)
Definition Db := list Run.

Definition has_key (k : string) (db : Db) : bool :=
  existsb (fun row => String.eqb (run_Key row) k) db.

Definition insert_or_ignore (row : Run) (db : Db) : Db :=
  if has_key (run_Key row) db then db else db ++ [row].

Definition of_job (job : option Z) (row : Run) : bool :=
  match job with Some id => r_JobID (run_Result row) =? id | None => true end.

(** [WHERE job_id = ? ORDER BY rowid DESC LIMIT ?] *)
Definition select_runs (job : option Z) (limit : Z) (db : Db) : list Run :=
  take (Z.to_nat limit) (rev (filter (fun row => of_job job row = true) db)).

Definition with_status (st : string) (db : Db) : list Run :=
  filter (fun row => r_Status (run_Result row) = st) db.

(** [SELECT status, COUNT( * ) ... GROUP BY status]: one row per status there is. *)
Definition counts_of (db : Db) (rows : list (string * Z)) : Prop :=
  NoDup (map fst rows) /\
  forall st n, (st, n) ∈ rows <-> 0 < n /\ n = Z.of_nat (length (with_status st db)).

(** [strict] rules errors out. *)
Definition db_ok (strict : bool) {X} (e : DbEv X) (db : Db) : X -> Db -> Prop :=
  match e in DbEv X return X -> Db -> Prop with
  | InsertOrIgnore row => fun r db' =>
      match r with
      | Ok _ => db' = insert_or_ignore row db
      | Err _ => strict = false /\ db' = db
      end
  | SelectRuns job limit => fun r db' => db' = db /\
      match r with Ok l => l = select_runs job limit db | Err _ => strict = false end
  | SelectCounts => fun r db' => db' = db /\
      match r with Ok rows => counts_of db rows | Err _ => strict = false end
  | _ => fun _ db' => db' = db
  end.

(** ** [mirror.go] *)

(** A change of a key under the watched prefix. *)
Inductive WatchEvent := EvPut (k v : string) | EvDelete (k : string).

Inductive MEv : Type -> Type :=
| MCtxDone : MEv bool
| MGetPrefix (p : string) : MEv (result EtcdErr (list (string * string) * Z))
| MWatch (p : string) (rev : Z) : MEv unit
| MNext : MEv (option (list WatchEvent))
| MSql {X} (e : DbEv X) : MEv X
| MWait (d : Duration) : MEv unit.

Section mirror.
Context `{RJ : Json Result result_valid}.

(** Both failures are logged. *)
Definition mirror_put (key val : string) : ProgE MEv unit :=
  match unmarshal val with
  | None => Ret tt
  | Some r => let! _ := embed (@MSql) (InsertRun key r) in Ret tt
  end.

Fixpoint put_all (kvs : list (string * string)) : ProgE MEv unit :=
  match kvs with
  | [] => Ret tt
  | (k, v) :: rest => let! _ := mirror_put k v in put_all rest
  end.

Fixpoint put_events (evs : list WatchEvent) : ProgE MEv unit :=
  match evs with
  | [] => Ret tt
  | EvPut k v :: rest => let! _ := mirror_put k v in put_events rest
  | EvDelete _ :: rest => put_events rest
  end.

(** [for wresp := range wch], for a number of responses. *)
Fixpoint watch_loop (responses : nat) : ProgE MEv unit :=
  match responses with
  | O => Ret tt
  | S n =>
      let! wresp := call MNext in
      match wresp with
      | None => Ret tt
      | Some evs => let! _ := put_events evs in watch_loop n
      end
  end.

(** A listing and the watch that follows it; [false] when the listing failed. *)
Definition mirror_session (responses : nat) : ProgE MEv bool :=
  let! resp := call (MGetPrefix ResultsPrefix) in
  match resp with
  | Err _ => Ret false
  | Ok (kvs, rev) =>
      let! _ := put_all kvs in
      let! _ := call (MWatch ResultsPrefix (rev + 1)) in
      let! _ := watch_loop responses in
      Ret true
  end.

Definition retry : ProgE MEv unit := call (MWait (2 * Second)).

(** [Run], for a number of turns. *)
Fixpoint Mirror_Run (turns responses : nat) : ProgE MEv unit :=
  match turns with
  | O => Ret tt
  | S n =>
      let! stop := call MCtxDone in
      if (stop : bool) then Ret tt
      else
        let! watched := mirror_session responses in
        if (watched : bool) then
          let! stop := call MCtxDone in
          if (stop : bool) then Ret tt
          else let! _ := retry in Mirror_Run n responses
        else let! _ := retry in Mirror_Run n responses
  end.
End mirror.

(** *** The world of a mirror

    The events of the prefix so far, with their revisions, in the order they
    were committed; the revision etcd is at; how many of the events a watch has
    delivered; and the table. *)
Record MWorld := mkMWorld {
  mw_hist : list (Z * WatchEvent);
  mw_rev : Z;
  mw_pos : nat;
  mw_db : Db;
}.

Definition mw_set_pos (w : MWorld) (n : nat) : MWorld := mkMWorld (mw_hist w) (mw_rev w) n (mw_db w).
Definition mw_set_db (w : MWorld) (db : Db) : MWorld := mkMWorld (mw_hist w) (mw_rev w) (mw_pos w) db.

Definition apply_event (m : gmap string string) (ev : WatchEvent) : gmap string string :=
  match ev with EvPut k v => <[k := v]> m | EvDelete k => delete k m end.

(** What is stored under the prefix after these events. *)
Definition contents (hist : list (Z * WatchEvent)) : gmap string string :=
  foldl apply_event ∅ (map snd hist).

Definition mirror_ok (strict : bool) {X} (e : MEv X) (w : MWorld) : X -> MWorld -> Prop :=
  match e in MEv X return X -> MWorld -> Prop with
  | MCtxDone => fun _ w' => w' = w
  | MGetPrefix _ => fun r w' => w' = w /\
      match r with
      | Ok (kvs, rev) => rev = mw_rev w /\ kvs ≡ₚ map_to_list (contents (mw_hist w))
      | Err _ => True
      end
  | MWatch _ rev => fun _ w' =>
      w' = mw_set_pos w (length (filter (fun p => p.1 < rev) (mw_hist w)))
  | MNext => fun r w' =>
      match r with
      | None => w' = w
      | Some evs => evs = map snd (take (length evs) (drop (mw_pos w) (mw_hist w))) /\
                    w' = mw_set_pos w (mw_pos w + length evs)
      end
  | MSql e => fun r w' => exists db', db_ok strict e (mw_db w) r db' /\ w' = mw_set_db w db'
  | MWait _ => fun _ w' => w' = w
  end.

(** Others commit events at later revisions; the table is the mirror's own. *)
Definition mirror_env (w w' : MWorld) : Prop :=
  mw_rev w <= mw_rev w' /\ mw_pos w' = mw_pos w /\ mw_db w' = mw_db w /\
  exists new, mw_hist w' = mw_hist w ++ new /\ Forall (fun p => mw_rev w < p.1 <= mw_rev w') new.

(** Revisions are those of past commits. *)
Definition mirror_wf (w : MWorld) : Prop := Forall (fun p => p.1 <= mw_rev w) (mw_hist w).
