(* ===== verification/HistoryFacts.v ===== *)
(** * What the run history promises

    The table: keys are unique, rows are never changed, queries answer the newest
    rows first, a database that could not be prepared is closed.  The mirror:
    every row is a result that was in etcd under its key, and between a listing
    and the watch that follows it no result is missed. *)
From S2P Require Import Prelude GoStrings GoPath GoTime Model Etcd Effects Queue History.

Open Scope string_scope.
Open Scope list_scope.
Open Scope orbix_scope.
Open Scope Z_scope.

(** ** The table *)

Lemma has_key_spec k db : has_key k db = true <-> exists row, row ∈ db /\ run_Key row = k.
Proof.
  unfold has_key. rewrite existsb_exists. setoid_rewrite String.eqb_eq.
  by setoid_rewrite list_elem_of_In.
Qed.

Lemma has_key_app k db rows : has_key k db = true -> has_key k (db ++ rows) = true.
Proof. rewrite !has_key_spec. intros (row & ? & ?). exists row. split; [|done]. apply elem_of_app. by left. Qed.

(** An insertion appends a row or nothing. *)
Lemma insert_appends row db :
  (insert_or_ignore row db = db /\ has_key (run_Key row) db = true) \/
  (insert_or_ignore row db = db ++ [row] /\ has_key (run_Key row) db = false).
Proof. unfold insert_or_ignore. destruct (has_key _ db); [by left|by right]. Qed.

Lemma insert_has_key row db : has_key (run_Key row) (insert_or_ignore row db) = true.
Proof.
  destruct (insert_appends row db) as [[-> ?]|[-> _]]; [done|].
  apply has_key_spec. exists row. split; [|done]. apply elem_of_app. right. by left.
Qed.

Lemma insert_nodup row db : NoDup (map run_Key db) -> NoDup (map run_Key (insert_or_ignore row db)).
Proof.
  intros Hnd. destruct (insert_appends row db) as [[-> _]|[-> Hn]]; [done|].
  rewrite map_app. apply NoDup_app. split; [done|]. split; [|apply NoDup_singleton].
  intros k Hk ->%list_elem_of_singleton. apply not_true_iff_false in Hn. apply Hn, has_key_spec.
  apply list_elem_of_In, in_map_iff in Hk as (row' & Hk & ?). exists row'.
  split; [by apply list_elem_of_In|done].
Qed.

(** The rows a page may show. *)
Definition rows_for (jobID : Z) (db : Db) : list Run :=
  filter (fun row => 0 < jobID -> r_JobID (run_Result row) = jobID) db.

Lemma of_job_filter jobID db :
  filter (fun row => of_job (if 0 <? jobID then Some jobID else None) row = true) db
  = rows_for jobID db.
Proof.
  unfold rows_for. apply list_filter_iff. intros row. unfold of_job.
  destruct (0 <? jobID) eqn:E; bool_prop; [rewrite Z.eqb_eq; intuition|intuition lia].
Qed.

(** C31: a page of runs is the newest rows first, at most the limit, which is 50
    unless it is between 1 and 500; of one job for a positive id, of every job
    for any other; a query changes nothing. *)
Theorem ListRuns_spec strict jobID limit db o db' :
  execE (@db_ok strict) eq (ListRuns jobID limit) db o db' ->
  let limit' := if (1 <=? limit) && (limit <=? 500) then limit else 50 in
  db' = db /\
  match o with
  | Done (Ok page) => (exists older, rev (rows_for jobID db) = page ++ older /\
      (older = [] \/ Z.of_nat (length page) = limit')) /\ Z.of_nat (length page) <= limit'
  | Done (Err _) => strict = false
  | Panicked => False
  end.
Proof.
  intros H limit'. unfold ListRuns in H. cbn [prog_bind call execE] in H.
  destruct H as (? & r & db2 & <- & [-> Hr] & -> & ->). split; [done|].
  destruct r as [l|[]]; [|done..]. subst l. unfold select_runs. rewrite of_job_filter.
  replace (if (limit <=? 0) || (500 <? limit) then 50 else limit) with limit'
    by (unfold limit'; destruct (1 <=? limit) eqn:E1, (limit <=? 500) eqn:E2,
          (limit <=? 0) eqn:E3, (500 <? limit) eqn:E4; bool_prop; simpl; lia || done).
  set (all := rev (rows_for jobID db)).
  assert (0 <= limit') as Hpos
    by (unfold limit'; destruct (1 <=? limit) eqn:E; bool_prop; simpl; [|lia]; case_match; lia).
  rewrite length_take. split; [|lia].
  exists (drop (Z.to_nat limit') all). rewrite take_drop. split; [done|].
  destruct (decide (length all <= Z.to_nat limit')%nat); [left; by apply drop_ge|right; lia].
Qed.

(** *** Counting *)

(** A map filled row by row, each status once. *)
Lemma count_map_lookup rows st : NoDup (map fst rows) ->
  forall n, count_map rows !! st = Some n <-> (st, n) ∈ rows.
Proof.
  unfold count_map. induction rows as [|[s m] rows IH] using rev_ind; intros Hnd n.
  { simpl. rewrite lookup_empty. split; [done|]. intros Hin. by apply not_elem_of_nil in Hin. }
  rewrite map_app in Hnd. apply NoDup_app in Hnd as (Hnd & Hx & _).
  rewrite foldl_snoc, elem_of_app, list_elem_of_singleton. cbn [fst snd].
  destruct (decide (s = st)) as [->|Hne].
  - rewrite lookup_insert_eq. split; [intros [= ->]; by right|].
    intros [Hin|[= ->]]; [|done]. exfalso. apply (Hx st); [|by left].
    apply list_elem_of_In, in_map_iff. exists (st, n). split; [done|by apply list_elem_of_In].
  - rewrite lookup_insert_ne, IH by done. split; [by left|]. by intros [?|[= ->]].
Qed.

(** The counts are those of the table: for every status, the number of
    its rows; an error may come with what was read before it. *)
Theorem Counts_spec strict db o db' : execE (@db_ok strict) eq Counts db o db' ->
  db' = db /\ exists m err, o = Done (m, err) /\
  match err with
  | None => forall st, default 0 (m !! st) = Z.of_nat (length (with_status st db))
  | Some _ => strict = false
  end.
Proof.
  intros H. unfold Counts in H. cbn [prog_bind call execE] in H.
  destruct H as (? & r & db2 & <- & [-> Hr] & -> & ->). split; [done|].
  destruct r as [rows|[e|e|rows e]]; eexists _, _; (split; [done|]); [|done..].
  destruct Hr as [Hnd Hrows]. intros st. destruct (count_map rows !! st) as [n|] eqn:E; simpl.
  - apply count_map_lookup in E; [|done]. by apply Hrows in E as [_ ->].
  - destruct (decide (length (with_status st db) = 0%nat)) as [->|Hne]; [done|].
    assert ((st, Z.of_nat (length (with_status st db))) ∈ rows) as Hin by (apply Hrows; lia).
    apply count_map_lookup in Hin; [congruence|done].
Qed.

(** *** Opening *)

(** The connection, as the requests leave it: open or not, and the statements
    it has executed. *)
Definition conn_ok {X} (e : DbEv X) (c : bool * list string) : X -> bool * list string -> Prop :=
  match e in DbEv X return X -> bool * list string -> Prop with
  | SqlOpen _ => fun r c' => c' = (if is_ok r then (true, []) else c)
  | ExecStmt s => fun r c' => c' = (if is_ok r then (c.1, c.2 ++ [s]) else c)
  | CloseDb => fun _ c' => c' = (false, c.2)
  | _ => fun _ c' => c' = c
  end.

Lemma exec_pragmas_spec l c :
  wpE (@conn_ok) eq (fun _ _ => True) (exec_pragmas l)
    (fun o c' => match o with
                 | Done (Ok _) => c' = (c.1, c.2 ++ l)
                 | Done (Err _) => c'.1 = false
                 | Panicked => False
                 end) c.
Proof.
  revert c. induction l as [|s l IH]; intros c; simpl.
  - rewrite app_nil_r. by destruct c.
  - intros c1 r c2 <- ->. split; [done|]. destruct r as [[]|e]; simpl.
    + eapply wpE_mono; [|apply IH]. intros [[?|?]|] c' H; simpl in *; try done.
      by rewrite H, <- app_assoc.
    + by intros c3 _ c4 <- ->.
Qed.

(** The database is handed out open, with every pragma and the schema
    executed in order, or not at all: on each error it is closed again. *)
Theorem Open_spec path o c' : execE (@conn_ok) eq (Open path) (false, []) o c' ->
  match o with
  | Done (Ok _) => c' = (true, pragmas ++ [schema])
  | Done (Err _) => c'.1 = false
  | Panicked => False
  end.
Proof.
  intros H. use_wpE H. unfold Open. apply wpE_call. intros c1 r c2 <- ->.
  split; [done|]. destruct r as [?|e]; [|done]. apply wpE_call. intros c1 r c2 <- ->.
  split; [done|]. destruct r as [?|e]; [|done]. cbn [is_ok]. apply wpE_call. intros c1 _ c2 <- ->.
  split; [done|]. apply wpE_bind. eapply wpE_mono; [|apply exec_pragmas_spec].
  intros [[?|e]|] c1; cbn [after_value]; [|done..]. intros ->. cbn [fst snd app].
  apply wpE_call. intros c2 r c3 <- ->. split; [done|]. destruct r as [?|e]; [done|].
  apply wpE_call. by intros c4 _ c5 <- ->.
Qed.

(** ** The mirror *)

(** What happened to the world between two points of a run. *)
Definition grows (w w' : MWorld) : Prop :=
  mw_rev w <= mw_rev w' /\
  (exists new, mw_hist w' = mw_hist w ++ new /\
     Forall (fun p => mw_rev w < p.1 <= mw_rev w') new) /\
  exists rows, mw_db w' = mw_db w ++ rows.

Lemma grows_refl w : grows w w.
Proof.
  split; [done|]. split; exists []; by rewrite app_nil_r.
Qed.

Lemma grows_trans w1 w2 w3 : grows w1 w2 -> grows w2 w3 -> grows w1 w3.
Proof.
  intros (Hr1 & (n1 & Hn1 & Hf1) & r1 & Hd1) (Hr2 & (n2 & Hn2 & Hf2) & r2 & Hd2).
  split; [lia|]. split.
  - exists (n1 ++ n2). split; [by rewrite Hn2, Hn1, app_assoc|]. apply Forall_app.
    split; (eapply Forall_impl; [eassumption|]); simpl; intros p ?; lia.
  - exists (r1 ++ r2). by rewrite Hd2, Hd1, app_assoc.
Qed.

Lemma env_grows w w' : mirror_env w w' -> grows w w' /\ mw_pos w' = mw_pos w /\ mw_db w' = mw_db w.
Proof.
  intros (Hr & Hp & Hd & Hn). split; [|done]. split; [done|]. split; [done|].
  exists []. by rewrite app_nil_r.
Qed.

Lemma grows_wf w w' : grows w w' -> mirror_wf w -> mirror_wf w'.
Proof.
  intros (Hr & (new & Hn & Hf) & _) Hw. unfold mirror_wf. rewrite Hn. apply Forall_app. split.
  - eapply Forall_impl; [exact Hw|]. simpl. lia.
  - eapply Forall_impl; [exact Hf|]. simpl. lia.
Qed.

(** The value was put under the key at some time. *)
Definition was_put (w : MWorld) (k v : string) : Prop := exists rev, (rev, EvPut k v) ∈ mw_hist w.

Lemma was_put_grows w w' k v : grows w w' -> was_put w k v -> was_put w' k v.
Proof.
  intros (_ & (new & Hn & _) & _) [rev Hin]. exists rev. rewrite Hn. apply elem_of_app. by left.
Qed.

Section mirror.
Context `{RJ : Json Result result_valid}.

(** Every row is a result that was in etcd under its key; keys are unique. *)
Definition sound (w : MWorld) : Prop :=
  NoDup (map run_Key (mw_db w)) /\
  forall row, row ∈ mw_db w -> exists v, was_put w (run_Key row) v /\ unmarshal v = Some (run_Result row).

(** The table has a row for this value, if it can be read. *)
Definition covered (db : Db) (k v : string) : Prop :=
  forall r, unmarshal v = Some r -> has_key k db = true.

Lemma covered_grows w w' k v : grows w w' -> covered (mw_db w) k v -> covered (mw_db w') k v.
Proof. intros (_ & _ & rows & ->) Hc r Hr. by apply has_key_app, (Hc r). Qed.

Lemma sound_grows w w' : grows w w' -> mw_db w' = mw_db w -> sound w -> sound w'.
Proof.
  intros Hg Hd [Hnd Hs]. unfold sound. rewrite Hd. split; [done|]. intros row Hin.
  destruct (Hs row Hin) as (v & Hv & Hu). exists v. split; [by eapply was_put_grows|done].
Qed.

(** From [w], a part of the mirror that ends with its watch where it was. *)
Definition kept (w w' : MWorld) : Prop := grows w w' /\ sound w' /\ mw_pos w' = mw_pos w.

Lemma kept_refl w : sound w -> kept w w.
Proof. intros. split; [apply grows_refl|done]. Qed.

Lemma kept_trans w1 w2 w3 : kept w1 w2 -> kept w2 w3 -> kept w1 w3.
Proof.
  intros (H1 & _ & H2) (H3 & H4 & H5). split; [by eapply grows_trans|]. split; [done|congruence].
Qed.

Lemma kept_env w w' : sound w -> mirror_env w w' -> kept w w'.
Proof.
  intros Hs (Hg & Hp & Hd)%env_grows. split; [done|]. split; [|done]. by apply (sound_grows w).
Qed.

#[local] Abbreviation wpM strict := (wpE (@mirror_ok strict) mirror_env (fun _ _ => True)).

Lemma mirror_put_spec strict k v w : sound w -> was_put w k v ->
  wpM strict (mirror_put k v)
    (ends (fun _ w' => kept w w' /\ (strict = true -> covered (mw_db w') k v))) w.
Proof.
  intros Hs Hp. unfold mirror_put. destruct (unmarshal v) as [r|] eqn:Hr.
  2: { split; [by apply kept_refl|]. intros _ r' Hr'. congruence. }
  cbn [embed InsertRun prog_bind call]. intros w1 x w2 He (db' & Hx & ->). split; [done|].
  pose proof (kept_env _ _ Hs He) as Hk1. destruct Hk1 as (Hg1 & Hs1 & Hp1).
  assert (kept w1 (mw_set_db w1 db')) as Hk2.
  { destruct x as [[]|e]; cbn in Hx; [|destruct Hx as [_ ->]; destruct w1; by apply kept_refl].
    subst db'. split; [|split; [|done]].
    - split; [done|]. cbn. split; [exists []; by rewrite app_nil_r|].
      destruct (insert_appends (mkRun r k) (mw_db w1)) as [[-> _]|[-> _]]; [exists []|eauto].
      by rewrite app_nil_r.
    - destruct Hs1 as [Hnd Hall]. split; [by apply insert_nodup|]. cbn.
      intros row Hrow. destruct (insert_appends (mkRun r k) (mw_db w1)) as [[E _]|[E _]];
        rewrite E in Hrow; [by apply Hall|].
      apply elem_of_app in Hrow as [Hrow| ->%list_elem_of_singleton]; [by apply Hall|].
      exists v. split; [by apply (was_put_grows w w1)|done]. }
  cbn. split; [by eapply kept_trans|]. intros -> r' _.
  destruct x as [[]|e]; cbn in Hx; [subst db'; apply (insert_has_key (mkRun r k))|by destruct Hx].
Qed.

Lemma put_all_spec strict kvs w : sound w -> Forall (fun p => was_put w p.1 p.2) kvs ->
  wpM strict (put_all kvs)
    (ends (fun _ w' => kept w w' /\
       (strict = true -> Forall (fun p => covered (mw_db w') p.1 p.2) kvs))) w.
Proof.
  revert w. induction kvs as [|[k v] kvs IH]; intros w Hs Hp.
  - split; [by apply kept_refl|]. by intros.
  - apply Forall_cons in Hp as [Hkv Hp]. cbn [put_all]. eapply wpE_seq; [by apply mirror_put_spec|].
    intros _ w1 (Hk & Hc). pose proof Hk as (Hg & Hs1 & _). eapply wpE_mono; [|apply IH; [done|]].
    + intros [[]|] w2; [|done]. intros (Hk2 & Hc2). split; [by eapply kept_trans|]. intros Hst.
      constructor; [|by apply Hc2]. eapply covered_grows; [apply Hk2|]. by apply Hc.
    + eapply Forall_impl; [exact Hp|]. intros p. by apply was_put_grows.
Qed.

Definition event_put (w : MWorld) (ev : WatchEvent) : Prop :=
  match ev with EvPut k v => was_put w k v | EvDelete _ => True end.

Definition event_covered (db : Db) (ev : WatchEvent) : Prop :=
  match ev with EvPut k v => covered db k v | EvDelete _ => True end.

Lemma event_covered_grows w w' ev : grows w w' -> event_covered (mw_db w) ev -> event_covered (mw_db w') ev.
Proof. destruct ev; [apply covered_grows|done]. Qed.

Lemma put_events_spec strict evs w : sound w -> Forall (event_put w) evs ->
  wpM strict (put_events evs)
    (ends (fun _ w' => kept w w' /\ (strict = true -> Forall (event_covered (mw_db w')) evs))) w.
Proof.
  revert w. induction evs as [|ev evs IH]; intros w Hs Hp.
  - split; [by apply kept_refl|]. by intros.
  - apply Forall_cons in Hp as [Hev Hp]. destruct ev as [k v|k]; cbn [put_events].
    + eapply wpE_seq; [by apply mirror_put_spec|].
      intros _ w1 (Hk & Hc). pose proof Hk as (Hg & Hs1 & _). eapply wpE_mono; [|apply IH; [done|]].
      * intros [[]|] w2; [|done]. intros (Hk2 & Hc2). split; [by eapply kept_trans|]. intros Hst.
        constructor; [|by apply Hc2]. eapply covered_grows; [apply Hk2|]. by apply Hc.
      * eapply Forall_impl; [exact Hp|]. intros [k' v'|]; [by apply was_put_grows|done].
    + eapply wpE_mono; [|by apply IH]. intros [[]|] w2; [|done]. intros (Hk2 & Hc2).
      split; [done|]. intros Hst. constructor; [done|]. by apply Hc2.
Qed.

(** Events that are delivered were committed. *)
Lemma delivered_put w n : Forall (event_put w) (map snd (take n (drop (mw_pos w) (mw_hist w)))).
Proof.
  apply Forall_forall. intros ev Hev. apply list_elem_of_In, in_map_iff in Hev as ([rev ev'] & <- & Hin).
  apply list_elem_of_In, elem_of_take_sub in Hin. destruct ev' as [k v|]; [|done]. exists rev.
  cbn. rewrite <- (take_drop (mw_pos w) (mw_hist w)). apply elem_of_app. by right.
Qed.

(** The events a watch has delivered, from position [p] on. *)
Definition watched (p : nat) (w : MWorld) : Prop :=
  (p <= mw_pos w <= length (mw_hist w))%nat /\
  Forall (event_covered (mw_db w)) (map snd (drop p (take (mw_pos w) (mw_hist w)))).

Lemma watched_start w : (mw_pos w <= length (mw_hist w))%nat -> watched (mw_pos w) w.
Proof. intros Hle. split; [lia|]. rewrite drop_ge; [done|]. rewrite length_take. lia. Qed.

Lemma watched_kept p w w' : kept w w' -> watched p w -> watched p w'.
Proof.
  intros (Hg & _ & Hp) [Hle Hc]. pose proof Hg as (_ & (new & Hn & _) & _). split.
  - rewrite Hp, Hn, length_app. lia.
  - rewrite Hp, Hn, take_app_le by lia. eapply Forall_impl; [exact Hc|].
    intros ev. by apply event_covered_grows.
Qed.

Lemma watched_more p w w' (evs : list WatchEvent) : watched p w -> grows w w' ->
  evs = map snd (take (length evs) (drop (mw_pos w) (mw_hist w))) ->
  mw_pos w' = (mw_pos w + length evs)%nat -> Forall (event_covered (mw_db w')) evs -> watched p w'.
Proof.
  intros [Hle Hc] Hg Hev Hp Hcov. pose proof Hg as (_ & (new & Hh & _) & _).
  assert (length evs <= length (mw_hist w) - mw_pos w)%nat.
  { rewrite Hev, length_map, length_take, length_drop. lia. }
  split; [rewrite Hp, Hh, length_app; lia|]. rewrite Hp, Hh, take_app_le by lia.
  rewrite <- take_take_drop, drop_app_le by (rewrite length_take; lia).
  rewrite map_app. apply Forall_app. split; [|by rewrite <- Hev].
  eapply Forall_impl; [exact Hc|]. intros ev. by apply event_covered_grows.
Qed.

Lemma watch_loop_spec strict n p w : sound w -> watched p w \/ strict = false ->
  wpM strict (watch_loop n)
    (ends (fun _ w' => grows w w' /\ sound w' /\ (strict = true -> watched p w'))) w.
Proof.
  revert w. induction n as [|n IH]; intros w Hs Hw.
  { split; [apply grows_refl|]. split; [done|]. intros ->. by destruct Hw. }
  cbn [watch_loop]. apply wpE_call. intros w1 x w2 He Hx. split; [done|].
  pose proof (kept_env _ _ Hs He) as Hk1. pose proof Hk1 as (Hg1 & Hs1 & _).
  assert (watched p w1 \/ strict = false) as Hw1
    by (destruct Hw; [left; by eapply watched_kept|by right]).
  destruct x as [evs|]; cbn in Hx.
  - destruct Hx as [Hev ->].
    assert (Forall (event_put w1) evs) as Hput by (rewrite Hev; apply delivered_put).
    eapply wpE_seq; [by apply put_events_spec|].
    intros _ w3 ((Hg3 & Hs3 & Hp3) & Hc3). cbn in Hp3.
    assert (grows w1 w3) as Hg13 by exact Hg3.
    eapply wpE_mono; [|apply (IH w3); [done|]].
    + intros [[]|] w4; [|done]. intros (Hg4 & Hs4 & Hw4). split; [|done].
      eapply grows_trans; [exact Hg1|]. by eapply grows_trans.
    + destruct strict; [|by right]. left. destruct Hw1 as [Hw1|]; [|done].
      apply (watched_more p w1 w3 evs); auto.
  - subst w2. split; [done|]. split; [done|]. intros ->. by destruct Hw1.
Qed.

(** *** A listing and its watch *)

Lemma contents_put w k v : contents (mw_hist w) !! k = Some v -> was_put w k v.
Proof.
  unfold contents, was_put. generalize (mw_hist w) as h. induction h as [|[rev ev] h IH] using rev_ind.
  { cbn. by rewrite lookup_empty. }
  rewrite map_app, foldl_app. cbn [map snd foldl]. intros H.
  assert (foldl apply_event ∅ (map snd h) !! k = Some v \/ ev = EvPut k v) as [Hh| ->].
  { destruct ev as [k' v'|k']; cbn in H.
    - rewrite lookup_insert in H. case_decide; [right; congruence|by left].
    - rewrite lookup_delete in H. case_decide; [done|by left]. }
  - destruct (IH Hh) as [r Hr]. exists r. apply elem_of_app. by left.
  - exists rev. apply elem_of_app. right. by left.
Qed.

(** A watch from the revision after a listing starts where the listing ended. *)
Lemma watch_start w w' : mirror_wf w -> grows w w' ->
  length (filter (fun p => p.1 < mw_rev w + 1) (mw_hist w')) = length (mw_hist w).
Proof.
  intros Hwf (_ & (new & -> & Hnew) & _). rewrite filter_app, length_app.
  assert (forall l, Forall (fun p : Z * WatchEvent => p.1 <= mw_rev w) l ->
    filter (fun p => p.1 < mw_rev w + 1) l = l) as ->; [| |done].
  { induction 1; [done|]. rewrite filter_cons_True by (simpl; lia). by f_equal. }
  assert (filter (fun p => p.1 < mw_rev w + 1) new = []) as ->; [|simpl; lia].
  induction Hnew; [done|]. by rewrite filter_cons_False by (simpl; lia).
Qed.

Definition session_post (strict : bool) (w : MWorld) (b : bool) (w' : MWorld) : Prop :=
  grows w w' /\ sound w' /\ (strict = true -> b = true -> exists snap,
    (length (mw_hist w) <= snap)%nat /\ watched snap w' /\
    forall k v, contents (take snap (mw_hist w')) !! k = Some v -> covered (mw_db w') k v).

Lemma session_spec strict n w : mirror_wf w -> sound w ->
  wpM strict (mirror_session n) (ends (session_post strict w)) w.
Proof.
  intros Hwf Hs. unfold mirror_session. apply wpE_call. intros w1 x w2 He [-> Hx]. split; [done|].
  pose proof (kept_env _ _ Hs He) as (Hg1 & Hs1 & _). pose proof (grows_wf _ _ Hg1 Hwf) as Hwf1.
  destruct x as [[kvs rev]|e]; [|by split_and!]. destruct Hx as [-> Hkvs].
  eapply wpE_seq; [apply put_all_spec; [done|]|].
  { rewrite Hkvs. apply Forall_forall. intros [k v] Hin%elem_of_map_to_list. by apply contents_put. }
  intros _ w3 ((Hg3 & Hs3 & _) & Hc3). apply wpE_call. intros w4 [] w5 He4 ->. split; [done|].
  pose proof (kept_env _ _ Hs3 He4) as (Hg4 & Hs4 & _).
  pose proof (grows_trans _ _ _ Hg3 Hg4) as Hg14.
  rewrite (watch_start w1 w4 Hwf1 Hg14). set (w5 := mw_set_pos w4 _).
  assert (length (mw_hist w1) <= length (mw_hist w4))%nat as Hle.
  { destruct Hg14 as (_ & (new & -> & _) & _). rewrite length_app. lia. }
  eapply wpE_seq; [apply (watch_loop_spec strict n (mw_pos w5)); [done|left; by apply watched_start]|].
  intros _ w6 (Hg6 & Hs6 & Hw6). assert (grows w4 w6) as Hg46 by exact Hg6.
  pose proof (grows_trans _ _ _ Hg14 Hg46) as Hg16.
  split; [by eapply grows_trans|]. split; [done|]. intros Hst _.
  exists (length (mw_hist w1)). split; [|split; [by apply Hw6|]].
  - destruct Hg1 as (_ & (new & -> & _) & _). rewrite length_app. lia.
  - destruct Hg16 as (_ & (new & Hh & _) & _). rewrite Hh, take_app_length. intros k v Hkv.
    eapply (covered_grows w3); [by eapply grows_trans|]. specialize (Hc3 Hst).
    rewrite Forall_forall in Hc3. apply (Hc3 (k, v)). rewrite Hkvs. by apply elem_of_map_to_list.
Qed.

Lemma Mirror_Run_spec strict turns n w : mirror_wf w -> sound w ->
  wpM strict (Mirror_Run turns n) (ends (fun _ w' => grows w w' /\ sound w')) w.
Proof.
  revert w. induction turns as [|turns IH]; intros w Hwf Hs; [split; [apply grows_refl|done]|].
  cbn [Mirror_Run]. apply wpE_call. intros w1 stop w2 He ->. split; [done|].
  pose proof (kept_env _ _ Hs He) as (Hg1 & Hs1 & _). pose proof (grows_wf _ _ Hg1 Hwf) as Hwf1.
  destruct stop; [done|]. eapply wpE_seq; [by apply session_spec|]. intros b w3 (Hg3 & Hs3 & _).
  pose proof (grows_trans _ _ _ Hg1 Hg3) as Hg13. pose proof (grows_wf _ _ Hg3 Hwf1) as Hwf3.
  assert (forall w0, grows w w0 -> mirror_wf w0 -> sound w0 ->
    wpM strict (let! _ := retry in Mirror_Run turns n) (ends (fun _ w' => grows w w' /\ sound w')) w0) as Hretry.
  { intros w0 Hg0 Hwf0 Hs0. apply wpE_call. intros w4 [] w5 He4 ->. split; [done|].
    pose proof (kept_env _ _ Hs0 He4) as (Hg4 & Hs4 & _).
    eapply wpE_mono; [|apply IH; [by eapply grows_wf|done]]. intros [[]|] w6; [|done]. intros [Hg6 ?].
    split; [|done]. eapply grows_trans; [exact Hg0|]. by eapply grows_trans. }
  destruct b; [|by apply Hretry]. apply wpE_call. intros w4 stop w5 He4 ->. split; [done|].
  pose proof (kept_env _ _ Hs3 He4) as (Hg4 & Hs4 & _).
  assert (grows w w4) as Hg by (by eapply grows_trans).
  destruct stop; [done|]. apply Hretry; [done| |done]. by eapply grows_wf.
Qed.

(** C18: the history never lies and never changes its mind. Whatever etcd and
    SQLite answer, and however often the watch breaks: rows are only ever added,
    one per key, and every row is a readable result that was stored in etcd under
    its key. *)
Theorem mirror_sound strict turns n w o w' : mirror_wf w -> sound w ->
  execE (@mirror_ok strict) mirror_env (Mirror_Run turns n) w o w' ->
  o = Done tt /\ (exists rows, mw_db w' = mw_db w ++ rows) /\ NoDup (map run_Key (mw_db w')) /\
  forall row, row ∈ mw_db w' -> exists rev v,
    (rev, EvPut (run_Key row) v) ∈ mw_hist w' /\ unmarshal v = Some (run_Result row).
Proof.
  intros Hwf Hs H. pose proof (Mirror_Run_spec strict turns n w Hwf Hs) as Hwp.
  apply (wpE_sound _ _ _ _ _ _ _ _ Hwp) in H. destruct o as [[]|]; [|done].
  destruct H as [(_ & _ & Hrows) [Hnd Hall]]. split_and!; [done..|].
  intros row (v & [rev Hput] & Hu)%Hall. by exists rev, v.
Qed.

(** C11: no result falls between a listing and its watch. After a session (with
    no insert refused), every readable result that was there when etcd was listed,
    and every one put from then up to the last event the watch delivered, has a
    row: the watch starts exactly one revision after the listing. *)
Theorem mirror_no_gap n w w' : mirror_wf w -> sound w ->
  execE (@mirror_ok true) mirror_env (mirror_session n) w (Done true) w' ->
  exists snap, (length (mw_hist w) <= snap <= mw_pos w')%nat /\
  forall k v r, unmarshal v = Some r ->
    contents (take snap (mw_hist w')) !! k = Some v \/
    (exists i rev, (snap <= i < mw_pos w')%nat /\ mw_hist w' !! i = Some (rev, EvPut k v)) ->
    has_key k (mw_db w') = true.
Proof.
  intros Hwf Hs H. apply (wpE_sound _ _ _ _ _ _ _ _ (session_spec true n w Hwf Hs)) in H.
  destruct H as (_ & _ & H). destruct (H eq_refl eq_refl) as (snap & Hle & [Hpos Hw] & Hc).
  exists snap. split; [lia|]. intros k v r Hr [Hk|(i & rev & Hi & Hk)]; [by apply (Hc k v Hk r)|].
  rewrite Forall_forall in Hw.
  assert (event_covered (mw_db w') (EvPut k v)) as Hcv; [apply Hw|by apply (Hcv r)].
  apply list_elem_of_In, in_map_iff. exists (rev, EvPut k v). split; [done|].
  apply list_elem_of_In, list_elem_of_lookup. exists (i - snap)%nat.
  rewrite lookup_drop, lookup_take_lt by lia. by replace (snap + (i - snap))%nat with i by lia.
Qed.
End mirror.
