(* ===== verification/Docker.v ===== *)
(** * The Docker client: [internal/docker/docker.go]

    Node containers are managed through the Docker daemon's socket.  The daemon
    is a service: a request is an event that answers a transport error or a
    response, whose JSON is read by decoders that are arguments of the section.
    Go ranges over a map in any order: [RangeKeys] answers the order.  Errors
    are values of [DockerErr]; a slice out of range is a [Panic]. *)
From S2P Require Import Prelude GoStrings GoTime Etcd Effects.

Open Scope string_scope.
Open Scope list_scope.
Open Scope orbix_scope.
Open Scope Z_scope.

Definition sockPath := "/var/run/docker.sock".

Record NodeContainer := mkContainer {
  d_ContainerID : string;
  d_Name : string;
  d_NodeID : string;
  d_State : string;
  d_Image : string;
  d_HostPort : string;
}.

(** [http] is whether the socket answers. *)
Record Client := mkClient { c_http : bool; c_selfID : string }.

Record HttpResp := mkResp { h_StatusCode : Z; h_Status : string; h_Body : string }.

(** The fields of [inspect]: the names of the networks, the ports with the host
    ports bound to them. *)
Record inspect := mkInspect {
  in_ID : string;
  in_Name : string;
  in_Image : string;
  in_Env : list string;
  in_Labels : gmap string string;
  in_Status : string;
  in_Networks : gset string;
  in_Ports : gmap string (list string);
}.

Inductive DockerErr :=
| SocketUnavailable
| Transport (msg : string)
| Refused (msg : string)
| BadJson (msg : string)
| NotComposeService (project network image : string)
| NoContainer (nodeID : string)
| AlreadyExists (nodeID container : string).

(** The body of a creation. *)
Record CreateBody := mkCreate {
  b_Image : string;
  b_Hostname : string;
  b_Env : list string;
  b_Labels : list (string * string);
  b_ExposedPorts : list string;
  b_NetworkMode : string;
  b_PublishAllPorts : bool;
  b_RestartPolicy : string;
}.

Inductive DkEv : Type -> Type :=
| StatSock : DkEv bool
| OsHostname : DkEv (option string)
| DockerDo (method path : string) (body : option CreateBody) : DkEv (result string HttpResp)
| RangeKeys (keys : gset string) : DkEv (list string).

Abbreviation DkProg := (ProgE DkEv).

Definition Available (c : Client) : bool := c_http c.

(** [do], on the paths of API version 1.41. *)
Definition do_request (c : Client) (method path : string) (body : option CreateBody)
    : DkProg (result DockerErr HttpResp) :=
  if negb (Available c) then Ret (Err SocketUnavailable)
  else
    let! r := call (DockerDo method path body) in
    Ret match r with Ok resp => Ok resp | Err e => Err (Transport e) end.

Definition envVal (env : list string) (k : string) : string :=
  let prefix := k +:+ "=" in
  match find (fun e => HasPrefix e prefix) env with
  | Some e => TrimPrefix e prefix
  | None => ""
  end.

(** [m[k]] on a map of strings. *)
Definition label (m : gmap string string) (k : string) : string := default "" (m !! k).

Definition container_path (id action : string) : string :=
  "/v1.41/containers/" +:+ id +:+ "/" +:+ action.

Definition list_path (project : string) : string :=
  "/v1.41/containers/json?all=1&filters=%7B%22label%22%3A%5B%22com.docker.compose.project%3D"
  +:+ project +:+ "%22%5D%7D".

Definition create_path (nodeID : string) : string := "/v1.41/containers/create?name=" +:+ nodeID.

(** The container [findContainer] takes for the node. *)
Definition is_container_of (nodeID : string) (n : NodeContainer) : bool :=
  String.eqb (d_NodeID n) nodeID || String.eqb (d_Name n) nodeID ||
  HasSuffix (d_Name n) ("-" +:+ nodeID) || HasSuffix (d_Name n) ("_" +:+ nodeID).

Definition create_body (nodeID project network image : string) : CreateBody := {|
  b_Image := image; b_Hostname := nodeID;
  b_Env := ["ORBIX_NODE_ID=" +:+ nodeID; "ORBIX_ETCD=http://etcd:2379"; "ORBIX_LISTEN=:8080";
            "ORBIX_DATA_DIR=/data"];
  b_Labels := [("orbix.node", "1"); ("orbix.node.id", nodeID);
               ("com.docker.compose.project", project)];
  b_ExposedPorts := ["8080/tcp"]; b_NetworkMode := network; b_PublishAllPorts := true;
  b_RestartPolicy := "unless-stopped" |}.

Section docker.
(** The JSON decoders: an error message, an [inspect], ids of a listing, the id
    of a creation. *)
Context (parse_message : string -> string)
  (parse_inspect : string -> result string inspect)
  (parse_ids : string -> result string (list string))
  (parse_created : string -> result string string).

(** [decode], for a destination read by [parse]. *)
Definition decode {A} (parse : string -> result string A) (resp : HttpResp) : result DockerErr A :=
  if 400 <=? h_StatusCode resp then
    let msg := parse_message (h_Body resp) in
    Err (Refused (if String.eqb msg "" then h_Status resp else msg))
  else match parse (h_Body resp) with Ok a => Ok a | Err e => Err (BadJson e) end.

(** [decode(resp, nil)] *)
Definition no_body (_ : string) : result string unit := Ok tt.

(** A request and the decoding of its answer. *)
Definition request {A} (c : Client) (method path : string) (body : option CreateBody)
    (parse : string -> result string A) : DkProg (result DockerErr A) :=
  let! r := do_request c method path body in
  Ret match r with Ok resp => decode parse resp | Err e => Err e end.

Definition ping (c : Client) : DkProg (result DockerErr unit) :=
  request c "GET" "/v1.41/_ping" None no_body.

Definition New : DkProg Client :=
  let! there := call StatSock in
  if negb there then Ret (mkClient false "")
  else
    let! host := call OsHostname in
    let c := mkClient true (default "" host) in
    let! r := ping c in
    Ret match r with Ok _ => c | Err _ => mkClient false (c_selfID c) end.

Definition inspect_container (c : Client) (id : string) : DkProg (result DockerErr inspect) :=
  request c "GET" (container_path id "json") None parse_inspect.

(** Project, network and image of this container; the network is the first one
    the iteration meets. *)
Definition selfProject (c : Client) : DkProg (result DockerErr (string * string * string)) :=
  let! r := inspect_container c (c_selfID c) in
  match r with
  | Err e => Ret (Err e)
  | Ok i =>
      let project := label (in_Labels i) "com.docker.compose.project" in
      let! names := call (RangeKeys (in_Networks i)) in
      let network := default "" (head names) in
      let image := in_Image i in
      if String.eqb project "" || String.eqb network "" || String.eqb image ""
      then Ret (Err (NotComposeService project network image))
      else Ret (Ok (project, network, image))
  end.

(** The last port of the iteration that has a binding. *)
Definition host_port (ports : gmap string (list string)) (order : list string) : string :=
  foldl (fun acc port =>
    if HasPrefix port "8080/" then
      match ports !! port with Some (b :: _) => b | _ => acc end
    else acc) "" order.

(** [in.ID[:12]] panics on a shorter id. *)
Definition toNode (i : inspect) : DkProg NodeContainer :=
  if (String.length (in_ID i) <? 12)%nat then Panic
  else
    let id := envVal (in_Env i) "ORBIX_NODE_ID" in
    let! order := call (RangeKeys (dom (in_Ports i))) in
    Ret {| d_ContainerID := String.substring 0 12 (in_ID i); d_Name := TrimPrefix (in_Name i) "/";
           d_NodeID := if String.eqb id "" then label (in_Labels i) "orbix.node.id" else id;
           d_State := in_Status i; d_Image := in_Image i;
           d_HostPort := host_port (in_Ports i) order |}.

(** A container that cannot be inspected, or has no node id, is left out. *)
Fixpoint list_nodes (c : Client) (ids : list string) : DkProg (list NodeContainer) :=
  match ids with
  | [] => Ret []
  | id :: rest =>
      let! r := inspect_container c id in
      match r with
      | Err _ => list_nodes c rest
      | Ok i =>
          let! n := toNode i in
          let! out := list_nodes c rest in
          Ret (if String.eqb (d_NodeID n) "" then out else n :: out)
      end
  end.

Definition ListNodes (c : Client) : DkProg (result DockerErr (list NodeContainer)) :=
  let! self := selfProject c in
  match self with
  | Err e => Ret (Err e)
  | Ok (project, _, _) =>
      let! ids := request c "GET" (list_path project) None parse_ids in
      match ids with
      | Err e => Ret (Err e)
      | Ok ids => let! out := list_nodes c ids in Ret (Ok out)
      end
  end.

Definition findContainer (c : Client) (nodeID : string) : DkProg (result DockerErr string) :=
  let! r := ListNodes c in
  Ret match r with
      | Err e => Err e
      | Ok nodes => match find (is_container_of nodeID) nodes with
                    | Some n => Ok (d_ContainerID n)
                    | None => Err (NoContainer nodeID)
                    end
      end.

(** [KillNode] and [StartNode]: one request on the container found. *)
Definition on_container (c : Client) (nodeID action : string) : DkProg (result DockerErr unit) :=
  let! r := findContainer c nodeID in
  match r with
  | Err e => Ret (Err e)
  | Ok id => request c "POST" (container_path id action) None no_body
  end.

Definition KillNode (c : Client) (nodeID : string) : DkProg (result DockerErr unit) :=
  on_container c nodeID "kill".

Definition StartNode (c : Client) (nodeID : string) : DkProg (result DockerErr unit) :=
  on_container c nodeID "start".

Definition AddNode (c : Client) (nodeID : string) : DkProg (result DockerErr NodeContainer) :=
  let! self := selfProject c in
  match self with
  | Err e => Ret (Err e)
  | Ok (project, network, image) =>
      let! existing := findContainer c nodeID in
      match existing with
      | Ok e => Ret (Err (AlreadyExists nodeID e))
      | Err _ =>
          let! created := request c "POST" (create_path nodeID)
                            (Some (create_body nodeID project network image)) parse_created in
          match created with
          | Err e => Ret (Err e)
          | Ok id =>
              let! started := request c "POST" (container_path id "start") None no_body in
              match started with
              | Err e => Ret (Err e)
              | Ok _ =>
                  let! r := inspect_container c id in
                  match r with
                  | Err e => Ret (Err e)
                  | Ok i => let! n := toNode i in Ret (Ok n)
                  end
              end
          end
      end
  end.

End docker.
