(* ===== verification/DockerFacts.v ===== *)
(** * The Docker client: which container a request names, and what is posted

    The world of these theorems is the list of what was posted to the daemon:
    path, body and answer.  Reads are answered by a function [get] of the path (a
    daemon at rest); a [POST] may be answered in any way. *)
From S2P Require Import Prelude GoStrings GoTime Etcd Effects Docker.

Open Scope string_scope.
Open Scope list_scope.
Open Scope orbix_scope.
Open Scope Z_scope.

Record Post := mkPost {
  p_path : string;
  p_body : option CreateBody;
  p_answer : result string HttpResp;
}.

Definition dk_ok (get : string -> result string HttpResp) {X} (e : DkEv X) (w : list Post)
    : X -> list Post -> Prop :=
  match e in DkEv X return X -> list Post -> Prop with
  | DockerDo method path body => fun r w' =>
      if String.eqb method "POST" then w' = w ++ [mkPost path body r]
      else w' = w /\ r = get path
  | RangeKeys keys => fun order w' => w' = w /\ order ≡ₚ elements keys
  | _ => fun _ w' => w' = w
  end.

Section docker_facts.
Context (parse_message : string -> string)
  (parse_inspect : string -> result string inspect)
  (parse_ids : string -> result string (list string))
  (parse_created : string -> result string string)
  (get : string -> result string HttpResp) (c : Client).

Abbreviation exec := (execE (@dk_ok get) eq).
Abbreviation wp := (wpE (@dk_ok get) eq (fun _ _ => True)).

(** What a read answers. *)
Definition got {A} (path : string) (parse : string -> result string A) : result DockerErr A :=
  if Available c then
    match get path with
    | Ok resp => decode parse_message parse resp
    | Err e => Err (Transport e)
    end
  else Err SocketUnavailable.

Definition got_inspect (id : string) : result DockerErr inspect :=
  got (container_path id "json") parse_inspect.

Definition inspected (id : string) : option inspect :=
  match got_inspect id with Ok i => Some i | Err _ => None end.

Definition node_id (i : inspect) : string :=
  let id := envVal (in_Env i) "ORBIX_NODE_ID" in
  if String.eqb id "" then label (in_Labels i) "orbix.node.id" else id.

(** The node of a container, its port aside. *)
Definition node_of (i : inspect) (port : string) : NodeContainer :=
  mkContainer (String.substring 0 12 (in_ID i)) (TrimPrefix (in_Name i) "/") (node_id i)
    (in_Status i) (in_Image i) port.

(** The containers of a project that are nodes, in the order of the listing. *)
Definition listed (project : string) : result DockerErr (list inspect) :=
  match got (list_path project) parse_ids with
  | Err e => Err e
  | Ok ids => Ok (filter (fun i => node_id i <> "") (omap inspected ids))
  end.

Definition own_project : result DockerErr string :=
  match got_inspect (c_selfID c) with
  | Err e => Err e
  | Ok i => Ok (label (in_Labels i) "com.docker.compose.project")
  end.

(** The first container of the listing that [findContainer] takes for a node. *)
Definition first_match (nodeID : string) : option inspect :=
  match own_project with
  | Ok project =>
      match listed project with
      | Ok l => find (fun i => is_container_of nodeID (node_of i "")) l
      | Err _ => None
      end
  | Err _ => None
  end.

(** This node is a container of a compose project, on named networks. *)
Definition in_compose (i : inspect) : Prop :=
  got_inspect (c_selfID c) = Ok i /\ label (in_Labels i) "com.docker.compose.project" <> "" /\
  in_Image i <> "" /\ in_Networks i <> ∅ /\ "" ∉ in_Networks i.

(** The port under which 8080 of a container is reached: the first binding of one
    of its ports [8080/...], none when there is no such binding. *)
Definition published (i : inspect) (port : string) : Prop :=
  (port = "" /\ forall k b rest, in_Ports i !! k = Some (b :: rest) -> HasPrefix k "8080/" = false) \/
  exists k rest, HasPrefix k "8080/" = true /\ in_Ports i !! k = Some (port :: rest).

Definition is_node_of (n : NodeContainer) (i : inspect) : Prop :=
  exists port, published i port /\ n = node_of i port.

(** Listed containers. *)
Definition same_nodes (nodes : list NodeContainer) (l : list inspect) : Prop :=
  Forall2 is_node_of nodes l.

Lemma host_port_fold (ports : gmap string (list string)) order acc :
  let port := foldl (fun acc port =>
    if HasPrefix port "8080/" then
      match ports !! port with Some (b :: _) => b | _ => acc end
    else acc) acc order in
  (port = acc /\ forall k b rest, k ∈ order -> ports !! k = Some (b :: rest) ->
     HasPrefix k "8080/" = false) \/
  exists k (rest : list string), HasPrefix k "8080/" = true /\ ports !! k = Some (port :: rest).
Proof.
  cbv zeta. revert acc. induction order as [|k order IH]; intros acc; simpl.
  { left. split; [done|]. intros k b rest Hk. by apply elem_of_nil in Hk. }
  destruct (IH (if HasPrefix k "8080/" then match ports !! k with Some (b :: _) => b | _ => acc end
                else acc)) as [[-> H]|H]; [|by right].
  destruct (HasPrefix k "8080/") eqn:E.
  - destruct (ports !! k) as [[|b rest]|] eqn:Ek.
    + left. split; [done|]. intros k' b' r' [->|Hk]%elem_of_cons Hp; [congruence|by eapply H].
    + right. by exists k, rest.
    + left. split; [done|]. intros k' b' r' [->|Hk]%elem_of_cons Hp; [congruence|by eapply H].
  - left. split; [done|]. intros k' b' r' [->|Hk]%elem_of_cons Hp; [done|by eapply H].
Qed.

Lemma host_port_published i order : order ≡ₚ elements (dom (in_Ports i)) ->
  published i (host_port (in_Ports i) order).
Proof.
  intros Ho. destruct (host_port_fold (in_Ports i) order "") as [[E H]|H]; [|by right].
  left. split; [exact E|]. intros k b rest Hk. apply (H k b rest); [|done].
  rewrite Ho, elem_of_elements. apply elem_of_dom. eauto.
Qed.

(** The id the daemon answered to a creation. *)
Definition created_id (p : Post) : result DockerErr string :=
  match p_answer p with
  | Ok resp => decode parse_message parse_created resp
  | Err e => Err (Transport e)
  end.

(** The creation of the node: a container of its name and of the image, the
    project and a network of [self], told the id of the node. *)
Definition creation (nodeID : string) (self : inspect) (p : Post) : Prop :=
  p_path p = create_path nodeID /\
  exists b, p_body p = Some b /\ b_Image b = in_Image self /\ b_Hostname b = nodeID /\
    ("ORBIX_NODE_ID=" +:+ nodeID) ∈ b_Env b /\ ("orbix.node.id", nodeID) ∈ b_Labels b /\
    ("com.docker.compose.project", label (in_Labels self) "com.docker.compose.project") ∈ b_Labels b /\
    b_NetworkMode b ∈ in_Networks self.

Definition accepted (p : Post) : Prop :=
  exists resp, p_answer p = Ok resp /\ h_StatusCode resp < 400.

(** An action on a container: no body. *)
Definition action_on (id action : string) (p : Post) : Prop :=
  p_path p = container_path id action /\ p_body p = None.

(** What an addition posts: the creation, and the start of the container whose
    id the creation was answered, unless that answer is an error. *)
Definition addition (nodeID : string) (self : inspect) (posts : list Post) : Prop :=
  (exists p e, creation nodeID self p /\ created_id p = Err e /\ posts = [p]) \/
  (exists p q id, creation nodeID self p /\ created_id p = Ok id /\ action_on id "start" q /\
     posts = [p; q]).

(** The node an addition answers: the container created and started, as the
    daemon shows it then. *)
Definition node_added (nodeID : string) (self : inspect) (posts : list Post) (n : NodeContainer)
    : Prop :=
  exists p q id i, creation nodeID self p /\ created_id p = Ok id /\ action_on id "start" q /\
    accepted q /\ posts = [p; q] /\ got_inspect id = Ok i /\ is_node_of n i.

(** ** Requests *)

Lemma request_get {A} path body (parse : string -> result string A) w :
  wp (request parse_message c "GET" path body parse)
     (ends (fun r w' => w' = w /\ r = got path parse)) w.
Proof.
  unfold request, do_request, got. destruct (Available c); simpl; [|done].
  intros w1 x w2 <- [-> ->]. split; [done|]. by destruct (get path).
Qed.

Lemma request_post {A} path body (parse : string -> result string A) w :
  wp (request parse_message c "POST" path body parse)
     (ends (fun r w' =>
        if Available c then exists ans, w' = w ++ [mkPost path body ans] /\
          r = match ans with Ok resp => decode parse_message parse resp | Err e => Err (Transport e) end
        else w' = w /\ r = Err SocketUnavailable)) w.
Proof.
  unfold request, do_request. destruct (Available c); simpl; [|done].
  intros w1 x w2 <- ->. split; [done|]. destruct x as [resp|e]; by eexists.
Qed.

(** An action that succeeds was accepted. *)
Lemma decode_accepted path body ans :
  match ans with Ok resp => decode parse_message no_body resp | Err e => Err (Transport e) end = Ok tt ->
  accepted (mkPost path body ans).
Proof.
  destruct ans as [resp|e]; [|done]. unfold decode, accepted. cbn [p_answer].
  destruct (400 <=? h_StatusCode resp) eqn:E; [done|]. bool_prop. intros _. exists resp.
  split; [done|lia].
Qed.

Lemma selfProject_runs w :
  wp (selfProject parse_message parse_inspect c)
     (ends (fun r w' => w' = w /\ match r with
            | Ok (project, network, image) => own_project = Ok project /\
                exists i, got_inspect (c_selfID c) = Ok i /\ network ∈ in_Networks i /\
                  project = label (in_Labels i) "com.docker.compose.project" /\
                  project <> "" /\ image = in_Image i /\ image <> ""
            | Err _ => forall i, ~ in_compose i end)) w.
Proof.
  unfold selfProject, inspect_container. eapply wpE_seq; [apply request_get|].
  intros r w' [-> ->]. unfold own_project, in_compose. fold (got_inspect (c_selfID c)).
  destruct (got_inspect (c_selfID c)) as [i|e].
  2: { split; [done|]. by intros i (H & _). }
  simpl. intros w1 names w2 <- [-> Hperm]. split; [done|].
  assert (Hin : forall n, n ∈ names <-> n ∈ in_Networks i)
    by (intros n; by rewrite Hperm, elem_of_elements).
  destruct (String.eqb_spec (label (in_Labels i) "com.docker.compose.project") "") as [E|].
  { split; [done|]. intros i' ([= <-] & H & _). by apply H. }
  destruct (String.eqb_spec (default "" (head names)) "") as [Hnet|Hnet].
  { split; [done|]. intros i' ([= <-] & _ & _ & Hne & Hno). destruct names as [|nm names].
    - apply Hne. apply set_eq. intros k. rewrite <- Hin. set_solver.
    - simpl in Hnet. subst nm. apply Hno, Hin. by left. }
  destruct (String.eqb_spec (in_Image i) "") as [E|].
  { split; [done|]. intros i' ([= <-] & _ & H & _). by apply H. }
  simpl. split_and!; [done..|]. eexists. split_and!; try done. apply Hin.
  destruct names; [done|]. by left.
Qed.

(** ** Listing *)

Definition done_or_panic {A} (Q : A -> list Post -> Prop) (w : list Post)
    (o : outcome A) (w' : list Post) : Prop :=
  match o with Done a => Q a w' | Panicked => w' = w end.

Lemma list_nodes_runs ids w :
  wp (list_nodes parse_message parse_inspect c ids)
     (done_or_panic (fun nodes w' => w' = w /\
        same_nodes nodes (filter (fun i => node_id i <> "") (omap inspected ids))) w) w.
Proof.
  revert w. induction ids as [|id ids IH]; intros w; simpl.
  { split; [done|]. constructor. }
  eapply wpE_seq; [apply request_get|]. intros r w' [-> ->]. unfold inspected at 1.
  fold (got_inspect id). destruct (got_inspect id) as [i|]; [|apply IH].
  unfold toNode. destruct (String.length (in_ID i) <? 12)%nat; [done|].
  simpl. intros w1 order w2 <- [-> Ho]. split; [done|].
  apply wpE_bind. eapply wpE_mono; [|apply IH].
  intros [nodes|] w'; [|done]. simpl. intros [-> Hs]. split; [done|].
  fold (node_id i). rewrite filter_cons. destruct (String.eqb_spec (node_id i) "") as [E|E].
  - by rewrite decide_False by (intros H; by apply H).
  - rewrite decide_True by done. constructor; [|done]. eexists.
    split; [by apply host_port_published|done].
Qed.

Lemma ListNodes_runs w :
  wp (ListNodes parse_message parse_inspect parse_ids c)
     (done_or_panic (fun r w' => w' = w /\ match r with
        | Ok nodes => exists project l, own_project = Ok project /\ listed project = Ok l /\
                                        same_nodes nodes l
        | Err e => (forall i, ~ in_compose i) \/
                   exists project, own_project = Ok project /\ listed project = Err e end) w) w.
Proof.
  unfold ListNodes. eapply wpE_seq; [apply selfProject_runs|].
  intros [[[project network] image]|e] w' [-> H]; [|by split; [|left]].
  destruct H as (Hp & _). eapply wpE_seq; [apply request_get|]. intros r w' [-> ->].
  destruct (got (list_path project) parse_ids) as [ids|e] eqn:E.
  2: { split; [done|]. right. exists project. unfold listed. by rewrite E. }
  apply wpE_bind. eapply wpE_mono; [|apply list_nodes_runs].
  intros [nodes|] w'; [|done]. simpl. intros [-> Hs]. split; [done|].
  exists project. unfold listed. rewrite E. eauto.
Qed.

Lemma find_same nodeID nodes l : same_nodes nodes l ->
  match find (is_container_of nodeID) nodes,
        find (fun i => is_container_of nodeID (node_of i "")) l with
  | Some n, Some i => is_node_of n i
  | None, None => True
  | _, _ => False
  end.
Proof.
  induction 1 as [|n i nodes l (port & Hport & ->) _ IH]; [done|]. simpl.
  change (is_container_of nodeID (node_of i port)) with (is_container_of nodeID (node_of i "")).
  destruct (is_container_of nodeID (node_of i "")); [by exists port|exact IH].
Qed.

Lemma findContainer_runs nodeID w :
  wp (findContainer parse_message parse_inspect parse_ids c nodeID)
     (done_or_panic (fun r w' => w' = w /\ match r with
        | Ok id => exists i, first_match nodeID = Some i /\ id = String.substring 0 12 (in_ID i)
        | Err _ => (forall i, ~ in_compose i) \/ first_match nodeID = None end) w) w.
Proof.
  unfold findContainer. apply wpE_bind. eapply wpE_mono; [|apply ListNodes_runs].
  intros [[nodes|e]|] w'; [| |done]; simpl.
  - intros [-> (project & l & Hp & Hl & Hs)]. split; [done|].
    unfold first_match. rewrite Hp, Hl. pose proof (find_same nodeID _ _ Hs) as Hf.
    destruct (find _ nodes) as [n|], (find _ l) as [i|]; try done; [|by right].
    destruct Hf as (port & _ & ->). by exists i.
  - intros [-> [H|(project & Hp & Hl)]]; (split; [done|]); [by left|].
    right. unfold first_match. by rewrite Hp, Hl.
Qed.

(** ** What is posted *)

Lemma on_container_exec nodeID action w o w' :
  exec (on_container parse_message parse_inspect parse_ids c nodeID action) w o w' ->
  (w' = w /\ o <> Done (Ok tt) \/
   exists i p, first_match nodeID = Some i /\ w' = w ++ [p] /\
     action_on (String.substring 0 12 (in_ID i)) action p /\ (o = Done (Ok tt) -> accepted p)) /\
  (first_match nodeID = None -> w' = w).
Proof.
  intros H. use_wpE H. unfold on_container. apply wpE_bind.
  eapply wpE_mono; [|apply findContainer_runs].
  intros [[id|e]|] w1; simpl.
  - intros [-> (i & Hf & ->)]. eapply wpE_mono; [|apply request_post].
    intros [r|]; [|done]. simpl. intros w2. destruct (Available c).
    + intros (ans & -> & Hr). split; [right|congruence]. eexists i, _. split_and!; [done..|].
      intros [= ->]. by apply decode_accepted.
    + intros [-> ->]. by split; [left|].
  - intros [-> _]. by split; [left|].
  - intros ->. by split; [left|].
Qed.

(** Killing a node, or starting one, posts at most one request: to the
    first container of the listing that carries the node's id or its name, or
    whose name ends in them after a [-] or [_].  It succeeds only if it was
    posted and accepted, and posts nothing when no container matches. *)
Theorem kill_and_start_spec nodeID w o w' :
  let kill := KillNode parse_message parse_inspect parse_ids c nodeID in
  let start := StartNode parse_message parse_inspect parse_ids c nodeID in
  let posted action :=
    (w' = w /\ o <> Done (Ok tt) \/
     exists i p, first_match nodeID = Some i /\ w' = w ++ [p] /\
       action_on (String.substring 0 12 (in_ID i)) action p /\ (o = Done (Ok tt) -> accepted p)) /\
    (first_match nodeID = None -> w' = w) in
  (exec kill w o w' -> posted "kill") /\ (exec start w o w' -> posted "start").
Proof. split; apply on_container_exec. Qed.

Lemma create_body_creation nodeID self project network answer :
  project = label (in_Labels self) "com.docker.compose.project" -> network ∈ in_Networks self ->
  creation nodeID self
    (mkPost (create_path nodeID) (Some (create_body nodeID project network (in_Image self))) answer).
Proof.
  intros -> Hn. split; [done|]. eexists. split; [done|]. cbn. split_and!; try done; set_solver.
Qed.

(** What an addition posts, and what it answers. *)
Definition addition_post (nodeID : string) (w : list Post)
    (o : outcome (result DockerErr NodeContainer)) (w' : list Post) : Prop :=
  (forall self, in_compose self -> first_match nodeID <> None ->
     w' = w /\ forall n, o <> Done (Ok n)) /\
  (forall self, in_compose self -> first_match nodeID = None -> w' = w -> o = Panicked) /\
  ((w' = w /\ forall n, o <> Done (Ok n)) \/
   exists self posts, got_inspect (c_selfID c) = Ok self /\ w' = w ++ posts /\
     addition nodeID self posts /\ forall n, o = Done (Ok n) -> node_added nodeID self posts n).

(** Once the search has found nothing, the requests of the creation. *)
Lemma AddNode_creates nodeID self project network w :
  Available c = true -> got_inspect (c_selfID c) = Ok self ->
  project = label (in_Labels self) "com.docker.compose.project" -> network ∈ in_Networks self ->
  wp (let! created := request parse_message c "POST" (create_path nodeID)
        (Some (create_body nodeID project network (in_Image self))) parse_created in
      match created with
      | Err e => Ret (Err e)
      | Ok id =>
          let! started := request parse_message c "POST" (container_path id "start") None no_body in
          match started with
          | Err e => Ret (Err e)
          | Ok _ =>
              let! r := inspect_container parse_message parse_inspect c id in
              match r with
              | Err e => Ret (Err e)
              | Ok i => let! n := toNode i in Ret (Ok n)
              end
          end
      end)
     (fun o w' => exists posts, w' = w ++ posts /\ posts <> [] /\ addition nodeID self posts /\
        forall n, o = Done (Ok n) -> node_added nodeID self posts n) w.
Proof.
  intros Ha Hself Hproject Hnet.
  pose proof (fun ans => create_body_creation nodeID self project network ans Hproject Hnet) as Hc.
  eapply wpE_seq; [apply request_post|]. intros r w1. rewrite Ha. intros (ans & -> & Hr).
  specialize (Hc ans). set (p := mkPost _ _ ans) in *.
  assert (created_id p = r) as Hp by (by rewrite Hr). destruct r as [id|e].
  2: { exists [p]. split_and!; [done..|left; eauto 6|done]. }
  eapply wpE_seq; [apply request_post|]. intros r w1. rewrite Ha. intros (ans2 & -> & Hr2).
  set (q := mkPost _ _ ans2). rewrite <- app_assoc. cbn [app].
  assert (action_on id "start" q) as Hq by done.
  assert (addition nodeID self [p; q]) as Hadd by (right; by exists p, q, id).
  destruct r as [[]|e]; [|by exists [p; q]].
  apply eq_sym, (decode_accepted (container_path id "start") None) in Hr2.
  eapply wpE_seq; [apply request_get|]. intros r w1 [-> ->].
  fold (got_inspect id). destruct (got_inspect id) as [i|e'] eqn:Ei; [|by exists [p; q]].
  unfold toNode. destruct (String.length (in_ID i) <? 12)%nat; [by exists [p; q]|].
  simpl. intros w1 order w2 <- [-> Ho]. split; [done|]. exists [p; q]. split_and!; [done..|].
  intros n [= <-]. exists p, q, id, i. split_and!; [done..|]. eexists.
  split; [by apply host_port_published|done].
Qed.

Lemma AddNode_runs nodeID w :
  wp (AddNode parse_message parse_inspect parse_ids parse_created c nodeID) (addition_post nodeID w) w.
Proof.
  unfold AddNode, addition_post. eapply wpE_seq; [apply selfProject_runs|].
  intros [[[project network] image]|e] w1 [-> Hp].
  2: { split_and!; [intros self Hs; by destruct (Hp self)..|by left]. }
  destruct Hp as (_ & self & Hself & Hnet & Hproject & _ & -> & _).
  apply wpE_bind. eapply wpE_mono; [|apply findContainer_runs].
  intros [[e|e]|] w1; simpl; [| |by intros ->; split_and!; [|..|left]].
  - intros [-> (i & Hi & _)]. split_and!; [done|by intros ? _ ?; congruence|by left].
  - intros [-> Hno].
    assert (forall self, in_compose self -> first_match nodeID <> None -> False) as Hex.
    { intros self' Hs Hf. destruct Hno as [Hno|]; [by apply (Hno self')|done]. }
    assert (Available c = true) as Ha.
    { unfold got_inspect, got in Hself. by destruct (Available c). }
    eapply wpE_mono; [|by apply (AddNode_creates nodeID self project network)].
    intros o w' (posts & -> & Hne & Hadd & Hn). split_and!.
    + intros self' Hs Hf. by destruct (Hex self').
    + intros self' _ _ E. rewrite <- (app_nil_r w) in E at 2. by apply app_inv_head in E.
    + right. by exists self, posts.
Qed.

(** C21: Adding a node from a node that is a container of a compose project with
    named networks: a container that matches the id is never shadowed by a new
    one (nothing is posted); otherwise the creation is posted, with the image,
    the project and a network of this node's container, then the start of the
    container whose id the daemon answered, and nothing else; a node is answered
    only if the start was accepted, and it is that container. *)
Theorem AddNode_spec self nodeID w o w' :
  in_compose self ->
  exec (AddNode parse_message parse_inspect parse_ids parse_created c nodeID) w o w' ->
  (first_match nodeID <> None -> w' = w /\ forall n, o <> Done (Ok n)) /\
  (first_match nodeID = None -> w' = w -> o = Panicked) /\
  ((w' = w /\ forall n, o <> Done (Ok n)) \/
   exists posts, w' = w ++ posts /\ addition nodeID self posts /\
     forall n, o = Done (Ok n) -> node_added nodeID self posts n).
Proof.
  intros Hself H. destruct (wpE_sound _ _ _ _ _ _ _ _ (AddNode_runs nodeID w) H) as (H1 & H2 & H3).
  split; [by apply (H1 self)|]. split; [by apply (H2 self)|].
  destruct H3 as [?|(self' & posts & Hs & ?)]; [by left|]. right. exists posts.
  destruct Hself as [Hself _]. rewrite Hself in Hs. by injection Hs as <-.
Qed.

End docker_facts.

(** ** A project with two nodes

    Docker lists the newest container first; a node added as [edge-node1] is
    a container of that name. *)
Definition demo_container (id name node : string) : inspect := {|
  in_ID := id; in_Name := "/" +:+ name; in_Image := "orbix";
  in_Env := ["ORBIX_NODE_ID=" +:+ node];
  in_Labels := {["com.docker.compose.project" := "orbix"]}; in_Status := "running";
  in_Networks := {["orbix_default"]}; in_Ports := ∅ |}.

Definition demo_edge := demo_container "eeeeeeeeeeee" "edge-node1" "edge-node1".
Definition demo_node1 := demo_container "111111111111" "orbix-node1-1" "node1".

(** The daemon answers the name of what is asked as the body. *)
Definition demo_get (path : string) : result string HttpResp :=
  Ok (mkResp 200 "200 OK"
        (if String.eqb path (container_path "eeeeeeeeeeee" "json") then "edge"
         else if HasPrefix path "/v1.41/containers/json" then "ids" else "node1")).
Definition demo_inspect (body : string) : result string inspect :=
  Ok (if String.eqb body "edge" then demo_edge else demo_node1).
Definition demo_ids (_ : string) : result string (list string) :=
  Ok ["eeeeeeeeeeee"; "111111111111"].
Definition demo_message (_ : string) : string := "".
Definition demo_client : Client := mkClient true "111111111111".

(** The listing meets [edge-node1] first, and its name ends in [-node1]. *)
Lemma demo_first_match :
  first_match demo_message demo_inspect demo_ids demo_get demo_client "node1" = Some demo_edge.
Proof. vm_compute. reflexivity. Qed.

(** Finding: Killing [node1] kills the node [edge-node1] when that one is
    listed first, although the container of [node1] is in the listing. *)
Theorem kill_hits_other_node o posted :
  execE (@dk_ok demo_get) eq
    (KillNode demo_message demo_inspect demo_ids demo_client "node1") [] o posted ->
  In demo_node1 (omap (inspected demo_message demo_inspect demo_get demo_client)
                   ["eeeeeeeeeeee"; "111111111111"]) /\
  node_id demo_edge = "edge-node1" /\ node_id demo_node1 = "node1" /\
  (o = Done (Ok tt) -> exists answer,
     posted = [mkPost (container_path "eeeeeeeeeeee" "kill") None answer]).
Proof.
  intros H. apply on_container_exec in H as [[[-> Hno]|(i & p & Hi & -> & [Hp Hb] & _)] _].
  - split_and!; [|by vm_compute..|by intros ->]. vm_compute. by right; left.
  - rewrite demo_first_match in Hi. injection Hi as <-.
    split_and!; [vm_compute; by right; left|by vm_compute..|]. intros _.
    destruct p as [path body answer]. exists answer. cbn in Hp, Hb. by subst.
Qed.
