(* ===== verification/Cluster.v ===== *)
(** * Membership and election: [internal/cluster/session.go] and [election.go]

    A node keeps two etcd sessions (leases kept alive by the client): one for
    its membership and the leader key, one for its claims.  One goroutine runs
    the election ([Run]), another keeps the claim session up ([MaintainClaims]);
    the scheduler and the worker of the node read [IsLeader] and [ClaimLeaseID].

    The fields that goroutines share are the record [Node]; the programs read
    and write them by requests ([NEv]), one at a time, with the two mutexes as
    the code takes them.  A channel [Done()] of a session is the session itself,
    [None] for the closed channel that stands for no session.  What the requests
    do is [nev_ok]: sessions are etcd leases, which are never granted twice. *)
From S2P Require Import Prelude GoStrings GoTime Model Config Etcd Effects Queue History.

Open Scope string_scope.
Open Scope list_scope.
Open Scope orbix_scope.
Open Scope Z_scope.

Definition leaderKey := "/cron/leader".
Definition membersPrefix := "/cron/members/".

Inductive EventKind := LeaderGained | LeaderLost.

(** The two mutexes, and the session each one guards. *)
Inductive Mu := MuSession | MuClaim.

#[export] Instance Mu_eq_dec : EqDecision Mu.
Proof. solve_decision. Defined.

Record Node := mkNode {
  n_mu : bool;
  n_session : option LeaseID;
  n_claimMu : bool;
  n_claimSession : option LeaseID;
  n_isLeader : bool;
  n_leader : LeaderInfo;
  n_events : list EventKind;
}.

Definition no_leader : LeaderInfo := mkLeaderInfo "" "".

(** A node as [Connect] makes it, before its sessions; the channel of events
    has room for eight. *)
Definition new_node : Node := mkNode false None false None false no_leader [].
Definition events_cap : nat := 8.

(** What the [select] of [follow] is woken up by. *)
Inductive FollowEv :=
| FCtxDone
| FSessionDone
| FWatchClosed
| FWatch (evs : list WatchEvent).

Inductive NEv : Type -> Type :=
| NEtcd {X} (e : Ev X) : NEv X
| NGetRev (k : string) : NEv (result EtcdErr (option Entry * Z))
| NDial (endpoints : list string) (timeout : Duration) : NEv (result string unit)
| NCloseClient : NEv unit
| NCtxDone : NEv bool
| NSleep (d : Duration) : NEv bool
| NewSession (ttl : Z) : NEv (result EtcdErr LeaseID)
| CloseSession (l : LeaseID) : NEv unit
| Lock (m : Mu) : NEv unit
| Unlock (m : Mu) : NEv unit
| LoadSession (m : Mu) : NEv (option LeaseID)
| StoreSession (m : Mu) (o : option LeaseID) : NEv unit
| LoadIsLeader : NEv bool
| StoreIsLeader (b : bool) : NEv unit
| LoadLeader : NEv LeaderInfo
| StoreLeader (i : LeaderInfo) : NEv unit
| Emit (k : EventKind) : NEv unit
| AwaitDone (done : option LeaseID) : NEv unit
| SelectDone (done : option LeaseID) : NEv bool
| NWatch (k : string) (rev : Z) : NEv unit
| SelectFollow (done : option LeaseID) : NEv FollowEv.

Abbreviation NProg := (ProgE NEv).

Lemma not_leaderKey p s : prefix_apart p leaderKey = true -> leaderKey <> p +:+ s.
Proof. intros H E. by apply (prefix_ne p leaderKey s "" H). Qed.

(** [mu.Lock(); defer mu.Unlock()] around a body. *)
Definition locked {A} (m : Mu) (body : NProg A) : NProg A :=
  let! _ := call (Lock m) in
  let! a := body in
  let! _ := call (Unlock m) in
  Ret a.

(** ** Sessions

    The answer is [true] for a nil error; the error is the context's. *)
Fixpoint ensure_loop (attempts : nat) (m : Mu) (ttl : Z) (backoff : Duration) : NProg bool :=
  match attempts with
  | O => Ret false
  | S n =>
      let! stop := call NCtxDone in
      if (stop : bool) then Ret false
      else
        let! sess := call (NewSession ttl) in
        match sess with
        | Ok l => let! _ := call (StoreSession m (Some l)) in Ret true
        | Err _ =>
            let! stop := call (NSleep backoff) in
            if (stop : bool) then Ret false
            else ensure_loop n m ttl (if backoff <? 8 * Second then backoff * 2 else backoff)
        end
  end.

Definition ensure (attempts : nat) (m : Mu) (ttl : Z) : NProg bool :=
  locked m (
    let! cur := call (LoadSession m) in
    match cur with
    | Some _ => Ret true
    | None => ensure_loop attempts m ttl Second
    end).

(** [LeaseID] (here [node_LeaseID]) and [ClaimLeaseID] *)
Definition lease_of (o : option LeaseID) : LeaseID := match o with Some l => l | None => NoLease end.

Definition session_lease (m : Mu) : NProg LeaseID :=
  locked m (let! cur := call (LoadSession m) in Ret (lease_of cur)).

Definition node_LeaseID : NProg LeaseID := session_lease MuSession.
Definition ClaimLeaseID : NProg LeaseID := session_lease MuClaim.

(** [sessionDone] and [claimDone] *)
Definition session_done (m : Mu) : NProg (option LeaseID) :=
  locked m (call (LoadSession m)).

(** [dropSession] and [dropClaimSession] *)
Definition drop_session (m : Mu) : NProg unit :=
  locked m (
    let! cur := call (LoadSession m) in
    match cur with
    | Some l =>
        let! _ := call (CloseSession l) in
        call (StoreSession m None)
    | None => Ret tt
    end).

Definition dropSession : NProg unit := drop_session MuSession.
Definition dropClaimSession : NProg unit := drop_session MuClaim.

Definition sleep (d : Duration) : NProg unit := let! _ := call (NSleep d) in Ret tt.

Definition Close : NProg unit :=
  let! _ := dropClaimSession in
  let! _ := dropSession in
  call NCloseClient.

(** The one request of [campaign]. *)
Definition campaign_txn (info : string) (l : LeaseID) : Prog (result EtcdErr bool) :=
  call (Txn [CVersion leaderKey 0] [OpPut leaderKey info l] []).

(** The one request of [registerMember]. *)
Definition register_put (id member : string) (l : LeaseID) : Prog (result EtcdErr unit) :=
  call (Put (membersPrefix +:+ id) member l).

Section node.
Context `{LJ : Json LeaderInfo leader_valid} `{MJ : Json Member member_valid}.
Context (cfg : Config).

Definition ID : string := NodeID cfg.

Definition ensureSession (attempts : nat) : NProg bool :=
  ensure attempts MuSession (ElectionTTLSec cfg).

Definition ensureClaimSession (attempts : nat) : NProg bool :=
  ensure attempts MuClaim (WorkerLeaseSec cfg).

Definition Connect (attempts : nat) : NProg (result string unit) :=
  let! cli := call (NDial (EtcdEndpoints cfg) (5 * Second)) in
  match cli with
  | Err e => Ret (Err ("cluster: etcd dial: " +:+ e))
  | Ok _ =>
      let! _ := call (StoreLeader no_leader) in
      let! ok := ensureSession attempts in
      if negb ok then let! _ := call NCloseClient in Ret (Err "context canceled")
      else
        let! ok := ensureClaimSession attempts in
        if negb ok then
          let! _ := dropSession in
          let! _ := call NCloseClient in
          Ret (Err "context canceled")
        else Ret (Ok tt)
  end.

(** ** Membership *)

Definition now_utc : NProg string := embed (@NEtcd) now_rfc3339.

Definition registerMember : NProg (result string unit) :=
  let! sess := locked MuSession (call (LoadSession MuSession)) in
  match sess with
  | None => Ret (Err "cluster: no session")
  | Some l =>
      let! now := now_utc in
      let m := mkMember ID (HTTPListen cfg) now in
      embed (@NEtcd) (register_put ID (marshal m) l)
  end.

(** What cannot be read as a member is left out. *)
Definition read_members (kvs : list (string * Entry)) : list Member :=
  omap (fun p => unmarshal (e_value p.2)) kvs.

Definition Members : Prog (result EtcdErr (list Member)) :=
  let! resp := call (GetPrefix membersPrefix None) in
  Ret match resp with Err e => Err e | Ok kvs => Ok (read_members kvs) end.

(** ** Election *)

Definition campaign : NProg (result EtcdErr bool) :=
  let! now := now_utc in
  let info := marshal (mkLeaderInfo ID now) in
  let! l := node_LeaseID in
  embed (@NEtcd) (campaign_txn info l).

Definition rememberLeader (v : string) : NProg unit :=
  match unmarshal v with
  | Some li => call (StoreLeader li)
  | None => Ret tt
  end.

(** One response of the watch: [true] when the leader key was deleted. *)
Fixpoint follow_events (evs : list WatchEvent) : NProg bool :=
  match evs with
  | [] => Ret false
  | EvDelete _ :: _ => let! _ := call (StoreLeader no_leader) in Ret true
  | EvPut _ v :: rest => let! _ := rememberLeader v in follow_events rest
  end.

(** The [for] of [follow], for a number of turns. *)
Fixpoint follow_loop (turns : nat) (sessDone : option LeaseID) : NProg bool :=
  match turns with
  | O => Ret false
  | S n =>
      let! ev := call (SelectFollow sessDone) in
      match ev with
      | FCtxDone => Ret false
      | FSessionDone => let! _ := dropSession in Ret true
      | FWatchClosed => let! stop := call NCtxDone in Ret (negb stop)
      | FWatch evs =>
          let! deleted := follow_events evs in
          if (deleted : bool) then Ret true else follow_loop n sessDone
      end
  end.

Definition follow (turns : nat) : NProg bool :=
  let! resp := call (NGetRev leaderKey) in
  match resp with
  | Err _ =>
      let! _ := dropSession in
      let! _ := sleep Second in
      let! stop := call NCtxDone in Ret (negb stop)
  | Ok (None, _) => let! stop := call NCtxDone in Ret (negb stop)
  | Ok (Some e, rev) =>
      let! _ := rememberLeader (e_value e) in
      let! _ := call (NWatch leaderKey (rev + 1)) in
      let! sessDone := session_done MuSession in
      follow_loop turns sessDone
  end.

(** From the won campaign to the end of the term. *)
Definition lead : NProg unit :=
  let! _ := call (StoreIsLeader true) in
  let! now := now_utc in
  let! _ := call (StoreLeader (mkLeaderInfo ID now)) in
  let! _ := call (Emit LeaderGained) in
  let! ended := session_done MuSession in
  let! _ := call (AwaitDone ended) in
  let! _ := call (StoreIsLeader false) in
  let! _ := call (StoreLeader no_leader) in
  let! _ := call (Emit LeaderLost) in
  dropSession.

(** A failed step: start again with a new session, a second later. *)
Definition start_over : NProg bool :=
  let! _ := dropSession in
  let! _ := sleep Second in
  Ret true.

(** The body of the loop of [Run]; [false] is a [return]. [fuel] bounds the
    attempts of [ensureSession] and the turns of [follow]. *)
Definition run_turn (fuel : nat) : NProg bool :=
  let! ok := ensureSession fuel in
  if negb ok then Ret false
  else
    let! reg := registerMember in
    match reg with
    | Err _ => start_over
    | Ok _ =>
        let! won := campaign in
        match won with
        | Err _ =>
            let! stop := call NCtxDone in
            if (stop : bool) then Ret false else start_over
        | Ok true => let! _ := lead in Ret true
        | Ok false => follow fuel
        end
    end.

Fixpoint Node_Run (turns fuel : nat) : NProg unit :=
  match turns with
  | O => Ret tt
  | S n =>
      let! stop := call NCtxDone in
      if (stop : bool) then Ret tt
      else let! go_on := run_turn fuel in if (go_on : bool) then Node_Run n fuel else Ret tt
  end.

Fixpoint MaintainClaims (turns fuel : nat) : NProg unit :=
  match turns with
  | O => Ret tt
  | S n =>
      let! stop := call NCtxDone in
      if (stop : bool) then Ret tt
      else
        let! ok := ensureClaimSession fuel in
        if negb ok then Ret tt
        else
          let! ended := session_done MuClaim in
          let! stop := call (SelectDone ended) in
          if (stop : bool) then Ret tt
          else
            let! _ := dropClaimSession in
            let! _ := sleep Second in
            MaintainClaims n fuel
  end.

(** The goroutine of [main] that becomes the election: [Connect], then [Run]. *)
Definition node_main (turns fuel : nat) : NProg unit :=
  let! ok := Connect fuel in
  match ok with Err _ => Ret tt | Ok _ => Node_Run turns fuel end.
End node.

(** ** What the requests do

    The world of a node: etcd, its own fields, and who every lease was granted
    to ([w_self] is this node). *)
Record NWorld := mkNWorld {
  w_store : Store;
  w_granted : gmap LeaseID nat;
  w_self : nat;
  w_node : Node;
}.

Definition w_set_store (w : NWorld) (st : Store) : NWorld :=
  mkNWorld st (w_granted w) (w_self w) (w_node w).
Definition w_set_node (w : NWorld) (n : Node) : NWorld :=
  mkNWorld (w_store w) (w_granted w) (w_self w) n.

Definition mu_held (m : Mu) (n : Node) : bool :=
  match m with MuSession => n_mu n | MuClaim => n_claimMu n end.

Definition set_mu (m : Mu) (b : bool) (n : Node) : Node :=
  match m with
  | MuSession => mkNode b (n_session n) (n_claimMu n) (n_claimSession n) (n_isLeader n) (n_leader n) (n_events n)
  | MuClaim => mkNode (n_mu n) (n_session n) b (n_claimSession n) (n_isLeader n) (n_leader n) (n_events n)
  end.

Definition session_at (m : Mu) (n : Node) : option LeaseID :=
  match m with MuSession => n_session n | MuClaim => n_claimSession n end.

Definition set_session (m : Mu) (o : option LeaseID) (n : Node) : Node :=
  match m with
  | MuSession => mkNode (n_mu n) o (n_claimMu n) (n_claimSession n) (n_isLeader n) (n_leader n) (n_events n)
  | MuClaim => mkNode (n_mu n) (n_session n) (n_claimMu n) o (n_isLeader n) (n_leader n) (n_events n)
  end.

Definition set_isLeader (b : bool) (n : Node) : Node :=
  mkNode (n_mu n) (n_session n) (n_claimMu n) (n_claimSession n) b (n_leader n) (n_events n).

Definition set_leader (i : LeaderInfo) (n : Node) : Node :=
  mkNode (n_mu n) (n_session n) (n_claimMu n) (n_claimSession n) (n_isLeader n) i (n_events n).

(** [emit]: an event that finds the channel full is dropped. *)
Definition emit (k : EventKind) (n : Node) : Node :=
  if (length (n_events n) <? events_cap)%nat
  then mkNode (n_mu n) (n_session n) (n_claimMu n) (n_claimSession n) (n_isLeader n) (n_leader n)
         (n_events n ++ [k])
  else n.

(** A lease no session ever had. *)
Definition fresh_lease (w : NWorld) (l : LeaseID) : Prop :=
  l <> NoLease /\ w_granted w !! l = None /\ l ∉ leases (w_store w).

Definition w_grant (w : NWorld) (l : LeaseID) : NWorld :=
  mkNWorld (grant l (w_store w)) (<[l := w_self w]> (w_granted w)) (w_self w) (w_node w).

Definition nev_ok {X} (e : NEv X) (w : NWorld) : X -> NWorld -> Prop :=
  match e in NEv X return X -> NWorld -> Prop with
  | NEtcd e => fun x w' => exists st', ev_ok e (w_store w) x st' /\ w' = w_set_store w st'
  | NGetRev k => fun x w' => w' = w /\
      match x with
      | Ok (o, rev) => o = kvs (w_store w) !! k /\ rev = revision (w_store w)
      | Err _ => True
      end
  | NewSession _ => fun x w' =>
      match x with
      | Ok l => fresh_lease w l /\ w' = w_grant w l
      | Err _ => w' = w \/ exists l, fresh_lease w l /\ w' = w_grant w l
      end
  | CloseSession l => fun _ w' =>
      w' = w \/ (l <> NoLease /\ w' = w_set_store w (expire l (w_store w)))
  | Lock m => fun _ w' => mu_held m (w_node w) = false /\ w' = w_set_node w (set_mu m true (w_node w))
  | Unlock m => fun _ w' => w' = w_set_node w (set_mu m false (w_node w))
  | LoadSession m => fun x w' => x = session_at m (w_node w) /\ w' = w
  | StoreSession m o => fun _ w' => w' = w_set_node w (set_session m o (w_node w))
  | LoadIsLeader => fun x w' => x = n_isLeader (w_node w) /\ w' = w
  | StoreIsLeader b => fun _ w' => w' = w_set_node w (set_isLeader b (w_node w))
  | LoadLeader => fun x w' => x = n_leader (w_node w) /\ w' = w
  | StoreLeader i => fun _ w' => w' = w_set_node w (set_leader i (w_node w))
  | Emit k => fun _ w' => w' = w_set_node w (emit k (w_node w))
  | _ => fun _ w' => w' = w
  end.
