(* ===== verification/QueueFacts.v ===== *)
(** * What each operation of the queue does to the key space

    Keys of different families never collide, keys of a family are injective;
    then, per operation and per branch of its answer (errors included), the
    exact change to the store. *)
From S2P Require Import Prelude GoStrings GoTime Model Etcd Queue.
From Stdlib Require Import Ascii.

Open Scope string_scope.
Open Scope list_scope.
Open Scope orbix_scope.
Open Scope Z_scope.

(** ** Keys *)

(** Keys of two families differ. *)
Ltac key_ne :=
  solve [ unfold PendingKey, ClaimedKey, OverlapKey, WatermarkKey, ResultKey;
          apply prefix_ne; reflexivity
        | congruence ].

(** Read a key after a list of puts and deletes. *)
Ltac lookup_ops :=
  cbn [kvs apply_ops foldl apply_op app];
  repeat first
    [ rewrite lookup_insert_eq | rewrite lookup_insert_ne by key_ne
    | rewrite lookup_delete_eq | rewrite lookup_delete_ne by key_ne ].

Lemma FormatInt_no_at id : str_forall (not_char "@") (FormatInt id) = true.
Proof.
  apply FormatInt_chars; [|done]. intros c Hc. unfold not_char.
  apply negb_true_iff, Ascii.eqb_neq. by intros ->.
Qed.

Lemma cut_stamp id sched : cut "@" (stamp_of id sched) = Some (FormatInt id, sched).
Proof. apply cut_app, FormatInt_no_at. Qed.

Lemma stamp_of_inj i1 s1 i2 s2 : stamp_of i1 s1 = stamp_of i2 s2 -> i1 = i2 /\ s1 = s2.
Proof.
  intros H. apply (f_equal (cut "@")) in H. rewrite !cut_stamp in H.
  injection H as H1 ->. by apply FormatInt_inj in H1.
Qed.

Lemma PendingKey_inj t1 t2 : PendingKey t1 = PendingKey t2 -> stamp t1 = stamp t2.
Proof. apply string_app_inj_l. Qed.

Lemma ClaimedKey_inj t1 t2 : ClaimedKey t1 = ClaimedKey t2 -> stamp t1 = stamp t2.
Proof. apply string_app_inj_l. Qed.

Lemma PendingKey_stamp t1 t2 : stamp t1 = stamp t2 -> PendingKey t1 = PendingKey t2.
Proof. unfold PendingKey. by intros ->. Qed.

Lemma OverlapKey_inj i1 i2 : OverlapKey i1 = OverlapKey i2 -> i1 = i2.
Proof. intros H%string_app_inj_l. by apply FormatInt_inj in H. Qed.

Lemma WatermarkKey_inj i1 i2 : WatermarkKey i1 = WatermarkKey i2 -> i1 = i2.
Proof. intros H%string_app_inj_l. by apply FormatInt_inj in H. Qed.

(** One pending key per job and scheduled time, and the same for claims;
    keys of different families are different. *)
Theorem queue_keys_injective t1 t2 :
  (PendingKey t1 = PendingKey t2 <-> t_JobID t1 = t_JobID t2 /\ t_SchedAt t1 = t_SchedAt t2) /\
  (ClaimedKey t1 = ClaimedKey t2 <-> PendingKey t1 = PendingKey t2) /\
  PendingKey t1 <> ClaimedKey t2 /\ PendingKey t1 <> ResultKey t2 /\
  ClaimedKey t1 <> ResultKey t2 /\
  (forall id, OverlapKey id <> PendingKey t1 /\ OverlapKey id <> ClaimedKey t1 /\
              OverlapKey id <> ResultKey t1 /\ WatermarkKey id <> PendingKey t1 /\
              WatermarkKey id <> ClaimedKey t1 /\ WatermarkKey id <> ResultKey t1 /\
              forall id', OverlapKey id <> WatermarkKey id').
Proof.
  split_and!; try key_ne.
  - split.
    + intros H%PendingKey_inj. by apply stamp_of_inj in H.
    + intros [H1 H2]. unfold PendingKey, stamp. by rewrite H1, H2.
  - split; [intros H%ClaimedKey_inj; by apply PendingKey_stamp|].
    intros H%PendingKey_inj. unfold ClaimedKey. by rewrite H.
  - intros id. split_and!; intros; key_ne.
Qed.

(** A claim key decodes to the job, the time and the node it was made of. *)
Theorem decode_claim_roundtrip t e :
  in_int64 (t_JobID t) = true ->
  decode_claim (ClaimedKey t, e) = Some (mkClaim (t_JobID t) (t_SchedAt t) (e_value e)).
Proof.
  intros Hid. unfold decode_claim, ClaimedKey. cbn [fst snd].
  rewrite TrimPrefix_app. unfold stamp. rewrite cut_stamp.
  destruct (String.eqb_spec (FormatInt (t_JobID t)) "") as [E|_].
  - apply ParseInt_FormatInt in Hid. by rewrite E in Hid.
  - by rewrite ParseInt_FormatInt.
Qed.

Lemma decode_claim_roundtrip_witness :
  decode_claim (ClaimedKey (mkTicket 7 "" "" 0 0 false "2026-01-15T10:00:00Z" 1 "" false),
                mkEntry "node1" 1 1 5)
  = Some (mkClaim 7 "2026-01-15T10:00:00Z" "node1").
Proof.
  apply (decode_claim_roundtrip (mkTicket 7 "" "" 0 0 false "2026-01-15T10:00:00Z" 1 "" false)
           (mkEntry "node1" 1 1 5)).
  reflexivity.
Defined.

(** ** Put if absent *)

(** The outcome of a transaction guarded by [Version(key) = 0]. *)
Definition put_if_absent (key : string) (ops : list Op) (st : Store)
    (r : result EtcdErr bool) (st' : Store) : Prop :=
  match r with
  | Ok true => kvs st !! key = None /\ st' = apply_ops st ops
  | Ok false => is_Some (kvs st !! key) /\ st' = st
  | Err _ => st' = st \/ (kvs st !! key = None /\ st' = apply_ops st ops)
  end.

Lemma txn_put_if_absent key ops st r st' : store_wf st ->
  txn_ok [CVersion key 0] ops [] st r st' -> put_if_absent key ops st r st'.
Proof.
  intros Hwf H. pose proof (cmp_version_0 st key Hwf) as Hc.
  unfold txn_ok in H. cbn [forallb] in H. rewrite andb_true_r in H.
  destruct (cmp_holds (kvs st) (CVersion key 0)); simpl in H.
  - destruct Hc as [Hc _]. specialize (Hc eq_refl). unfold put_if_absent.
    destruct r as [b|]; [destruct H as (-> & _ & ->)|destruct H as [|[_ ->]]]; auto.
  - assert (is_Some (kvs st !! key)).
    { destruct (kvs st !! key) eqn:E; [eauto|]. destruct Hc as [_ Hc]. by specialize (Hc eq_refl). }
    unfold put_if_absent. destruct r as [b|].
    + destruct H as (-> & _ & ->). by rewrite apply_ops_nil.
    + destruct H as [|[_ ->]]; [auto|]. rewrite apply_ops_nil. auto.
Qed.

Section facts.
Context `{TJ : Json Ticket ticket_valid} `{RJ : Json Result result_valid} `{WW : World W}.
Implicit Types (w : W) (t : Ticket).

Definition fire_ops (t : Ticket) (fireTime : string) : list Op :=
  [OpPut (PendingKey t) (marshal t) NoLease; OpPut (WatermarkKey (t_JobID t)) fireTime NoLease].

Lemma Enqueue_step t w : store_wf (store_of w) ->
  exists r, (run (Enqueue t) w).1 = Done (wrap_err "queue: enqueue: " r id) /\
  put_if_absent (PendingKey t) [OpPut (PendingKey t) (marshal t) NoLease] (store_of w) r
    (store_of (run (Enqueue t) w).2).
Proof.
  intros Hwf. unfold Enqueue. simpl. run_step r w' H. exists r. split; [done|].
  by apply txn_put_if_absent.
Qed.

Lemma EnqueueFire_step t ft w : store_wf (store_of w) ->
  exists r, (run (EnqueueFire t ft) w).1 = Done (wrap_err "queue: enqueue fire: " r id) /\
  put_if_absent (PendingKey t) (fire_ops t ft) (store_of w) r
    (store_of (run (EnqueueFire t ft) w).2).
Proof.
  intros Hwf. unfold EnqueueFire. simpl. run_step r w' H. exists r. split; [done|].
  by apply txn_put_if_absent.
Qed.

Definition value_at (st : Store) (k : string) : option string := e_value <$> kvs st !! k.

Lemma value_at_None st k : value_at st k = None <-> kvs st !! k = None.
Proof. unfold value_at. by destruct (kvs st !! k). Qed.

Lemma value_at_is_Some st k : is_Some (value_at st k) <-> is_Some (kvs st !! k).
Proof. unfold value_at. apply fmap_is_Some. Qed.

(** The store differs at most at the keys [ks]. *)
Definition same_except (ks : list string) (st st' : Store) : Prop :=
  forall k, k ∉ ks -> kvs st' !! k = kvs st !! k.

Lemma same_except_ops ops st : same_except (map op_key ops) st (apply_ops st ops).
Proof. intros k Hk. by apply lookup_apply_ops_ne. Qed.

(** C20: [EnqueueFire] creates the ticket and moves the watermark in one step,
    or changes nothing: it answers true exactly when the ticket was not pending;
    after an error the store is in one of these two states. *)
Theorem EnqueueFire_atomic t ft w : store_wf (store_of w) ->
  let st := store_of w in
  let st' := store_of (run (EnqueueFire t ft) w).2 in
  let created := value_at st (PendingKey t) = None /\
    value_at st' (PendingKey t) = Some (marshal t) /\
    value_at st' (WatermarkKey (t_JobID t)) = Some ft /\
    same_except [PendingKey t; WatermarkKey (t_JobID t)] st st' in
  match (run (EnqueueFire t ft) w).1 with
  | Done (Ok true) => created
  | Done (Ok false) => is_Some (value_at st (PendingKey t)) /\ st' = st
  | Done (Err _) => st' = st \/ created
  | Panicked => False
  end.
Proof.
  intros Hwf. destruct (EnqueueFire_step t ft w Hwf) as (r & -> & H). cbv zeta.
  assert (forall st', st' = apply_ops (store_of w) (fire_ops t ft) ->
    value_at st' (PendingKey t) = Some (marshal t) /\
    value_at st' (WatermarkKey (t_JobID t)) = Some ft /\
    same_except [PendingKey t; WatermarkKey (t_JobID t)] (store_of w) st') as Hst.
  { intros st' ->. unfold value_at. split_and!; unfold fire_ops.
    - by lookup_ops.
    - by lookup_ops.
    - apply (same_except_ops (fire_ops t ft)). }
  destruct r as [[]|e]; cbn [wrap_err put_if_absent id] in *.
  - destruct H as [Hn H]. split; [by apply value_at_None|]. by apply Hst.
  - by rewrite value_at_is_Some.
  - destruct H as [H|[Hn H]]; [by left|]. right.
    split; [by apply value_at_None|]. by apply Hst.
Qed.

(** Enqueueing is idempotent. Once a fire is enqueued, enqueueing a ticket
    of the same job and time again (a second leader, a retry) changes nothing,
    whatever etcd answers, and never reports a creation. *)
Theorem Enqueue_idempotent t t2 ft w : store_wf (store_of w) -> stamp t2 = stamp t ->
  (run (EnqueueFire t ft) w).1 = Done (Ok true) ->
  let w1 := (run (EnqueueFire t ft) w).2 in
  (forall ft2, store_of (run (EnqueueFire t2 ft2) w1).2 = store_of w1 /\
               (run (EnqueueFire t2 ft2) w1).1 <> Done (Ok true)) /\
  store_of (run (Enqueue t2) w1).2 = store_of w1 /\ (run (Enqueue t2) w1).1 <> Done (Ok true).
Proof.
  intros Hwf Hs Hok w1.
  assert (value_at (store_of w1) (PendingKey t2) = Some (marshal t)) as Hp.
  { destruct (EnqueueFire_step t ft w Hwf) as (r & Hr & H). fold w1 in H.
    rewrite Hr in Hok. destruct r as [[]|]; [|done..]. destruct H as [_ ->].
    rewrite (PendingKey_stamp _ _ Hs). unfold value_at, fire_ops. by lookup_ops. }
  assert (Hwf1 : store_wf (store_of w1)) by (by apply run_wf).
  assert (Hsome : kvs (store_of w1) !! PendingKey t2 <> None)
    by (unfold value_at in Hp; intros E; by rewrite E in Hp).
  split; [intros ft2; destruct (EnqueueFire_step t2 ft2 w1 Hwf1) as (r & -> & Hr)|
          destruct (Enqueue_step t2 w1 Hwf1) as (r & -> & Hr)];
    destruct r as [[]|]; cbn [put_if_absent] in Hr;
    first [by destruct Hr as [? _] | destruct Hr as [_ Hr] | destruct Hr as [Hr|[? _]]; [|done]];
    by rewrite Hr.
Qed.

(** ** Claiming *)

Definition lease_at (st : Store) (k : string) : option LeaseID := e_lease <$> kvs st !! k.

(** The ticket read at [key] with revision [rev] can be claimed. *)
Definition claimable (st : Store) (body : string) (rev : Z) (t : Ticket) : Prop :=
  kvs st !! (ClaimedPrefix +:+ body) = None /\
  (exists e, kvs st !! (PendingPrefix +:+ body) = Some e /\ e_modrev e = rev) /\
  (t_NoOverlap t = true -> kvs st !! OverlapKey (t_JobID t) = None).

(** The store after node [n] has claimed [t]: the claim and, if asked for, the
    overlap lock are bound to leases that were alive, and the ticket stays
    pending with its new attempt. *)
Definition claimed_by (n : string) (body : string) (t : Ticket) (st st' : Store) : Prop :=
  value_at st' (ClaimedPrefix +:+ body) = Some n /\
  (exists l, lease_at st' (ClaimedPrefix +:+ body) = Some l /\ (l = NoLease \/ l ∈ leases st)) /\
  value_at st' (PendingPrefix +:+ body) = Some (marshal t) /\
  (t_NoOverlap t = true -> value_at st' (OverlapKey (t_JobID t)) = Some n) /\
  same_except ([ClaimedPrefix +:+ body; PendingPrefix +:+ body] ++
               (if t_NoOverlap t then [OverlapKey (t_JobID t)] else [])) st st'.

Definition bump (t : Ticket) : Ticket := t_set_Attempt t (wrap64 (t_Attempt t + 1)).

Definition claim_cmps (body : string) (rev : Z) (t : Ticket) : list Cmp :=
  [CVersion (ClaimedPrefix +:+ body) 0; CModRevision (PendingPrefix +:+ body) rev] ++
  (if t_NoOverlap t then [CVersion (OverlapKey (t_JobID t)) 0] else []).

Definition claim_ops (n body : string) (t : Ticket) (l1 l2 : LeaseID) : list Op :=
  [OpPut (ClaimedPrefix +:+ body) n l1; OpPut (PendingPrefix +:+ body) (marshal t) NoLease] ++
  (if t_NoOverlap t then [OpPut (OverlapKey (t_JobID t)) n l2] else []).

Lemma str_drop_app a b : str_drop (String.length a) (a +:+ b) = b.
Proof. induction a; simpl; auto. Qed.

(** A claim is one transaction. *)
Lemma claim_run n body rev t w :
  exists l1 l2 r, txn_cases (claim_cmps body rev t) (claim_ops n body (bump t) l1 l2) []
    (store_of w) r (store_of (run (claim n (PendingPrefix +:+ body) rev t) w).2) /\
  (run (claim n (PendingPrefix +:+ body) rev t) w).1 =
    match r with Ok b => Done (b, bump t) | Err _ => Panicked end.
Proof.
  unfold claim. rewrite str_drop_app. cbn [prog_bind call run].
  run_step l1 w1 H1. simpl in H1. rewrite <- H1. clear H1.
  fold (bump t). change (t_NoOverlap (bump t)) with (t_NoOverlap t).
  exists l1. unfold claim_cmps, claim_ops.
  change (t_NoOverlap (bump t)) with (t_NoOverlap t).
  change (t_JobID (bump t)) with (t_JobID t).
  destruct (t_NoOverlap t); cbn [prog_bind call run].
  - run_step l2 w2 H2. simpl in H2. rewrite <- H2. clear H2.
    run_step r w3 H3. exists l2, r. apply txn_ok_cases in H3. by destruct r.
  - run_step r w3 H3. exists 0, r. apply txn_ok_cases in H3. by destruct r.
Qed.

Lemma claim_cmps_spec st body rev t : store_wf st -> 1 <= rev ->
  forallb (cmp_holds (kvs st)) (claim_cmps body rev t) = true <-> claimable st body rev t.
Proof.
  intros Hwf Hrev. unfold claim_cmps, claimable. rewrite forallb_app, andb_true_iff.
  cbn [forallb]. rewrite !andb_true_iff, cmp_version_0, cmp_modrev by done.
  destruct (t_NoOverlap t); cbn [forallb].
  - rewrite andb_true_iff, cmp_version_0 by done.
    split; [intros ((? & ? & _) & ? & _)|intros (? & ? & ?)]; split_and!; auto.
  - split; [intros ((? & ? & _) & _)|intros (? & ? & ?)]; split_and!; auto; discriminate.
Qed.

Lemma claim_ops_effect n body t l1 l2 st :
  Forall (op_admissible st) (claim_ops n body t l1 l2) ->
  claimed_by n body t st (apply_ops st (claim_ops n body t l1 l2)).
Proof.
  intros Ha. apply Forall_cons in Ha as [Hl _]. simpl in Hl.
  unfold claimed_by, value_at, lease_at. split_and!.
  - unfold claim_ops. destruct (t_NoOverlap t); by lookup_ops.
  - exists l1. split; [|done]. unfold claim_ops.
    destruct (t_NoOverlap t); by lookup_ops.
  - unfold claim_ops. destruct (t_NoOverlap t); by lookup_ops.
  - intros Ho. unfold claim_ops. rewrite Ho. by lookup_ops.
  - pose proof (same_except_ops (claim_ops n body t l1 l2) st) as H.
    unfold claim_ops in *. by destruct (t_NoOverlap t).
Qed.

(** C15: a claim is exclusive and atomic. It succeeds exactly when the ticket
    is unclaimed, unchanged since it was read and (if it must not overlap) its
    job holds no lock; it then takes the claim and the lock under live leases
    and counts the attempt, and otherwise it changes nothing. An etcd error is
    not returned: it panics. *)
Theorem claim_exclusive n body rev t w : store_wf (store_of w) -> 1 <= rev ->
  let st := store_of w in
  let '(o, w') := run (claim n (PendingPrefix +:+ body) rev t) w in
  match o with
  | Done (true, t') => t' = bump t /\ claimable st body rev t /\
                       claimed_by n body t' st (store_of w')
  | Done (false, t') => t' = bump t /\ ~ claimable st body rev t /\ store_of w' = st
  | Panicked => store_of w' = st \/
                (claimable st body rev t /\ claimed_by n body (bump t) st (store_of w'))
  end.
Proof.
  intros Hwf Hrev. cbv zeta.
  destruct (claim_run n body rev t w) as (l1 & l2 & r & Htx & Ho).
  destruct (run _ w) as [o w']. cbn [fst snd] in *. subst o.
  pose proof (claim_cmps_spec (store_of w) body rev t Hwf Hrev) as Hc.
  unfold txn_cases in Htx. cbv zeta in Htx. rewrite apply_ops_nil in Htx.
  destruct r as [[]|e].
  - destruct Htx as (Hh & Ha & ->). split_and!; [done|by apply Hc|by apply claim_ops_effect].
  - destruct Htx as (Hh & _ & ->). split_and!; [done| |done]. rewrite <- Hc. by rewrite Hh.
  - destruct Htx as [|[(Hh & Ha & ->)|(_ & _ & ?)]]; [by left| |by left].
    right. split; [by apply Hc|by apply claim_ops_effect].
Qed.

(** ** Finishing *)

(** The owner's commit: the claim is gone, the result is published, the lock
    is released, and the ticket's entry is [pend]. *)
Definition finished (pend : option string) (t : Ticket) (rb : string) (st st' : Store) : Prop :=
  value_at st' (PendingKey t) = pend /\ value_at st' (ClaimedKey t) = None /\
  value_at st' (ResultKey t) = Some rb /\
  (t_NoOverlap t = true -> value_at st' (OverlapKey (t_JobID t)) = None) /\
  same_except ([PendingKey t; ClaimedKey t; ResultKey t] ++
               (if t_NoOverlap t then [OverlapKey (t_JobID t)] else [])) st st'.

(** The commit of a worker that no longer owns the claim. *)
Definition published (t : Ticket) (rb : string) (st st' : Store) : Prop :=
  value_at st' (ResultKey t) = Some rb /\ same_except [ResultKey t] st st'.

(** What a completion by node [n] does, by its answer. *)
Definition finish_post (n : string) (pend : option string) (t : Ticket) (rb : string)
    (st : Store) (o : outcome (result string unit)) (st' : Store) : Prop :=
  let owner := value_at st (ClaimedKey t) = Some n in
  let committed := (owner /\ finished pend t rb st st') \/ (~ owner /\ published t rb st st') in
  match o with
  | Done (Ok _) => committed
  | Done (Err _) => st' = st \/ committed
  | Panicked => False
  end.

(** The first operation of a completion: remove the ticket or put it back. *)
Definition pending_op (pend : option string) (t : Ticket) : Op :=
  match pend with
  | Some v => OpPut (PendingKey t) v NoLease
  | None => OpDelete (PendingKey t)
  end.

Definition finish_ops (pend : option string) (t : Ticket) (rb : string) : list Op :=
  [pending_op pend t; OpDelete (ClaimedKey t); OpPut (ResultKey t) rb NoLease] ++
  overlapRelease t.

Lemma finish_ops_effect pend t rb st :
  finished pend t rb st (apply_ops st (finish_ops pend t rb)).
Proof.
  unfold finished, value_at, finish_ops, overlapRelease.
  pose proof (same_except_ops (finish_ops pend t rb) st) as H.
  unfold finish_ops, overlapRelease in H.
  destruct pend as [v|]; cbn [pending_op] in *; destruct (t_NoOverlap t); cbn [negb] in *;
    split_and!; try done; try (by lookup_ops); exact H.
Qed.

Lemma publish_effect t rb st :
  published t rb st (apply_ops st [OpPut (ResultKey t) rb NoLease]).
Proof.
  split; [unfold value_at; by lookup_ops|].
  exact (same_except_ops [OpPut (ResultKey t) rb NoLease] st).
Qed.

Lemma finish_txn n pend t rb msg st r st' :
  txn_ok [CValue (ClaimedKey t) n] (finish_ops pend t rb) [OpPut (ResultKey t) rb NoLease]
    st r st' ->
  finish_post n pend t rb st (Done (wrap_err msg r (fun _ => tt))) st'.
Proof.
  intros H%txn_ok_cases. unfold txn_cases in H. cbv zeta in H.
  cbn [forallb] in H. rewrite andb_true_r in H.
  pose proof (cmp_value st (ClaimedKey t) n) as Hv. fold (value_at st (ClaimedKey t)) in Hv.
  assert (Hyes : cmp_holds (kvs st) (CValue (ClaimedKey t) n) = true ->
    st' = apply_ops st (finish_ops pend t rb) ->
    value_at st (ClaimedKey t) = Some n /\ finished pend t rb st st').
  { intros Hh ->. split; [by apply Hv|apply finish_ops_effect]. }
  assert (Hno : cmp_holds (kvs st) (CValue (ClaimedKey t) n) = false ->
    st' = apply_ops st [OpPut (ResultKey t) rb NoLease] ->
    value_at st (ClaimedKey t) <> Some n /\ published t rb st st').
  { intros Hh ->. split; [rewrite <- Hv; by rewrite Hh|apply publish_effect]. }
  unfold finish_post. cbv zeta. destruct r as [[]|e]; cbn [wrap_err].
  - left. destruct H as (? & _ & ?). by apply Hyes.
  - right. destruct H as (? & _ & ?). by apply Hno.
  - destruct H as [|[(? & _ & ?)|(? & _ & ?)]]; auto.
Qed.

Lemma FinishSuccess_run n t res w :
  finish_post n None t (marshal res) (store_of w)
    (run (FinishSuccess n t res) w).1 (store_of (run (FinishSuccess n t res) w).2).
Proof.
  unfold FinishSuccess. cbn [prog_bind call run]. run_step r w' H.
  by apply (finish_txn n None).
Qed.

Lemma FinishFailure_run n t res now w :
  finish_post n (if t_MaxRetries t <? t_Attempt t then None else Some (marshal (retry_ticket t now))) t
    (marshal (r_set_Status res (failure_status t res))) (store_of w)
    (run (FinishFailure n t res now) w).1 (store_of (run (FinishFailure n t res now) w).2).
Proof.
  unfold FinishFailure. cbn [prog_bind call run].
  destruct (t_MaxRetries t <? t_Attempt t); run_step r w' H;
    [by apply (finish_txn n None)|by apply (finish_txn n (Some _))].
Qed.

(** C16: finishing a run publishes its result in any case. If this node still
    owns the claim, the same step removes the claim and the lock, and the
    ticket: after a success, or a failure with no retries left (reported as
    [failed_permanent]); a failure with retries left puts the ticket back with
    the same attempt count and a time to wait for. If another node owns the
    claim, nothing but the result is touched. *)
Theorem Finish_spec n t res now w :
  let no_retries := t_MaxRetries t <? t_Attempt t in
  let back := marshal (t_set_NotBefore t (FormatRFC3339 (now + backoff_delay (t_Attempt t)))) in
  let status := if no_retries then StatusFailedPermanent
                else if String.eqb (r_Status res) "" then StatusFailed else r_Status res in
  finish_post n None t (marshal res) (store_of w)
    (run (FinishSuccess n t res) w).1 (store_of (run (FinishSuccess n t res) w).2) /\
  finish_post n (if no_retries then None else Some back) t (marshal (r_set_Status res status))
    (store_of w)
    (run (FinishFailure n t res now) w).1 (store_of (run (FinishFailure n t res now) w).2).
Proof. split; [apply FinishSuccess_run|apply FinishFailure_run]. Qed.

Definition abandon_ops (n : string) (t : Ticket) (started : string) : list Op :=
  [OpDelete (PendingKey t);
   OpPut (ResultKey t) (marshal (closing_result n t StatusAbandoned started)) NoLease].

Lemma Abandon_step n t w : store_wf (store_of w) ->
  exists started r, (run (Abandon n t) w).1 =
    Done (match r with Ok _ => Ok tt | Err e => Err e end) /\
  put_if_absent (ClaimedKey t) (abandon_ops n t started) (store_of w) r
    (store_of (run (Abandon n t) w).2).
Proof.
  intros Hwf. unfold Abandon, now_rfc3339. cbn [prog_bind call run].
  run_step now w1 H1. simpl in H1. rewrite <- H1 in *. run_step r w2 H2.
  apply txn_put_if_absent in H2; [|done]. by exists (FormatRFC3339 now), r.
Qed.

(** [Abandon] never touches a claimed ticket; an unclaimed one is replaced
    by its result in one step. *)
Theorem Abandon_spec n t w : store_wf (store_of w) ->
  let st := store_of w in
  let '(o, w') := run (Abandon n t) w in
  let st' := store_of w' in
  o <> Panicked /\
  (is_Some (value_at st (ClaimedKey t)) -> st' = st) /\
  (st' = st \/
   (value_at st (ClaimedKey t) = None /\ value_at st' (PendingKey t) = None /\
    (exists started, value_at st' (ResultKey t)
       = Some (marshal (closing_result n t StatusAbandoned started))) /\
    same_except [PendingKey t; ResultKey t] st st')) /\
  (o = Done (Ok tt) -> value_at st (ClaimedKey t) = None -> value_at st' (PendingKey t) = None).
Proof.
  intros Hwf. cbv zeta. destruct (Abandon_step n t w Hwf) as (started & r & E & H2).
  destruct (run (Abandon n t) w) as [o w1]. cbn [fst snd] in E, H2. subst o.
  rewrite value_at_is_Some, !value_at_None. set (ops := abandon_ops n t started) in H2.
  assert (Hops : kvs (apply_ops (store_of w) ops) !! PendingKey t = None /\
    (exists started, value_at (apply_ops (store_of w) ops) (ResultKey t)
       = Some (marshal (closing_result n t StatusAbandoned started))) /\
    same_except [PendingKey t; ResultKey t] (store_of w) (apply_ops (store_of w) ops)).
  { subst ops. unfold abandon_ops. split_and!.
    - by lookup_ops.
    - eexists. unfold value_at. by lookup_ops.
    - apply (same_except_ops [OpDelete _; OpPut _ _ _]). }
  destruct r as [[]|e]; cbn [put_if_absent] in H2.
  - destruct H2 as [Hn ->]. rewrite Hn. split; [done|]. split; [by intros [? ?]|].
    split; [right; split; [done|exact Hops]|]. intros _ _. apply Hops.
  - destruct H2 as [[x Hx] ->]. rewrite Hx. split_and!; try done. by left.
  - destruct H2 as [->|[Hn ->]]; [split_and!; try done; by left|].
    rewrite Hn. split; [done|]. split; [by intros [? ?]|].
    split; [right; split; [done|exact Hops]|done].
Qed.

(** ** Backoff *)

Lemma backoff_bounds a : 0 <= a <= 33 ->
  backoff_delay a = Z.min (2 ^ a * Second) (5 * Minute) /\
  Second <= backoff_delay a <= 5 * Minute /\
  backoff_delay a <= backoff_delay (Z.min 33 (a + 1)).
Proof.
  intros Ha.
  assert (H : Forall (fun a => backoff_delay a = Z.min (2 ^ a * Second) (5 * Minute) /\
    Second <= backoff_delay a <= 5 * Minute /\
    backoff_delay a <= backoff_delay (Z.min 33 (a + 1))) (seqZ 0 34)).
  { apply Forall_forall. intros x Hx.
    assert (Hdec : forallb (fun a => (backoff_delay a =? Z.min (2 ^ a * Second) (5 * Minute)) &&
      (Second <=? backoff_delay a) && (backoff_delay a <=? 5 * Minute) &&
      (backoff_delay a <=? backoff_delay (Z.min 33 (a + 1)))) (seqZ 0 34) = true)
      by (by vm_compute).
    rewrite forallb_forall in Hdec. apply list_elem_of_In, Hdec in Hx. bool_prop. lia. }
  rewrite Forall_forall in H. apply H, elem_of_seqZ. lia.
Qed.

(** C38: up to the 33rd attempt the delay before a retry is [2 ^ attempt]
    seconds, at most five minutes, without overflow; jobs allow at most 10
    retries. *)
Theorem backoff_delay_bounds a : 0 <= a <= 33 ->
  backoff_delay a = Z.min (2 ^ a * Second) (5 * Minute) /\
  Second <= backoff_delay a <= 5 * Minute /\
  backoff_delay a <= backoff_delay (Z.min 33 (a + 1)).
Proof. apply backoff_bounds. Qed.
End facts.
