(* ===== verification/QueueGC.v ===== *)
(** * Garbage collection of results: [internal/queue/gc.go]

    The batches delete exactly the doomed keys, nothing else is touched, and a
    failed batch leaves a report of how far the collection got. *)
From S2P Require Import Prelude GoStrings GoTime Model Etcd Queue QueueFacts.

Open Scope string_scope.
Open Scope list_scope.
Open Scope orbix_scope.
Open Scope Z_scope.

Lemma lookup_deletes st ks k :
  kvs (apply_ops st (map OpDelete ks)) !! k = if decide (k ∈ ks) then None else kvs st !! k.
Proof.
  unfold apply_ops. cbn [kvs]. generalize (kvs st) as m, (revision st + 1) as rev.
  induction ks as [|x ks IH]; intros m rev; simpl; [done|].
  rewrite IH, lookup_delete.
  destruct (decide (k ∈ ks)), (decide (x = k)), (decide (k ∈ x :: ks)); set_solver.
Qed.

Section gc.
Context `{RJ : Json Result result_valid} `{WW : World W}.

(** Between [st] and [st'], some of the keys [ks] were deleted and nothing
    else happened. *)
Definition deleted_among (ks : list string) (st st' : Store) : Prop :=
  forall k, kvs st' !! k = kvs st !! k \/ (k ∈ ks /\ kvs st' !! k = None).

Lemma deleted_among_refl ks st : deleted_among ks st st.
Proof. by left. Qed.

Lemma deleted_among_trans ks st1 st2 st3 :
  deleted_among ks st1 st2 -> deleted_among ks st2 st3 -> deleted_among ks st1 st3.
Proof. intros H1 H2 k. destruct (H2 k) as [->|?]; [apply H1|by right]. Qed.

Lemma deleted_among_sub ks ks' st st' : ks ⊆ ks' ->
  deleted_among ks st st' -> deleted_among ks' st st'.
Proof. intros Hs H k. destruct (H k) as [?|[? ?]]; [by left|right; split; [by apply Hs|done]]. Qed.

Lemma deleted_among_batch ks st : deleted_among ks st (apply_ops st (map OpDelete ks)).
Proof. intros k. rewrite lookup_deletes. case_decide; [by right|by left]. Qed.

(** A batch: one unconditional transaction of deletes. *)
Lemma gc_txn ks st r st' : txn_ok [] (map OpDelete ks) [] st r st' ->
  deleted_among ks st st' /\
  (is_ok r = true -> forall k, k ∈ ks -> kvs st' !! k = None).
Proof.
  intros H. unfold txn_ok in H. simpl in H. destruct r as [b|e].
  - destruct H as (_ & _ & ->). split; [apply deleted_among_batch|].
    intros _ k Hk. rewrite lookup_deletes. by case_decide.
  - split; [|done]. destruct H as [->|[_ ->]];
      [apply deleted_among_refl|apply deleted_among_batch].
Qed.

Lemma deleted_stays ks st st' k :
  deleted_among ks st st' -> kvs st !! k = None -> kvs st' !! k = None.
Proof. intros H Hk. destruct (H k) as [->|[_ ?]]; done. Qed.

(** The loop of batches, from any position. *)
Lemma gc_loop_spec fuel i rest (w : W) : (length rest <= fuel)%nat ->
  exists i' err, (run (gc_loop fuel i rest) w).1 = Done (i', err) /\
  let st' := store_of (run (gc_loop fuel i rest) w).2 in
  deleted_among rest (store_of w) st' /\
  i <= i' /\
  (forall k, k ∈ take (Z.to_nat (i' - i)) rest -> kvs st' !! k = None) /\
  (err = None -> forall k, k ∈ rest -> kvs st' !! k = None) /\
  (err <> None -> i' - i < Z.of_nat (length rest)).
Proof.
  revert i rest w. induction fuel as [|fuel IH]; intros i rest w Hf.
  { destruct rest; simpl in *; [|lia]. exists i, None. split; [done|].
    rewrite Z.sub_diag. split_and!; try done; [apply deleted_among_refl|..]; set_solver. }
  destruct rest as [|k0 rest0] eqn:Er.
  { exists i, None. simpl. split; [done|]. rewrite Z.sub_diag.
    split_and!; try done; [apply deleted_among_refl|..]; set_solver. }
  rewrite <- Er in *. assert (Hne : (0 < length rest)%nat) by (rewrite Er; simpl; lia).
  assert (gc_loop (S fuel) i rest =
    let! resp := call (Txn [] (map OpDelete (take gc_batch rest)) []) in
    match resp with
    | Err e => Ret (i, Some e)
    | Ok _ => gc_loop fuel (i + Z.of_nat gc_batch) (drop gc_batch rest)
    end) as -> by (by rewrite Er).
  clear Er k0 rest0. cbn [prog_bind call run]. run_step r w1 H1.
  apply gc_txn in H1 as [Hdel Hall].
  assert (Hsub : take gc_batch rest ⊆ rest) by (intros k; apply elem_of_take_sub).
  assert (Hsub2 : drop gc_batch rest ⊆ rest).
  { intros k Hk. rewrite <- (take_drop gc_batch rest). apply elem_of_app. by right. }
  destruct r as [b|e].
  - destruct (IH (i + Z.of_nat gc_batch) (drop gc_batch rest) w1) as (i' & err & E & Hs);
      [rewrite length_drop; unfold gc_batch; lia|].
    exists i', err. split; [done|]. cbv zeta in *. destruct Hs as (Hd & Hi & Ht & Hn & He).
    assert (Hcover : forall k, k ∈ take gc_batch rest ->
      kvs (store_of (run (gc_loop fuel (i + Z.of_nat gc_batch) (drop gc_batch rest)) w1).2)
        !! k = None).
    { intros k Hk. eapply deleted_stays; [exact Hd|]. by apply Hall. }
    split_and!.
    + apply deleted_among_trans with (store_of w1).
      * by apply (deleted_among_sub (take gc_batch rest)).
      * by apply (deleted_among_sub (drop gc_batch rest)).
    + lia.
    + intros k Hk.
      replace (Z.to_nat (i' - i)) with (gc_batch + Z.to_nat (i' - (i + Z.of_nat gc_batch)))%nat
        in Hk by lia.
      rewrite <- take_take_drop in Hk. apply elem_of_app in Hk as [Hk|Hk]; auto.
    + intros Hnone k Hk. rewrite <- (take_drop gc_batch rest) in Hk.
      apply elem_of_app in Hk as [Hk|Hk]; auto.
    + intros Hsome. specialize (He Hsome). rewrite length_drop in He. lia.
  - exists i, (Some e). split; [done|]. simpl. rewrite Z.sub_diag.
    split_and!; [by apply (deleted_among_sub (take gc_batch rest))|done|set_solver|done|lia].
Qed.

(** C26: garbage collection deletes only results that are readable and older
    than the retention time; without an error it deletes all of those it read
    (at most 1000) and counts them, and after an error the count is a number of
    keys that are gone. *)
Theorem GCResults_spec retention now (w : W) :
  let st := store_of w in
  let st' := store_of (run (GCResults retention now) w).2 in
  let doomed := gc_doomed retention now (range st ResultsPrefix (Some 1000%nat)) in
  deleted_among doomed st st' /\
  (forall k, k ∈ doomed -> HasPrefix k ResultsPrefix = true /\
     exists e, kvs st !! k = Some e /\ is_doomed retention now e = true) /\
  match (run (GCResults retention now) w).1 with
  | Done (n, None) => n = Z.of_nat (length doomed) /\ forall k, k ∈ doomed -> kvs st' !! k = None
  | Done (n, Some _) => 0 <= n /\ forall k, k ∈ take (Z.to_nat n) doomed -> kvs st' !! k = None
  | Panicked => False
  end.
Proof.
  cbv zeta. unfold GCResults. cbn [prog_bind call run]. run_step r w1 H1.
  destruct H1 as [Hst Hr].
  assert (Hdoomed : forall k, k ∈ gc_doomed retention now (range (store_of w) ResultsPrefix (Some 1000%nat)) ->
    HasPrefix k ResultsPrefix = true /\
    exists e, kvs (store_of w) !! k = Some e /\ is_doomed retention now e = true).
  { intros k Hk. unfold gc_doomed in Hk. apply list_elem_of_In, in_map_iff in Hk as ([k' e] & <- & Hk).
    apply list_elem_of_In, list_elem_of_filter in Hk as [Hd Hk].
    apply elem_of_range in Hk as [Hk Hp]. eauto. }
  destruct r as [entries|e].
  - subst entries. rewrite <- Hst in *.
    set (doomed := gc_doomed _ _ _) in *. rewrite run_bind.
    destruct (gc_loop_spec (length doomed) 0 doomed w1 ltac:(done)) as (i' & err & E & Hs).
    destruct (run (gc_loop (length doomed) 0 doomed) w1) as [o w2]. cbn [fst snd] in *. subst o.
    destruct Hs as (Hd & Hi & Ht & Hn & He). rewrite Z.sub_0_r in Ht.
    destruct err as [e|]; cbn [run fst snd]; split_and!; try done; try (by apply Hdoomed).
    by apply Hn.
  - cbn [run fst snd]. rewrite Hst. split_and!; [apply deleted_among_refl|done|done|].
    intros k Hk. by rewrite take_0 in Hk; apply elem_of_nil in Hk.
Qed.
End gc.
