(* ===== verification/ClaimRuns.v ===== *)
(** * Claims among other clients

    A claim that succeeds takes effect at one instant, on a ticket that nobody
    has touched since it was read, whatever other clients do meanwhile. *)
From S2P Require Import Prelude GoStrings GoTime Model Etcd Exec Queue QueueFacts.

Open Scope string_scope.
Open Scope list_scope.
Open Scope orbix_scope.
Open Scope Z_scope.

Section runs.
Context `{TJ : Json Ticket ticket_valid} `{RJ : Json Result result_valid}.

(** The claim of [t] by [n]: the instant between [st1] and [st2]. *)
Definition claim_instant (n body : string) (rev : Z) (t : Ticket) (st1 st2 : Store) : Prop :=
  claimable st1 body rev t /\ claimed_by n body (bump t) st1 st2.

Lemma claim_exec n body rev t st o st' : store_wf st -> 1 <= rev ->
  exec (claim n (PendingPrefix +:+ body) rev t) st o st' ->
  match o with
  | Done (b, t') => t' = bump t /\
      (b = true -> exists st1 st2, later st st1 /\ claim_instant n body rev t st1 st2 /\ later st2 st')
  | Panicked => True
  end.
Proof.
  intros Hwf Hrev H. destruct o as [[b t']|]; [|done].
  assert (forall st0 l1 l2, later st st0 ->
    exec (let! resp := call (Txn (claim_cmps body rev t) (claim_ops n body (bump t) l1 l2) []) in
          match resp with Ok s => Ret (s, bump t) | Err _ => Panic end) st0 (Done (b, t')) st' ->
    t' = bump t /\ (b = true -> exists st1 st2,
      later st st1 /\ claim_instant n body rev t st1 st2 /\ later st2 st')) as Htxn.
  { intros st0 l1 l2 Hl0 Hx. exec_step Hx st1 r st2 Hl1 He.
    assert (later st st1) as Hl by (by eapply later_trans).
    apply txn_ok_cases in He. destruct r as [s|e]; [|by destruct Hx].
    destruct Hx as [Hx Hl2]. injection Hx as <- <-. split; [done|]. intros ->.
    destruct He as (Hc & Ha & ->). exists st1. eexists. split; [done|]. split; [|exact Hl2].
    split; [|by apply claim_ops_effect].
    apply claim_cmps_spec; [by eapply later_wf|done..]. }
  unfold claim in H. rewrite str_drop_app in H. exec_step H s1 l1 s2 Hl1 He1. simpl in He1. subst s2.
  fold (bump t) in H. change (t_NoOverlap (bump t)) with (t_NoOverlap t) in H.
  unfold claim_cmps, claim_ops in Htxn.
  change (t_NoOverlap (bump t)) with (t_NoOverlap t) in Htxn.
  change (t_JobID (bump t)) with (t_JobID t) in *.
  destruct (t_NoOverlap t).
  - exec_step H s3 l2 s4 Hl3 He3. simpl in He3. subst s4. apply (Htxn s3 l1 l2); [|exact H].
    by eapply later_trans.
  - apply (Htxn s1 l1 0); [done|exact H].
Qed.

(** Entries that were read together. *)
Definition read_at (st : Store) (entries : list (string * Entry)) : Prop :=
  forall k e, (k, e) ∈ entries -> kvs st !! k = Some e /\ HasPrefix k PendingPrefix = true.

(** What a successful scan has done: one of the entries was claimed. *)
Definition scan_claimed (n : string) (now : Time) (entries : list (string * Entry))
    (st : Store) (t' : Ticket) (st' : Store) : Prop :=
  exists body e t st1 st2,
    (PendingPrefix +:+ body, e) ∈ entries /\ unmarshal (e_value e) = Some t /\
    not_yet t now = false /\ t' = bump t /\
    later st st1 /\ claim_instant n body (e_modrev e) t st1 st2 /\ later st2 st'.

Lemma scan_claimed_weaken n now p entries st0 st t' st' : later st0 st ->
  scan_claimed n now entries st t' st' -> scan_claimed n now (p :: entries) st0 t' st'.
Proof.
  intros Hl (body & e & t & st1 & st2 & H1 & H2 & H3 & H4 & H5 & H6).
  exists body, e, t, st1, st2. split; [by right|]. split_and!; try done; [|by destruct H6..].
  by eapply later_trans.
Qed.

Lemma claim_scan_exec n now entries st0 st t' st' : store_wf st0 -> later st0 st ->
  read_at st0 entries ->
  exec (claim_scan n entries now) st (Done (Ok (Some t'))) st' ->
  scan_claimed n now entries st t' st'.
Proof.
  intros Hwf0. revert st. induction entries as [|[k e] entries IH]; intros st Hl Hread H;
    [by destruct H|].
  assert (forall st1, later st st1 ->
    exec (claim_scan n entries now) st1 (Done (Ok (Some t'))) st' ->
    scan_claimed n now ((k, e) :: entries) st t' st') as Hnext.
  { intros st1 Hl1 H1. eapply scan_claimed_weaken; [exact Hl1|]. apply IH; [|..|done].
    - by eapply later_trans.
    - intros k' e' Hin. apply Hread. by right. }
  cbn [claim_scan] in H. destruct (unmarshal (e_value e)) as [t|] eqn:Eu;
    [|by apply (Hnext st); [apply later_refl; eapply later_wf|]].
  destruct (not_yet t now) eqn:En; [by apply (Hnext st); [apply later_refl; eapply later_wf|]|].
  assert (store_wf st) as Hwf by (by eapply later_wf).
  destruct (Hread k e) as [Hk Hp]; [by left|].
  apply HasPrefix_spec in Hp as [body ->].
  assert (1 <= e_modrev e) as Hrev by (destruct Hwf0 as [_ Hw]; apply Hw in Hk; lia).
  apply exec_bind in H as [([b t1] & st1 & Hc & H)|[H _]]; [|done|done].
  assert (later st st1) as Hl1 by (by eapply exec_later).
  apply claim_exec in Hc as [-> Hb]; [|done..].
  destruct b.
  - destruct H as [H Hl2]. injection H as ->.
    destruct (Hb eq_refl) as (s1 & s2 & H1 & H2 & H3).
    exists body, e, t, s1, s2. split; [by left|]. split_and!; try done; [by destruct H2..|].
    by eapply later_trans.
  - assert (store_wf st1) as Hwf1 by (by eapply later_wf).
    apply exec_bind in H as [(held & st2 & Hh & H)|[H _]]; [|done|done].
    assert (later st1 st2) as Hl2 by (by eapply exec_later).
    assert (store_wf st2) as Hwf2 by (by eapply later_wf).
    assert (later st st2) as Hl02 by (by eapply later_trans).
    destruct held; [|by apply (Hnext st2)].
    apply exec_bind in H as [([|err] & st3 & Hs & H)|[H _]]; [| |done|done].
    + apply (Hnext st3); [|done]. eapply later_trans; [exact Hl02|]. by eapply exec_later.
    + by destruct H.
Qed.

(** C5: among any other clients, a ticket [ClaimNext] answers was claimed at one
    instant after the scan: there it was unclaimed, byte for byte the ticket
    that was read, due, and (if it must not overlap) its job held no lock; at
    that instant this node took the claim and the lock and counted the
    attempt. *)
Theorem ClaimNext_atomic n now st t' st' : store_wf st ->
  exec (ClaimNext n now) st (Done (Ok (Some t'))) st' ->
  exists body t e st1 st2,
    later st st1 /\ later st2 st' /\
    kvs st1 !! (PendingPrefix +:+ body) = Some e /\ unmarshal (e_value e) = Some t /\
    not_yet t now = false /\ t' = bump t /\
    value_at st1 (ClaimedPrefix +:+ body) = None /\
    (t_NoOverlap t = true -> value_at st1 (OverlapKey (t_JobID t)) = None) /\
    claimed_by n body t' st1 st2.
Proof.
  intros Hwf H. unfold ClaimNext in H. exec_step H s1 x s2 Hl1 He. destruct He as [-> Hx].
  destruct x as [entries|e]; [|by destruct H].
  assert (store_wf s1) as Hwf1 by (by eapply later_wf).
  apply claim_scan_exec with (st0 := s1) in H; [|done|by apply later_refl|].
  - destruct H as (body & e & t & st1 & st2 & Hin & Hu & Hn & -> & Hl & [(Hc & (e' & He' & Hr) & Ho) Hcl] & Hl2).
    exists body, t, e, st1, st2. subst entries. apply elem_of_range in Hin as [Hk _].
    split; [by eapply later_trans|]. rewrite value_at_None. split_and!; try done.
    + apply (later_same_rev s1); [done..|]. cbn [cmp_holds]. rewrite He', Hr. apply Z.eqb_refl.
    + intros Hno. rewrite value_at_None. auto.
  - intros k e Hin. subst entries. by apply elem_of_range in Hin.
Qed.
End runs.
