(* ===== verification/QueueFindings.v ===== *)
(** * Five places where the queue does something else than it promises

    Stated on the concrete world of [Etcd.v] with no faults, so that each run is
    one the program really has. *)
From S2P Require Import Prelude GoStrings GoTime Model Codec Etcd Queue QueueFacts.

Open Scope string_scope.
Open Scope list_scope.
Open Scope orbix_scope.
Open Scope Z_scope.

Section findings.
Context `{TJ : Json Ticket ticket_valid} `{RJ : Json Result result_valid}.

(** ** A running job is skipped by the next worker *)

(** The ticket [t] of a job that must not overlap, as it is while [n1] runs it. *)
Definition running_on (n1 : string) (t : Ticket) (e : Entry) (st : Store) : Prop :=
  t_NoOverlap t = true /\ kvs st !! PendingKey t = Some e /\ unmarshal (e_value e) = Some t /\
  value_at st (ClaimedKey t) = Some n1 /\ value_at st (OverlapKey (t_JobID t)) = Some n1.

Definition skipped_result (n : string) (t : Ticket) (now : Time) : Result :=
  closing_result n (bump t) StatusSkipped (FormatRFC3339 now).

Lemma claim_fails_run n t rev w : store_wf (mem_store w) -> calm w ->
  is_Some (value_at (mem_store w) (ClaimedKey t)) ->
  exists w', run (claim n (PendingKey t) rev t) w = (Done (false, bump t), w') /\
             calm w' /\ mem_store w' = mem_store w.
Proof.
  intros Hwf Hc Hs. unfold claim, PendingKey. rewrite str_drop_app. fold (ClaimedKey t).
  cbn [prog_bind call run handle MemWorld_World mem_handle]. fold (bump t).
  change (t_NoOverlap (bump t)) with (t_NoOverlap t).
  assert (forall w' cmps thn, calm w' -> mem_store w' = mem_store w ->
    (mem_txn w' (CVersion (ClaimedKey t) 0 :: cmps) thn []).1 = Ok false /\
    mem_store (mem_txn w' (CVersion (ClaimedKey t) 0 :: cmps) thn []).2 = mem_store w /\
    calm (mem_txn w' (CVersion (ClaimedKey t) 0 :: cmps) thn []).2) as Htxn.
  { intros w' cmps thn Hc' Hw.
    assert (forallb (cmp_holds (kvs (mem_store w'))) (CVersion (ClaimedKey t) 0 :: cmps) = false) as Hf.
    { cbn [forallb]. rewrite Hw. apply andb_false_iff. left.
      destruct (cmp_holds _ _) eqn:E; [|done]. apply cmp_version_0 in E; [|done].
      apply value_at_is_Some in Hs as [x Hx]. congruence. }
    pose proof (mem_txn_calm w' (CVersion (ClaimedKey t) 0 :: cmps) thn [] Hc') as H.
    cbv zeta in H. rewrite Hf in H. destruct H as (-> & -> & ?); [constructor|].
    by rewrite apply_ops_nil. }
  destruct (t_NoOverlap t); cbn [prog_bind call run handle MemWorld_World mem_handle app].
  - match goal with |- context [mem_txn ?w' (_ :: ?c) ?o []] =>
      destruct (Htxn w' c o) as (H1 & H2 & H3); [done..|];
      destruct (mem_txn w' (CVersion (ClaimedKey t) 0 :: c) o []) as [r w2] end.
    cbn [fst snd] in *. subst r. by exists w2.
  - match goal with |- context [mem_txn ?w' (_ :: ?c) ?o []] =>
      destruct (Htxn w' c o) as (H1 & H2 & H3); [done..|];
      destruct (mem_txn w' (CVersion (ClaimedKey t) 0 :: c) o []) as [r w2] end.
    cbn [fst snd] in *. subst r. by exists w2.
Qed.

(** C39 (finding): while [n1] runs a ticket of a job that must not overlap, the scan
    of any other worker takes the ticket's own claim and lock for an overlap: it
    removes the pending ticket and publishes [skipped] for it. If [n1] then
    dies, its leases take claim and lock away, and the ticket is gone: nobody
    runs it again. *)
Theorem running_ticket_is_skipped n1 n2 t e now rest w :
  store_wf (mem_store w) -> calm w -> not_yet t now = false ->
  running_on n1 t e (mem_store w) ->
  exists w' started, run (claim_scan n2 ((PendingKey t, e) :: rest) now) w
    = run (claim_scan n2 rest now) w' /\
  value_at (mem_store w') (PendingKey t) = None /\
  value_at (mem_store w') (ResultKey (bump t)) = Some (marshal (skipped_result n2 t started)) /\
  value_at (mem_store w') (ClaimedKey t) = Some n1 /\
  forall l, lease_at (mem_store w) (ClaimedKey t) = Some l ->
    value_at (expire l (mem_store w')) (PendingKey t) = None /\
    value_at (expire l (mem_store w')) (ClaimedKey t) = None.
Proof.
  intros Hwf Hc Hn (Hno & Hp & Hu & Hcl & Hov). cbn [claim_scan]. rewrite Hu, Hn, run_bind.
  destruct (claim_fails_run n2 t (e_modrev e) w Hwf Hc) as (w1 & -> & Hc1 & Hst1); [by rewrite Hcl|].
  change (t_NoOverlap (bump t)) with (t_NoOverlap t). rewrite Hno.
  unfold overlapHeld, skipStale, now_rfc3339.
  cbn [prog_bind call run handle MemWorld_World mem_handle]. rewrite mem_read_calm by done.
  change (t_JobID (bump t)) with (t_JobID t). rewrite Hst1.
  unfold value_at in Hov. destruct (kvs (mem_store w) !! OverlapKey (t_JobID t)) as [eo|]; [|done].
  cbn [prog_bind call run handle MemWorld_World mem_handle].
  set (started := default 0 (head (mem_clock w1))).
  match goal with |- context [mem_txn ?w2 ?c ?o []] =>
    pose proof (mem_txn_calm w2 c o [] Hc1) as Htxn; destruct (mem_txn w2 c o []) as [r w3] end.
  cbv zeta in Htxn. cbn [forallb cmp_holds mem_store fst snd] in Htxn.
  rewrite Hst1, Hp, Z.eqb_refl in Htxn. destruct Htxn as (-> & Hst3 & _); [repeat constructor|].
  cbn [andb] in Hst3.
  cbn [prog_bind run]. exists w3, started. split; [done|].
  assert (value_at (mem_store w3) (PendingKey t) = None) as Hp3.
  { rewrite Hst3. unfold value_at. by lookup_ops. }
  assert (kvs (mem_store w3) !! ClaimedKey t = kvs (mem_store w) !! ClaimedKey t) as Hcl3.
  { rewrite Hst3. by lookup_ops. }
  split_and!; [done| | |].
  - rewrite Hst3. unfold value_at. by lookup_ops.
  - unfold value_at. by rewrite Hcl3.
  - intros l Hl. unfold value_at, lease_at in *. split.
    + destruct (kvs (expire l (mem_store w3)) !! PendingKey t) as [x|] eqn:E; [|done].
      apply map_lookup_filter_Some in E as [E _]. by rewrite E in Hp3.
    + destruct (kvs (expire l (mem_store w3)) !! ClaimedKey t) as [x|] eqn:E; [|done].
      apply map_lookup_filter_Some in E as [E Hne]. rewrite Hcl3 in E. rewrite E in Hl.
      injection Hl as Hl. done.
Qed.

(** ** A claim without a lease *)

(** Finding: a worker whose claim session is gone claims with no lease at all;
    such a claim outlives every expiry, so the ticket of a worker that then dies
    is never run again. *)
Theorem claim_without_lease_never_expires n t rev w :
  calm w -> mem_lease w = [NoLease; NoLease] -> store_wf (mem_store w) -> 1 <= rev ->
  claimable (mem_store w) (stamp t) rev t ->
  let '(o, w') := run (claim n (PendingKey t) rev t) w in
  o = Done (true, bump t) /\
  forall l, l <> NoLease -> value_at (expire l (mem_store w')) (ClaimedKey t) = Some n.
Proof.
  intros Hc Hl Hwf Hrev Hable. apply claim_cmps_spec in Hable; [|done..].
  unfold claim, PendingKey. rewrite str_drop_app. fold (ClaimedKey t).
  cbn [prog_bind call run handle MemWorld_World mem_handle]. rewrite Hl. cbn [head default tail].
  fold (bump t). change (t_NoOverlap (bump t)) with (t_NoOverlap t).
  change (t_JobID (bump t)) with (t_JobID t). unfold claim_cmps in Hable.
  fold (ClaimedKey t) in Hable.
  assert (forall w' cmps thn, calm w' -> mem_store w' = mem_store w ->
    forallb (cmp_holds (kvs (mem_store w))) cmps = true ->
    Forall (op_admissible (mem_store w)) (OpPut (ClaimedKey t) n NoLease :: thn) ->
    ClaimedKey t ∉ map op_key thn ->
    (mem_txn w' cmps (OpPut (ClaimedKey t) n NoLease :: thn) []).1 = Ok true /\
    kvs (mem_store (mem_txn w' cmps (OpPut (ClaimedKey t) n NoLease :: thn) []).2) !! ClaimedKey t
      = Some (mkEntry n (match kvs (mem_store w) !! ClaimedKey t with Some e => e_version e | None => 0 end + 1)
                (revision (mem_store w) + 1) NoLease)) as Htxn.
  { intros w' cmps thn Hc' Hw Hcmp Ha Hn.
    pose proof (mem_txn_calm w' cmps (OpPut (ClaimedKey t) n NoLease :: thn) [] Hc') as H.
    cbv zeta in H. rewrite Hw, Hcmp in H. destruct (H Ha) as (-> & -> & _). split; [done|].
    change (apply_ops (mem_store w) (OpPut (ClaimedKey t) n NoLease :: thn)) with
      (apply_ops (mem_store w) ([OpPut (ClaimedKey t) n NoLease] ++ thn)).
    unfold apply_ops. cbn [kvs]. rewrite foldl_app. cbn [foldl apply_op].
    pose proof (lookup_apply_ops_ne (mkStore (<[ClaimedKey t:=mkEntry n
      (match kvs (mem_store w) !! ClaimedKey t with Some e => e_version e | None => 0 end + 1)
      (revision (mem_store w) + 1) NoLease]> (kvs (mem_store w))) (revision (mem_store w)) ∅) thn
      (ClaimedKey t) Hn) as Hlook.
    unfold apply_ops in Hlook. cbn [kvs revision] in Hlook. rewrite Hlook. apply lookup_insert_eq. }
  assert (forall st' v r, kvs st' !! ClaimedKey t = Some (mkEntry n v r NoLease) ->
    forall l, l <> NoLease -> value_at (expire l st') (ClaimedKey t) = Some n) as Hexp.
  { intros st' v r Hk l Hne. unfold value_at.
    assert (kvs (expire l st') !! ClaimedKey t = Some (mkEntry n v r NoLease)) as ->; [|done].
    apply map_lookup_filter_Some. split; [done|]. cbn [snd e_lease]. congruence. }
  destruct (t_NoOverlap t);
    cbn [prog_bind call run handle MemWorld_World mem_handle app mem_lease head default tail] in *;
    match goal with |- context [mem_txn ?w' ?c (OpPut ?k ?m ?l :: ?o) []] =>
      change (mem_txn w' c (OpPut k m l :: o) []) with
        (mem_txn w' c (OpPut (ClaimedKey t) n NoLease :: o) []);
      destruct (Htxn w' c o) as [H1 H2];
        [done|done|exact Hable|repeat (constructor; [by left|]); constructor
        |cbn [map op_key]; repeat (apply not_elem_of_cons; split; [key_ne|]); apply not_elem_of_nil|];
      destruct (mem_txn w' c (OpPut (ClaimedKey t) n NoLease :: o) []) as [r w2]
    end; cbn [fst snd run] in *; subst r; (split; [done|by eapply Hexp]).
Qed.
(** ** A claim that etcd refuses *)

Lemma mem_txn_dead_lease w cmps thn k v l : calm w ->
  forallb (cmp_holds (kvs (mem_store w))) cmps = true ->
  l <> NoLease -> l ∉ leases (mem_store w) ->
  mem_txn w cmps (OpPut k v l :: thn) [] = (Err "etcdserver: requested lease not found",
    mkMem (mem_store w) [] (mem_clock w) (mem_leader w) (mem_lease w) (mem_rand w) (mem_cmds w)).
Proof.
  intros Hc Hcmp H1 H2. unfold mem_txn. rewrite Hcmp, decide_False; [by rewrite Hc|].
  intros Ha. apply Forall_cons in Ha as [[?|?] _]; done.
Qed.

(** Finding: when etcd refuses the claim of a ticket (the worker's claim lease
    has expired and the session is not replaced yet), [claim] does not answer an
    error: it reads [Succeeded] of the nil response, and the process dies. *)
Theorem claim_with_dead_lease_panics n t rev w l l2 :
  calm w -> mem_lease w = [l; l2] -> store_wf (mem_store w) -> 1 <= rev ->
  claimable (mem_store w) (stamp t) rev t -> l <> NoLease -> l ∉ leases (mem_store w) ->
  (run (claim n (PendingKey t) rev t) w).1 = Panicked /\
  mem_store (run (claim n (PendingKey t) rev t) w).2 = mem_store w.
Proof.
  intros Hc Hl Hwf Hrev Hable Hne Hdead. apply claim_cmps_spec in Hable; [|done..].
  unfold claim, PendingKey. rewrite str_drop_app.
  cbn [prog_bind call run handle MemWorld_World mem_handle]. rewrite Hl. cbn [head tail].
  fold (bump t). change (t_NoOverlap (bump t)) with (t_NoOverlap t).
  change (t_JobID (bump t)) with (t_JobID t). unfold claim_cmps in Hable.
  destruct (t_NoOverlap t);
    cbn [prog_bind call run handle MemWorld_World mem_handle app] in *;
    change (default NoLease (Some l)) with l; by rewrite mem_txn_dead_lease.
Qed.

(** ** A stale run on the same node *)

(** Finding: ownership is checked by node, not by run. When a node claims a
    ticket again while an earlier run of it is still going (its lease had
    expired), the failure of the earlier run is taken for the owner's: it
    removes the claim of the later run and puts the ticket back with the earlier
    attempt number, ready to be claimed a third time. *)
Theorem stale_run_releases_later_claim n t1 t2 e res now w :
  calm w -> stamp t1 = stamp t2 -> t_Attempt t1 < t_Attempt t2 ->
  t_Attempt t1 <= t_MaxRetries t1 -> ticket_valid t1 ->
  kvs (mem_store w) !! PendingKey t2 = Some e -> unmarshal (e_value e) = Some t2 ->
  value_at (mem_store w) (ClaimedKey t2) = Some n ->
  let '(o, w') := run (FinishFailure n t1 res now) w in
  o = Done (Ok tt) /\ value_at (mem_store w') (ClaimedKey t2) = None /\
  exists v t, value_at (mem_store w') (PendingKey t2) = Some v /\ unmarshal v = Some t /\
              t_Attempt t = t_Attempt t1 /\ t_Attempt t < t_Attempt t2.
Proof.
  intros Hc Hs Hlt Hle Hv _ _ Hcl. unfold FinishFailure.
  replace (t_MaxRetries t1 <? t_Attempt t1) with false by (symmetry; by apply Z.ltb_ge).
  assert (ClaimedKey t1 = ClaimedKey t2) as Hk by (unfold ClaimedKey; by rewrite Hs).
  rewrite <- Hk in *. rewrite <- (PendingKey_stamp _ _ Hs).
  cbn [prog_bind call run handle MemWorld_World mem_handle].
  match goal with |- context [mem_txn w ?c ?o ?f] =>
    pose proof (mem_txn_calm w c o f Hc) as Htxn; destruct (mem_txn w c o f) as [r w3] end.
  cbv zeta in Htxn. cbn [forallb fst snd] in Htxn. rewrite andb_true_r in Htxn.
  assert (cmp_holds (kvs (mem_store w)) (CValue (ClaimedKey t1) n) = true) as Hcmp
    by (by apply cmp_value).
  rewrite Hcmp in Htxn. destruct Htxn as (-> & Hst & _).
  { unfold overlapRelease. destruct (t_NoOverlap t1); cbn [negb app]; repeat constructor. }
  cbn [run wrap_err]. split; [done|].
  assert (ticket_valid (retry_ticket t1 now)) as Hrv.
  { destruct Hv as (? & ? & ? & _ & ? & ? & ? & ?). split_and!; try done. apply FormatRFC3339_valid. }
  rewrite Hst. unfold overlapRelease, value_at. split.
  - destruct (t_NoOverlap t1); cbn [negb]; by lookup_ops.
  - exists (marshal (retry_ticket t1 now)), (retry_ticket t1 now). split_and!.
    + destruct (t_NoOverlap t1); cbn [negb]; by lookup_ops.
    + by apply unmarshal_marshal.
    + done.
    + done.
Qed.
(** ** A fire that has run is enqueued again *)

(** Finding: the key of a ticket only protects it while it is pending: once a
    fire has run and its ticket is gone, enqueueing it again (a leader that was
    stalled before its transaction) creates it again and moves the watermark,
    also backwards, to whatever it carries. *)
Theorem finished_fire_enqueued_again n t res ft w :
  calm w -> store_wf (mem_store w) -> value_at (mem_store w) (ClaimedKey t) = Some n ->
  let '(o1, w1) := run (FinishSuccess n t res) w in
  let '(o2, w2) := run (EnqueueFire t ft) w1 in
  o1 = Done (Ok tt) /\ value_at (mem_store w1) (PendingKey t) = None /\
  o2 = Done (Ok true) /\ value_at (mem_store w2) (PendingKey t) = Some (marshal t) /\
  value_at (mem_store w2) (WatermarkKey (t_JobID t)) = Some ft.
Proof.
  intros Hc Hwf Hown. pose proof (FinishSuccess_run n t res w) as Hf.
  unfold FinishSuccess in *. cbn [prog_bind call run handle MemWorld_World mem_handle] in *.
  match goal with |- context [mem_txn w ?c ?o ?e] => pose proof (mem_txn_calm w c o e Hc) as H1 end.
  cbv zeta in H1. assert (forallb (cmp_holds (kvs (mem_store w))) [CValue (ClaimedKey t) n] = true) as Hh.
  { cbn [forallb]. rewrite andb_true_r. by apply cmp_value. }
  rewrite Hh in H1. destruct H1 as (Ho & Hst & Hc1).
  { unfold overlapRelease. destruct (t_NoOverlap t); cbn [negb app];
      repeat first [apply Forall_nil_2 | apply Forall_cons_2; [simpl; tauto|]]. }
  destruct (mem_txn w _ _ _) as [r w1]. cbn [fst snd] in *. subst r. cbn [run wrap_err fst snd] in *.
  assert (value_at (mem_store w1) (PendingKey t) = None) as Hp.
  { destruct Hf as [[_ (H & _)]|[H _]]; [exact H|done]. }
  assert (store_wf (mem_store w1)) as Hwf1 by (rewrite Hst; by apply store_wf_apply_ops).
  unfold EnqueueFire in *. cbn [prog_bind call run handle MemWorld_World mem_handle] in *.
  match goal with |- context [mem_txn w1 ?c ?o ?e] => pose proof (mem_txn_calm w1 c o e Hc1) as H2 end.
  cbv zeta in H2.
  assert (forallb (cmp_holds (kvs (mem_store w1))) [CVersion (PendingKey t) 0] = true) as Hh2.
  { cbn [forallb]. rewrite andb_true_r. apply cmp_version_0; [done|]. by apply value_at_None. }
  rewrite Hh2 in H2. destruct H2 as (Ho2 & Hst2 & _).
  { repeat first [apply Forall_nil_2 | apply Forall_cons_2; [simpl; tauto|]]. }
  destruct (mem_txn w1 _ _ _) as [r2 w2]. cbn [fst snd] in *. subst r2. cbn [run wrap_err fst snd].
  split_and!; [done..| |]; rewrite Hst2; unfold value_at; by lookup_ops.
Qed.
End findings.
