(* ===== verification/Jobs.v ===== *)
(** * The repository of jobs: [internal/jobs/jobs.go]

    Jobs live under [/cron/jobs/], one key per id; ids come from a counter next
    to them, taken by compare-and-swap. *)
From S2P Require Import Prelude GoStrings GoTime Cron Model Etcd Queue.

Open Scope string_scope.
Open Scope list_scope.
Open Scope orbix_scope.
Open Scope Z_scope.

Definition JobsPrefix := "/cron/jobs/".
Definition idCounterKey := "/cron/jobs/_counter".

Definition key (id : Z) : string := JobsPrefix +:+ FormatInt id.

(** The errors, with the values their messages quote. *)
Inductive JobErr :=
| NameRequired
| CommandRequired
| BadCron (e : CronErr)
| BadTimezone (tz : string)
| BadCatchUp
| BadTimeout
| BadMaxRetries
| JobEtcd (what : string) (e : EtcdErr)
| JobNotFound (id : Z)
| JobDecode
| JobContention.

(** Field assignments of the source. *)
Definition j_set_ID (j : Job) (id : Z) : Job :=
  mkJob id (j_Name j) (j_Cron j) (j_Timezone j) (j_Command j) (j_TimeoutSec j) (j_MaxRetries j)
    (j_CatchUp j) (j_NoOverlap j) (j_Enabled j) (j_NextFire j) (j_CreatedAt j) (j_UpdatedAt j).

Definition j_set_Enabled (j : Job) (b : bool) : Job :=
  mkJob (j_ID j) (j_Name j) (j_Cron j) (j_Timezone j) (j_Command j) (j_TimeoutSec j)
    (j_MaxRetries j) (j_CatchUp j) (j_NoOverlap j) b (j_NextFire j) (j_CreatedAt j) (j_UpdatedAt j).

Definition j_set_CreatedAt (j : Job) (s : string) : Job :=
  mkJob (j_ID j) (j_Name j) (j_Cron j) (j_Timezone j) (j_Command j) (j_TimeoutSec j)
    (j_MaxRetries j) (j_CatchUp j) (j_NoOverlap j) (j_Enabled j) (j_NextFire j) s (j_UpdatedAt j).

Definition j_set_UpdatedAt (j : Job) (s : string) : Job :=
  mkJob (j_ID j) (j_Name j) (j_Cron j) (j_Timezone j) (j_Command j) (j_TimeoutSec j)
    (j_MaxRetries j) (j_CatchUp j) (j_NoOverlap j) (j_Enabled j) (j_NextFire j) (j_CreatedAt j) s.

Section jobs.
Context `{JJ : Json Job job_valid} (loadLocation : string -> option Location).

(** [None] is a nil error. *)
Definition validate (j : Job) : option JobErr :=
  if String.eqb (TrimSpace (j_Name j)) "" then Some NameRequired
  else if String.eqb (TrimSpace (j_Command j)) "" then Some CommandRequired
  else match Validate (j_Cron j) with
  | Some e => Some (BadCron e)
  | None =>
      if negb (String.eqb (j_Timezone j) "") && negb (bool_decide (is_Some (loadLocation (j_Timezone j))))
      then Some (BadTimezone (j_Timezone j))
      else if negb (existsb (String.eqb (j_CatchUp j))
                      [""; CatchUpRunLatest; CatchUpRunAll; CatchUpSkip])
      then Some BadCatchUp
      else if (j_TimeoutSec j <? 0) || (86400 <? j_TimeoutSec j) then Some BadTimeout
      else if (j_MaxRetries j <? 0) || (10 <? j_MaxRetries j) then Some BadMaxRetries
      else None
  end.

(** The last id and the revision of the counter, as one reads them. *)
Definition counter_of (o : option Entry) : Z * Z :=
  match o with
  | None => (0, 0)
  | Some e => (match ParseInt (e_value e) with Some v => v | None => 0 end, e_modrev e)
  end.

(** The job and its id, as one transaction writes them. *)
Definition create_ops (j : Job) : list Op :=
  [OpPut idCounterKey (FormatInt (j_ID j)) NoLease; OpPut (key (j_ID j)) (marshal j) NoLease].

(** [for attempt := 0; attempt < 8; attempt++], by the attempts left. *)
Fixpoint create_loop (attempts : nat) (j : Job) : Prog (result JobErr Job) :=
  match attempts with
  | O => Ret (Err JobContention)
  | S attempts' =>
      let! resp := call (Etcd.Get idCounterKey) in
      match resp with
      | Err e => Ret (Err (JobEtcd "jobs: read counter: " e))
      | Ok kv =>
          let '(cur, modrev) := counter_of kv in
          let j := j_set_ID j (wrap64 (cur + 1)) in
          let! txn := call (Txn [CModRevision idCounterKey modrev] (create_ops j) []) in
          match txn with
          | Err e => Ret (Err (JobEtcd "jobs: create txn: " e))
          | Ok true => Ret (Ok j)
          | Ok false => create_loop attempts' j
          end
      end
  end.

(** The job as the caller's pointer shows it afterwards. *)
Definition Create (j : Job) : Prog (result JobErr Job) :=
  match validate j with
  | Some err => Ret (Err err)
  | None =>
      let! now := now_rfc3339 in
      create_loop 8 (j_set_Enabled (j_set_UpdatedAt (j_set_CreatedAt j now) now) true)
  end.

Definition Get (id : Z) : Prog (result JobErr Job) :=
  let! resp := call (Etcd.Get (key id)) in
  Ret match resp with
      | Err e => Err (JobEtcd "jobs: get: " e)
      | Ok None => Err (JobNotFound id)
      | Ok (Some e) => opt_or (unmarshal (e_value e)) JobDecode
      end.

(** What cannot be read as a job (the counter) is left out. *)
Definition read_jobs (kvs : list (string * Entry)) : list Job :=
  omap (fun p => unmarshal (e_value p.2)) kvs.

Definition List : Prog (result JobErr (list Job)) :=
  let! resp := call (GetPrefix JobsPrefix None) in
  Ret match resp with
      | Err e => Err (JobEtcd "jobs: list: " e)
      | Ok kvs => Ok (read_jobs kvs)
      end.

(** The error of the put, or the job. *)
Definition put_job (what : string) (id : Z) (j : Job) : Prog (result JobErr Job) :=
  let! resp := call (Put (key id) (marshal j) NoLease) in
  Ret match resp with Err e => Err (JobEtcd what e) | Ok _ => Ok j end.

Definition Update (id : Z) (j : Job) : Prog (result JobErr Job) :=
  let j := j_set_ID j id in
  match validate j with
  | Some err => Ret (Err err)
  | None =>
      let! cur := Get id in
      match cur with
      | Err err => Ret (Err err)
      | Ok cur =>
          let! now := now_rfc3339 in
          put_job "jobs: update: " id (j_set_UpdatedAt (j_set_CreatedAt j (j_CreatedAt cur)) now)
      end
  end.

Definition SetEnabled (id : Z) (enabled : bool) : Prog (result JobErr Job) :=
  let! cur := Get id in
  match cur with
  | Err err => Ret (Err err)
  | Ok j =>
      let! now := now_rfc3339 in
      put_job "jobs: toggle: " id (j_set_UpdatedAt (j_set_Enabled j enabled) now)
  end.

Definition Delete (id : Z) : Prog (result JobErr unit) :=
  let! resp := call (Txn [] [OpDelete (key id); OpDelete (WatermarkKey id)] []) in
  Ret match resp with Err e => Err (JobEtcd "jobs: delete: " e) | Ok _ => Ok tt end.

End jobs.
