(* ===== verification/JobFacts.v ===== *)
(** * What the repository of jobs promises

    Validation, the allocation of ids by compare-and-swap while other clients
    write, and the effect of each operation on the key space. *)
From S2P Require Import Prelude GoStrings GoTime Cron CronParse Model Etcd Exec Queue QueueFacts Jobs.
From Stdlib Require Import Ascii.

Open Scope string_scope.
Open Scope list_scope.
Open Scope orbix_scope.
Open Scope Z_scope.

(** ** Keys *)

Lemma key_inj i1 i2 : key i1 = key i2 -> i1 = i2.
Proof. intros H%string_app_inj_l. by apply FormatInt_inj in H. Qed.

Lemma key_ne_counter id : key id <> idCounterKey.
Proof.
  change idCounterKey with (JobsPrefix +:+ "_counter"). intros H%string_app_inj_l.
  assert (str_forall (not_char "_") (FormatInt id) = true) as Hc.
  { apply FormatInt_chars; [|done]. intros c Hc. unfold not_char.
    apply negb_true_iff, Ascii.eqb_neq. by intros ->. }
  rewrite H in Hc. discriminate Hc.
Qed.

(** ** Validation *)

Definition timezone_known (loadLocation : string -> option Location) (tz : string) : Prop :=
  tz = "" \/ is_Some (loadLocation tz).

(** What [validate] is for. *)
Record job_accepted (loadLocation : string -> option Location) (j : Job) : Prop := {
  acc_name : TrimSpace (j_Name j) <> "";
  acc_command : TrimSpace (j_Command j) <> "";
  acc_cron : exists s, Parse (j_Cron j) = Ok s;
  acc_tz : timezone_known loadLocation (j_Timezone j);
  acc_policy : j_CatchUp j ∈ [""; CatchUpRunLatest; CatchUpRunAll; CatchUpSkip];
  acc_timeout : 0 <= j_TimeoutSec j <= 86400;
  acc_retries : 0 <= j_MaxRetries j <= 10;
}.

Lemma existsb_eqb s l : existsb (String.eqb s) l = true <-> s ∈ l.
Proof.
  rewrite existsb_exists. split.
  - intros (x & Hx & ->%String.eqb_eq). by apply list_elem_of_In.
  - intros H%list_elem_of_In. exists s. split; [done|]. apply String.eqb_refl.
Qed.

Lemma validate_spec loadLocation j :
  validate loadLocation j = None <-> job_accepted loadLocation j.
Proof.
  unfold validate, Validate. split.
  - destruct (String.eqb_spec (TrimSpace (j_Name j)) ""); [done|].
    destruct (String.eqb_spec (TrimSpace (j_Command j)) ""); [done|].
    destruct (Parse (j_Cron j)) as [s|] eqn:Ep; [|done].
    destruct (negb _ && _) eqn:Etz; [done|].
    destruct (negb (existsb _ _)) eqn:Ec; [done|].
    destruct (_ || _) eqn:Et; [done|]. destruct ((j_MaxRetries j <? 0) || _) eqn:Er; [done|].
    intros _. apply negb_false_iff in Ec. rewrite existsb_eqb in Ec. bool_prop.
    constructor; try done; [by eauto|].
    unfold timezone_known. apply andb_false_iff in Etz as [Etz|Etz].
    + left. by apply negb_false_iff, String.eqb_eq in Etz.
    + right. apply negb_false_iff in Etz. by apply bool_decide_eq_true in Etz.
  - intros [Hn Hc [s Hs] Htz Hp Ht Hr]. rewrite Hs.
    destruct (String.eqb_spec (TrimSpace (j_Name j)) ""); [done|].
    destruct (String.eqb_spec (TrimSpace (j_Command j)) ""); [done|].
    replace (negb (String.eqb (j_Timezone j) "") && _)%bool with false.
    + apply existsb_eqb in Hp. rewrite Hp. simpl.
      replace ((j_TimeoutSec j <? 0) || _) with false by lia.
      by replace ((j_MaxRetries j <? 0) || _) with false by lia.
    + symmetry. apply andb_false_iff. destruct Htz as [->|Htz]; [by left|right].
      by rewrite bool_decide_true.
Qed.

(** ** The counter *)

Definition counter (st : Store) : Z := (counter_of (kvs st !! idCounterKey)).1.

Lemma counter_of_rev o : (counter_of o).2 = match o with Some e => e_modrev e | None => 0 end.
Proof. by destruct o. Qed.

(** A compare that holds on the revision that was read means that the counter
    is the one that was read. *)
Lemma counter_unchanged st st' : store_wf st -> later st st' ->
  cmp_holds (kvs st') (CModRevision idCounterKey (counter_of (kvs st !! idCounterKey)).2) = true ->
  kvs st' !! idCounterKey = kvs st !! idCounterKey.
Proof.
  intros Hwf Hl. rewrite counter_of_rev. destruct (kvs st !! idCounterKey) as [e|] eqn:Ek.
  - intros Hc. by apply (later_same_rev st).
  - simpl. destruct (kvs st' !! idCounterKey) as [e'|] eqn:Ek'; [|done].
    destruct Hl as [[_ Hwf'] _]. apply Hwf' in Ek'. intros Hc%Z.eqb_eq. lia.
Qed.

Section facts.
Context `{JJ : Json Job job_valid} (loadLocation : string -> option Location).

Definition fresh_job (j : Job) (now : string) (id : Z) : Job :=
  j_set_ID (j_set_Enabled (j_set_UpdatedAt (j_set_CreatedAt j now) now) true) id.

(** The instant at which a job is created: the counter moves and the job
    appears, in one transaction. *)
Definition created_at (j' : Job) (st st' : Store) : Prop :=
  j_ID j' = wrap64 (counter st + 1) /\ st' = apply_ops st (create_ops j').

Lemma create_loop_exec n j st j' st' : store_wf st ->
  exec (create_loop n j) st (Done (Ok j')) st' ->
  exists st1 st2, later st st1 /\ created_at j' st1 st2 /\ later st2 st' /\
  j' = j_set_ID j (j_ID j').
Proof.
  revert j st. induction n as [|n IH]; intros j st Hwf H; [by destruct H|].
  cbn [create_loop] in H. exec_step H st1 x st2 Hl1 He1. destruct He1 as [-> Hx].
  pose proof (later_wf _ _ Hl1) as Hwf1.
  destruct x as [kv|e]; [subst kv|by destruct H].
  destruct (counter_of (kvs st1 !! idCounterKey)) as [cur modrev] eqn:Ec.
  exec_step H st3 x st4 Hl3 He3. pose proof (later_wf _ _ Hl3) as Hwf3.
  pose proof (ev_ok_later _ _ _ _ Hwf3 He3) as Hl4.
  apply txn_ok_cases in He3. destruct x as [[]|e].
  - destruct He3 as (Hc & _ & ->). cbn [forallb] in Hc. rewrite andb_true_r in Hc.
    destruct H as [H Hl5]. injection H as ->.
    exists st3. eexists. split; [by eapply later_trans|]. split; [split; [|done]|].
    + simpl. f_equal. f_equal. unfold counter.
      replace modrev with (counter_of (kvs st1 !! idCounterKey)).2 in Hc by (by rewrite Ec).
      rewrite (counter_unchanged st1 st3 Hwf1 Hl3 Hc). by rewrite Ec.
    + by split.
  - destruct (IH _ _ (later_wf _ _ Hl4) H) as (s1 & s2 & H1 & H2 & H3 & H4).
    exists s1, s2. split_and!; try done.
    eapply later_trans; [exact Hl1|]. eapply later_trans; [exact Hl3|]. by eapply later_trans.
  - by destruct H.
Qed.

(** C12: whatever the other clients do between its requests, a creation that
    succeeds takes effect at one instant: there the counter goes from [c] to
    [c + 1] and the job, enabled and stamped, appears under [c + 1]. *)
Theorem Create_atomic j st j' st' : store_wf st ->
  exec (Create loadLocation j) st (Done (Ok j')) st' ->
  job_accepted loadLocation j /\
  exists st1 st2 now, later st st1 /\ later st2 st' /\
    j' = fresh_job j now (wrap64 (counter st1 + 1)) /\
    value_at st2 idCounterKey = Some (FormatInt (wrap64 (counter st1 + 1))) /\
    value_at st2 (key (wrap64 (counter st1 + 1))) = Some (marshal j') /\
    same_except [idCounterKey; key (wrap64 (counter st1 + 1))] st1 st2.
Proof.
  intros Hwf H. unfold Create in H. destruct (validate loadLocation j) eqn:Ev; [by destruct H|].
  split; [by apply validate_spec|]. exec_step H st1 now st2 Hl1 He1. simpl in He1. subst st2.
  apply create_loop_exec in H as (s1 & s2 & Hl2 & [Hid ->] & Hl3 & Hj); [|by eapply later_wf].
  exists s1, (apply_ops s1 (create_ops j')), (FormatRFC3339 now).
  split; [by eapply later_trans|]. split; [done|].
  rewrite <- Hid. split; [exact Hj|]. unfold value_at, create_ops.
  pose proof (key_ne_counter (j_ID j')). split_and!.
  - cbn [kvs apply_ops foldl apply_op]. by rewrite lookup_insert_ne, lookup_insert_eq.
  - by lookup_ops.
  - apply (same_except_ops (create_ops j')).
Qed.

Context `{WW : World W}.
Implicit Types (w : W).

(** The job stored under an id. *)
Definition job_at (st : Store) (id : Z) : option Job := value_at st (key id) ≫= unmarshal.

(** Alone on etcd a creation needs one attempt: it succeeds, or the job is
    refused and nothing happens, or etcd reports an error, after which the job
    is created or not, with its counter. *)
Lemma Create_run j w : store_wf (store_of w) ->
  let st := store_of w in
  let st' := store_of (run (Create loadLocation j) w).2 in
  let created now := let j' := fresh_job j now (wrap64 (counter st + 1)) in
                     st' = apply_ops st (create_ops j') in
  match (run (Create loadLocation j) w).1 with
  | Done (Ok j') => job_accepted loadLocation j /\ exists now,
      utf8_valid now = true /\ j' = fresh_job j now (wrap64 (counter st + 1)) /\ created now
  | Done (Err (JobEtcd _ _)) => job_accepted loadLocation j /\ (st' = st \/ exists now, created now)
  | Done (Err JobContention) => False
  | Done (Err err) => validate loadLocation j = Some err /\ st' = st
  | Panicked => False
  end.
Proof.
  intros Hwf. cbv zeta. unfold Create. destruct (validate loadLocation j) as [err|] eqn:Ev.
  { cbn [run fst snd]. destruct err; try done.
    all: exfalso; revert Ev; unfold validate; repeat case_match; done. }
  pose proof (proj1 (validate_spec _ _) Ev) as Hacc.
  unfold now_rfc3339. cbn [prog_bind call run create_loop].
  run_step now w1 H1. simpl in H1. rewrite <- H1 in *. clear H1.
  run_step r w2 H2. destruct H2 as [H2 Hr]. rewrite <- H2 in *.
  destruct r as [kv|e]; [subst kv|by split; [|left]].
  unfold counter. destruct (counter_of (kvs (store_of w2) !! idCounterKey)) as [cur modrev] eqn:Ec.
  cbn [prog_bind call run fst]. run_step r w3 H3. apply txn_ok_cases in H3. cbn [forallb] in H3.
  assert (cmp_holds (kvs (store_of w2)) (CModRevision idCounterKey modrev) = true) as Hc.
  { replace modrev with (counter_of (kvs (store_of w2) !! idCounterKey)).2 by (by rewrite Ec).
    rewrite counter_of_rev. simpl. by rewrite Z.eqb_refl. }
  unfold txn_cases in H3. cbv zeta in H3. cbn [forallb] in H3. rewrite Hc in H3. simpl in H3.
  destruct r as [[]|e].
  - destruct H3 as (_ & _ & H3). split; [done|]. exists (FormatRFC3339 now).
    auto with orbix_time.
  - by destruct H3.
  - split; [done|]. destruct H3 as [H3|[(_ & _ & H3)|(? & _)]]; [by left| |done].
    right. by exists (FormatRFC3339 now).
Qed.

Lemma fresh_job_valid j now id : job_valid j -> utf8_valid now = true -> in_int64 id = true ->
  job_valid (fresh_job j now id).
Proof. intros (? & ? & ? & ? & ? & ? & _ & _ & _ & ? & ?) ??. by split_and!. Qed.

Lemma Get_run id w : exists r, (run (Get id) w).1 = Done r /\
  store_of (run (Get id) w).2 = store_of w /\
  match r with
  | Ok j => job_at (store_of w) id = Some j
  | Err (JobNotFound i) => i = id /\ value_at (store_of w) (key id) = None
  | Err JobDecode => is_Some (value_at (store_of w) (key id)) /\ job_at (store_of w) id = None
  | Err (JobEtcd _ _) => True
  | Err _ => False
  end.
Proof.
  unfold Get, job_at, value_at. cbn [prog_bind call run]. run_step r w1 H. destruct H as [Hst Hr].
  destruct r as [[e|]|e]; eexists; (split; [done|]); (split; [done|]); [|by rewrite <- Hr|done].
  rewrite <- Hr. simpl. by destruct (unmarshal (e_value e)).
Qed.

Lemma create_ops_job st j : job_valid j -> job_at (apply_ops st (create_ops j)) (j_ID j) = Some j.
Proof.
  intros Hv. unfold job_at, value_at, create_ops. lookup_ops. simpl. by apply unmarshal_marshal.
Qed.

(** C35: a creation alone on etcd needs one attempt. If it succeeds, the job reads
    back as it was returned; a refused job changes nothing; there is no
    contention and no panic. *)
Theorem Create_then_Get j w : store_wf (store_of w) -> job_valid j ->
  let '(o, w1) := run (Create loadLocation j) w in
  match o with
  | Done (Ok j') =>
      job_accepted loadLocation j /\ j_ID j' = wrap64 (counter (store_of w) + 1) /\
      j_Enabled j' = true /\ job_at (store_of w1) (j_ID j') = Some j' /\
      match (run (Get (j_ID j')) w1).1 with
      | Done (Ok j2) => j2 = j'
      | Done (Err (JobEtcd _ _)) => True
      | _ => False
      end
  | Done (Err (JobEtcd _ _)) => True
  | Done (Err err) => validate loadLocation j = Some err /\ store_of w1 = store_of w
  | Panicked => False
  end.
Proof.
  intros Hwf Hv. pose proof (Create_run j w Hwf) as H. cbv zeta in H.
  destruct (run (Create loadLocation j) w) as [o w1]. cbn [fst snd] in H.
  destruct o as [[j'|err]|]; [|by destruct err|done].
  destruct H as (Hacc & now & Hnow & -> & H).
  set (j' := fresh_job _ _ _) in *.
  assert (job_at (store_of w1) (j_ID j') = Some j') as Hj.
  { rewrite H. apply create_ops_job. apply fresh_job_valid; auto using wrap64_in. }
  split_and!; try done.
  destruct (Get_run (j_ID j') w1) as (r & -> & _ & Hr).
  rewrite Hj in Hr. destruct r as [j2|[]]; try done.
  - by injection Hr.
  - destruct Hr as [-> Hr]. unfold job_at in Hj. by rewrite Hr in Hj.
  - by destruct Hr.
Qed.

(** The job [j'] was put under [id], and nothing else changed. *)
Definition job_put (id : Z) (j' : Job) (st st' : Store) : Prop :=
  value_at st' (key id) = Some (marshal j') /\ same_except [key id] st st'.

Lemma put_job_run what id j w :
  match (run (put_job what id j) w).1 with
  | Done (Ok j') => j' = j /\ job_put id j (store_of w) (store_of (run (put_job what id j) w).2)
  | Done (Err (JobEtcd _ _)) =>
      store_of (run (put_job what id j) w).2 = store_of w \/
      job_put id j (store_of w) (store_of (run (put_job what id j) w).2)
  | _ => False
  end.
Proof.
  unfold put_job. cbn [prog_bind call run]. run_step r w1 H. simpl in H.
  assert (forall st', st' = apply_ops (store_of w) [OpPut (key id) (marshal j) NoLease] ->
    job_put id j (store_of w) st') as Hput.
  { intros st' ->. split; [unfold value_at; by lookup_ops|apply (same_except_ops [OpPut _ _ _])]. }
  destruct r as [[]|e]; [destruct H as (_ & _ & H)|destruct H as [H|[_ H]]];
    cbn [run fst snd]; auto.
Qed.

(** An update keeps the id and the creation time, stamps the update time,
    takes everything else from the request, and needs a job that is there and
    a request that is accepted; any error but etcd's leaves the store alone. *)
Theorem Update_spec id j w :
  let '(o, w') := run (Update loadLocation id j) w in
  let st := store_of w in
  let st' := store_of w' in
  let updated j' := exists cur now,
    job_accepted loadLocation j /\ job_at st id = Some cur /\
    j' = j_set_UpdatedAt (j_set_CreatedAt (j_set_ID j id) (j_CreatedAt cur)) now /\
    job_put id j' st st' in
  match o with
  | Done (Ok j') => updated j'
  | Done (Err (JobEtcd _ _)) => st' = st \/ exists j', updated j'
  | Done (Err (JobNotFound i)) => i = id /\ value_at st (key id) = None /\ st' = st
  | Done (Err JobDecode) => job_at st id = None /\ st' = st
  | Done (Err err) => validate loadLocation (j_set_ID j id) = Some err /\ st' = st
  | Panicked => False
  end.
Proof.
  unfold Update. destruct (validate loadLocation (j_set_ID j id)) as [err|] eqn:Ev.
  { cbn [run]. destruct err; try done.
    all: exfalso; revert Ev; unfold validate; repeat case_match; done. }
  assert (job_accepted loadLocation j) as Hacc by (by apply validate_spec).
  rewrite run_bind. destruct (Get_run id w) as (r & E & Hst & Hr).
  destruct (run (Get id) w) as [o w1]. cbn [fst snd] in E, Hst. subst o.
  destruct r as [cur|err]; cbn [run].
  2: { rewrite Hst. destruct err; try done; [by left|by destruct Hr|by destruct Hr]. }
  unfold now_rfc3339. cbn [prog_bind call run]. run_step now w2 H2. simpl in H2.
  match goal with |- context [put_job ?a ?b ?c] => pose proof (put_job_run a b c w2) as Hp;
    destruct (run (put_job a b c) w2) as [o w3] end.
  cbn [fst snd] in Hp. rewrite H2, Hst in Hp.
  destruct o as [[j'|[]]|]; try done.
  - destruct Hp as [-> Hp]. by exists cur, (FormatRFC3339 now).
  - destruct Hp as [Hp|Hp]; [by left|]. right. eexists. by exists cur, (FormatRFC3339 now).
Qed.

(** [SetEnabled] changes the flag and the update time of the stored job, and
    nothing else of it. *)
Theorem SetEnabled_spec id b w :
  let '(o, w') := run (SetEnabled id b) w in
  let st := store_of w in
  let st' := store_of w' in
  let toggled j' := exists cur now,
    job_at st id = Some cur /\ j' = j_set_UpdatedAt (j_set_Enabled cur b) now /\
    job_put id j' st st' in
  match o with
  | Done (Ok j') => toggled j'
  | Done (Err (JobEtcd _ _)) => st' = st \/ exists j', toggled j'
  | Done (Err _) => job_at st id = None /\ st' = st
  | Panicked => False
  end.
Proof.
  unfold SetEnabled. rewrite run_bind. destruct (Get_run id w) as (r & E & Hst & Hr).
  destruct (run (Get id) w) as [o w1]. cbn [fst snd] in E, Hst. subst o.
  destruct r as [cur|err]; cbn [run].
  2: { rewrite Hst. destruct err; try done; [by left| |by destruct Hr].
       destruct Hr as [_ Hr]. unfold job_at. by rewrite Hr. }
  unfold now_rfc3339. cbn [prog_bind call run]. run_step now w2 H2. simpl in H2.
  match goal with |- context [put_job ?a ?b ?c] => pose proof (put_job_run a b c w2) as Hp;
    destruct (run (put_job a b c) w2) as [o w3] end.
  cbn [fst snd] in Hp. rewrite H2, Hst in Hp.
  destruct o as [[j'|[]]|]; try done.
  - destruct Hp as [-> Hp]. by exists cur, (FormatRFC3339 now).
  - destruct Hp as [Hp|Hp]; [by left|]. right. eexists. by exists cur, (FormatRFC3339 now).
Qed.

(** Deleting a job removes the job and its watermark together, and touches
    neither its tickets nor the counter; a deleted job is not found. *)
Theorem Delete_spec id w :
  let '(o, w') := run (Delete id) w in
  let st := store_of w in
  let st' := store_of w' in
  let deleted := value_at st' (key id) = None /\ value_at st' (WatermarkKey id) = None /\
                 counter st' = counter st /\
                 same_except [key id; WatermarkKey id] st st' in
  match o with
  | Done (Ok _) => deleted
  | Done (Err _) => st' = st \/ deleted
  | Panicked => False
  end.
Proof.
  unfold Delete. cbn [prog_bind call run]. run_step r w1 H. simpl in H.
  set (ops := [OpDelete (key id); OpDelete (WatermarkKey id)]) in *.
  assert (forall st', st' = apply_ops (store_of w) ops ->
    value_at st' (key id) = None /\ value_at st' (WatermarkKey id) = None /\
    counter st' = counter (store_of w) /\
    same_except [key id; WatermarkKey id] (store_of w) st') as Hdel.
  { intros st' ->. unfold value_at, counter. subst ops.
    pose proof (key_ne_counter id). assert (key id <> WatermarkKey id) by (apply prefix_ne; done).
    assert (WatermarkKey id <> idCounterKey)
      by (change idCounterKey with (JobsPrefix +:+ "_counter"); apply prefix_ne; done).
    split_and!.
    - cbn [kvs apply_ops foldl apply_op]. by rewrite lookup_delete_ne, lookup_delete_eq.
    - by lookup_ops.
    - cbn [kvs apply_ops foldl apply_op]. by rewrite !lookup_delete_ne.
    - apply (same_except_ops [OpDelete _; OpDelete _]). }
  destruct r as [b|e]; [destruct H as (_ & _ & H)|destruct H as [H|[_ H]]]; cbn [run]; auto.
Qed.

(** A listing holds exactly the readable jobs under the prefix: the counter
    and what cannot be read are left out. *)
Theorem List_spec w :
  let '(o, w') := run List w in
  store_of w' = store_of w /\
  match o with
  | Done (Ok l) => forall j, j ∈ l <->
      exists k v, HasPrefix k JobsPrefix = true /\ value_at (store_of w) k = Some v /\
                  unmarshal v = Some j
  | Done (Err (JobEtcd _ _)) => True
  | _ => False
  end.
Proof.
  unfold List. cbn [prog_bind call run]. run_step r w1 H. destruct H as [Hst Hr].
  destruct r as [l|e]; cbn [run]; split; try done. subst l. intros j.
  unfold read_jobs. rewrite list_elem_of_omap. split.
  - intros ([k e] & Hin%elem_of_range_all & Hu). destruct Hin as [Hk Hp].
    exists k, (e_value e). split_and!; try done. unfold value_at. by rewrite Hk.
  - intros (k & v & Hp & Hv & Hu). unfold value_at in Hv.
    destruct (kvs (store_of w) !! k) as [e|] eqn:Ek; [|done]. injection Hv as <-.
    exists (k, e). split; [|done]. by apply elem_of_range_all.
Qed.
End facts.
