(* ===== verification/Scheduler.v ===== *)
(** * The scheduler: [internal/scheduler/scheduler.go] and [catchup.go]

    The leader looks at every enabled job, works out which fires are due since
    the watermark, and enqueues them under the job's catch-up policy; then it
    abandons pending tickets of jobs that are gone, and collects old results.
    Log lines are left out; everything else is in the order of the code. *)
From S2P Require Import Prelude GoStrings GoTime Cron Model Etcd Queue Jobs.

Open Scope string_scope.
Open Scope list_scope.
Open Scope orbix_scope.
Open Scope Z_scope.

Definition maxCatchUpFires : nat := 8.
Definition resultsRetention : Duration := Hour.
Definition gcEvery : Duration := Minute.

(** [time.Time{}], and [IsZero]. *)
Definition zero_time : Time := -62135596800 * Second.
Definition IsZero (t : Time) : bool := t =? zero_time.

Section scheduler.
Context `{TJ : Json Ticket ticket_valid} `{RJ : Json Result result_valid}
  `{JJ : Json Job job_valid}.
Context (nodeID : string) (loadLocation : string -> option Location).

(** ** [catchup.go] *)

Definition fire_ticket (j : Job) (fire : Time) : Ticket :=
  {| t_JobID := j_ID j; t_Name := j_Name j; t_Command := j_Command j;
     t_TimeoutSec := j_TimeoutSec j; t_MaxRetries := j_MaxRetries j;
     t_NoOverlap := j_NoOverlap j; t_SchedAt := FormatRFC3339Nano fire; t_Attempt := 0;
     t_NotBefore := ""; t_Manual := false |}.

(** Both only log what they are answered. *)
Definition enqueueFire (j : Job) (fire wm : Time) : Prog unit :=
  let! _ := EnqueueFire (fire_ticket j fire) (FormatRFC3339 wm) in Ret tt.

Definition advance (id : Z) (t : Time) : Prog unit :=
  let! _ := AdvanceWatermark id (FormatRFC3339 t) in Ret tt.

(** [for len(fires) < maxCatchUpFires]: the fires, the last [from], and the
    [future] fire if the loop found one. [n] is the room left in [fires]. *)
Fixpoint collect (n : nat) (expr tz : string) (now : Time) (fires : list Time) (from : Time)
    : result CronErr (list Time * Time * Time) :=
  match n with
  | O => Ok (fires, from, zero_time)
  | S n' =>
      nxt ← NextAfter loadLocation expr tz from;
      if now <? nxt then Ok (fires, from, nxt)
      else collect n' expr tz now (fires ++ [nxt]) nxt
  end.

Fixpoint enqueue_all (j : Job) (fires : list Time) : Prog unit :=
  match fires with
  | [] => Ret tt
  | f :: rest =>
      let! leader := call IsLeader in
      if (leader : bool) then let! _ := enqueueFire j f f in enqueue_all j rest
      else Ret tt
  end.

Definition scheduleJob (j : Job) (now : Time) : Prog unit :=
  let policy := if String.eqb (j_CatchUp j) "" then CatchUpRunLatest else j_CatchUp j in
  let! wm := Watermark (j_ID j) in
  match wm with
  | Err _ => Ret tt
  | Ok wm =>
      let from := match wm with
                  | Some s => match ParseRFC3339 s with Some t => t | None => zero_time end
                  | None => zero_time
                  end in
      if IsZero from then
        match NextAfter loadLocation (j_Cron j) (j_Timezone j) now with
        | Err _ => Ret tt
        | Ok nxt => advance (j_ID j) nxt
        end
      else
        match collect maxCatchUpFires (j_Cron j) (j_Timezone j) now [] from with
        | Err _ => Ret tt
        | Ok (fires, from, future) =>
            if String.eqb policy CatchUpSkip then
              if (0 <? Z.of_nat (length fires)) then
                let target := future in
                let target := if IsZero target then from else target in
                advance (j_ID j) target
              else Ret tt
            else if String.eqb policy CatchUpRunAll then enqueue_all j fires
            else
              match last fires with
              | None => Ret tt
              | Some latest =>
                  let target := future in
                  let target := if IsZero target then latest else target in
                  enqueueFire j latest target
              end
        end
  end.

(** ** [scheduler.go] *)

Fixpoint schedule_all (now : Time) (all : list Job) : Prog bool :=
  match all with
  | [] => Ret true
  | j :: rest =>
      let! leader := call IsLeader in
      if negb leader then Ret false
      else if negb (j_Enabled j) then schedule_all now rest
      else let! _ := scheduleJob j now in schedule_all now rest
  end.

(** The ids of the enabled jobs. *)
Definition live_ids (all : list Job) : gset Z :=
  list_to_set (map j_ID (filter (fun j => j_Enabled j = true) all)).

Fixpoint sweep (live : gset Z) (pending : list Ticket) : Prog unit :=
  match pending with
  | [] => Ret tt
  | t :: rest =>
      let! leader := call IsLeader in
      if negb leader then Ret tt
      else if t_Manual t || bool_decide (t_JobID t ∈ live) then sweep live rest
      else let! _ := Abandon nodeID t in sweep live rest
  end.

Definition sweepOrphans (all : list Job) : Prog unit :=
  let live := live_ids all in
  let! pending := PendingTickets 256 in
  match pending with
  | Err _ => Ret tt
  | Ok pending => sweep live pending
  end.

Definition tickOnce : Prog unit :=
  let! now := call Now in
  let! all := List in
  match all with
  | Err _ => Ret tt
  | Ok all =>
      let! go_on := schedule_all now all in
      if negb go_on then Ret tt
      else
        let! leader := call IsLeader in
        if (leader : bool) then sweepOrphans all else Ret tt
  end.

(** The answer is the new [lastGC]. *)
Definition gcOnce (lastGC : Time) : Prog Time :=
  let! t := call Now in
  if time_sub t lastGC <? gcEvery then Ret lastGC
  else
    let! lastGC := call Now in
    let! now := call Now in
    let! _ := GCResults resultsRetention now in
    Ret lastGC.

(** The body of [for ctx.Err() == nil] in [Run], up to the wait. *)
Definition sched_turn (lastGC : Time) : Prog Time :=
  let! leader := call IsLeader in
  if (leader : bool) then let! _ := tickOnce in gcOnce lastGC else Ret lastGC.

(** [Run] for a number of turns, from a new [Scheduler]. *)
Fixpoint sched_turns (n : nat) (lastGC : Time) : Prog Time :=
  match n with
  | O => Ret lastGC
  | S n' => let! lastGC := sched_turn lastGC in sched_turns n' lastGC
  end.

Definition Scheduler_Run (turns : nat) : Prog unit :=
  let! _ := sched_turns turns zero_time in Ret tt.

End scheduler.
