(* ===== verification/Worker.v ===== *)
(** * The worker and the executor: [internal/worker/worker.go] and
    [internal/executor/executor.go]

    A worker polls the queue while it has free slots; a claimed ticket runs in a
    goroutine of its own, whose result finishes the claim.  The command itself
    is a request to the surroundings ([Command]). *)
From S2P Require Import Prelude GoStrings GoTime Model Etcd Queue.

Open Scope string_scope.
Open Scope list_scope.
Open Scope orbix_scope.
Open Scope Z_scope.

(** ** [executor.go] *)

Inductive Outcome := Success | Failed | TimedOut.

Record ExecResult := mkExec {
  x_Outcome : Outcome;
  x_ExitCode : Z;
  x_Stdout : string;
  x_Stderr : string;
  x_DurationMS : Z;
}.

(** [Duration.String]: hours, minutes and seconds with a fraction, or one
    smaller unit. *)
Definition nl : string := String (Ascii.ascii_of_nat 10) "".

Definition frac_suffix (digits : nat) (n : Z) : string :=
  if n =? 0 then "" else "." +:+ frac_str digits n.

Definition Duration_string (d : Duration) : string :=
  if d =? 0 then "0s" else
  let u := Z.abs d in
  let neg := if d <? 0 then "-" else "" in
  let body :=
    if u <? Second then
      if u <? 1000 then FormatInt u +:+ "ns"
      else if u <? 1000000 then
        FormatInt (u / 1000) +:+ frac_suffix 3 (u mod 1000) +:+ "µs"
      else FormatInt (u / 1000000) +:+ frac_suffix 6 (u mod 1000000) +:+ "ms"
    else
      let s := u / Second in
      let secs := FormatInt (s mod 60) +:+ frac_suffix 9 (u mod Second) +:+ "s" in
      if s / 60 =? 0 then secs
      else
        let mins := FormatInt (s / 60 mod 60) +:+ "m" +:+ secs in
        if s / 3600 =? 0 then mins else FormatInt (s / 3600) +:+ "h" +:+ mins in
  neg +:+ body.

(** [goos] is [runtime.GOOS]. *)
Definition shell (goos : string) : list string :=
  if String.eqb goos "windows" then ["cmd"; "/C"] else ["sh"; "-c"].

(** The error's exit code, or -1 for an error that carries none. *)
Definition exitCode (err : option Z) : Z := match err with Some c => c | None => -1 end.

(** The [switch] of [Run] on what came of the command. *)
Definition classify (timeout : Duration) (c : CmdOutcome) : ExecResult :=
  let ms := Z.quot (co_elapsed c) 1000000 in
  if co_deadline c then
    mkExec TimedOut (-1) (co_stdout c)
      (co_stderr c +:+ nl +:+ "[orbix] command exceeded timeout of " +:+ Duration_string timeout) ms
  else match co_err c with
       | Some err =>
           let code := exitCode err in
           mkExec Failed (if 0 <=? code then code else -1) (co_stdout c) (co_stderr c) ms
       | None => mkExec Success 0 (co_stdout c) (co_stderr c) ms
       end.

(** The effective timeout: a minute when none is asked for. *)
Definition effective_timeout (timeout : Duration) : Duration :=
  if timeout <=? 0 then 60 * Second else timeout.

Definition Executor_Run (goos command : string) (timeout : Duration) : Prog ExecResult :=
  let timeout := effective_timeout timeout in
  let! c := call (Command (shell goos ++ [command]) timeout) in
  Ret (classify timeout c).

(** ** [worker.go] *)

Definition truncate (s : string) (n : Z) : string :=
  if Z.of_nat (String.length s) <=? n then s
  else String.substring 0 (Z.to_nat n) s +:+ "…[truncated]".

Definition maxOutput : Z := 8192.

Section worker.
Context `{TJ : Json Ticket ticket_valid} `{RJ : Json Result result_valid}.
Context (goos nodeID : string).

Definition status_of (o : Outcome) : string :=
  match o with TimedOut => StatusTimeout | Success => StatusSuccess | Failed => StatusFailed end.

(** The result of a run, from [start] to [finished]. *)
Definition run_result (t : Ticket) (start finished : Time) (res : ExecResult) : Result :=
  {| r_JobID := t_JobID t; r_SchedAt := t_SchedAt t; r_Attempt := t_Attempt t;
     r_NodeID := nodeID; r_Status := status_of (x_Outcome res); r_ExitCode := x_ExitCode res;
     r_StartedAt := FormatRFC3339 start; r_FinishedAt := FormatRFC3339 finished;
     r_DurationMS := x_DurationMS res; r_Stdout := truncate (x_Stdout res) maxOutput;
     r_Stderr := truncate (x_Stderr res) maxOutput |}.

Definition execute (t : Ticket) : Prog unit :=
  let! start := call Now in
  let timeout := wrap64 (t_TimeoutSec t * Second) in
  let! res := Executor_Run goos (t_Command t) timeout in
  let! finished := call Now in
  let outcome := run_result t start finished res in
  if String.eqb (r_Status outcome) StatusSuccess then
    let! _ := FinishSuccess nodeID t outcome in Ret tt
  else
    let! now := call Now in
    let! _ := FinishFailure nodeID t outcome now in Ret tt.

(** [None] when there is nothing to run. *)
Definition claim_one : Prog (option Ticket) :=
  let! now := call Now in
  let! r := ClaimNext nodeID now in
  Ret match r with Ok (Some t) => Some t | _ => None end.

(** *** Slots

    The state of a [Worker]: its limit, the counter [slots], and the goroutines
    started and not yet done, by the ticket each one runs. *)
Record Worker := mkWorker {
  maxConc : Z;
  slots : Z;
  running : list Ticket;
}.

Definition New (maxConc : Z) : Worker :=
  mkWorker (if maxConc <? 1 then 1 else maxConc) 0 [].

(** [free <= 0]: do not even look at the queue. *)
Definition has_room (w : Worker) : bool := negb (maxConc w - slots w <=? 0).

(** [tryClaim], up to the start of the goroutine. *)
Definition tryClaim (w : Worker) : Prog Worker :=
  if negb (has_room w) then Ret w
  else
    let! claimed := claim_one in
    Ret match claimed with
        | None => w
        | Some t => mkWorker (maxConc w) (slots w + 1) (t :: running w)
        end.

Definition Busy (w : Worker) : Z := slots w.

(** The deferred function at the end of the goroutine of the [i]-th ticket. *)
Definition finish_slot (w : Worker) (i : nat) : Worker :=
  mkWorker (maxConc w) (slots w - 1) (delete i (running w)).

(** A claim and the run it starts, as one sequence of requests. *)
Definition worker_job : Prog unit :=
  let! claimed := claim_one in
  match claimed with
  | None => Ret tt
  | Some t => execute t
  end.

(** What a worker does with its state: the polling loop, and goroutines that end. *)
Inductive worker_step `{World W} : Worker * W -> Worker * W -> Prop :=
| step_poll w e w' e' : run (tryClaim w) e = (Done w', e') -> worker_step (w, e) (w', e')
| step_done w e i t : running w !! i = Some t ->
    worker_step (w, e) (finish_slot w i, (run (execute t) e).2).

End worker.
