(* ===== verification/WorkerFacts.v ===== *)
(** * What the worker promises

    Slots are never over-committed; a run's result says what became of the
    command, within bounds; and every run ends in the queue operation that fits
    its outcome. *)
From S2P Require Import Prelude GoStrings GoTime Model Etcd Queue QueueFacts Worker.

Open Scope string_scope.
Open Scope list_scope.
Open Scope orbix_scope.
Open Scope Z_scope.

Section facts.
Context `{TJ : Json Ticket ticket_valid} `{RJ : Json Result result_valid} `{WW : World W}.
Context (goos nodeID : string).
Implicit Types (w : Worker) (e : W).

(** ** Slots *)

Inductive worker_reachable (maxConc : Z) : Worker * W -> Prop :=
| worker_start e : worker_reachable maxConc (New maxConc, e)
| worker_moves c c' : worker_reachable maxConc c -> worker_step goos nodeID c c' ->
    worker_reachable maxConc c'.

Definition slots_ok (n : Z) (w : Worker) : Prop :=
  maxConc w = Z.max 1 n /\ slots w = Z.of_nat (length (running w)) /\ slots w <= maxConc w.

Lemma tryClaim_slots n w e w' e' : slots_ok n w -> run (tryClaim nodeID w) e = (Done w', e') ->
  slots_ok n w'.
Proof.
  intros (H1 & H2 & H3) H. unfold tryClaim, has_room in H. rewrite negb_involutive in H.
  destruct (maxConc w - slots w <=? 0) eqn:E; bool_prop; [by injection H as <- _|].
  rewrite run_bind in H. destruct (run (claim_one nodeID) e) as [[[t|]|] e1]; [|by injection H as <- _|done].
  injection H as <- _. unfold slots_ok. cbn [maxConc slots running length]. lia.
Qed.

(** C34: a worker never runs more tickets at once than it may, and [Busy] counts
    the runs in progress, in every order of polls and ends of runs. *)
Theorem worker_slots_bounded n w e : worker_reachable n (w, e) ->
  Busy w = Z.of_nat (length (running w)) /\ 0 <= Busy w <= Z.max 1 n /\ maxConc w = Z.max 1 n.
Proof.
  intros H. assert (slots_ok n w) as (H1 & H2 & H3); [|unfold Busy; lia].
  change w with (w, e).1. induction H as [e0|c c' _ IH Hs].
  - unfold New, slots_ok. cbn. case_match; bool_prop; lia.
  - destruct Hs as [w0 e0 w' e' Hp|w0 e0 i t Hi]; cbn [fst] in *; [by eapply tryClaim_slots|].
    destruct IH as (H1 & H2 & H3). unfold slots_ok, finish_slot. cbn [maxConc slots running].
    apply lookup_lt_Some in Hi as Hlt. rewrite length_delete by eauto. lia.
Qed.

(** ** Results *)

Lemma substring_length n s : (n <= String.length s)%nat ->
  String.length (String.substring 0 n s) = n.
Proof.
  revert s. induction n as [|n IH]; intros [|c s] Hn; simpl in *; try lia.
  rewrite IH; lia.
Qed.

Lemma substring_prefix n s : HasPrefix s (String.substring 0 n s) = true.
Proof.
  revert s. induction n as [|n IH]; intros [|c s]; simpl; try done.
  unfold HasPrefix in *. simpl. destruct (Ascii.ascii_dec c c); [apply IH|done].
Qed.

(** Output is kept whole up to the limit; longer output keeps exactly its
    first bytes, with a mark. *)
Theorem truncate_spec s n : 0 <= n ->
  (Z.of_nat (String.length s) <= n -> truncate s n = s) /\
  (n < Z.of_nat (String.length s) -> exists p, truncate s n = p +:+ "…[truncated]" /\
     Z.of_nat (String.length p) = n /\ HasPrefix s p = true).
Proof.
  intros Hn. unfold truncate. split; intros Hl.
  - by replace (Z.of_nat (String.length s) <=? n) with true by lia.
  - replace (Z.of_nat (String.length s) <=? n) with false by lia.
    exists (String.substring 0 (Z.to_nat n) s). split; [done|].
    rewrite substring_length by lia. split; [lia|apply substring_prefix].
Qed.

(** The timeout of an accepted job reaches the command exactly, 60 seconds
    when it is 0, and never overflows; the exit code is -1 for a timeout and for
    an error without a code, 0 for a success, the command's own otherwise. *)
Theorem executor_contract sec c :
  0 <= sec <= 86400 ->
  let timeout := effective_timeout (wrap64 (sec * Second)) in
  let x := classify timeout c in
  timeout = (if sec =? 0 then 60 * Second else sec * Second) /\
  (x_Outcome x = TimedOut <-> co_deadline c = true) /\
  (x_Outcome x = Success <-> co_deadline c = false /\ co_err c = None) /\
  (x_Outcome x = TimedOut -> x_ExitCode x = -1) /\
  (x_Outcome x = Success -> x_ExitCode x = 0) /\
  (forall code, x_Outcome x = Failed -> co_err c = Some (Some code) ->
     x_ExitCode x = Z.max (-1) code) /\
  (x_Outcome x = Failed -> co_err c = Some None -> x_ExitCode x = -1) /\
  HasPrefix (x_Stderr x) (co_stderr c) = true.
Proof.
  intros Hsec. cbv zeta.
  assert (wrap64 (sec * Second) = sec * Second) as -> by (apply wrap64_id; unfold Second; lia).
  assert (forall s, HasPrefix s s = true) as Hself
    by (intros s; rewrite <- (string_app_nil_r s) at 1; apply HasPrefix_app).
  split.
  { unfold effective_timeout. destruct (Z.eqb_spec sec 0) as [->|?]; [done|].
    by replace (sec * Second <=? 0) with false by (unfold Second; lia). }
  unfold classify. destruct (co_deadline c) eqn:Ed.
  - cbn. split_and!; try done; [by split; [|intros [? _]]|apply HasPrefix_app].
  - destruct (co_err c) as [[code|]|] eqn:Ee; cbn; split_and!; try done; try (by split; [|intros [_ ?]]);
      try apply Hself.
    intros code' _ [= <-]. destruct (0 <=? code) eqn:E; bool_prop; lia.
Qed.

(** ** A run and its end *)

(** What an answer of the operating system to a command means, whatever the
    executor makes of it. *)
Definition command_succeeded (c : CmdOutcome) : bool :=
  negb (co_deadline c) && bool_decide (co_err c = None).

Definition command_status (c : CmdOutcome) : string :=
  if co_deadline c then StatusTimeout
  else if command_succeeded c then StatusSuccess else StatusFailed.

Definition command_exit (c : CmdOutcome) : Z :=
  if co_deadline c then -1
  else match co_err c with None => 0 | Some None => -1 | Some (Some code) => Z.max (-1) code end.

(** The time a ticket gives its command: a minute when it gives none. *)
Definition command_timeout (t : Ticket) : Duration :=
  let d := wrap64 (t_TimeoutSec t * Second) in if d <=? 0 then 60 * Second else d.

(** The result [res] tells of the run of [t] whose command was answered [c]. *)
Definition tells (t : Ticket) (start ended : Time) (c : CmdOutcome) (res : Result) : Prop :=
  r_JobID res = t_JobID t /\ r_SchedAt res = t_SchedAt t /\ r_Attempt res = t_Attempt t /\
  r_NodeID res = nodeID /\ r_Status res = command_status c /\ r_ExitCode res = command_exit c /\
  r_StartedAt res = FormatRFC3339 start /\ r_FinishedAt res = FormatRFC3339 ended /\
  r_DurationMS res = Z.quot (co_elapsed c) 1000000 /\
  r_Stdout res = truncate (co_stdout c) maxOutput /\
  exists note, r_Stderr res = truncate (co_stderr c +:+ note) maxOutput /\
    (co_deadline c = false -> note = "").

Lemma run_result_tells t start ended timeout c :
  tells t start ended c (run_result nodeID t start ended (classify timeout c)).
Proof.
  unfold tells, command_status, command_exit, command_succeeded, classify.
  destruct (co_deadline c).
  { cbn [negb andb]. split_and!; try done. eexists. split; [reflexivity|done]. }
  destruct (co_err c) as [[code|]|]; cbn; (split_and!; [try done..|exists ""; by rewrite string_app_nil_r]).
  destruct (0 <=? code) eqn:E; bool_prop; lia.
Qed.

Lemma command_status_success c :
  String.eqb (command_status c) StatusSuccess = command_succeeded c.
Proof.
  unfold command_status, command_succeeded. destruct (co_deadline c); [done|].
  by case_bool_decide.
Qed.

(** C17: a run of a ticket asks the operating system for its command and ends in
    one finishing step, whose result tells the answer to that request: the
    ticket is closed after a success, put back with a time to wait for after a
    failure or a timeout with retries left, and closed as [failed_permanent]
    after the last attempt; a node that lost the claim only publishes. *)
Theorem execute_finishes t e :
  let '(start, w1) := handle Now e in
  let '(c, w2) := handle (Command (shell goos ++ [t_Command t]) (command_timeout t)) w1 in
  let '(ended, w3) := handle Now w2 in
  exists res, tells t start ended c res /\
  if command_succeeded c then
    let '(o, w') := run (FinishSuccess nodeID t res) w3 in
    run (execute goos nodeID t) e = (Done tt, w') /\
    finish_post nodeID None t (marshal res) (store_of e) o (store_of w')
  else
    let '(now, w4) := handle Now w3 in
    let '(o, w') := run (FinishFailure nodeID t res now) w4 in
    run (execute goos nodeID t) e = (Done tt, w') /\
    finish_post nodeID
      (if t_MaxRetries t <? t_Attempt t then None else Some (marshal (retry_ticket t now))) t
      (marshal (r_set_Status res
         (if t_MaxRetries t <? t_Attempt t then StatusFailedPermanent else command_status c)))
      (store_of e) o (store_of w').
Proof.
  unfold execute, Executor_Run. cbn [prog_bind call run].
  run_step start w1 H1. simpl in H1. rewrite <- H1. clear H1.
  change (effective_timeout (wrap64 (t_TimeoutSec t * Second))) with (command_timeout t).
  run_step c w2 H2. simpl in H2. rewrite <- H2. clear H2.
  run_step ended w3 H3. simpl in H3. rewrite <- H3. clear H3.
  pose proof (run_result_tells t start ended (command_timeout t) c) as Htell.
  set (res := run_result _ _ _ _ _) in *. exists res. split; [exact Htell|].
  destruct Htell as (_ & _ & _ & _ & Hst & _). rewrite Hst, command_status_success.
  destruct (command_succeeded c) eqn:Es.
  - pose proof (FinishSuccess_run nodeID t res w3) as Hf. rewrite run_bind.
    destruct (run (FinishSuccess nodeID t res) w3) as [o w4]. cbn [fst snd] in Hf.
    split; [|exact Hf]. destruct o as [r|]; [done|by destruct Hf].
  - cbn [prog_bind call run]. run_step now w4 H4. simpl in H4. rewrite <- H4. clear H4.
    pose proof (FinishFailure_run nodeID t res now w4) as Hf. rewrite run_bind.
    destruct (run (FinishFailure nodeID t res now) w4) as [o w5]. cbn [fst snd] in Hf.
    split; [destruct o as [r|]; [done|by destruct Hf]|].
    unfold failure_status in Hf. rewrite Hst in Hf.
    replace (String.eqb (command_status c) "") with false in Hf; [exact Hf|].
    unfold command_status. by destruct (co_deadline c), (command_succeeded c).
Qed.
End facts.
