(* ===== verification/Api.v ===== *)
(** * The HTTP handlers for jobs: [internal/api/api.go] and the cron preview of
    [internal/api/extra.go]

    A handler is a program that answers a status code and a body.  Decoding the
    request (the JSON body, the query) is done by [encoding/json] and
    [net/http]: its result is the argument of the handler. *)
From S2P Require Import Prelude GoStrings GoTime Cron Model Etcd Queue Jobs.
From Stdlib Require Import Ascii.

Open Scope string_scope.
Open Scope list_scope.
Open Scope orbix_scope.
Open Scope Z_scope.

Inductive ApiErr :=
| BadPathID
| BadBody
| JobError (e : JobErr)
| QueueError (msg : string)
| CronError (e : CronErr)
| BadQuery (msg : string).

Inductive Body :=
| NoBody
| ErrBody (e : ApiErr)
| JobBody (j : Job)
| JobsBody (l : list Job)
| QueuedBody (job : string)
| SnapshotBody (pending : list Ticket) (in_flight : list Claim)
| PreviewBody (expr tz : string) (fires : list string).

Definition Response : Type := Z * Body.

Definition StatusOK := 200.
Definition StatusCreated := 201.
Definition StatusAccepted := 202.
Definition StatusNoContent := 204.
Definition StatusBadRequest := 400.
Definition StatusNotFound := 404.
Definition StatusInternalServerError := 500.

(** [?limit=]: a number from 1 to 500, 50 when it is missing or unreadable. *)
Definition limitOf (v : string) : Z :=
  if String.eqb v "" then 50
  else match Atoi v with
       | None => 50
       | Some n => if n <? 1 then 50 else if 500 <? n then 500 else n
       end.

Definition j_set_NextFire (j : Job) (s : string) : Job :=
  mkJob (j_ID j) (j_Name j) (j_Cron j) (j_Timezone j) (j_Command j) (j_TimeoutSec j)
    (j_MaxRetries j) (j_CatchUp j) (j_NoOverlap j) (j_Enabled j) s (j_CreatedAt j) (j_UpdatedAt j).

Section api.
Context `{TJ : Json Ticket ticket_valid} `{RJ : Json Result result_valid}
  `{JJ : Json Job job_valid}.
Context (loadLocation : string -> option Location).

Definition enrich_one (now : Time) (j : Job) : Job :=
  if negb (j_Enabled j) then j
  else match NextAfter loadLocation (j_Cron j) (j_Timezone j) now with
       | Ok t => j_set_NextFire j (FormatRFC3339 t)
       | Err _ => j
       end.

Definition enrichNextFire (l : list Job) : Prog (list Job) :=
  let! now := call Now in Ret (map (enrich_one now) l).

Definition listJobs : Prog Response :=
  let! r := List in
  match r with
  | Err err => Ret (StatusInternalServerError, ErrBody (JobError err))
  | Ok l => let! l := enrichNextFire l in Ret (StatusOK, JobsBody l)
  end.

(** [body] is the decoded job, [None] when the body does not decode. *)
Definition createJob (body : option Job) : Prog Response :=
  match body with
  | None => Ret (StatusBadRequest, ErrBody BadBody)
  | Some j =>
      let! r := Create loadLocation j in
      Ret match r with
          | Err err => (StatusBadRequest, ErrBody (JobError err))
          | Ok j => (StatusCreated, JobBody j)
          end
  end.

(** [pathID], and the answer when it fails. *)
Definition with_id (path : string) (f : Z -> Prog Response) : Prog Response :=
  match ParseInt path with
  | None => Ret (StatusBadRequest, ErrBody BadPathID)
  | Some id => f id
  end.

Definition getJob (path : string) : Prog Response :=
  with_id path (fun id =>
    let! r := Get id in
    Ret match r with
        | Err err => (StatusNotFound, ErrBody (JobError err))
        | Ok j => (StatusOK, JobBody j)
        end).

Definition updateJob (path : string) (body : option Job) : Prog Response :=
  with_id path (fun id =>
    match body with
    | None => Ret (StatusBadRequest, ErrBody BadBody)
    | Some j =>
        let! r := Update loadLocation id j in
        Ret match r with
            | Err err => (StatusBadRequest, ErrBody (JobError err))
            | Ok j => (StatusOK, JobBody j)
            end
    end).

Definition deleteJob (path : string) : Prog Response :=
  with_id path (fun id =>
    let! r := Delete id in
    Ret match r with
        | Err err => (StatusNotFound, ErrBody (JobError err))
        | Ok _ => (StatusNoContent, NoBody)
        end).

Definition enable (v : bool) (path : string) : Prog Response :=
  with_id path (fun id =>
    let! r := SetEnabled id v in
    Ret match r with
        | Err err => (StatusNotFound, ErrBody (JobError err))
        | Ok j => (StatusOK, JobBody j)
        end).

Definition trigger (path : string) : Prog Response :=
  with_id path (fun id =>
    let! r := Get id in
    match r with
    | Err err => Ret (StatusNotFound, ErrBody (JobError err))
    | Ok j =>
        let! r := Trigger j in
        Ret match r with
            | Err msg => (StatusInternalServerError, ErrBody (QueueError msg))
            | Ok _ => (StatusAccepted, QueuedBody (j_Name j))
            end
    end).

Definition queueSnapshot : Prog Response :=
  let! pending := PendingTickets 50 in
  match pending with
  | Err e => Ret (StatusInternalServerError, ErrBody (QueueError e))
  | Ok pending =>
      let! claims := Claims in
      Ret match claims with
          | Err e => (StatusInternalServerError, ErrBody (QueueError e))
          | Ok claims => (StatusOK, SnapshotBody pending claims)
          end
  end.

(** ** [cronPreview] *)

(** The [n] fires after [from], as the handler prints them. *)
Fixpoint preview_fires (n : nat) (expr tz : string) (from : Time)
    : result CronErr (list string) :=
  match n with
  | O => Ok []
  | S n' =>
      nxt ← NextAfter loadLocation expr tz from;
      rest ← preview_fires n' expr tz nxt;
      Ok (FormatRFC3339 nxt :: rest)
  end.

(** [scan] is [fmt.Sscanf(raw, "%d", &v)]. *)
Definition cronPreview (scan : string -> option Z) (qexpr qtz qn qfrom : string) : Prog Response :=
  let expr := TrimSpace qexpr in
  if String.eqb expr "" then
    Ret (StatusBadRequest, ErrBody (BadQuery "query param expr is required"))
  else
    let tz := TrimSpace qtz in
    let raw := TrimSpace qn in
    let n := if String.eqb raw "" then Some 5
             else match scan raw with
                  | Some v => if (v <? 1) || (20 <? v) then None else Some v
                  | None => None
                  end in
    match n with
    | None => Ret (StatusBadRequest, ErrBody (BadQuery "n must be 1..20"))
    | Some n =>
        let! now := call Now in
        let raw := TrimSpace qfrom in
        let from := if String.eqb raw "" then Some now else ParseRFC3339 raw in
        Ret match from with
            | None => (StatusBadRequest, ErrBody (BadQuery "from must be RFC3339"))
            | Some from =>
                match preview_fires (Z.to_nat n) expr tz from with
                | Err err => (StatusBadRequest, ErrBody (CronError err))
                | Ok fires => (StatusOK, PreviewBody expr tz fires)
                end
            end
    end.

End api.
