(* ===== verification/Server.v ===== *)
(** * The API server: the rest of [internal/api]

    [Api] has the handlers for jobs; here are the status, the history, the nodes,
    health and metrics, and what is around the handlers: the routing table of
    [Handler] and the counters of [instrument].

    A handler is a program that answers a status code and a body.  It asks its
    own node, etcd, SQLite and Docker; these requests and the server's own state
    (two counters, the worker's slots, the callback of a leave) are [SEv].
    [net/http] splits the path and decodes query and body: they are the fields of
    [Request].  The JSON text of a body is left to [encoding/json]. *)
From S2P Require Import Prelude GoStrings GoTime Cron Model Config Etcd Effects Queue.
From S2P Require Import History Docker Cluster Jobs Api.
From Stdlib Require Import Ascii.

Open Scope string_scope.
Open Scope list_scope.
Open Scope orbix_scope.
Open Scope Z_scope.

Inductive SEv : Type -> Type :=
| SNode {X} (e : NEv X) : SEv X
| SSql {X} (e : DbEv X) : SEv X
| SDocker {X} (e : DkEv X) : SEv X
| SBusy : SEv Z
| AddTotal : SEv unit
| AddFail : SEv unit
| LoadTotal : SEv Z
| LoadFail : SEv Z
| SRange (keys : gset string) : SEv (list string)
| SLeave : SEv unit.

Abbreviation SProg := (ProgE SEv).

(** What the handlers call: etcd's client, the store, the Docker client. *)
Definition on_etcd {A} (p : Prog A) : SProg A := embed (fun X e => SNode (NEtcd e)) p.
Definition on_store {A} (p : ProgE DbEv A) : SProg A := embed (@SSql) p.
Definition on_docker {A} (p : DkProg A) : SProg A := embed (@SDocker) p.

Record NodeView := mkView {
  v_NodeID : string;
  v_Addr : string;
  v_JoinedAt : string;
  v_Leader : bool;
  v_Member : bool;
  v_State : string;
  v_HostPort : string;
  v_Manageable : bool;
}.

Inductive SErr :=
| DockerError (e : DockerErr)
| StoreError (msg : string)
| PathError
| Message (msg : string).

Inductive SBody :=
| JobsApi (b : Body)
| SErrBody (e : SErr)
| StatusBody (node_id : string) (is_leader : bool) (leader : LeaderInfo) (members : list Member)
    (pending : Z) (in_flight : list Claim) (busy_local : Z) (run_counts : gmap string Z)
    (version server_time : string)
| RunsBody (runs : list Run)
| NodesBody (nodes : list NodeView) (docker : bool) (self : string)
| AddedBody (node_id container host_port : string)
| KilledBody (killed : string)
| LeavingBody (leaving : string)
| StartedBody (started : string)
| HealthBody (node : string)
| ReadyBody (ready : bool) (node etcd sqlite : string)
| MetricsText (text : string)
| MuxError.

Definition SResponse : Type := Z * SBody.

Definition StatusMethodNotAllowed := 405.
Definition StatusNotImplemented := 501.
Definition StatusServiceUnavailable := 503.

Definition writeErr (code : Z) (e : SErr) : SResponse := (code, SErrBody e).

(** ** Names of nodes: [nodeIDRe] is [^[a-z0-9][a-z0-9-]{0,31}$] *)

Definition id_char (c : ascii) : bool :=
  let n := Z.of_nat (nat_of_ascii c) in ((97 <=? n) && (n <=? 122)) || ((48 <=? n) && (n <=? 57)).

Definition nodeIDRe (s : string) : bool :=
  match s with
  | EmptyString => false
  | String c r => id_char c && str_forall (fun c => id_char c || Ascii.eqb c "-") r &&
                  (String.length r <=? 31)%nat
  end.

(** [consider], for the greatest number so far. *)
Definition consider (mx : Z) (id : string) : Z :=
  if HasPrefix id "node" then
    match Atoi (TrimPrefix id "node") with
    | Some n => if mx <? n then n else mx
    | None => mx
    end
  else mx.

(** The name after all of these. *)
Definition next_id (ids : list string) : string :=
  "node" +:+ FormatInt (wrap64 (foldl consider 0 ids + 1)).

(** ** The list of nodes *)

Definition member_view (lead : LeaderInfo) (m : Member) : NodeView := {|
  v_NodeID := m_NodeID m; v_Addr := m_Addr m; v_JoinedAt := m_JoinedAt m;
  v_Leader := negb (String.eqb (l_NodeID lead) "") && String.eqb (m_NodeID m) (l_NodeID lead);
  v_Member := true; v_State := ""; v_HostPort := ""; v_Manageable := false |}.

Definition member_views (lead : LeaderInfo) (members : list Member) : gmap string NodeView :=
  foldl (fun byID m => <[m_NodeID m := member_view lead m]> byID) ∅ members.

Definition new_view (id : string) : NodeView := mkView id "" "" false false "" "" false.

(** A container brings the view of its node up to date. *)
Definition add_container (byID : gmap string NodeView) (dc : NodeContainer) : gmap string NodeView :=
  let v := default (new_view (d_NodeID dc)) (byID !! d_NodeID dc) in
  <[d_NodeID dc := mkView (v_NodeID v) (v_Addr v) (v_JoinedAt v) (v_Leader v) (v_Member v)
                     (d_State dc) (d_HostPort dc) true]> byID.

Definition finish_view (v : NodeView) : NodeView :=
  mkView (v_NodeID v) (v_Addr v) (v_JoinedAt v) (v_Leader v) (v_Member v)
    (if String.eqb (v_State v) "" then "external" else v_State v) (v_HostPort v) (v_Manageable v).

Definition view_le (a b : NodeView) : Prop := String.leb (v_NodeID a) (v_NodeID b) = true.

#[export] Instance view_le_dec a b : Decision (view_le a b).
Proof. unfold view_le. apply _. Defined.

(** The views of the iteration over [byID], sorted. *)
Definition sorted_views (byID : gmap string NodeView) (order : list string) : list NodeView :=
  merge_sort view_le (map finish_view (omap (fun k => byID !! k) order)).

(** ** Metrics *)

Definition newline : string := String (ascii_of_nat 10) "".

Definition metric (kind name help labels value : string) : string :=
  "# HELP " +:+ name +:+ " " +:+ help +:+ newline +:+
  "# TYPE " +:+ name +:+ " " +:+ kind +:+ newline +:+
  name +:+ labels +:+ " " +:+ value +:+ newline.

Definition gauge (name help labels : string) (v : Z) : string :=
  metric "gauge" name help labels (FormatInt v).
Definition counter (name help labels : string) (v : Z) : string :=
  metric "counter" name help labels (FormatInt v).

(** ** Requests and routes *)

(** A request, as [net/http] hands it over: method, path segments, query. The
    bodies are what decoding them gave. *)
Record Request := mkReq {
  q_Method : string;
  q_Path : list string;
  q_Query : string -> string;
  q_Job : option Job;
  q_NodeID : string;
}.

Inductive Route :=
| RStatus | RListJobs | RCreateJob
| RGetJob (id : string) | RUpdateJob (id : string) | RDeleteJob (id : string)
| REnable (v : bool) (id : string) | RTrigger (id : string) | RJobRuns (id : string)
| RAllRuns | RQueue | RCronPreview | RListNodes | RAddNode
| RKillNode (id : string) | RStartNode (id : string) | RLeaveNode.

Inductive Seg := Lit (s : string) | Wild.

#[export] Instance Seg_eq_dec : EqDecision Seg.
Proof. solve_decision. Defined.

(** A method, the segments of the pattern, and the handler for the value of its
    wildcard. *)
Definition Pattern : Type := string * list Seg * (string -> Route).

Definition patterns : list Pattern := [
  ("GET", [Lit "api"; Lit "status"], fun _ => RStatus);
  ("GET", [Lit "api"; Lit "jobs"], fun _ => RListJobs);
  ("POST", [Lit "api"; Lit "jobs"], fun _ => RCreateJob);
  ("GET", [Lit "api"; Lit "jobs"; Wild], RGetJob);
  ("PUT", [Lit "api"; Lit "jobs"; Wild], RUpdateJob);
  ("DELETE", [Lit "api"; Lit "jobs"; Wild], RDeleteJob);
  ("POST", [Lit "api"; Lit "jobs"; Wild; Lit "enable"], REnable true);
  ("POST", [Lit "api"; Lit "jobs"; Wild; Lit "disable"], REnable false);
  ("POST", [Lit "api"; Lit "jobs"; Wild; Lit "trigger"], RTrigger);
  ("GET", [Lit "api"; Lit "jobs"; Wild; Lit "runs"], RJobRuns);
  ("GET", [Lit "api"; Lit "runs"], fun _ => RAllRuns);
  ("GET", [Lit "api"; Lit "queue"], fun _ => RQueue);
  ("GET", [Lit "api"; Lit "cron"; Lit "preview"], fun _ => RCronPreview);
  ("GET", [Lit "api"; Lit "nodes"], fun _ => RListNodes);
  ("POST", [Lit "api"; Lit "nodes"], fun _ => RAddNode);
  ("POST", [Lit "api"; Lit "nodes"; Wild; Lit "kill"], RKillNode);
  ("POST", [Lit "api"; Lit "nodes"; Wild; Lit "start"], RStartNode);
  ("POST", [Lit "api"; Lit "nodes"; Lit "self"; Lit "leave"], fun _ => RLeaveNode)].

(** A wildcard takes one segment that is not empty; the answer is its value. *)
Fixpoint match_segs (pat : list Seg) (segs : list string) : option string :=
  match pat, segs with
  | [], [] => Some ""
  | Lit l :: pat, s :: segs => if String.eqb l s then match_segs pat segs else None
  | Wild :: pat, s :: segs =>
      if String.eqb s "" then None
      else match match_segs pat segs with Some _ => Some s | None => None end
  | _, _ => None
  end.

(** A pattern for [GET] also serves [HEAD]. *)
Definition serves (method requested : string) : bool :=
  String.eqb method requested || (String.eqb method "GET" && String.eqb requested "HEAD").

Definition match_pattern (p : Pattern) (method : string) (segs : list string) : option Route :=
  if serves p.1.1 method then option_map p.2 (match_segs p.1.2 segs) else None.

Definition route (method : string) (segs : list string) : option Route :=
  head (omap (fun p => match_pattern p method segs) patterns).

(** Whether another method would have matched. *)
Definition path_known (segs : list string) : bool :=
  existsb (fun p : Pattern => bool_decide (is_Some (match_segs p.1.2 segs))) patterns.

Section server.
Context `{TJ : Json Ticket ticket_valid} `{RJ : Json Result result_valid}
  `{JJ : Json Job job_valid} `{LJ : Json LeaderInfo leader_valid} `{MJ : Json Member member_valid}.
Context (loadLocation : string -> option Location) (scan : string -> option Z)
  (quote : string -> string).
Context (parse_message : string -> string)
  (parse_inspect : string -> result string inspect)
  (parse_ids : string -> result string (list string))
  (parse_created : string -> result string string).

(** The server: the configuration of its node, its Docker client, whether
    [onLeave] is set. *)
Context (cfg : Config) (version : string) (dock : Client) (onLeave : bool).

Definition IsLeader : SProg bool := call (SNode LoadIsLeader).
Definition Leader : SProg LeaderInfo := call (SNode LoadLeader).

Definition dock_nodes : SProg (result DockerErr (list NodeContainer)) :=
  on_docker (ListNodes parse_message parse_inspect parse_ids dock).

(** The value of a pair whose error is dropped. *)
Definition or_zero {E A} (zero : A) (r : result E A) : A :=
  match r with Ok a => a | Err _ => zero end.

(** ** [api.go] *)

Definition jobs_handler (p : Prog Response) : SProg SResponse :=
  let! r := on_etcd p in Ret (r.1, JobsApi r.2).

Definition status : SProg SResponse :=
  let! members := on_etcd Members in
  let! pending := on_etcd CountPending in
  let! claims := on_etcd Claims in
  let! counts := on_store Counts in
  let! is_leader := IsLeader in
  let! leader := Leader in
  let! busy := call SBusy in
  let! now := on_etcd now_rfc3339 in
  Ret (StatusOK, StatusBody (ID cfg) is_leader leader (or_zero [] members) (or_zero 0 pending)
                   (or_zero [] claims) busy counts.1 version now).

Definition list_runs (jobID : Z) (limit : string) : SProg SResponse :=
  let! runs := on_store (ListRuns jobID (limitOf limit)) in
  Ret match runs with
      | Err e => writeErr StatusInternalServerError (StoreError e)
      | Ok runs => (StatusOK, RunsBody runs)
      end.

Definition jobRuns (path limit : string) : SProg SResponse :=
  match ParseInt path with
  | None => Ret (writeErr StatusBadRequest PathError)
  | Some id => list_runs id limit
  end.

Definition allRuns (limit : string) : SProg SResponse := list_runs 0 limit.

(** ** [extra.go] *)

Definition Healthz : SProg SResponse := Ret (StatusOK, HealthBody (ID cfg)).

Definition Readyz : SProg SResponse :=
  let! members := on_etcd Members in
  let '(code, etcd) := match members with
                       | Err e => (StatusServiceUnavailable, "error: " +:+ e)
                       | Ok _ => (StatusOK, "ok")
                       end in
  let! counts := on_store Counts in
  let '(code, sqlite) := match counts.2 with
                         | Some e => (StatusServiceUnavailable, "error: " +:+ e)
                         | None => (code, "ok")
                         end in
  Ret (code, ReadyBody (code =? StatusOK) (ID cfg) etcd sqlite).

Definition runs_metric (counts : gmap string Z) (st : string) : string :=
  gauge "orbix_runs_total" "finished runs mirrored into local history"
    ("{node=" +:+ quote (ID cfg) +:+ ",status=" +:+ quote st +:+ "}") (default 0 (counts !! st)).

Definition PromMetrics : SProg SResponse :=
  let! members := on_etcd Members in
  let! pending := on_etcd CountPending in
  let! claims := on_etcd Claims in
  let! counts := on_store Counts in
  let! leader := IsLeader in
  let nodelbl := "{node=" +:+ quote (ID cfg) +:+ "}" in
  let! busy := call SBusy in
  let! order := call (SRange (dom counts.1)) in
  let! total := call LoadTotal in
  let! fail := call LoadFail in
  let text := String.concat "" (
    [gauge "orbix_leader" "1 when this node holds the cluster leadership" nodelbl
       (if (leader : bool) then 1 else 0);
     gauge "orbix_cluster_members" "live cluster members visible to this node" nodelbl
       (Z.of_nat (length (or_zero [] members)));
     gauge "orbix_queue_pending" "tickets waiting to be claimed" nodelbl (or_zero 0 pending);
     gauge "orbix_queue_in_flight" "tickets currently claimed by workers" nodelbl
       (Z.of_nat (length (or_zero [] claims)));
     gauge "orbix_worker_busy_local" "executions running on this node" nodelbl busy]
    ++ map (runs_metric counts.1) order ++
    [counter "orbix_api_requests_total" "API requests served by this node" nodelbl total;
     counter "orbix_api_errors_total" "API requests that returned 5xx" nodelbl fail]) in
  Ret (StatusOK, MetricsText text).

(** ** [nodes.go] *)

Definition listNodes : SProg SResponse :=
  let! members := on_etcd Members in
  let! lead := Leader in
  let byID := member_views lead (or_zero [] members) in
  let! containers := (if Available dock then dock_nodes else Ret (Err SocketUnavailable)) in
  let byID := foldl add_container byID (or_zero [] containers) in
  let! order := call (SRange (dom byID)) in
  Ret (StatusOK, NodesBody (sorted_views byID order) (is_ok containers) (ID cfg)).

(** The ids [nextNodeID] looks at: members, then containers. *)
Definition known_ids : SProg (list string) :=
  let! members := on_etcd Members in
  let ids := map m_NodeID (or_zero [] members) in
  if Available dock then
    let! containers := dock_nodes in
    Ret (ids ++ map d_NodeID (or_zero [] containers))
  else Ret ids.

Definition nextNodeID : SProg string := let! ids := known_ids in Ret (next_id ids).

(** [nodeID] is the decoded field of the body, empty when there is none. *)
Definition addNode (nodeID : string) : SProg SResponse :=
  if negb (Available dock) then
    Ret (writeErr StatusNotImplemented (Message "adding nodes needs the docker socket"))
  else
    let id := TrimSpace nodeID in
    let! id := (if String.eqb id "" then nextNodeID else Ret id) in
    if negb (nodeIDRe id) then
      Ret (writeErr StatusBadRequest (Message "node_id must match [a-z0-9-], up to 32 chars"))
    else
      let! r := on_docker (AddNode parse_message parse_inspect parse_ids parse_created dock id) in
      Ret match r with
          | Err e => writeErr StatusInternalServerError (DockerError e)
          | Ok n => (StatusCreated, AddedBody (d_NodeID n) (d_ContainerID n) (d_HostPort n))
          end.

Definition leaveNode : SProg SResponse :=
  if negb onLeave then Ret (writeErr StatusNotImplemented (Message "graceful leave is not wired"))
  else let! _ := call SLeave in Ret (StatusAccepted, LeavingBody (ID cfg)).

Definition no_id : SResponse := writeErr StatusBadRequest (Message "node id is required").

Definition killNode (id : string) : SProg SResponse :=
  if String.eqb id "" then Ret no_id
  else if Available dock then
    let! r := on_docker (KillNode parse_message parse_inspect parse_ids dock id) in
    Ret match r with
        | Err e => writeErr StatusNotFound (DockerError e)
        | Ok _ => (StatusAccepted, KilledBody id)
        end
  else if String.eqb id (ID cfg) then leaveNode
  else Ret (writeErr StatusNotImplemented (Message "killing remote nodes needs the docker socket")).

Definition startNode (id : string) : SProg SResponse :=
  if String.eqb id "" then Ret no_id
  else if negb (Available dock) then
    Ret (writeErr StatusNotImplemented (Message "starting nodes needs the docker socket"))
  else
    let! r := on_docker (StartNode parse_message parse_inspect parse_ids dock id) in
    Ret match r with
        | Err e => writeErr StatusNotFound (DockerError e)
        | Ok _ => (StatusAccepted, StartedBody id)
        end.

(** ** [Handler] *)

(** The handler of a route, on a request. *)
Definition handle_route (rt : Route) (r : Request) : SProg SResponse :=
  match rt with
  | RStatus => status
  | RListJobs => jobs_handler (listJobs loadLocation)
  | RCreateJob => jobs_handler (createJob loadLocation (q_Job r))
  | RGetJob id => jobs_handler (getJob id)
  | RUpdateJob id => jobs_handler (updateJob loadLocation id (q_Job r))
  | RDeleteJob id => jobs_handler (deleteJob id)
  | REnable v id => jobs_handler (enable v id)
  | RTrigger id => jobs_handler (trigger id)
  | RJobRuns id => jobRuns id (q_Query r "limit")
  | RAllRuns => allRuns (q_Query r "limit")
  | RQueue => jobs_handler queueSnapshot
  | RCronPreview => jobs_handler (cronPreview loadLocation scan (q_Query r "expr")
                                    (q_Query r "tz") (q_Query r "n") (q_Query r "from"))
  | RListNodes => listNodes
  | RAddNode => addNode (q_NodeID r)
  | RKillNode id => killNode id
  | RStartNode id => startNode id
  | RLeaveNode => leaveNode
  end.

(** The mux, with the answers it gives itself. *)
Definition serve (r : Request) : SProg SResponse :=
  match route (q_Method r) (q_Path r) with
  | Some rt => handle_route rt r
  | None => Ret (if path_known (q_Path r) then StatusMethodNotAllowed else StatusNotFound, MuxError)
  end.

(** The counters of [instrument]: a handler that panics is not counted as failed. *)
Definition instrument (next : Request -> SProg SResponse) (r : Request) : SProg SResponse :=
  let! _ := call AddTotal in
  let! resp := next r in
  let! _ := (if 500 <=? resp.1 then call AddFail else Ret tt) in
  Ret resp.

Definition Handler (r : Request) : SProg SResponse := instrument serve r.

End server.
