(* ===== verification/NodeViews.v ===== *)
(** * The list of nodes and the names of new ones

    [listNodes] merges members and containers in a map; [nextNodeID] counts.
    Here are the parts of both that are functions of what was read. *)
From S2P Require Import Prelude GoStrings GoTime Model Config Etcd Effects Queue History.
From S2P Require Import Docker Cluster Jobs Api Server.
From Stdlib Require Import Ascii.

Open Scope string_scope.
Open Scope list_scope.
Open Scope Z_scope.

(** ** The views *)

Section views.
Context (lead : LeaderInfo) (members : list Member) (containers : list NodeContainer).

Definition last_member (id : string) : option Member :=
  last (filter (fun m => m_NodeID m = id) members).

Definition last_container (id : string) : option NodeContainer :=
  last (filter (fun c => d_NodeID c = id) containers).

(** The view of a node: its registration, and the container that runs it. *)
Definition expected_view (id : string) : option NodeView :=
  match last_member id, last_container id with
  | None, None => None
  | m, c =>
      let leads := match m with
                   | Some m => negb (String.eqb (l_NodeID lead) "") && String.eqb id (l_NodeID lead)
                   | None => false end in
      let state := match c with Some c => d_State c | None => "" end in
      Some (mkView id (match m with Some m => m_Addr m | None => "" end)
              (match m with Some m => m_JoinedAt m | None => "" end) leads
              (match m with Some _ => true | None => false end)
              (if String.eqb state "" then "external" else state)
              (match c with Some c => d_HostPort c | None => "" end)
              (match c with Some _ => true | None => false end))
  end.

Definition merged : gmap string NodeView :=
  foldl add_container (member_views lead members) containers.
End views.

Lemma last_filter_snoc {A} (P : A -> Prop) `{forall x, Decision (P x)} l x :
  last (filter P (l ++ [x])) = if decide (P x) then Some x else last (filter P l).
Proof.
  rewrite filter_app. simpl. rewrite filter_cons, filter_nil.
  destruct (decide (P x)); [by rewrite last_snoc|by rewrite app_nil_r].
Qed.

Lemma member_views_lookup lead members id :
  member_views lead members !! id = member_view lead <$> last_member members id.
Proof.
  unfold member_views, last_member. induction members as [|m l IH] using rev_ind; [done|].
  rewrite foldl_snoc, last_filter_snoc. destruct (decide (m_NodeID m = id)) as [<-|Hne].
  - by rewrite lookup_insert_eq.
  - by rewrite lookup_insert_ne.
Qed.

Lemma merged_lookup lead members containers id :
  finish_view <$> merged lead members containers !! id = expected_view lead members containers id.
Proof.
  assert (forall id m, last_member members id = Some m -> m_NodeID m = id) as Hid.
  { intros i m Hm. apply last_Some_elem_of in Hm. by apply list_elem_of_filter in Hm as [? _]. }
  enough (merged lead members containers !! id =
    match last_container containers id with
    | None => member_views lead members !! id
    | Some dc => let v := default (new_view id) (member_views lead members !! id) in
        Some (mkView (v_NodeID v) (v_Addr v) (v_JoinedAt v) (v_Leader v) (v_Member v)
                (d_State dc) (d_HostPort dc) true)
    end) as E.
  { rewrite E, member_views_lookup. unfold expected_view.
    destruct (last_member members id) as [m|] eqn:Em; simpl;
      destruct (last_container containers id) as [dc|]; simpl; unfold finish_view; simpl; try done;
      by rewrite (Hid _ _ Em). }
  unfold merged, last_container. induction containers as [|c l IH] using rev_ind; [done|].
  rewrite foldl_snoc, last_filter_snoc. unfold add_container at 1.
  destruct (decide (d_NodeID c = id)) as [->|Hne]; [|by rewrite lookup_insert_ne, IH].
  rewrite lookup_insert_eq, IH. destruct (last _) as [dc|]; [|done]. simpl. done.
Qed.

(** ** Sorting *)

#[export] Instance view_le_total : Total view_le.
Proof. intros a b. unfold view_le. destruct (String.leb_total (v_NodeID a) (v_NodeID b)); auto. Qed.

Lemma expected_view_id lead members containers id v :
  expected_view lead members containers id = Some v -> v_NodeID v = id.
Proof. unfold expected_view. intros H. by repeat case_match; simplify_eq. Qed.

(** The views are those expected, in ascending order of their ids, each once. *)
Lemma sorted_views_spec lead members containers order :
  order ≡ₚ elements (dom (merged lead members containers)) ->
  let views := sorted_views (merged lead members containers) order in
  Sorted view_le views /\ NoDup (map v_NodeID views) /\
  forall v, v ∈ views <-> expected_view lead members containers (v_NodeID v) = Some v.
Proof.
  intros Horder. unfold sorted_views. set (m := merged lead members containers) in *.
  set (l := map finish_view (omap (fun k => m !! k) order)).
  pose proof (merge_sort_Permutation view_le l) as Hp. split_and!.
  - apply (Sorted_merge_sort view_le).
  - rewrite Hp. subst l. assert (NoDup order) as Hnd by (rewrite Horder; apply NoDup_elements).
    clear Hp Horder. induction Hnd as [|k order Hk Hnd IH]; [constructor|]. simpl.
    destruct (m !! k) as [v|] eqn:E; [|done]. simpl. constructor; [|done].
    assert (forall k v, m !! k = Some v -> v_NodeID (finish_view v) = k) as Hid.
    { intros k' v' H. apply (expected_view_id lead members containers).
      rewrite <- merged_lookup. fold m. by rewrite H. }
    change (v_NodeID v) with (v_NodeID (finish_view v)). rewrite (Hid _ _ E). intros Hin. apply Hk.
    apply list_elem_of_fmap in Hin as (v' & -> & Hin). apply list_elem_of_fmap in Hin as (v2 & -> & Hin).
    apply list_elem_of_omap in Hin as (k2 & Hk2 & E2). by rewrite (Hid _ _ E2).
  - intros v. rewrite Hp. subst l. split.
    + intros Hin. apply list_elem_of_fmap in Hin as (v2 & -> & Hin).
      apply list_elem_of_omap in Hin as (k2 & Hk2 & E2).
      pose proof (merged_lookup lead members containers k2) as H. fold m in H. rewrite E2 in H.
      simpl in H. pose proof (expected_view_id _ _ _ _ _ (eq_sym H)) as Hid. by rewrite Hid.
    + intros H. rewrite <- merged_lookup in H. fold m in H.
      destruct (m !! v_NodeID v) as [v0|] eqn:E; [|done]. injection H as H.
      apply list_elem_of_fmap. exists v0. split; [done|]. apply list_elem_of_omap.
      exists (v_NodeID v). split; [|done]. rewrite Horder. apply elem_of_elements.
      apply elem_of_dom. eauto.
Qed.

(** ** Names of new nodes *)

Lemma pretty_go_length k x s : (x < 10 ^ N.of_nat k)%N ->
  (String.length (pretty_N_go x s) <= k + String.length s)%nat.
Proof.
  revert x s. induction k as [|k IH]; intros x s Hx.
  - replace x with 0%N by (simpl in Hx; lia). by rewrite pretty_N_go_0.
  - destruct (decide (0 < x)%N) as [Hp|Hp].
    + rewrite pretty_N_go_step by done. etrans; [apply IH|simpl; lia].
      apply N.Div0.div_lt_upper_bound. rewrite Nat2N.inj_succ, N.pow_succ_r' in Hx. lia.
    + replace x with 0%N by lia. rewrite pretty_N_go_0. lia.
Qed.

Lemma FormatInt_length z : 0 <= z < 2 ^ 63 -> (String.length (FormatInt z) <= 19)%nat.
Proof.
  intros Hz. rewrite FormatInt_nonneg by lia. unfold pretty, pretty_N. case_decide; [simpl; lia|].
  etrans; [apply (pretty_go_length 19)|simpl; lia]. lia.
Qed.

Lemma consider_ge mx id : mx <= consider mx id.
Proof. unfold consider. case_all; bool_prop; lia. Qed.

Lemma foldl_consider_ge ids mx : mx <= foldl consider mx ids.
Proof.
  revert mx. induction ids as [|id ids IH]; intros mx; simpl; [lia|].
  etrans; [apply consider_ge|apply IH].
Qed.

(** The greatest number is at least that of every name. *)
Lemma consider_bounds ids mx n : "node" +:+ FormatInt n ∈ ids -> in_int64 n = true ->
  n <= foldl consider mx ids.
Proof.
  revert mx. induction ids as [|id ids IH]; intros mx Hin Hn; [by apply not_elem_of_nil in Hin|].
  simpl. apply elem_of_cons in Hin as [<-|Hin]; [|by apply IH].
  etrans; [|apply foldl_consider_ge]. unfold consider.
  rewrite HasPrefix_app, TrimPrefix_app. unfold Atoi. rewrite (ParseInt_FormatInt n Hn).
  destruct (mx <? n) eqn:E; bool_prop; lia.
Qed.

Lemma id_char_digit c : is_digit c = true -> id_char c = true.
Proof. intros H. revert H. by destruct c as [[] [] [] [] [] [] [] []]; vm_compute. Qed.

(** C37: The name proposed for a new node is none of the names read, and is
    one that [addNode] accepts, as long as no node carries the greatest 64-bit
    number. *)
Theorem next_id_fresh ids : foldl consider 0 ids < 2 ^ 63 - 1 ->
  (next_id ids ∉ ids) /\ nodeIDRe (next_id ids) = true.
Proof.
  intros Hmax. pose proof (foldl_consider_ge ids 0) as H0. unfold next_id.
  rewrite wrap64_id by lia. set (n := foldl consider 0 ids + 1). split.
  - intros Hin. apply (consider_bounds _ 0) in Hin; [subst n; lia|]. apply in_int64_spec. subst n. lia.
  - assert (0 <= n < 2 ^ 63) as Hn by (subst n; lia). simpl.
    apply andb_true_iff. split.
    + apply (FormatInt_chars n); [|done]. intros c Hc. apply id_char_digit in Hc. by rewrite Hc.
    + apply Nat.leb_le. pose proof (FormatInt_length n Hn). lia.
Qed.
