(* ===== verification/ServerFacts.v ===== *)
(** * What the API server answers

    The world of these theorems is what a request may change: the server's two
    counters, the calls of [onLeave] and what was posted to Docker.  What etcd
    and SQLite answer while the request runs are arguments. *)
From S2P Require Import Prelude GoStrings GoTime Cron Model Config Etcd Effects Queue.
From S2P Require Import History Docker DockerFacts Cluster Jobs Api Server NodeViews.
From Stdlib Require Import Ascii.

Open Scope string_scope.
Open Scope list_scope.
Open Scope orbix_scope.
Open Scope Z_scope.

(** ** Routing *)

Definition seg_overlap (a b : Seg) : bool :=
  match a, b with Lit x, Lit y => String.eqb x y | _, _ => true end.

Fixpoint segs_overlap (p q : list Seg) : bool :=
  match p, q with
  | [], [] => true
  | a :: p, b :: q => seg_overlap a b && segs_overlap p q
  | _, _ => false
  end.

(** Two patterns some request could match both. *)
Definition overlap (p q : Pattern) : bool := String.eqb p.1.1 q.1.1 && segs_overlap p.1.2 q.1.2.

Lemma match_segs_overlap p q segs u v :
  match_segs p segs = Some u -> match_segs q segs = Some v -> segs_overlap p q = true.
Proof.
  revert q segs u v. induction p as [|a p IH]; intros q segs u v Hp Hq.
  { destruct segs; [|done]. destruct q as [|[]]; done. }
  destruct segs as [|s segs]; [by destruct a|]. destruct q as [|b q]; [done|].
  simpl. apply andb_true_iff.
  assert (exists u, match_segs p segs = Some u) as [u' Hp'].
  { destruct a; simpl in Hp; case_match; try done; [eauto|]. case_match; naive_solver. }
  assert (exists v, match_segs q segs = Some v) as [v' Hq'].
  { destruct b; simpl in Hq; case_match; try done; [eauto|]. case_match; naive_solver. }
  split; [|by eapply IH]. destruct a as [x|], b as [y|]; [|done..]. simpl in *.
  destruct (String.eqb_spec x s); [|done]. destruct (String.eqb_spec y s); [|done].
  subst. apply String.eqb_refl.
Qed.

(** No pattern of the table serves a method that another one's serves too,
    unless they are the same method. *)
Lemma table_apart :
  forallb (fun i => forallb (fun j => (i =? j)%nat ||
     match patterns !! i, patterns !! j with
     | Some p, Some q => negb (overlap p q)
     | _, _ => true
     end) (seq 0 18)) (seq 0 18) = true /\
  forallb (fun p : Pattern => negb (String.eqb p.1.1 "HEAD")) patterns = true.
Proof. split; vm_compute; reflexivity. Qed.

Lemma serves_same p q m : p ∈ patterns -> q ∈ patterns ->
  serves p.1.1 m = true -> serves q.1.1 m = true -> p.1.1 = q.1.1.
Proof.
  destruct table_apart as [_ Hh]. rewrite forallb_forall in Hh.
  intros Hp%list_elem_of_In Hq%list_elem_of_In. apply Hh in Hp, Hq. bool_prop.
  apply String.eqb_neq in Hp, Hq. unfold serves.
  rewrite !orb_true_iff, !andb_true_iff, !String.eqb_eq. naive_solver congruence.
Qed.

Lemma patterns_apart i j p q m segs u v :
  patterns !! i = Some p -> patterns !! j = Some q ->
  match_pattern p m segs = Some u -> match_pattern q m segs = Some v -> i = j.
Proof.
  intros Hi Hj Hp Hq. destruct (decide (i = j)) as [|Hij]; [done|]. exfalso.
  destruct table_apart as [Ht _]. rewrite forallb_forall in Ht.
  pose proof (lookup_lt_Some _ _ _ Hi) as Li. pose proof (lookup_lt_Some _ _ _ Hj) as Lj.
  change (length patterns) with 18%nat in Li, Lj.
  specialize (Ht i). rewrite in_seq, forallb_forall in Ht. specialize (Ht ltac:(lia) j).
  rewrite in_seq in Ht. specialize (Ht ltac:(lia)). rewrite Hi, Hj in Ht.
  apply Nat.eqb_neq in Hij. rewrite Hij in Ht. simpl in Ht. bool_prop.
  unfold match_pattern in Hp, Hq.
  destruct (serves p.1.1 m) eqn:Sp; [|done]. destruct (serves q.1.1 m) eqn:Sq; [|done].
  destruct (match_segs p.1.2 segs) eqn:Mp; [|done]. destruct (match_segs q.1.2 segs) eqn:Mq; [|done].
  unfold overlap in Ht. rewrite (match_segs_overlap _ _ _ _ _ Mp Mq), andb_true_r in Ht.
  apply String.eqb_neq in Ht. apply Ht.
  eapply serves_same; eauto using list_elem_of_lookup_2.
Qed.

(** C28: A request has one handler: whichever pattern of the table matches it,
    in whatever order they were registered, is the one that serves it; and the
    value of a wildcard is a segment that is not empty. *)
Theorem route_unambiguous p m segs rt :
  p ∈ patterns -> match_pattern p m segs = Some rt ->
  route m segs = Some rt /\ (exists v, rt = p.2 v /\ (Wild ∈ p.1.2 -> v <> "" /\ v ∈ segs)).
Proof.
  intros Hp Hm. split.
  - unfold route. apply list_elem_of_lookup in Hp as [i Hi].
    assert (forall l k, (forall j q u, l !! j = Some q -> match_pattern q m segs = Some u ->
       (k + j)%nat = i) -> l !! (i - k)%nat = Some p -> (k <= i)%nat ->
       head (omap (fun p => match_pattern p m segs) l) = Some rt) as H.
    { induction l as [|q l IH]; intros k Hu Hl Hk; [done|]. simpl.
      destruct (match_pattern q m segs) as [u|] eqn:Eq.
      - specialize (Hu O q u eq_refl Eq). replace (i - k)%nat with O in Hl by lia.
        simpl in Hl. simplify_eq. done.
      - destruct (i - k)%nat as [|d] eqn:Ed; [simpl in Hl; congruence|].
        apply (IH (S k)); [|by replace (i - S k)%nat with d by lia|lia].
        intros j q' u Hj Hu'. specialize (Hu (S j) q' u Hj Hu'). lia. }
    apply (H patterns O); [|by rewrite Nat.sub_0_r|lia].
    intros j q u Hj Hu. symmetry. eapply patterns_apart; eauto.
  - unfold match_pattern in Hm. destruct (serves _ _); [|done].
    destruct (match_segs p.1.2 segs) as [v|] eqn:E; [|done]. injection Hm as <-.
    exists v. split; [done|]. clear Hp. revert segs v E.
    induction p.1.2 as [|[l|] pat IH]; intros [|s segs] v E Hw; simpl in E; try done.
    + by apply not_elem_of_nil in Hw.
    + destruct (String.eqb l s); [|done]. apply elem_of_cons in Hw as [|Hw]; [done|].
      destruct (IH _ _ E Hw). split; [done|by right].
    + destruct (String.eqb_spec s ""); [done|]. destruct (match_segs pat segs); [|done].
      injection E as <-. split; [done|by left].
Qed.

(** ** The world of a request *)

Record SWorld := mkSWorld { s_total : Z; s_fail : Z; s_left : Z; s_posts : list Post }.

Definition s_set_posts (w : SWorld) (posts : list Post) : SWorld :=
  mkSWorld (s_total w) (s_fail w) (s_left w) posts.

Section server_facts.
Context `{TJ : Json Ticket ticket_valid} `{RJ : Json Result result_valid}
  `{JJ : Json Job job_valid} `{LJ : Json LeaderInfo leader_valid} `{MJ : Json Member member_valid}.
Context (loadLocation : string -> option Location) (scan : string -> option Z).
Context (parse_message : string -> string)
  (parse_inspect : string -> result string inspect)
  (parse_ids : string -> result string (list string))
  (parse_created : string -> result string string).
Context (cfg : Config) (version : string) (dock : Client) (onLeave : bool).

(** What the node knows of the leader, and the answers of etcd, SQLite and
    Docker's reads. *)
Context (leading : bool) (lead : LeaderInfo)
  (etcd : forall X, Ev X -> X -> Prop) (db : forall X, DbEv X -> X -> Prop)
  (get : string -> result string HttpResp).

Definition node_says {X} (e : NEv X) : X -> Prop :=
  match e in NEv X return X -> Prop with
  | NEtcd e => etcd _ e
  | LoadIsLeader => fun b => b = leading
  | LoadLeader => fun i => i = lead
  | _ => fun _ => True
  end.

Definition srv_ok {X} (e : SEv X) (w : SWorld) : X -> SWorld -> Prop :=
  match e in SEv X return X -> SWorld -> Prop with
  | SNode e => fun x w' => node_says e x /\ w' = w
  | SSql e => fun x w' => db _ e x /\ w' = w
  | SDocker e => fun x w' => exists posts, dk_ok get e (s_posts w) x posts /\ w' = s_set_posts w posts
  | SBusy => fun _ w' => w' = w
  | AddTotal => fun _ w' => w' = mkSWorld (s_total w + 1) (s_fail w) (s_left w) (s_posts w)
  | AddFail => fun _ w' => w' = mkSWorld (s_total w) (s_fail w + 1) (s_left w) (s_posts w)
  | LoadTotal => fun n w' => n = s_total w /\ w' = w
  | LoadFail => fun n w' => n = s_fail w /\ w' = w
  | SRange keys => fun order w' => order ≡ₚ elements keys /\ w' = w
  | SLeave => fun _ w' => w' = mkSWorld (s_total w) (s_fail w) (s_left w + 1) (s_posts w)
  end.

Abbreviation exec := (execE (@srv_ok) eq).
Abbreviation wp := (wpE (@srv_ok) eq (fun _ _ => True)).

(** ** Calls into the parts *)

Lemma on_docker_wp {A} (p : DkProg A) (Q : outcome A -> SWorld -> Prop) w :
  wpE (@dk_ok get) eq (fun _ _ => True) p (fun o posts => Q o (s_set_posts w posts)) (s_posts w) ->
  wp (on_docker p) Q w.
Proof.
  unfold on_docker. enough (forall posts,
    wpE (@dk_ok get) eq (fun _ _ => True) p (fun o posts => Q o (s_set_posts w posts)) posts ->
    wp (embed (@SDocker) p) Q (s_set_posts w posts)) as H.
  { intros Hp. apply H in Hp. by destruct w. }
  induction p as [a| |X e k IH]; simpl; intros posts Hp; [done..|].
  intros w1 x w2 <- (posts2 & Hok & ->). split; [done|].
  apply IH. by eapply (Hp _ _ _ eq_refl Hok).
Qed.

Lemma on_docker_exec {A} (p : DkProg A) w o w' :
  exec (on_docker p) w o w' ->
  exists posts, execE (@dk_ok get) eq p (s_posts w) o posts /\ w' = s_set_posts w posts.
Proof.
  unfold on_docker. enough (forall posts, exec (embed (@SDocker) p) (s_set_posts w posts) o w' ->
    exists posts', execE (@dk_ok get) eq p posts o posts' /\ w' = s_set_posts w posts') as H.
  { intros Hp. apply H. by destruct w. }
  induction p as [a| |X e k IH]; simpl; intros posts.
  - intros [-> ->]. by eexists.
  - intros [-> ->]. by eexists.
  - intros (w1 & x & w2 & <- & (posts2 & Hok & ->) & H).
    destruct (IH x posts2 H) as (posts' & Hx & ->). eexists. split; [|done].
    by exists posts, x, posts2.
Qed.

Lemma on_store_call {X A} (e : DbEv X) (f : X -> A) Q w :
  (forall x, db _ e x -> Q (Done (f x)) w) ->
  wp (on_store (let! x := call e in Ret (f x))) Q w.
Proof. intros H. simpl. intros w1 x w2 <- [Hx ->]. auto. Qed.

Lemma on_etcd_call {X A} (e : Ev X) (f : X -> A) Q w :
  (forall x, etcd _ e x -> Q (Done (f x)) w) ->
  wp (on_etcd (let! x := call e in Ret (f x))) Q w.
Proof. intros H. simpl. intros w1 x w2 <- [Hx ->]. auto. Qed.

(** ** The counters of [instrument] *)

Definition uncounted {X} (e : SEv X) : bool :=
  match e with AddTotal | AddFail => false | _ => true end.

Abbreviation handler := (Handler loadLocation scan parse_message parse_inspect parse_ids
  parse_created cfg version dock onLeave).
Abbreviation server := (serve loadLocation scan parse_message parse_inspect parse_ids
  parse_created cfg version dock onLeave).

Lemma serve_uncounted r : calls_only (@uncounted) (server r).
Proof.
  unfold serve. destruct (route _ _) as [rt|]; [|exact I].
  destruct rt; cbn [handle_route];
    unfold jobs_handler, status, listNodes, IsLeader, Leader, jobRuns, allRuns, list_runs,
      addNode, nextNodeID, known_ids, dock_nodes, killNode, startNode, leaveNode, no_id, on_etcd, on_store,
      on_docker; calls_only.
Qed.

Lemma serve_counters r w o w' : exec (server r) w o w' ->
  s_total w' = s_total w /\ s_fail w' = s_fail w.
Proof.
  intros H.
  refine (calls_only_exec (@uncounted) (@srv_ok)
    (fun w w' => s_total w' = s_total w /\ s_fail w' = s_fail w) _ w o w' _ _ _ (serve_uncounted r) H).
  - done.
  - intros w1 w2 w3 [] []. split; congruence.
  - intros X e w1 x w2 He Hok. destruct e; try done; simpl in Hok; naive_solver.
Qed.

(** C29: A request is counted once, whatever becomes of it, and as failed
    exactly when it is answered with a status of 500 or more; a handler that
    panics has no answer and is not counted as failed. *)
Theorem Handler_counts r w o w' :
  exec (handler r) w o w' ->
  s_total w' = s_total w + 1 /\
  s_fail w' = s_fail w + match o with Done resp => if 500 <=? resp.1 then 1 else 0 | Panicked => 0 end.
Proof.
  unfold Handler, instrument. simpl. intros (w1 & _ & w2 & <- & -> & H).
  apply execE_bind in H as [(resp & w3 & Hs & H)|[-> Hs]].
  - apply serve_counters in Hs as [Ht Hf]. simpl in Ht, Hf.
    destruct (500 <=? resp.1) eqn:E; simpl in H.
    + destruct H as (w4 & _ & w5 & <- & -> & -> & ->). simpl. rewrite E. lia.
    + destruct H as [-> ->]. rewrite E. lia.
  - apply serve_counters in Hs as [Ht Hf]. simpl in Ht, Hf. lia.
Qed.

(** ** Readiness *)

(** C30: [Readyz] answers 200 exactly when etcd answers the membership and
    SQLite the counts, and 503 otherwise; it never fails in another way, and
    changes nothing. *)
Theorem Readyz_spec w o w' :
  exec (Readyz cfg) w o w' ->
  exists (members : result EtcdErr (list (string * Entry))), w' = w /\
    exists (rows : result (QueryErr (string * Z)) (list (string * Z))) e s,
    etcd _ (GetPrefix membersPrefix None) members /\ db _ SelectCounts rows /\
    let up := is_ok members && is_ok rows in
    o = Done (if up then StatusOK else StatusServiceUnavailable, ReadyBody up (ID cfg) e s) /\
    (e = "ok" <-> is_ok members = true) /\ (s = "ok" <-> is_ok rows = true).
Proof.
  intros H. simpl in H.
  destruct H as (w1 & members & w2 & <- & [He ->] & Hrest). exists members.
  destruct members as [l|e]; simpl in Hrest; destruct Hrest as (w3 & rows & w4 & <- & [Hd ->] & Hrest);
    destruct rows as [rs|[m|m|rs m]]; simpl in Hrest; destruct Hrest as [-> ->]; (split; [done|]);
    eexists; do 2 eexists; (split; [exact He|]); (split; [exact Hd|]); simpl; split_and!; done.
Qed.

(** ** Nodes *)

(** What a handler is told of the members and of the containers. *)
Definition members_read (members : list Member) : Prop :=
  exists resp : result EtcdErr (list (string * Entry)), etcd _ (GetPrefix membersPrefix None) resp /\
    members = match resp with Ok l => read_members l | Err _ => [] end.

Definition containers_read (r : result DockerErr (list NodeContainer)) : Prop :=
  if Available dock then
    match r with
    | Ok nodes => exists project l,
        own_project parse_message parse_inspect get dock = Ok project /\
        listed parse_message parse_inspect parse_ids get dock project = Ok l /\ same_nodes nodes l
    | Err e =>
        (forall i, ~ in_compose parse_message parse_inspect get dock i) \/
        exists project, own_project parse_message parse_inspect get dock = Ok project /\
          listed parse_message parse_inspect parse_ids get dock project = Err e
    end
  else r = Err SocketUnavailable.

Lemma dock_nodes_wp w :
  wp (if Available dock then dock_nodes parse_message parse_inspect parse_ids dock
      else Ret (Err SocketUnavailable))
     (fun o w' => w' = w /\ match o with Done r => containers_read r | Panicked => True end) w.
Proof.
  unfold containers_read. destruct (Available dock) eqn:E; [|done].
  apply on_docker_wp. eapply wpE_mono; [|apply ListNodes_runs].
  intros [r|] posts; simpl; [|intros ->; by destruct w].
  intros [-> H]. split; [by destruct w|exact H].
Qed.

Lemma members_wp w :
  wp (on_etcd Members)
     (fun o w' => w' = w /\ exists r, o = Done r /\ members_read (or_zero [] r)) w.
Proof.
  apply on_etcd_call. intros resp Hr. split; [done|]. eexists. split; [done|].
  exists resp. split; [done|]. by destruct resp.
Qed.

(** C22: [GET /api/nodes] answers one view for every registered member and
    every container of the project, in ascending order of ids: the member's
    registration, the container's state and port, [external] where there is no
    container.  It changes nothing.  The part of Docker is empty only when there
    is no Docker, this node is not in a compose project, or the listing of its
    project fails. *)
Theorem listNodes_spec w resp w' :
  exec (listNodes parse_message parse_inspect parse_ids cfg dock) w (Done resp) w' ->
  w' = w /\ exists members containers views,
    members_read members /\ containers_read containers /\
    resp = (StatusOK, NodesBody views (is_ok containers) (ID cfg)) /\
    Sorted view_le views /\ NoDup (map v_NodeID views) /\
    forall v, v ∈ views <->
      expected_view lead members (or_zero [] containers) (v_NodeID v) = Some v.
Proof.
  intros H. remember (Done resp) as o eqn:Eo. revert Eo. use_wpE H. unfold listNodes.
  apply wpE_bind. eapply wpE_mono; [|apply members_wp].
  intros o1 w1 (-> & r & -> & Hm). simpl. intros w1 l w2 <- [-> ->]. split; [done|].
  apply wpE_bind. eapply wpE_mono; [|apply dock_nodes_wp].
  intros [c|] w1 [-> Hc]; [|done]. simpl. intros w1 order w2 <- [Ho ->]. split; [done|].
  intros [= <-]. split; [done|]. eexists _, _, _. split_and!; [exact Hm|exact Hc|done|..].
  - by apply sorted_views_spec.
  - by apply sorted_views_spec.
  - by apply sorted_views_spec.
Qed.

(** C23: A kill leaves the cluster only on a server without Docker that was
    asked to kill its own node and can leave; it is refused with 501 where
    neither way is open; and Docker is asked for one container at most, the
    first one that matches. *)
Theorem killNode_spec id w o w' :
  exec (killNode parse_message parse_inspect parse_ids cfg dock onLeave id) w o w' ->
  s_total w' = s_total w /\ s_fail w' = s_fail w /\
  if Available dock && negb (String.eqb id "") then
    s_left w' = s_left w /\
    (s_posts w' = s_posts w \/ exists i,
       first_match parse_message parse_inspect parse_ids get dock id = Some i /\
       exists p, s_posts w' = s_posts w ++ [p] /\
         action_on (String.substring 0 12 (in_ID i)) "kill" p /\
         (forall body, o = Done (StatusAccepted, body) -> accepted p)) /\
    (forall body, o = Done (StatusAccepted, body) -> s_posts w' <> s_posts w)
  else
    s_posts w' = s_posts w /\
    let leaves := negb (String.eqb id "") && String.eqb id (ID cfg) && onLeave in
    s_left w' = s_left w + (if leaves then 1 else 0) /\
    exists code body, o = Done (code, body) /\
      code = if String.eqb id "" then StatusBadRequest
             else if leaves then StatusAccepted else StatusNotImplemented.
Proof.
  intros H. unfold killNode in H. destruct (String.eqb id "") eqn:Eid.
  { destruct H as [-> ->]. rewrite andb_false_r. simpl. split_and!; try done; [lia|eauto]. }
  destruct (Available dock) eqn:Ea; simpl.
  - apply execE_bind in H as [(r & w1 & H & Hr)|[-> H]];
      apply on_docker_exec in H as (posts & H & ->); apply on_container_exec in H as [H _].
    + destruct Hr as [-> ->]. simpl. split_and!; [done..| |].
      * destruct H as [[-> _]|(i & p & Hi & -> & Hp & Hacc)]; [by left|]. right. exists i.
        split; [done|]. exists p. split_and!; [done..|]. intros body Hb.
        destruct r as [[]|]; [by apply Hacc|done].
      * intros body Hb. destruct r as [[]|]; [|done].
        destruct H as [[_ H]|(i & p & _ & -> & _)]; [by destruct H|].
        intros E. apply (f_equal length) in E. rewrite length_app in E. simpl in E. lia.
    + simpl. split_and!; [done..| |done].
      destruct H as [[-> _]|(i & p & Hi & -> & Hp & _)]; [by left|]. right. exists i.
      split; [done|]. by exists p.
  - destruct (String.eqb id (ID cfg)); unfold leaveNode in H; [destruct onLeave|]; simpl in H.
    + destruct H as (w1 & x & w2 & <- & -> & -> & ->). simpl. split_and!; eauto.
    + destruct H as [-> ->]. split_and!; [done..|simpl; lia|eauto].
    + destruct H as [-> ->]. split_and!; [done..|simpl; lia|eauto].
Qed.

Lemma nextNodeID_exec w o w' :
  exec (nextNodeID parse_message parse_inspect parse_ids dock) w o w' -> w' = w.
Proof.
  intros H. use_wpE H. unfold nextNodeID, known_ids. apply wpE_bind, wpE_bind.
  eapply wpE_mono; [|apply members_wp]. intros o1 w1 (-> & r & -> & _). simpl.
  pose proof (dock_nodes_wp w) as Hd. destruct (Available dock); [|done].
  apply wpE_bind. eapply wpE_mono; [|exact Hd]. by intros [] w1 [-> _].
Qed.

(** C25: An addition posts nothing, or the creation of a node whose name is
    checked (the one asked for, or the next one when none is), with the image,
    the project and a network of this node's container, and then the start of
    the container whose id the daemon answered to that creation; it answers 201,
    with the fields of that container, only when the start was accepted. *)
Theorem addNode_spec nodeID w o w' :
  exec (addNode parse_message parse_inspect parse_ids parse_created dock nodeID) w o w' ->
  s_total w' = s_total w /\ s_fail w' = s_fail w /\ s_left w' = s_left w /\
  (s_posts w' = s_posts w /\ (forall body, o <> Done (StatusCreated, body)) \/
   exists id self posts, nodeIDRe id = true /\ (TrimSpace nodeID <> "" -> id = TrimSpace nodeID) /\
     got_inspect parse_message parse_inspect get dock (c_selfID dock) = Ok self /\
     s_posts w' = s_posts w ++ posts /\ addition parse_message parse_created id self posts /\
     forall body, o = Done (StatusCreated, body) ->
       exists n, node_added parse_message parse_inspect parse_created get dock id self posts n /\
         body = AddedBody (d_NodeID n) (d_ContainerID n) (d_HostPort n)).
Proof.
  intros H. unfold addNode in H. destruct (negb (Available dock)) eqn:Ea; [by destruct H as [-> ->]; split_and!; [..|left]|].
  bool_prop.
  apply execE_bind in H as [(id & w1 & Hid & H)|[-> Hid]].
  - assert (w1 = w /\ (TrimSpace nodeID <> "" -> id = TrimSpace nodeID)) as [-> Hname].
    { destruct (String.eqb_spec (TrimSpace nodeID) ""); [|by destruct Hid as [[= ->] ->]].
      split; [|done]. by apply nextNodeID_exec in Hid. }
    destruct (negb (nodeIDRe id)) eqn:En; [by destruct H as [-> ->]; split_and!; [..|left]|]. bool_prop.
    apply execE_bind in H as [(r & w2 & H & Hr)|[-> H]];
      apply on_docker_exec in H as (posts & H & ->);
      destruct (wpE_sound _ _ _ _ _ _ _ _ (AddNode_runs _ _ _ _ _ _ _ _) H) as (_ & _ & H2).
    + destruct Hr as [-> ->]. simpl. split_and!; [done..|].
      destruct H2 as [[-> Hn]|(self & new & Hself & -> & Hadd & Hn)].
      * left. split; [done|]. intros body Hb. destruct r as [n|]; [by eapply Hn|done].
      * right. exists id, self, new. split_and!; [done..|]. intros body Hb.
        destruct r as [n|]; [|done]. injection Hb as <-. exists n. split; [by apply Hn|done].
    + simpl. split_and!; [done..|].
      destruct H2 as [[-> _]|(self & new & Hself & -> & Hadd & _)]; [by left|right].
      by exists id, self, new.
  - assert (w' = w) as ->; [|by split_and!; [..|left]].
    destruct (String.eqb (TrimSpace nodeID) ""); [by apply nextNodeID_exec in Hid|by destruct Hid].
Qed.

(** ** History *)

(** Finding: [GET /api/jobs/{id}/runs] with an id of zero or less answers the
    runs of every job. *)
Theorem jobRuns_of_no_job path limit id : ParseInt path = Some id -> id <= 0 ->
  jobRuns path limit = allRuns limit.
Proof.
  intros Hp Hid. unfold jobRuns, allRuns, list_runs, ListRuns. rewrite Hp.
  by replace (0 <? id) with false by (symmetry; apply Z.ltb_ge; lia).
Qed.
End server_facts.
