(* ===== verification/Programs.v ===== *)
(** * The programs of a cluster, and the keys each of them may write

    A node runs a scheduler, a worker (a claim and the run it starts count as
    one program, since each ticket has a goroutine of its own), an API server
    (one program per request) and the election, of which only the requests to
    etcd matter here ([ClusterSystem] runs the node itself).  [orbix_program] is the set of these programs, on
    any number of nodes; the footprints show that the parts keep to their own
    families of keys. *)
From S2P Require Import Prelude GoStrings GoTime Cron Model Etcd Exec System Footprint.
From S2P Require Import Queue QueueFacts Jobs JobFacts Scheduler Worker Api Cluster.

Open Scope string_scope.
Open Scope list_scope.
Open Scope orbix_scope.
Open Scope Z_scope.

Definition forget {A} (p : Prog A) : Prog unit := let! _ := p in Ret tt.

Section programs.
Context `{TJ : Json Ticket ticket_valid} `{RJ : Json Result result_valid}
  `{JJ : Json Job job_valid} `{MJ : Json Member member_valid}.
Context (loadLocation : string -> option Location).

(** What the goroutines of a node run, the election apart. *)
Inductive node_program : Prog unit -> Prop :=
| prog_scheduler nodeID turns : node_program (Scheduler_Run nodeID loadLocation turns)
| prog_worker goos nodeID : node_program (worker_job goos nodeID)
| prog_listJobs : node_program (forget (listJobs loadLocation))
| prog_createJob body : node_program (forget (createJob loadLocation body))
| prog_getJob path : node_program (forget (getJob path))
| prog_updateJob path body : node_program (forget (updateJob loadLocation path body))
| prog_deleteJob path : node_program (forget (deleteJob path))
| prog_enable v path : node_program (forget (enable v path))
| prog_trigger path : node_program (forget (trigger path))
| prog_queueSnapshot : node_program (forget queueSnapshot)
| prog_members : node_program (forget Members).

(** With the requests of the election. *)
Inductive orbix_program : Prog unit -> Prop :=
| prog_node p : node_program p -> orbix_program p
| prog_campaign info l : orbix_program (forget (campaign_txn info l))
| prog_register id member l : orbix_program (forget (register_put id member l)).

(** ** Footprints *)

Ltac fp := repeat footprint_step; try family.

Lemma fp_EnqueueFire t ft : footprint (in_families [PendingPrefix; WatermarkPrefix]) (EnqueueFire t ft).
Proof. unfold EnqueueFire. fp. Qed.

Lemma fp_AdvanceWatermark id ft : footprint (in_families [WatermarkPrefix]) (AdvanceWatermark id ft).
Proof. unfold AdvanceWatermark. fp. Qed.

Lemma fp_Trigger j : footprint (in_families [PendingPrefix]) (Trigger j).
Proof. unfold Trigger, manualStamp, Enqueue. fp. Qed.

Lemma fp_Abandon n t : footprint (in_families [PendingPrefix; ResultsPrefix]) (Abandon n t).
Proof. unfold Abandon, now_rfc3339. fp. Qed.

Lemma range_prefix st p limit k e : (k, e) ∈ range st p limit -> HasPrefix k p = true.
Proof. by intros []%elem_of_range. Qed.

Lemma fp_gc_loop fuel i rest : Forall (fun k => HasPrefix k ResultsPrefix = true) rest ->
  footprint (in_families [ResultsPrefix]) (gc_loop fuel i rest).
Proof.
  revert i rest. induction fuel as [|fuel IH]; intros i rest Hr; [done|].
  destruct rest as [|k0 rest0] eqn:E; [done|]. rewrite <- E in *.
  assert (gc_loop (S fuel) i rest =
    let! resp := call (Txn [] (map OpDelete (take gc_batch rest)) []) in
    match resp with
    | Err e => Ret (i, Some e)
    | Ok _ => gc_loop fuel (i + Z.of_nat gc_batch) (drop gc_batch rest)
    end) as -> by (by rewrite E).
  cbn [prog_bind call]. split.
  - cbn [ev_keys]. rewrite app_nil_r, map_map. apply Forall_map, Forall_take.
    eapply Forall_impl; [exact Hr|]. intros k Hk. by constructor.
  - intros [b|e] _; [|done]. apply IH. by apply Forall_drop.
Qed.

Lemma fp_GCResults ret now : footprint (in_families [ResultsPrefix]) (GCResults ret now).
Proof.
  unfold GCResults. cbn [prog_bind call]. split; [constructor|].
  intros [entries|e] (st & st' & _ & Hx); [|done]. subst entries.
  apply footprint_bind; [|by intros [? []]]. apply fp_gc_loop. apply Forall_forall.
  intros k Hk. unfold gc_doomed in Hk. apply list_elem_of_In, in_map_iff in Hk as ([k' e] & <- & Hk).
  apply list_elem_of_In, list_elem_of_filter in Hk as [_ Hk]. by eapply range_prefix.
Qed.

(** *** Scheduler *)

Definition scheduler_keys : string -> Prop := in_families [PendingPrefix; WatermarkPrefix; ResultsPrefix].

Lemma families_sub ps ps' k : forallb (fun p => existsb (String.eqb p) ps') ps = true ->
  in_families ps k -> in_families ps' k.
Proof.
  unfold in_families. rewrite !Exists_exists. intros Hs (p & Hp & Hk). exists p.
  rewrite forallb_forall in Hs. split; [|done]. apply existsb_eqb, Hs. by apply list_elem_of_In.
Qed.

Ltac widen H := eapply footprint_mono; [|apply H]; intros ?; apply families_sub; reflexivity.

Lemma fp_scheduleJob j now : footprint scheduler_keys (scheduleJob loadLocation j now).
Proof.
  assert (forall f wm, footprint scheduler_keys (enqueueFire j f wm)) as Hfire.
  { intros f wm. unfold enqueueFire. apply footprint_bind; [widen fp_EnqueueFire|done]. }
  assert (forall t, footprint scheduler_keys (advance (j_ID j) t)) as Hadv.
  { intros t. unfold advance. apply footprint_bind; [widen fp_AdvanceWatermark|done]. }
  assert (forall fires, footprint scheduler_keys (enqueue_all j fires)) as Hall.
  { induction fires as [|f fires IH]; cbn [enqueue_all]; [done|].
    repeat first [footprint_step | apply IH | apply Hfire]. }
  unfold scheduleJob, Watermark.
  repeat first [footprint_step | apply Hfire | apply Hadv | apply Hall].
Qed.

Lemma fp_sched_turn nodeID lastGC :
  footprint scheduler_keys (sched_turn nodeID loadLocation lastGC).
Proof.
  assert (forall now all, footprint scheduler_keys (schedule_all loadLocation now all)) as Hall.
  { intros now all. induction all as [|j all IH]; cbn [schedule_all]; [done|].
    repeat first [footprint_step | apply IH | apply fp_scheduleJob]. }
  assert (forall live pending, footprint scheduler_keys (sweep nodeID live pending)) as Hsweep.
  { intros live pending. induction pending as [|t pending IH]; cbn [sweep]; [done|].
    assert (footprint scheduler_keys (Abandon nodeID t)) by widen fp_Abandon.
    repeat first [footprint_step | apply IH | assumption]. }
  assert (forall ret now, footprint scheduler_keys (GCResults ret now)) as Hgc
    by (intros; widen fp_GCResults).
  unfold sched_turn, tickOnce, gcOnce, sweepOrphans, List, PendingTickets.
  repeat first [footprint_step | apply Hall | apply Hsweep | apply Hgc].
Qed.

Lemma fp_scheduler nodeID turns : footprint scheduler_keys (Scheduler_Run nodeID loadLocation turns).
Proof.
  unfold Scheduler_Run. apply footprint_bind; [|done]. generalize zero_time.
  induction turns as [|n IH]; intros t; cbn [sched_turns]; [done|].
  apply footprint_bind; [apply fp_sched_turn|apply IH].
Qed.

(** *** Worker *)

Definition worker_keys : string -> Prop :=
  in_families [PendingPrefix; ClaimedPrefix; ResultsPrefix; OverlapPrefix].

Lemma fp_claim n key rev t : HasPrefix key PendingPrefix = true ->
  footprint worker_keys (claim n key rev t).
Proof.
  intros Hk. unfold claim. cbn [prog_bind call]. split; [constructor|]. intros l1 _.
  destruct (t_NoOverlap _); cbn [prog_bind call app]; fp.
Qed.

Lemma fp_claim_scan n entries now : Forall (fun p => HasPrefix p.1 PendingPrefix = true) entries ->
  footprint worker_keys (claim_scan n entries now).
Proof.
  induction entries as [|[k e] entries IH]; intros Hf; cbn [claim_scan]; [done|].
  apply Forall_cons in Hf as [Hk Hf]. specialize (IH Hf). cbn [fst] in Hk.
  assert (forall rev t, footprint worker_keys (skipStale n k rev t)) as Hskip.
  { intros rev t. unfold skipStale, now_rfc3339. fp. }
  repeat first [footprint_step | apply IH | apply Hskip | apply fp_claim, Hk | progress unfold overlapHeld].
Qed.

Lemma fp_worker_job goos n : footprint worker_keys (worker_job goos n).
Proof.
  unfold worker_job. apply footprint_bind.
  - unfold claim_one, ClaimNext. cbn [prog_bind call]. split; [constructor|]. intros now _.
    split; [constructor|]. intros [entries|e] (st & st' & _ & Hx); [|done].
    apply footprint_bind; [|done]. apply fp_claim_scan. subst entries. apply Forall_forall.
    intros [k e] Hk. by eapply range_prefix.
  - intros [t|]; [|done]. unfold execute, Executor_Run.
    assert (forall res, footprint worker_keys (FinishSuccess n t res)).
    { intros res. unfold FinishSuccess, overlapRelease. destruct (t_NoOverlap t); fp. }
    assert (forall res now, footprint worker_keys (FinishFailure n t res now)).
    { intros res now. unfold FinishFailure, overlapRelease.
      destruct (t_NoOverlap t), (t_MaxRetries t <? t_Attempt t); fp. }
    repeat first [footprint_step | progress auto].
Qed.

(** *** API *)

Definition jobs_keys : string -> Prop := in_families [JobsPrefix; WatermarkPrefix].

Lemma fp_create_loop n j : footprint jobs_keys (create_loop n j).
Proof.
  revert j. induction n as [|n IH]; intros j; cbn [create_loop]; [done|].
  unfold create_ops. repeat first [footprint_step | apply IH]; try family.
Qed.

Lemma fp_put_job what id j : footprint jobs_keys (put_job what id j).
Proof. unfold put_job. fp. Qed.

Lemma fp_createJob body : footprint jobs_keys (createJob loadLocation body).
Proof. unfold createJob, Create, now_rfc3339. repeat first [footprint_step | apply fp_create_loop]. Qed.

Lemma fp_updateJob path body : footprint jobs_keys (updateJob loadLocation path body).
Proof.
  unfold updateJob, with_id, Update, Get, now_rfc3339.
  repeat first [footprint_step | apply fp_put_job].
Qed.

Lemma fp_deleteJob path : footprint jobs_keys (deleteJob path).
Proof. unfold deleteJob, with_id, Delete. fp. Qed.

Lemma fp_enable v path : footprint jobs_keys (enable v path).
Proof.
  unfold enable, with_id, SetEnabled, Get, now_rfc3339.
  repeat first [footprint_step | apply fp_put_job].
Qed.

Lemma fp_trigger path : footprint (in_families [PendingPrefix]) (trigger path).
Proof.
  unfold trigger, with_id, Get. repeat first [footprint_step | apply fp_Trigger].
Qed.

(** The requests that only read. *)
Lemma fp_reads path : footprint (in_families []) (listJobs loadLocation) /\
  footprint (in_families []) (getJob path) /\ footprint (in_families []) queueSnapshot.
Proof.
  unfold listJobs, List, enrichNextFire, getJob, with_id, Get, queueSnapshot, PendingTickets, Claims.
  split_and!; fp.
Qed.

Lemma fp_Members : footprint (in_families []) Members.
Proof. unfold Members. fp. Qed.

(** The keys of a node, the election apart: never the leader key or a member's. *)
Definition node_keys : string -> Prop :=
  in_families [PendingPrefix; ClaimedPrefix; ResultsPrefix; OverlapPrefix; WatermarkPrefix; JobsPrefix].

Lemma footprint_forget F {A} (p : Prog A) : footprint F p -> footprint F (forget p).
Proof. intros. by apply footprint_bind. Qed.

Lemma fp_node_program p : node_program p -> footprint node_keys p.
Proof.
  intros Hp. pose proof (fp_reads "") as (Hl & _ & Hq).
  assert (forall A ps (q : Prog A), footprint (in_families ps) q ->
    forallb (fun x => existsb (String.eqb x)
      [PendingPrefix; ClaimedPrefix; ResultsPrefix; OverlapPrefix; WatermarkPrefix; JobsPrefix]) ps = true ->
    footprint node_keys q) as Hw
    by (intros A ps q Hq' Hps; eapply footprint_mono; [|exact Hq']; intros k; by apply families_sub).
  destruct Hp as [n turns|goos n| |body|path|path body|path|v path|path| |].
  - by apply (Hw _ _ _ (fp_scheduler n turns)).
  - by apply (Hw _ _ _ (fp_worker_job goos n)).
  - by apply footprint_forget, (Hw _ _ _ Hl).
  - by apply footprint_forget, (Hw _ _ _ (fp_createJob body)).
  - apply footprint_forget, (Hw _ _ _ (proj1 (proj2 (fp_reads path)))). done.
  - by apply footprint_forget, (Hw _ _ _ (fp_updateJob path body)).
  - by apply footprint_forget, (Hw _ _ _ (fp_deleteJob path)).
  - by apply footprint_forget, (Hw _ _ _ (fp_enable v path)).
  - by apply footprint_forget, (Hw _ _ _ (fp_trigger path)).
  - by apply footprint_forget, (Hw _ _ _ Hq).
  - by apply footprint_forget, (Hw _ _ _ fp_Members).
Qed.

(** The parts keep to their own keys, whatever etcd answers: a scheduler writes
    pending tickets, watermarks and results (never a claim, a lock or a job); a
    worker pending tickets, claims, locks and results (never a job or a
    watermark); the job handlers jobs and watermarks (never a ticket); a trigger
    only adds a pending ticket. *)
Theorem parts_keep_to_their_keys `{WW : World W} (w : W) nodeID turns goos path body v k :
  let unchanged p := kvs (store_of (run p w).2) !! k = kvs (store_of w) !! k in
  (~ in_families [PendingPrefix; WatermarkPrefix; ResultsPrefix] k ->
     unchanged (Scheduler_Run nodeID loadLocation turns)) /\
  (~ in_families [PendingPrefix; ClaimedPrefix; ResultsPrefix; OverlapPrefix] k ->
     unchanged (worker_job goos nodeID)) /\
  (~ in_families [JobsPrefix; WatermarkPrefix] k ->
     unchanged (forget (createJob loadLocation body)) /\
     unchanged (forget (updateJob loadLocation path body)) /\
     unchanged (forget (deleteJob path)) /\ unchanged (forget (enable v path))) /\
  (~ in_families [PendingPrefix] k -> unchanged (forget (trigger path))).
Proof.
  cbv zeta. split_and!; intros Hk.
  - by eapply footprint_frame; [apply fp_scheduler|].
  - by eapply footprint_frame; [apply fp_worker_job|].
  - split_and!; (eapply footprint_frame; [apply footprint_forget|exact Hk]);
      auto using fp_createJob, fp_updateJob, fp_deleteJob, fp_enable.
  - by eapply footprint_frame; [apply footprint_forget, fp_trigger|].
Qed.
End programs.
