(* ===== verification/TicketProtocol.v ===== *)
(** * The protocol of tickets and claims

    What every program of the cluster keeps, whatever the others do, whatever
    etcd answers and whenever nodes crash:
    - a pending ticket never vanishes without a result: in the step that removes
      it, a result for its job and time is written;
    - a claim, an overlap lock or the leader key never passes from one node to
      another directly: it has to be removed in between.

    The invariant behind it: pending tickets hang on no lease, and sit under the
    key of their own job and time. *)
From S2P Require Import Prelude GoStrings GoTime Cron Model Etcd Exec System Footprint.
From S2P Require Import Queue QueueFacts Jobs JobFacts Scheduler Worker Api Cluster Programs.

Open Scope string_scope.
Open Scope list_scope.
Open Scope orbix_scope.
Open Scope Z_scope.

Section protocol.
Context `{TJ : Json Ticket ticket_valid} `{RJ : Json Result result_valid}
  `{JJ : Json Job job_valid}.

Definition is_pending (k : string) : Prop := HasPrefix k PendingPrefix = true.
Definition exclusive (k : string) : Prop := in_families [ClaimedPrefix; OverlapPrefix; leaderKey] k.

Definition own_key (k v : string) : Prop := forall t, unmarshal v = Some t -> k = PendingKey t.

Definition tickets_inv (st : Store) : Prop :=
  store_wf st /\
  forall k e, is_pending k -> kvs st !! k = Some e -> e_lease e = NoLease /\ own_key k (e_value e).

(** A result for the ticket at [k] is there. *)
Definition closed (st : Store) (k : string) : Prop :=
  exists t r, k = PendingKey t /\ value_at st (ResultKey t) = Some (marshal r) /\
              r_JobID r = t_JobID t /\ r_SchedAt r = t_SchedAt t.

Definition tickets_guar (st st' : Store) : Prop :=
  (forall k, is_pending k -> is_Some (kvs st !! k) -> is_Some (kvs st' !! k) \/ closed st' k) /\
  (forall k v, exclusive k -> value_at st k = Some v ->
     value_at st' k = Some v \/ value_at st' k = None).

Lemma tickets_guar_refl st : tickets_guar st st.
Proof. split; auto. Qed.

(** Keys are unchanged: so are the promises about them. *)
Lemma tickets_keep st st' : store_wf st' ->
  (forall k, is_pending k \/ exclusive k -> kvs st' !! k = kvs st !! k) ->
  tickets_inv st -> tickets_inv st' /\ tickets_guar st st'.
Proof.
  intros Hwf Hk [_ Hi]. split; [split; [done|]|split].
  - intros k e Hp. rewrite Hk by auto. by apply Hi.
  - intros k Hp. rewrite Hk by auto. auto.
  - intros k v Hp. unfold value_at. rewrite Hk by auto. auto.
Qed.

Lemma tickets_expire l st : tickets_inv st -> l <> NoLease ->
  tickets_inv (expire l st) /\ tickets_guar st (expire l st).
Proof.
  intros [Hwf Hi] Hl. split; [split; [by apply store_wf_expire|]|split].
  - intros k e Hp [He _]%map_lookup_filter_Some. by apply Hi.
  - intros k Hp [e He]. left. exists e. apply map_lookup_filter_Some. split; [done|].
    apply Hi in He; [|done]. cbn [snd]. destruct He as [-> _]. congruence.
  - intros k v _ Hv. unfold value_at in *. destruct (kvs (expire l st) !! k) as [e|] eqn:E; [|by right].
    apply map_lookup_filter_Some in E as [E _]. rewrite E in Hv. by left.
Qed.

Definition TicketProtocol : Protocol := {|
  inv := tickets_inv;
  guar := tickets_guar;
  rely := fun _ _ => True;
  inv_wf := fun st H => proj1 H;
  guar_refl := tickets_guar_refl;
  guar_rely := fun _ _ _ => I;
  rely_trans := fun _ _ _ _ _ => I;
  inv_expire := tickets_expire;
  inv_grant := fun l st H => tickets_keep st (grant l st) (proj1 H) (fun _ _ => eq_refl) H;
|}.

(** ** Transactions *)

(** After a transaction on different keys, each key shows its own operation. *)
Lemma lookup_apply_ops_in st ops o : NoDup (map op_key ops) -> o ∈ ops ->
  match o with
  | OpPut k v l => exists e, kvs (apply_ops st ops) !! k = Some e /\ e_value e = v /\ e_lease e = l
  | OpDelete k => kvs (apply_ops st ops) !! k = None
  end.
Proof.
  unfold apply_ops. cbn [kvs]. generalize (kvs st) as m, (revision st + 1) as rev.
  induction ops as [|o' ops IH]; intros m rev Hnd Hin; [by apply elem_of_nil in Hin|].
  cbn [map] in Hnd. apply NoDup_cons in Hnd as [Hn Hnd]. apply elem_of_cons in Hin as [->|Hin].
  - assert (forall m', foldl (apply_op rev) m' ops !! op_key o' = m' !! op_key o') as Hlast.
    { intros m'. pose proof (lookup_apply_ops_ne (mkStore m' (rev - 1) ∅) ops (op_key o') Hn) as H.
      unfold apply_ops in H. cbn [kvs revision] in H. by replace (rev - 1 + 1) with rev in H by lia. }
    cbn [foldl]. destruct o' as [k v l|k]; cbn [op_key] in Hlast; rewrite Hlast; simpl.
    + rewrite lookup_insert_eq. eauto.
    + apply lookup_delete_eq.
  - cbn [foldl]. by apply IH.
Qed.

Definition op_fine (st : Store) (ops : list Op) (o : Op) : Prop :=
  match o with
  | OpPut k v l => (is_pending k -> l = NoLease /\ own_key k v) /\ (exclusive k -> kvs st !! k = None)
  | OpDelete k => is_pending k -> exists t r, k = PendingKey t /\
      OpPut (ResultKey t) (marshal r) NoLease ∈ ops /\
      r_JobID r = t_JobID t /\ r_SchedAt r = t_SchedAt t
  end.

Definition ops_fine (st : Store) (ops : list Op) : Prop :=
  NoDup (map op_key ops) /\ Forall (op_fine st ops) ops.

(** The operation on a key, if there is one. *)
Lemma op_on (ops : list Op) k : k ∉ map op_key ops \/ exists o, o ∈ ops /\ op_key o = k.
Proof.
  destruct (decide (k ∈ map op_key ops)) as [H|H]; [right|by left].
  apply list_elem_of_In, in_map_iff in H as (o & <- & Ho). exists o.
  split; [by apply list_elem_of_In|done].
Qed.

Lemma ops_fine_inv st ops : tickets_inv st -> ops_fine st ops -> tickets_inv (apply_ops st ops).
Proof.
  intros [Hwf Hi] [Hnd Hf]. split; [by apply store_wf_apply_ops|]. rewrite Forall_forall in Hf.
  intros k e Hp He. destruct (op_on ops k) as [Hk|(o & Ho & <-)].
  - rewrite lookup_apply_ops_ne in He by done. by apply Hi.
  - pose proof (lookup_apply_ops_in st ops o Hnd Ho) as H. specialize (Hf o Ho).
    destruct o as [k v l|k]; cbn [op_key] in *; [|by rewrite H in He].
    destruct H as (e' & He' & <- & <-). rewrite He' in He. injection He as ->. by apply Hf.
Qed.

Lemma ops_fine_guar st ops : ops_fine st ops -> tickets_guar st (apply_ops st ops).
Proof.
  intros [Hnd Hf]. rewrite Forall_forall in Hf. split.
  - intros k Hp Hs. destruct (op_on ops k) as [Hk|(o & Ho & <-)].
    { left. by rewrite lookup_apply_ops_ne. }
    pose proof (lookup_apply_ops_in st ops o Hnd Ho) as H. specialize (Hf o Ho).
    destruct o as [k v l|k]; cbn [op_key] in *.
    + destruct H as (e & -> & _). left. by eexists.
    + destruct (Hf Hp) as (t & r & -> & Hr & Hid & Hat). right. exists t, r.
      pose proof (lookup_apply_ops_in st ops _ Hnd Hr) as (e & He & Hv & _).
      unfold value_at. rewrite He. simpl. by rewrite Hv.
  - intros k v Hx Hv. destruct (op_on ops k) as [Hk|(o & Ho & <-)].
    { left. unfold value_at. by rewrite lookup_apply_ops_ne. }
    pose proof (lookup_apply_ops_in st ops o Hnd Ho) as H. specialize (Hf o Ho).
    destruct o as [k v' l|k]; cbn [op_key] in *.
    + destruct Hf as [_ Hf]. unfold value_at in Hv. by rewrite (Hf Hx) in Hv.
    + right. unfold value_at. by rewrite H.
Qed.

Lemma ops_fine_keep st ops : tickets_inv st -> ops_fine st ops ->
  tickets_inv (apply_ops st ops) /\ tickets_guar st (apply_ops st ops).
Proof. intros. split; [by apply ops_fine_inv|by apply ops_fine_guar]. Qed.

Lemma ops_fine_nil st : ops_fine st [].
Proof. split; constructor. Qed.

(** A transaction keeps the protocol if its branches do. *)
Lemma wp_txn {A} cmps thn els (k : result EtcdErr bool -> Prog A) Q st :
  (forall st1, later st st1 -> tickets_inv st1 ->
     (forallb (cmp_holds (kvs st1)) cmps = true -> ops_fine st1 thn) /\ ops_fine st1 els) ->
  (forall r st2, wp TicketProtocol (k r) Q st2) ->
  wp TicketProtocol (Vis (Txn cmps thn els) k) Q st.
Proof.
  intros Hf Hk st1 r st2 Hl _ Hi He. destruct (Hf st1 Hl Hi) as [Ht Hels].
  assert (tickets_inv st2 /\ tickets_guar st1 st2) as [? ?].
  { apply (txn_keeps TicketProtocol cmps thn els st1 r st2); try done;
      intros; apply ops_fine_keep; auto. }
  by split_and!.
Qed.

(** Programs that stay away from pending tickets, claims and locks. *)
Lemma tickets_elsewhere {A} (p : Prog A) st :
  footprint (in_families [ResultsPrefix; WatermarkPrefix; JobsPrefix; membersPrefix]) p -> safe TicketProtocol p st.
Proof.
  apply footprint_safe. intros st1 ops Hi Hf _. apply tickets_keep; [|intros k Hk|done].
  { apply store_wf_apply_ops. by destruct Hi. }
  apply lookup_apply_ops_ne. intros Hin.
  destruct (op_on ops k) as [Hn|(o & Ho & <-)]; [done|]. rewrite Forall_forall in Hf.
  specialize (Hf o Ho). unfold is_pending, exclusive, in_families in *.
  rewrite !Exists_cons, !Exists_nil in *.
  destruct_or! Hf; try done; apply HasPrefix_spec in Hf as [r Hr]; rewrite Hr in Hk;
    destruct_or! Hk; try done; by rewrite HasPrefix_apart in Hk.
Qed.
End protocol.
