(* ===== verification/TicketSafety.v ===== *)
(** * Every program of the cluster keeps the protocol of tickets

    Program by program; then the theorems on the running cluster: no ticket is
    lost, and claims do not change hands. *)
From S2P Require Import Prelude GoStrings GoTime Cron Model Etcd Exec System Footprint.
From S2P Require Import Queue QueueFacts Jobs JobFacts Scheduler Worker Api Cluster Programs TicketProtocol.

Open Scope string_scope.
Open Scope list_scope.
Open Scope orbix_scope.
Open Scope Z_scope.

(** The operations of a literal list, one by one. *)
Ltac nodup_keys :=
  repeat (apply NoDup_cons; split;
    [rewrite ?not_elem_of_cons; split_and?; try apply not_elem_of_nil; try key_ne|]);
  apply NoDup_nil_2.

Section safety.
Context `{TJ : Json Ticket ticket_valid} `{RJ : Json Result result_valid}
  `{JJ : Json Job job_valid} `{MJ : Json Member member_valid}.
Context (loadLocation : string -> option Location).
#[local] Abbreviation safe := (safe TicketProtocol).
#[local] Abbreviation wp := (wp TicketProtocol).

(** ** Operations that are fine *)

Lemma own_key_marshal t : ticket_valid t -> own_key (PendingKey t) (marshal t).
Proof. intros Hv t'. rewrite unmarshal_marshal by done. by intros [= <-]. Qed.

Lemma own_key_stamp t t' : stamp t = stamp t' -> ticket_valid t' -> own_key (PendingKey t) (marshal t').
Proof. intros Hs. rewrite (PendingKey_stamp _ _ Hs). apply own_key_marshal. Qed.

Lemma not_pending p s : prefix_apart p PendingPrefix = true -> ~ is_pending (p +:+ s).
Proof. intros H. unfold is_pending. by rewrite HasPrefix_apart. Qed.

Lemma not_exclusive p s : prefix_apart p ClaimedPrefix = true -> prefix_apart p OverlapPrefix = true ->
  prefix_apart p leaderKey = true -> ~ exclusive (p +:+ s).
Proof.
  intros H1 H2 H3. unfold exclusive, in_families. rewrite !Exists_cons, Exists_nil.
  rewrite !HasPrefix_apart by done. by intros [|[|[|[]]]].
Qed.

Lemma fine_put_pending st ops t t' : stamp t = stamp t' -> ticket_valid t' ->
  op_fine st ops (OpPut (PendingKey t) (marshal t') NoLease).
Proof.
  intros Hs Hv. split.
  - intros _. split; [done|]. by apply own_key_stamp.
  - intros H. exfalso. by apply not_exclusive in H.
Qed.

Lemma fine_put_elsewhere st ops p s v l : prefix_apart p PendingPrefix = true ->
  prefix_apart p ClaimedPrefix = true -> prefix_apart p OverlapPrefix = true ->
  prefix_apart p leaderKey = true -> op_fine st ops (OpPut (p +:+ s) v l).
Proof.
  intros H1 H2 H3 H4. split; intros H; exfalso;
    [by apply not_pending in H|by apply not_exclusive in H].
Qed.

(** A claim or a lock that is not there. *)
Lemma fine_put_exclusive st ops p s v l : prefix_apart p PendingPrefix = true ->
  kvs st !! (p +:+ s) = None -> op_fine st ops (OpPut (p +:+ s) v l).
Proof. intros H1 H2. split; [|done]. intros H. exfalso. by apply not_pending in H. Qed.

Lemma fine_delete_elsewhere st ops p s : prefix_apart p PendingPrefix = true ->
  op_fine st ops (OpDelete (p +:+ s)).
Proof. intros H1 H. exfalso. by apply not_pending in H. Qed.

Lemma fine_delete_pending st ops t r : OpPut (ResultKey t) (marshal r) NoLease ∈ ops ->
  r_JobID r = t_JobID t -> r_SchedAt r = t_SchedAt t ->
  op_fine st ops (OpDelete (PendingKey t)).
Proof. intros ??? _. by exists t, r. Qed.

Ltac fine :=
  first [ by apply fine_put_elsewhere | by apply fine_delete_elsewhere
        | by apply fine_put_pending
        | eapply fine_delete_pending; [first [left | right; left | right; right; left]|done|done] ].

Ltac fine_ops := split; [cbn [map app op_key]; nodup_keys|repeat (constructor; [fine|]); constructor].

(** ** The queue *)

Lemma safe_EnqueueFire t ft st : ticket_valid t -> safe (EnqueueFire t ft) st.
Proof.
  intros Hv. unfold EnqueueFire. apply wp_txn; [|done].
  intros st1 _ _. split; [intros _; fine_ops|apply ops_fine_nil].
Qed.

Lemma safe_Enqueue t st : ticket_valid t -> safe (Enqueue t) st.
Proof.
  intros Hv. unfold Enqueue. apply wp_txn; [|done].
  intros st1 _ _. split; [intros _; fine_ops|apply ops_fine_nil].
Qed.

Lemma hex_digit_ascii n : 0 <= n < 16 -> is_ascii (hex_digit n) = true.
Proof.
  intros Hn. unfold hex_digit.
  assert (n ∈ seqZ 0 16) as Hin by (apply elem_of_seqZ; lia).
  repeat (apply elem_of_cons in Hin as [->|Hin]; [done|]). by apply elem_of_nil in Hin.
Qed.

Lemma hex4_ascii n : 0 <= n < 65536 -> str_forall is_ascii (hex4 n) = true.
Proof.
  intros Hn. unfold hex4. cbn [str_forall]. by rewrite !hex_digit_ascii by div_lia.
Qed.

Lemma safe_Trigger j st : job_valid j -> safe (Trigger j) st.
Proof.
  intros (Hname & _ & _ & Hcmd & _ & _ & _ & _ & ? & ? & ?). unfold Trigger, manualStamp. cbn [prog_bind call].
  wp_next st1 now.
  apply wp_read; [by intros ??? [-> _]|]. intros st2 r _ _ _ [_ Hr].
  apply safe_bind; [|done]. apply safe_Enqueue.
  split_and!; try done. cbn [t_SchedAt].
  apply ascii_utf8_valid. rewrite !str_forall_app, FormatRFC3339Nano_ascii. simpl.
  apply hex4_ascii. lia.
Qed.

Lemma safe_Abandon n t st : safe (Abandon n t) st.
Proof.
  unfold Abandon, now_rfc3339. cbn [prog_bind call].
  wp_next st1 now. apply wp_txn; [|done].
  intros st2 _ _. split; [intros _|apply ops_fine_nil]. fine_ops.
Qed.

Lemma fine_publish st t (r : Result) : ops_fine st [OpPut (ResultKey t) (marshal r) NoLease].
Proof. fine_ops. Qed.

Lemma safe_FinishSuccess n t r st : r_JobID r = t_JobID t -> r_SchedAt r = t_SchedAt t ->
  safe (FinishSuccess n t r) st.
Proof.
  intros H1 H2. unfold FinishSuccess, overlapRelease. apply wp_txn; [|done]. intros st1 _ _.
  split; [intros _|apply fine_publish]. destruct (t_NoOverlap t); cbn [negb app]; fine_ops.
Qed.

Lemma retry_ticket_valid t now : ticket_valid t -> ticket_valid (retry_ticket t now).
Proof. 
  intros (? & ? & ? & _ & ? & ? & ? & ?). split_and!; try done. apply FormatRFC3339_valid.
 Qed.

Lemma safe_FinishFailure n t r now st : ticket_valid t -> r_JobID r = t_JobID t ->
  r_SchedAt r = t_SchedAt t -> safe (FinishFailure n t r now) st.
Proof.
  intros Hv H1 H2. unfold FinishFailure, overlapRelease. apply wp_txn; [|done]. intros st1 _ _.
  pose proof (retry_ticket_valid t now Hv).
  split; [intros _|apply fine_publish].
  destruct (t_MaxRetries t <? t_Attempt t), (t_NoOverlap t); cbn [negb app]; fine_ops.
Qed.

(** ** Claiming *)

Lemma bump_valid t : ticket_valid t -> ticket_valid (bump t).
Proof. intros (? & ? & ? & ? & ? & ? & ? & _). split_and!; try done. apply wrap64_in. Qed.

Lemma wp_claim n rev t st : ticket_valid t ->
  wp (claim n (PendingKey t) rev t) (fun a _ => a.2 = bump t) st.
Proof.
  intros Hv. pose proof (bump_valid t Hv). unfold claim, PendingKey. rewrite str_drop_app. cbn [prog_bind call].
  wp_next st1 l1. fold (bump t) (PendingKey t).
  change (t_NoOverlap (bump t)) with (t_NoOverlap t).
  destruct (t_NoOverlap t); cbn [prog_bind call app].
  - wp_next st2 l2. apply wp_txn; [|by intros []].
    intros st3 _ [Hwf _]. split; [intros Hc|apply ops_fine_nil]. cbn [forallb] in Hc.
    rewrite !andb_true_iff, !cmp_version_0 in Hc by done. destruct Hc as (Hc & _ & Ho & _).
    split; [cbn [map op_key]; change (ClaimedPrefix +:+ stamp t) with (ClaimedKey t); nodup_keys|].
    repeat (constructor; [first [by apply fine_put_pending|by apply fine_put_exclusive]|]); constructor.
  - apply wp_txn; [|by intros []].
    intros st3 _ [Hwf _]. split; [intros Hc|apply ops_fine_nil]. cbn [forallb] in Hc.
    rewrite !andb_true_iff, !cmp_version_0 in Hc by done. destruct Hc as (Hc & _).
    split; [cbn [map op_key]; change (ClaimedPrefix +:+ stamp t) with (ClaimedKey t); nodup_keys|].
    repeat (constructor; [first [by apply fine_put_pending|by apply fine_put_exclusive]|]); constructor.
Qed.

Lemma safe_skipStale n rev t st : safe (skipStale n (PendingKey t) rev t) st.
Proof.
  unfold skipStale, now_rfc3339. cbn [prog_bind call].
  wp_next st1 now. apply wp_txn; [|done].
  intros st2 _ _. split; [intros _|apply ops_fine_nil]. fine_ops.
Qed.

(** What a scan finds sits under its own key. *)
Definition own_keys (entries : list (string * Entry)) : Prop :=
  Forall (fun p => own_key p.1 (e_value p.2)) entries.

Definition claimed_valid (r : result string (option Ticket)) : Prop :=
  match r with Ok (Some t) => ticket_valid t | _ => True end.

Lemma wp_claim_scan n entries now st : own_keys entries ->
  wp (claim_scan n entries now) (fun r _ => claimed_valid r) st.
Proof.
  intros Hown. revert st. induction Hown as [|[k e] entries Hk _ IH]; intros st; [done|].
  cbn [claim_scan]. cbn [fst snd] in Hk. specialize (Hk : own_key k (e_value e)).
  destruct (unmarshal (e_value e)) as [t|] eqn:Eu; [|apply IH].
  pose proof (unmarshal_valid _ _ Eu) as Hv. rewrite (Hk t Eu) in *. clear Hk Eu.
  destruct (not_yet t now); [apply IH|].
  apply wp_bind. eapply wp_mono; [by apply wp_claim|]. intros [[] t'] st1 Ht; cbn [snd] in Ht; subst t'.
  { by apply bump_valid. }
  apply wp_bind. change (t_NoOverlap (bump t)) with (t_NoOverlap t).
  assert (forall held st2, wp (if held : bool
      then let! r := skipStale n (PendingKey t) (e_modrev e) (bump t) in
           match r with Err err => Ret (Err err) | Ok _ => claim_scan n entries now end
      else claim_scan n entries now) (fun r _ => claimed_valid r) st2) as Hrest.
  { intros [] st2; [|apply IH]. apply wp_bind.
    change (PendingKey t) with (PendingKey (bump t)).
    eapply wp_mono; [apply safe_skipStale|]. intros [[]|] st3 _; [apply IH|done]. }
  destruct (t_NoOverlap t); [|apply Hrest]. unfold overlapHeld. cbn [prog_bind call].
  wp_next st2 x. apply Hrest.
Qed.

Lemma wp_ClaimNext n now st : wp (ClaimNext n now) (fun r _ => claimed_valid r) st.
Proof.
  unfold ClaimNext. cbn [prog_bind call]. apply wp_read; [by intros ??? [-> _]|].
  intros st1 [entries|e] _ _ [_ Hi] [_ Hx]; [|done]. apply wp_claim_scan. subst entries.
  apply Forall_forall. intros [k e] [Hk Hp]%elem_of_range. by apply (Hi k e Hp Hk).
Qed.

(** ** The worker *)

Lemma safe_execute goos n t st : ticket_valid t -> safe (execute goos n t) st.
Proof.
  intros Hv. unfold execute, Executor_Run. cbn [prog_bind call].
  wp_next st1 start.
  wp_next st2 c.
  wp_next st3 finished.
  case_match.
  - apply safe_bind; [|done]. by apply safe_FinishSuccess.
  - wp_next st4 now.
    apply safe_bind; [|done]. by apply safe_FinishFailure.
Qed.

Lemma safe_worker_job goos n st : safe (worker_job goos n) st.
Proof.
  unfold worker_job, claim_one. cbn [prog_bind call].
  wp_next st1 now.
  apply wp_bind, wp_bind. eapply wp_mono; [apply wp_ClaimNext|].
  intros [[t|]|e] st2 Hr; [|done..]. by apply safe_execute.
Qed.

(** ** The scheduler *)

Lemma wp_List st : wp List (fun r _ => match r with Ok l => Forall job_valid l | Err _ => True end) st.
Proof.
  unfold List. cbn [prog_bind call]. wp_next st1 [kvs|e]; [|done]. apply Forall_forall. intros j Hj.
  unfold read_jobs in Hj. apply list_elem_of_omap in Hj as ([k e] & _ & Hu). by eapply unmarshal_valid.
Qed.

Lemma fire_ticket_valid j f : job_valid j -> ticket_valid (fire_ticket j f).
Proof.
  intros (? & _ & _ & ? & _ & _ & _ & _ & ? & ? & ?). split_and!; try done.
  apply FormatRFC3339Nano_valid.
Qed.

Lemma safe_enqueueFire j f wm st : job_valid j -> safe (enqueueFire j f wm) st.
Proof.
  intros Hv. unfold enqueueFire. apply safe_bind; [|done].
  by apply safe_EnqueueFire, fire_ticket_valid.
Qed.

Lemma safe_advance id t st : safe (advance id t) st.
Proof.
  apply tickets_elsewhere. unfold advance, AdvanceWatermark. repeat footprint_step; family.
Qed.

Lemma safe_enqueue_all j fires st : job_valid j -> safe (enqueue_all j fires) st.
Proof.
  intros Hv. revert st. induction fires as [|f fires IH]; intros st; [done|]. cbn [enqueue_all prog_bind call].
  wp_next st1 []; [|done].
  apply safe_bind; [by apply safe_enqueueFire|auto].
Qed.

Lemma safe_scheduleJob j now st : job_valid j -> safe (scheduleJob loadLocation j now) st.
Proof.
  intros Hv. unfold scheduleJob, Watermark. cbn [prog_bind call].
  wp_next st1 wm.
  assert (forall st0, wp (Ret tt) (fun _ _ => True) st0) as Hret by done.
  repeat first [ apply safe_advance | by apply safe_enqueueFire | by apply safe_enqueue_all
               | apply safe_ret | case_match ].
Qed.

Lemma safe_schedule_all now all st : Forall job_valid all ->
  safe (schedule_all loadLocation now all) st.
Proof.
  intros Hall. revert st. induction Hall as [|j all Hj _ IH]; intros st; [done|]. cbn [schedule_all prog_bind call].
  wp_next st1 []; cbn [negb]; [|done].
  case_match; [apply IH|]. apply safe_bind; [by apply safe_scheduleJob|auto].
Qed.

Lemma safe_sweep n live pending st : safe (sweep n live pending) st.
Proof.
  revert st. induction pending as [|t pending IH]; intros st; [done|]. cbn [sweep prog_bind call].
  wp_next st1 []; cbn [negb]; [|done].
  case_match; [apply IH|]. apply safe_bind; [apply safe_Abandon|auto].
Qed.

Lemma safe_tickOnce n st : safe (tickOnce n loadLocation) st.
Proof.
  unfold tickOnce. cbn [prog_bind call]. wp_next st1 now.
  apply wp_bind. eapply wp_mono; [apply wp_List|]. intros [all|e] st2 Hall; [|done].
  apply safe_bind; [by apply safe_schedule_all|]. intros [] st3; [|done]. cbn [negb prog_bind call].
  wp_next st4 []; [|done].
  unfold sweepOrphans, PendingTickets. cbn [prog_bind call].
  wp_next st5 [p|e]; [apply safe_sweep|done].
Qed.

Lemma safe_gcOnce lastGC st : safe (gcOnce lastGC) st.
Proof.
  apply tickets_elsewhere. unfold gcOnce.
  assert (forall r now, footprint (in_families [ResultsPrefix; WatermarkPrefix; JobsPrefix; membersPrefix])
    (GCResults r now)) as Hgc.
  { intros r now. eapply footprint_mono; [|apply fp_GCResults]. intros k.
    by apply families_sub. }
  repeat first [footprint_step | apply Hgc].
Qed.

Lemma safe_scheduler n turns st : safe (Scheduler_Run n loadLocation turns) st.
Proof.
  unfold Scheduler_Run. apply safe_bind; [|done]. generalize zero_time. revert st.
  induction turns as [|turns IH]; intros st t; [done|]. cbn [sched_turns].
  apply safe_bind; [|auto]. unfold sched_turn. cbn [prog_bind call].
  wp_next st1 []; [|done].
  apply safe_bind; [apply safe_tickOnce|]. intros. apply safe_gcOnce.
Qed.

(** ** The API *)

Lemma safe_jobs_request {A} (p : Prog A) st : footprint jobs_keys p -> safe (forget p) st.
Proof.
  intros Hp. apply safe_bind; [|done]. apply tickets_elsewhere.
  eapply footprint_mono; [|exact Hp]. intros k. by apply families_sub.
Qed.

Lemma safe_read_request {A} (p : Prog A) st : footprint (in_families []) p -> safe (forget p) st.
Proof.
  intros Hp. apply safe_jobs_request. eapply footprint_mono; [|exact Hp].
  intros k. by apply families_sub.
Qed.

Lemma safe_trigger path st : safe (trigger path) st.
Proof.
  unfold trigger, with_id. destruct (ParseInt path) as [id|]; [|done].
  unfold Get. cbn [prog_bind call]. wp_next st1 [[e|]|e]; [|done..]. unfold opt_or.
  destruct (unmarshal (e_value e)) as [j|] eqn:Eu; [|done].
  apply safe_bind; [|by intros []]. by eapply safe_Trigger, unmarshal_valid.
Qed.

(** ** The election *)

Lemma safe_campaign info l st : safe (campaign_txn info l) st.
Proof.
  unfold campaign_txn. apply wp_txn; [|done]. intros st1 _ [Hwf _].
  split; [|apply ops_fine_nil]. cbn [forallb]. rewrite andb_true_r, cmp_version_0 by done.
  intros Hn. split; [cbn [map op_key]; nodup_keys|]. constructor; [|constructor].
  change leaderKey with (leaderKey +:+ ""). by apply fine_put_exclusive.
Qed.

Lemma safe_register id member l st : safe (register_put id member l) st.
Proof. apply tickets_elsewhere. unfold register_put. repeat footprint_step; family. Qed.

Lemma node_program_safe p st : node_program loadLocation p -> safe p st.
Proof.
  destruct (fp_reads loadLocation "") as (? & _ & ?). intros []; auto using
    safe_scheduler, safe_worker_job, safe_read_request, safe_jobs_request, fp_createJob,
    fp_updateJob, fp_deleteJob, fp_enable, fp_Members.
  - apply safe_read_request. by destruct (fp_reads loadLocation path) as (_ & ? & _).
  - apply safe_bind; [apply safe_trigger|done].
Qed.

Lemma orbix_program_safe p st : orbix_program loadLocation p -> safe p st.
Proof.
  intros [q Hq|info l|id m l]; [by apply node_program_safe|..]; (apply safe_bind; [|done]).
  - apply safe_campaign.
  - apply safe_register.
Qed.

(** ** The running cluster *)

(** C1: no ticket is lost. Whatever programs run, on any number of nodes,
    however their requests interleave, whichever fail or crash and whichever
    leases expire: when a step removes a pending ticket, a result for its job
    and time is there after the step. *)
Theorem no_ticket_lost st0 c c' k : tickets_inv st0 ->
  reachable (orbix_program loadLocation) (st0, []) c ->
  sys_step (orbix_program loadLocation) c c' ->
  is_pending k -> is_Some (value_at c.1 k) -> value_at c'.1 k = None -> closed c'.1 k.
Proof.
  intros H0 Hr Hs Hp Hk Hk'.
  destruct (reachable_step_ok TicketProtocol _ orbix_program_safe st0 c c' H0 Hr Hs) as [_ [Hg _]].
  apply value_at_is_Some in Hk. apply value_at_None in Hk'.
  destruct (Hg k Hp Hk) as [[e He]|H]; [by rewrite He in Hk'|done].
Qed.

(** C3: a claim does not change hands, nor does the overlap lock of a job or the
    leadership: in any step of the cluster the owner stays the owner, or the key
    is removed. *)
Theorem claims_never_change_hands st0 c c' k n : tickets_inv st0 ->
  reachable (orbix_program loadLocation) (st0, []) c ->
  sys_step (orbix_program loadLocation) c c' ->
  (exists t, k = ClaimedKey t) \/ (exists id, k = OverlapKey id) \/ k = leaderKey ->
  value_at c.1 k = Some n -> value_at c'.1 k = Some n \/ value_at c'.1 k = None.
Proof.
  intros H0 Hr Hs Hk. assert (exclusive k) as Hx by (destruct Hk as [[t ->]|[[id ->]| ->]]; family).
  destruct (reachable_step_ok TicketProtocol _ orbix_program_safe st0 c c' H0 Hr Hs) as [_ [_ Hg]].
  by apply Hg.
Qed.

(** C27: pending tickets survive node failures: they hang on no lease, so no
    expiry removes one, and each sits under the key of its own job and time. *)
Theorem pending_tickets_durable st0 c k e : tickets_inv st0 ->
  reachable (orbix_program loadLocation) (st0, []) c ->
  is_pending k -> kvs c.1 !! k = Some e ->
  e_lease e = NoLease /\ (forall l, l <> NoLease -> kvs (expire l c.1) !! k = Some e) /\
  forall t, unmarshal (e_value e) = Some t -> k = PendingKey t.
Proof.
  intros H0 Hr Hp Hk.
  destruct (reachable_ok TicketProtocol _ orbix_program_safe st0 c H0 Hr) as [[_ Hi] _].
  destruct (Hi k e Hp Hk) as [Hl Ho]. split_and!; [done| |done].
  intros l Hne. apply map_lookup_filter_Some. cbn [snd]. split; [done|]. congruence.
Qed.
End safety.
