(* ===== verification/JobProtocol.v ===== *)
(** * The protocol of job ids

    The counter only grows; when it grows, it grows by one and a job appears
    under the new id, where nothing was before; no job is stored under an id the
    counter has not reached.  So an id is never given twice, whatever
    interleaves, crashes or fails, as long as etcd's revision (a 64-bit number
    that grows with every write) does not overflow. *)
From S2P Require Import Prelude GoStrings GoTime Cron Model Etcd Exec System Footprint.
From S2P Require Import Queue QueueFacts Jobs JobFacts Scheduler Worker Api Cluster Programs.

Open Scope string_scope.
Open Scope list_scope.
Open Scope orbix_scope.
Open Scope Z_scope.

Definition rev_ok (st : Store) : Prop := revision st < 2 ^ 63.

Definition stored (st : Store) (id : Z) : Prop := is_Some (kvs st !! key id).

Definition counter_ok (st : Store) : Prop :=
  0 <= counter st <= revision st /\
  (forall e, kvs st !! idCounterKey = Some e -> e_lease e = NoLease) /\
  (forall id, stored st id -> id <= counter st).

Definition jobs_inv (st : Store) : Prop := store_wf st /\ (rev_ok st -> counter_ok st).

(** The counter stays, or one id is given to a job of its own. *)
Definition id_given (st st' : Store) : Prop :=
  counter st' = counter st + 1 /\ ~ stored st (counter st') /\ stored st' (counter st').

Definition jobs_guar (st st' : Store) : Prop :=
  revision st <= revision st' /\ (rev_ok st' -> counter st' = counter st \/ id_given st st').

Definition jobs_rely (st st' : Store) : Prop :=
  revision st <= revision st' /\ (rev_ok st' -> counter st <= counter st').

Lemma jobs_guar_refl st : jobs_guar st st.
Proof. split; [done|]. by left. Qed.

Lemma jobs_guar_rely st st' : jobs_guar st st' -> jobs_rely st st'.
Proof. intros [Hr H]. split; [done|]. intros Hok. destruct (H Hok) as [->|[-> _]]; lia. Qed.

Lemma jobs_rely_trans st1 st2 st3 : jobs_rely st1 st2 -> jobs_rely st2 st3 -> jobs_rely st1 st3.
Proof.
  intros [Hr1 H1] [Hr2 H2]. split; [lia|]. intros Hok. specialize (H2 Hok).
  unfold rev_ok in *. lia.
Qed.

(** The counter is kept and no key of a job appears. *)
Lemma jobs_keep st st' : store_wf st' -> revision st <= revision st' ->
  kvs st' !! idCounterKey = kvs st !! idCounterKey ->
  (forall id, stored st' id -> stored st id) ->
  jobs_inv st -> jobs_inv st' /\ jobs_guar st st'.
Proof.
  intros Hwf Hr Hc Hs [_ Hi].
  assert (counter st' = counter st) as Hcount by (unfold counter; by rewrite Hc).
  split; [split; [done|]|].
  - intros Hok. assert (rev_ok st) as Hok0 by (unfold rev_ok in *; lia).
    destruct (Hi Hok0) as (H1 & H2 & H3). split_and!.
    + rewrite Hcount. lia.
    + rewrite Hcount. lia.
    + rewrite Hc. done.
    + intros id Hid. rewrite Hcount. auto.
  - split; [done|]. intros _. by left.
Qed.

Lemma jobs_expire l st : jobs_inv st -> l <> NoLease ->
  jobs_inv (expire l st) /\ jobs_guar st (expire l st).
Proof.
  intros [Hwf Hi] Hl.
  assert (forall k e, kvs (expire l st) !! k = Some e -> kvs st !! k = Some e) as Hsub
    by (by intros k e [? _]%map_lookup_filter_Some).
  assert (rev_ok (expire l st) ->
    kvs (expire l st) !! idCounterKey = kvs st !! idCounterKey) as Hc.
  { intros Hok. assert (rev_ok st) as Hok0 by (unfold rev_ok in *; simpl in *; lia).
    destruct (Hi Hok0) as (_ & Hlease & _).
    destruct (kvs st !! idCounterKey) as [e|] eqn:E.
    - apply map_lookup_filter_Some. split; [done|]. cbn [snd]. rewrite (Hlease e) by done. congruence.
    - destruct (kvs (expire l st) !! idCounterKey) eqn:E'; [|done]. apply Hsub in E'. congruence. }
  destruct (decide (rev_ok (expire l st))) as [Hok|Hno].
  - apply jobs_keep; [by apply store_wf_expire|simpl; lia|by apply Hc| |done].
    intros id [e He]. exists e. by apply Hsub.
  - split; [split; [by apply store_wf_expire|done]|]. split; [simpl; lia|done].
Qed.

Definition JobProtocol : Protocol := {|
  inv := jobs_inv;
  guar := jobs_guar;
  rely := jobs_rely;
  inv_wf := fun st H => proj1 H;
  guar_refl := jobs_guar_refl;
  guar_rely := jobs_guar_rely;
  rely_trans := jobs_rely_trans;
  inv_expire := jobs_expire;
  inv_grant := fun l st H => jobs_keep st (grant l st) (proj1 H) (Z.le_refl _) eq_refl
                               (fun _ H => H) H;
|}.

Lemma revision_mono st ops : revision st <= revision (apply_ops st ops).
Proof. simpl. case_match; lia. Qed.

(** ** Programs that leave the jobs alone *)

Lemma key_family id : HasPrefix (key id) JobsPrefix = true.
Proof. apply HasPrefix_app. Qed.

Lemma jobs_elsewhere {A} (ps : list string) (p : Prog A) st :
  Forall (fun q => prefix_apart q JobsPrefix = true) ps ->
  footprint (in_families ps) p -> safe JobProtocol p st.
Proof.
  intros Hps. apply footprint_safe. intros st1 ops Hi Hf _.
  assert (forall k, HasPrefix k JobsPrefix = true ->
    kvs (apply_ops st1 ops) !! k = kvs st1 !! k) as Hk.
  { intros k Hk. apply lookup_apply_ops_ne. intros Hin.
    apply list_elem_of_In, in_map_iff in Hin as (o & <- & Ho). apply list_elem_of_In in Ho.
    rewrite Forall_forall in Hf. specialize (Hf o Ho). apply Exists_exists in Hf as (q & Hq & Hp).
    rewrite Forall_forall in Hps. specialize (Hps q Hq).
    apply HasPrefix_spec in Hp as [r Hr]. by rewrite Hr, HasPrefix_apart in Hk. }
  apply jobs_keep; [apply store_wf_apply_ops; by destruct Hi|apply revision_mono| | |done].
  - by apply Hk.
  - intros id. unfold stored. by rewrite Hk by apply key_family.
Qed.

Section safety.
Context `{TJ : Json Ticket ticket_valid} `{RJ : Json Result result_valid}
  `{JJ : Json Job job_valid} `{MJ : Json Member member_valid}.
Context (loadLocation : string -> option Location).
#[local] Abbreviation safe := (safe JobProtocol).
#[local] Abbreviation wp := (wp JobProtocol).

(** ** The allocation of an id *)

Lemma create_commit st st1 j : jobs_inv st1 -> later st st1 -> store_wf st ->
  cmp_holds (kvs st1) (CModRevision idCounterKey (counter_of (kvs st !! idCounterKey)).2) = true ->
  let j' := j_set_ID j (wrap64 (counter st + 1)) in
  jobs_inv (apply_ops st1 (create_ops j')) /\ jobs_guar st1 (apply_ops st1 (create_ops j')).
Proof.
  intros [Hwf Hi] Hl Hwf0 Hc j'. pose proof (counter_unchanged st st1 Hwf0 Hl Hc) as Hcnt.
  assert (counter st = counter st1) as Heq by (unfold counter; by rewrite Hcnt).
  set (st2 := apply_ops st1 (create_ops j')).
  assert (revision st2 = revision st1 + 1) as Hrev by done.
  assert (rev_ok st2 -> j_ID j' = counter st1 + 1 /\ counter_ok st1) as Hid.
  { unfold rev_ok in *. rewrite Hrev. intros Hok. destruct Hi as (? & ? & ?); [lia|].
    split; [|done]. subst j'. cbn [j_ID j_set_ID]. rewrite Heq. apply wrap64_id. lia. }
  assert (forall k, k <> idCounterKey -> k <> key (j_ID j') -> kvs st2 !! k = kvs st1 !! k) as Hother.
  { intros k ??. apply lookup_apply_ops_ne. cbn. set_solver. }
  assert (rev_ok st2 -> counter st2 = counter st1 + 1) as Hcount.
  { intros Hok. destruct (Hid Hok) as [Hj (? & ? & ?)].
    unfold counter, st2, create_ops. cbn [kvs apply_ops foldl apply_op].
    rewrite lookup_insert_ne, lookup_insert_eq by apply key_ne_counter. cbn [counter_of e_value fst].
    rewrite ParseInt_FormatInt; [done|]. apply in_int64_spec. unfold rev_ok in Hok. lia. }
  assert (stored st2 (j_ID j')) as Hnew.
  { unfold stored, st2, create_ops. cbn [kvs apply_ops foldl apply_op]. rewrite lookup_insert_eq. eauto. }
  split; [split; [by apply store_wf_apply_ops|]|split; [apply revision_mono|]].
  - intros Hok. destruct (Hid Hok) as [Hj (? & Hlease & Hstored)]. split_and!.
    + rewrite Hcount by done. lia.
    + rewrite Hcount, Hrev by done. lia.
    + intros e. unfold st2, create_ops. cbn [kvs apply_ops foldl apply_op].
      rewrite lookup_insert_ne, lookup_insert_eq by apply key_ne_counter. by intros [= <-].
    + intros id Hs. rewrite Hcount by done. destruct (decide (id = j_ID j')) as [->|Hne]; [lia|].
      assert (stored st1 id) as Hs1.
      { unfold stored in *. rewrite Hother in Hs; [done|apply key_ne_counter|].
        by intros ?%key_inj. }
      apply Hstored in Hs1. lia.
  - intros Hok. right. destruct (Hid Hok) as [Hj (? & _ & Hstored)]. unfold id_given.
    rewrite Hcount by done. rewrite <- Hj. split_and!; [done| |done].
    intros Hs. apply Hstored in Hs. lia.
Qed.

Lemma safe_create_loop n j st : safe (create_loop n j) st.
Proof.
  revert j st. induction n as [|n IH]; intros j st; [done|]. cbn [create_loop prog_bind call].
  apply wp_read; [by intros ??? [-> _]|]. intros st1 [kv|e] _ _ [Hwf1 _] [_ Hx]; [|done]. subst kv.
  destruct (counter_of (kvs st1 !! idCounterKey)) as [cur modrev] eqn:Ec.
  cbn [prog_bind call]. intros st2 r st3 Hl _ Hi He.
  assert (cur = counter st1) as -> by (unfold counter; by rewrite Ec).
  assert (modrev = (counter_of (kvs st1 !! idCounterKey)).2) as -> by (by rewrite Ec).
  assert (jobs_inv st3 /\ jobs_guar st2 st3) as [? ?].
  { apply (txn_keeps JobProtocol _ _ _ _ _ _ Hi He).
    - cbn [forallb]. rewrite andb_true_r. intros Hc _. by apply (create_commit st1).
    - intros _ _. rewrite apply_ops_nil. split; [done|apply jobs_guar_refl]. }
  split_and!; try done. destruct r as [[]|e]; [done|apply IH|done].
Qed.

(** ** Writing a job that is known to be there *)

Definition id_known (id : Z) (st : Store) : Prop := rev_ok st -> id <= counter st.

Lemma id_known_later id st st' : jobs_rely st st' -> id_known id st -> id_known id st'.
Proof. intros [Hr H] Hk Hok. specialize (H Hok). unfold id_known, rev_ok in *. lia. Qed.

Lemma put_keeps id v l st : jobs_inv st -> id_known id st ->
  jobs_inv (apply_ops st [OpPut (key id) v l]) /\ jobs_guar st (apply_ops st [OpPut (key id) v l]).
Proof.
  intros [Hwf Hi] Hk. set (st' := apply_ops _ _).
  assert (kvs st' !! idCounterKey = kvs st !! idCounterKey) as Hc.
  { apply lookup_apply_ops_ne. cbn. pose proof (key_ne_counter id). set_solver. }
  assert (counter st' = counter st) as Hcount by (unfold counter; by rewrite Hc).
  assert (revision st' = revision st + 1) as Hrev by done.
  split; [split; [by apply store_wf_apply_ops|]|split; [lia|by left]].
  intros Hok. assert (rev_ok st) as Hok0 by (unfold rev_ok in *; lia).
  destruct (Hi Hok0) as (H1 & H2 & H3). rewrite <- Hcount in H1, H3.
  split_and!; [lia|lia|by rewrite Hc|].
  intros id' Hs. destruct (decide (id' = id)) as [->|Hne]; [rewrite Hcount; by apply Hk|].
  apply H3. unfold stored in *. subst st'. rewrite lookup_apply_ops_ne in Hs; [done|].
  cbn. intros [?%key_inj|?%elem_of_nil]%elem_of_cons; congruence.
Qed.

Lemma safe_put_job what id j st : id_known id st -> safe (put_job what id j) st.
Proof.
  intros Hk. unfold put_job. cbn [prog_bind call]. intros st1 r st2 Hl Hr Hi He.
  assert (jobs_inv st2 /\ jobs_guar st1 st2) as [? ?]; [|by split_and!].
  simpl in He. apply (txn_keeps JobProtocol _ _ _ _ _ _ Hi He); [|done].
  intros _ _. apply put_keeps; [done|]. by eapply id_known_later.
Qed.

Lemma wp_Get id st :
  wp (Get id) (fun r st' => match r with Ok _ => id_known id st' | Err _ => True end) st.
Proof.
  unfold Get. cbn [prog_bind call]. apply wp_read; [by intros ??? [-> _]|].
  intros st1 [[e|]|e] _ _ [_ Hi] [_ Hx]; [|done..].
  cbn. destruct (opt_or _ _); [|done]. intros Hok. apply (Hi Hok). by exists e.
Qed.

(** From a read to the write that follows it: the clock is asked in between. *)
Lemma safe_now_put what id (f : string -> Job) st : id_known id st ->
  safe (let! now := now_rfc3339 in put_job what id (f now)) st.
Proof.
  intros Hk. unfold now_rfc3339. cbn [prog_bind call]. apply wp_read; [by intros ??? ->|].
  intros st1 now _ Hr _ _. apply safe_put_job. by eapply id_known_later.
Qed.

Lemma safe_Update id j st : safe (Update loadLocation id j) st.
Proof.
  unfold Update. case_match; [done|]. apply wp_bind. eapply wp_mono; [apply wp_Get|].
  intros [cur|e] st1 Hk; [|done]. by apply (safe_now_put _ _ (fun now => _)).
Qed.

Lemma safe_SetEnabled id b st : safe (SetEnabled id b) st.
Proof.
  unfold SetEnabled. apply wp_bind. eapply wp_mono; [apply wp_Get|].
  intros [cur|e] st1 Hk; [|done]. by apply (safe_now_put _ _ (fun now => _)).
Qed.

Lemma safe_Delete id st : safe (Delete id) st.
Proof.
  unfold Delete. cbn [prog_bind call]. apply safe_vis; [|done].
  intros st1 r st2 _ _ Hi He. apply (txn_keeps JobProtocol _ _ _ _ _ _ Hi He); [|done].
  intros _ _. apply jobs_keep; [apply store_wf_apply_ops; by destruct Hi|apply revision_mono| | |done].
  - apply lookup_apply_ops_ne. cbn. pose proof (key_ne_counter id).
    assert (WatermarkKey id <> idCounterKey)
      by (change idCounterKey with (JobsPrefix +:+ "_counter"); apply prefix_ne; done).
    set_solver.
  - intros id' Hs. unfold stored in *. cbn [kvs apply_ops foldl apply_op] in Hs.
    destruct Hs as [e He']. rewrite !lookup_delete_Some in He'. exists e. naive_solver.
Qed.

(** ** All programs *)

Lemma orbix_program_keeps_ids p st : orbix_program loadLocation p -> safe p st.
Proof.
  assert (forall A (q : Prog A) st', safe q st' -> safe (forget q) st') as Hforget
    by (intros; by apply safe_bind).
  assert (forall A (q : Prog A) ps st', forallb (fun x => prefix_apart x JobsPrefix) ps = true ->
    footprint (in_families ps) q -> safe q st') as Helse.
  { intros A q ps st' Hps. apply jobs_elsewhere. apply Forall_forall. intros x Hx.
    rewrite forallb_forall in Hps. by apply Hps, list_elem_of_In. }
  destruct (fp_reads loadLocation "") as (Hlist & _ & Hsnap).
  intros [q Hq|info l|id m l]; [destruct Hq as [n turns|goos n| |body|path|path body|path|v path|path| |]|..].
  - eapply Helse; [|apply fp_scheduler]. done.
  - eapply Helse; [|apply fp_worker_job]. done.
  - apply Hforget. by eapply Helse; [|apply Hlist].
  - apply Hforget. unfold createJob. destruct body as [j|]; [|done]. apply safe_bind; [|by intros []].
    unfold Create. case_match; [done|]. unfold now_rfc3339. cbn [prog_bind call].
    wp_next st1 now. apply safe_create_loop.
  - apply Hforget. destruct (fp_reads loadLocation path) as (_ & Hget & _).
    by eapply Helse; [|apply Hget].
  - apply Hforget. unfold updateJob, with_id. case_match; [|done]. case_match; [|done].
    apply safe_bind; [apply safe_Update|by intros []].
  - apply Hforget. unfold deleteJob, with_id. case_match; [|done].
    apply safe_bind; [apply safe_Delete|by intros []].
  - apply Hforget. unfold enable, with_id. case_match; [|done].
    apply safe_bind; [apply safe_SetEnabled|by intros []].
  - apply Hforget. by eapply Helse; [|apply fp_trigger].
  - apply Hforget. by eapply Helse; [|apply Hsnap].
  - apply Hforget. by eapply Helse; [|apply fp_Members].
  - apply Hforget. apply (Helse _ _ [leaderKey]); [done|]. unfold campaign_txn.
    repeat footprint_step; family.
  - apply Hforget. apply (Helse _ _ [membersPrefix]); [done|]. unfold register_put.
    repeat footprint_step; family.
Qed.

Lemma counter_mono st0 c c' : jobs_inv st0 ->
  reachable (orbix_program loadLocation) (st0, []) c ->
  reachable (orbix_program loadLocation) c c' -> jobs_rely c.1 c'.1.
Proof.
  intros H0 Hr Hr'. induction Hr' as [|c1 c2 Hr1 IH Hs].
  - split; [done|lia].
  - eapply jobs_rely_trans; [exact IH|]. apply jobs_guar_rely.
    eapply (reachable_step_ok JobProtocol _ orbix_program_keeps_ids st0 c1 c2 H0); [|done].
    by eapply reach_trans.
Qed.

(** C6: ids are never reused. In a running cluster, with any number of
    concurrent creations, updates and deletions: a step that moves the counter
    moves it by one, to an id under which nothing was stored, and stores the job
    there; the counter never goes back, and no job is stored beyond it. *)
Theorem job_ids_never_reused st0 c c1 c2 : jobs_inv st0 ->
  reachable (orbix_program loadLocation) (st0, []) c ->
  sys_step (orbix_program loadLocation) c c1 ->
  reachable (orbix_program loadLocation) c1 c2 -> rev_ok c2.1 ->
  (counter c1.1 = counter c.1 \/
   (counter c1.1 = counter c.1 + 1 /\ ~ stored c.1 (counter c1.1) /\ stored c1.1 (counter c1.1))) /\
  counter c1.1 <= counter c2.1 /\
  forall id, stored c2.1 id -> id <= counter c2.1.
Proof.
  intros H0 Hr Hs Hr2 Hok.
  destruct (reachable_step_ok JobProtocol _ orbix_program_keeps_ids st0 c c1 H0 Hr Hs) as [_ [_ Hg]].
  assert (reachable (orbix_program loadLocation) (st0, []) c1) as Hr1 by (by eapply reach_step).
  destruct (counter_mono st0 c1 c2 H0 Hr1 Hr2) as [Hrev Hmono].
  split; [apply Hg; unfold rev_ok in *; lia|]. split; [by apply Hmono|].
  destruct (reachable_ok JobProtocol _ orbix_program_keeps_ids st0 c2 H0) as [[_ Hi] _].
  { by eapply reach_trans. }
  by destruct (Hi Hok) as (_ & _ & ?).
Qed.
End safety.
