(* ===== verification/ClusterSystem.v ===== *)
(** * A cluster of whole nodes

    Any number of nodes on one etcd.  A node has its shared fields and its
    goroutines: the election (after [Connect]), [MaintainClaims], and any number
    of scheduler, worker and API programs, which ask the node whether it leads
    and which claim lease it holds.  One request of one goroutine at a time;
    nodes join and crash at any moment, and leases expire at any moment.

    A node that is told to stop is not gone at once: [main] closes it
    ([cl_close]) while the goroutines it had, the tasks in flight included, may
    still make requests until the process exits.  Such a node is kept apart
    ([c_closing]): its sessions may be closed under a goroutine that still takes
    itself for the leader, so what is promised of a running node is not promised
    of it, but what it does is part of the system.

    [cluster_refines_system]: seen from etcd, such a cluster is a [System] of
    [orbix_program]s, so what is proved of the system holds of the cluster. *)
From S2P Require Import Prelude GoStrings GoTime Model Config Etcd Exec System Effects Footprint.
From S2P Require Import Queue Jobs Scheduler Worker Api Cluster Programs.

Open Scope string_scope.
Open Scope list_scope.
Open Scope orbix_scope.
Open Scope Z_scope.

Record NodeProc := mkProc {
  p_uid : nat;
  p_node : Node;
  p_run : NProg unit;
  p_claims : NProg unit;
  p_tasks : list (Prog unit);
}.

(** A process on its way out: the goroutines of the node with that of [main],
    and the tasks in flight. *)
Record ClosingProc := mkClosing {
  k_uid : nat;
  k_node : Node;
  k_threads : list (NProg unit);
  k_tasks : list (Prog unit);
}.

Record Cluster := mkCluster {
  c_store : Store;
  c_granted : gmap LeaseID nat;
  c_nodes : list NodeProc;
  c_closing : list ClosingProc;
}.

(** What [main] does of the node on its way out: [node.Close()], and once more
    as a deferred call. *)
Definition close_node : NProg unit := let! _ := Close in Close.

Definition closing (p : NodeProc) : ClosingProc :=
  mkClosing (p_uid p) (p_node p) [p_run p; p_claims p; close_node] (p_tasks p).

Definition world_of (c : Cluster) (p : NodeProc) : NWorld :=
  mkNWorld (c_store c) (c_granted c) (p_uid p) (p_node p).

(** After a request of the [i]-th node. *)
Definition c_update (c : Cluster) (i : nat) (w : NWorld) (p : NodeProc) : Cluster :=
  mkCluster (w_store w) (w_granted w) (<[i := p]> (c_nodes c)) (c_closing c).

(** The same for a node on its way out. *)
Definition world_of_closing (c : Cluster) (k : ClosingProc) : NWorld :=
  mkNWorld (c_store c) (c_granted c) (k_uid k) (k_node k).

Definition k_update (c : Cluster) (i : nat) (w : NWorld) (k : ClosingProc) : Cluster :=
  mkCluster (w_store w) (w_granted w) (c_nodes c) (<[i := k]> (c_closing c)).

Definition c_set_closing (c : Cluster) (ks : list ClosingProc) : Cluster :=
  mkCluster (c_store c) (c_granted c) (c_nodes c) ks.

Definition c_set_store (c : Cluster) (st : Store) : Cluster :=
  mkCluster st (c_granted c) (c_nodes c) (c_closing c).

Definition c_set_nodes (c : Cluster) (ns : list NodeProc) : Cluster :=
  mkCluster (c_store c) (c_granted c) ns (c_closing c).

Definition p_set_tasks (p : NodeProc) (ts : list (Prog unit)) : NodeProc :=
  mkProc (p_uid p) (p_node p) (p_run p) (p_claims p) ts.

(** What a task learns from its node: [node.IsLeader], and [node.ClaimLeaseID],
    which waits for the mutex. *)
Definition node_answer {X} (e : Ev X) (n : Node) : X -> Prop :=
  match e in Ev X return X -> Prop with
  | IsLeader => fun x => x = n_isLeader n
  | ClaimLease => fun x => n_claimMu n = false /\ x = lease_of (n_claimSession n)
  | _ => fun _ => True
  end.

Section cluster.
Context `{TJ : Json Ticket ticket_valid} `{RJ : Json Result result_valid}
  `{JJ : Json Job job_valid} `{MJ : Json Member member_valid}
  `{LJ : Json LeaderInfo leader_valid}.
Context (loadLocation : string -> option Location).

Inductive cl_step (c : Cluster) : Cluster -> Prop :=
| cl_run i p X (e : NEv X) k x w' : c_nodes c !! i = Some p -> p_run p = Vis e k ->
    nev_ok e (world_of c p) x w' ->
    cl_step c (c_update c i w' (mkProc (p_uid p) (w_node w') (k x) (p_claims p) (p_tasks p)))
| cl_claims i p X (e : NEv X) k x w' : c_nodes c !! i = Some p -> p_claims p = Vis e k ->
    nev_ok e (world_of c p) x w' ->
    cl_step c (c_update c i w' (mkProc (p_uid p) (w_node w') (p_run p) (k x) (p_tasks p)))
| cl_task i p j X (e : Ev X) k x st' : c_nodes c !! i = Some p -> p_tasks p !! j = Some (Vis e k) ->
    ev_ok e (c_store c) x st' -> node_answer e (p_node p) x ->
    cl_step c (c_update c i (w_set_store (world_of c p) st') (p_set_tasks p (<[j := k x]> (p_tasks p))))
| cl_spawn i p q : c_nodes c !! i = Some p -> node_program loadLocation q ->
    cl_step c (c_set_nodes c (<[i := p_set_tasks p (q :: p_tasks p)]> (c_nodes c)))
| cl_end i p j : c_nodes c !! i = Some p ->
    cl_step c (c_set_nodes c (<[i := p_set_tasks p (delete j (p_tasks p))]> (c_nodes c)))
| cl_join uid cfg turns fuel turns' fuel' :
    Forall (fun p => p_uid p <> uid) (c_nodes c) -> Forall (fun k => k_uid k <> uid) (c_closing c) ->
    (forall l, c_granted c !! l <> Some uid) ->
    cl_step c (c_set_nodes c (c_nodes c ++
      [mkProc uid new_node (node_main cfg turns fuel) (MaintainClaims cfg turns' fuel') []]))
| cl_crash i : cl_step c (c_set_nodes c (delete i (c_nodes c)))
| cl_expire l : l <> NoLease -> cl_step c (c_set_store c (expire l (c_store c)))
| cl_close i p : c_nodes c !! i = Some p ->
    cl_step c (c_set_closing (c_set_nodes c (delete i (c_nodes c))) (closing p :: c_closing c))
| cl_thread i q j X (e : NEv X) k x w' : c_closing c !! i = Some q -> k_threads q !! j = Some (Vis e k) ->
    nev_ok e (world_of_closing c q) x w' ->
    cl_step c (k_update c i w' (mkClosing (k_uid q) (w_node w') (<[j := k x]> (k_threads q)) (k_tasks q)))
| cl_last_task i q j X (e : Ev X) k x st' : c_closing c !! i = Some q ->
    k_tasks q !! j = Some (Vis e k) -> ev_ok e (c_store c) x st' -> node_answer e (k_node q) x ->
    cl_step c (k_update c i (w_set_store (world_of_closing c q) st')
                 (mkClosing (k_uid q) (k_node q) (k_threads q) (<[j := k x]> (k_tasks q))))
| cl_exit i : cl_step c (c_set_closing c (delete i (c_closing c))).

Inductive cl_reachable (c0 : Cluster) : Cluster -> Prop :=
| clr_refl : cl_reachable c0 c0
| clr_step c c' : cl_reachable c0 c -> cl_step c c' -> cl_reachable c0 c'.

Definition empty_cluster (st : Store) : Cluster := mkCluster st ∅ [] [].

(** ** The requests a node makes of etcd besides its tasks *)

Definition ev_allowed {X} (e : Ev X) : Prop :=
  match e with
  | Txn c t f => exists info l, c = [CVersion leaderKey 0] /\ t = [OpPut leaderKey info l] /\ f = []
  | Put k v l => exists id, k = membersPrefix +:+ id
  | _ => True
  end.

Definition nev_allowed {X} (e : NEv X) : Prop :=
  match e with NEtcd e => ev_allowed e | _ => True end.

Fixpoint allowed {A} (p : NProg A) : Prop :=
  match p with
  | Ret _ | Panic => True
  | Vis e k => nev_allowed e /\ forall x, allowed (k x)
  end.

Lemma allowed_bind {A B} (p : NProg A) (f : A -> NProg B) :
  allowed p -> (forall a, allowed (f a)) -> allowed (prog_bind p f).
Proof.
  induction p as [a| |X e k IH]; simpl; intros Hp Hf; [done..|].
  destruct Hp. split; [done|]. intros x. auto.
Qed.

(** One request, one branch or one call at a time. *)
Ltac allowed_step :=
  match goal with
  | |- True => exact I
  | |- allowed (Ret _) => exact I
  | |- allowed (prog_bind (call _) _) => cbn [prog_bind call]
  | |- allowed (Vis _ _) => split; [cbn; eauto|intros ?]
  | |- allowed (call _) => split; [cbn; eauto|intros ?; exact I]
  | |- allowed (prog_bind _ _) => apply allowed_bind; [|intros ?]
  | |- allowed (match ?x with _ => _ end) => destruct x
  end.

Lemma allowed_ensure n m ttl : allowed (ensure n m ttl).
Proof.
  assert (forall b, allowed (ensure_loop n m ttl b)) as Hl.
  { induction n as [|n IH]; intros b; cbn [ensure_loop]; repeat first [allowed_step|apply IH]. }
  unfold ensure, locked. repeat first [allowed_step|apply Hl].
Qed.

Lemma allowed_drop m : allowed (drop_session m).
Proof. unfold drop_session, locked. repeat allowed_step. Qed.

Lemma allowed_sleep d : allowed (sleep d).
Proof. unfold sleep. repeat allowed_step. Qed.

Lemma allowed_done m : allowed (session_done m).
Proof. unfold session_done, locked. repeat allowed_step. Qed.

Ltac allow :=
  repeat first [ allowed_step | apply allowed_ensure | apply allowed_drop | apply allowed_sleep
               | apply allowed_done ].

Lemma allowed_follow turns : allowed (follow turns).
Proof.
  assert (forall evs, allowed (follow_events evs)) as He.
  { induction evs as [|[k v|k] evs IH]; cbn [follow_events]; unfold rememberLeader; allow; apply IH. }
  assert (forall d, allowed (follow_loop turns d)) as Hl.
  { induction turns as [|n IH]; intros d; cbn [follow_loop]; unfold dropSession;
      repeat first [progress allow | apply He | apply IH]. }
  unfold follow, dropSession, rememberLeader. repeat first [progress allow | apply Hl].
Qed.

Lemma allowed_node_main cfg turns fuel : allowed (node_main cfg turns fuel).
Proof.
  assert (allowed (run_turn cfg fuel)) as Ht.
  { unfold run_turn, start_over, ensureSession, registerMember, campaign, lead, locked, now_utc,
      dropSession, node_LeaseID, session_lease, locked. cbn [embed register_put campaign_txn call].
    repeat first [progress allow | apply allowed_follow | progress cbn [embed now_rfc3339 prog_bind call]]. }
  unfold node_main. apply allowed_bind.
  - unfold Connect, ensureSession, ensureClaimSession, dropSession. allow.
  - intros [_|]; [|done]. induction turns as [|n IH]; cbn [Node_Run];
      repeat first [allowed_step | apply Ht | apply IH].
Qed.

Lemma allowed_MaintainClaims cfg turns fuel : allowed (MaintainClaims cfg turns fuel).
Proof.
  induction turns as [|n IH]; cbn [MaintainClaims];
    unfold ensureClaimSession, dropClaimSession; repeat first [progress allow | apply IH].
Qed.

Lemma allowed_close_node : allowed close_node.
Proof. unfold close_node, Close, dropClaimSession, dropSession. allow. Qed.

(** ** Refinement: a cluster is a system of programs *)

(** The programs of a cluster, in any order. *)
Definition tasks_of (c : Cluster) : list (Prog unit) :=
  concat (map p_tasks (c_nodes c)) ++ concat (map k_tasks (c_closing c)).

Lemma tasks_at {P} (tasks : P -> list (Prog unit)) (ns : list P) i p : ns !! i = Some p ->
  concat (map tasks ns) ≡ₚ tasks p ++ concat (map tasks (delete i ns)).
Proof. intros Hi. by rewrite (delete_Permutation _ _ _ Hi) at 1. Qed.

Lemma tasks_update {P} (tasks : P -> list (Prog unit)) (ns : list P) i p p' : ns !! i = Some p ->
  concat (map tasks (<[i := p']> ns)) ≡ₚ tasks p' ++ concat (map tasks (delete i ns)).
Proof. intros Hi. by rewrite (insert_delete_Permutation _ _ _ p' Hi). Qed.

(** Requests of a system do not depend on the order of its programs. *)
Lemma call_any_order (program : Prog unit -> Prop) st st' X (e : Ev X) k x ts rest :
  ts ≡ₚ Vis e k :: rest -> ev_ok e st x st' ->
  exists ts', sys_step program (st, ts) (st', ts') /\ ts' ≡ₚ k x :: rest.
Proof.
  intros Hp He. assert (Vis e k ∈ ts) as Hin by (rewrite Hp; left).
  apply list_elem_of_lookup in Hin as [i Hi]. exists (<[i := k x]> ts).
  split; [by eapply step_call|]. rewrite (insert_delete_Permutation _ _ _ (k x) Hi). constructor.
  apply (Permutation_cons_inv (a := Vis e k)). by rewrite <- Hp, <- (delete_Permutation _ _ _ Hi).
Qed.

Lemma crash_any_order (program : Prog unit -> Prop) st p ts rest :
  ts ≡ₚ p :: rest -> exists ts', sys_step program (st, ts) (st, ts') /\ ts' ≡ₚ rest.
Proof.
  intros Hp. assert (p ∈ ts) as Hin by (rewrite Hp; left).
  apply list_elem_of_lookup in Hin as [i Hi]. exists (delete i ts). split; [apply step_crash|].
  apply (Permutation_cons_inv (a := p)). by rewrite <- Hp, <- (delete_Permutation _ _ _ Hi).
Qed.

#[local] Abbreviation sys_reach := (reachable (orbix_program loadLocation)).

(** From a system state to one with these programs, whatever their order. *)
Definition leads_to (c : config) (st : Store) (ts : list (Prog unit)) : Prop :=
  exists ts', sys_reach c (st, ts') /\ ts' ≡ₚ ts.

#[export] Instance leads_to_proper c st : Proper ((≡ₚ) ==> iff) (leads_to c st).
Proof.
  intros ts ts' Hp. unfold leads_to. by setoid_rewrite Hp.
Qed.

Lemma leads_to_refl st ts ts' : ts ≡ₚ ts' -> leads_to (st, ts) st ts'.
Proof. exists ts. split; [apply reach_refl|done]. Qed.

Lemma leads_to_step c st1 ts1 st2 ts2 : leads_to c st1 ts1 ->
  (forall ts, ts ≡ₚ ts1 -> exists ts', sys_step (orbix_program loadLocation) (st1, ts) (st2, ts') /\ ts' ≡ₚ ts2) ->
  leads_to c st2 ts2.
Proof.
  intros (ts & Hr & Hp) Hs. destruct (Hs ts Hp) as (ts' & Hs' & Hp'). exists ts'.
  split; [by eapply reach_step|done].
Qed.

Lemma crash_all c st ts rest : leads_to c st (ts ++ rest) -> leads_to c st rest.
Proof.
  induction ts as [|p ts IH]; [done|]. intros H. apply IH. eapply leads_to_step; [exact H|].
  intros ts' Hp. by eapply crash_any_order.
Qed.

(** A request of the election, made by a program that does nothing else. *)
Lemma one_request c st st' ts X (e : Ev X) x : ev_allowed e -> ev_ok e st x st' ->
  leads_to c st ts -> leads_to c st' ts.
Proof.
  assert (forall A (r : Ev A) (a : A), orbix_program loadLocation (forget (call r)) ->
    ev_ok r st a st' -> leads_to c st ts -> leads_to c st' ts) as Hone.
  { intros A r a Hprog Hr H.
    assert (leads_to c st (forget (call r) :: ts)) as H1.
    { eapply leads_to_step; [exact H|]. intros ts' Hp. exists (forget (call r) :: ts').
      split; [by apply step_start|by rewrite Hp]. }
    assert (leads_to c st' (Ret tt :: ts)) as H2.
    { eapply leads_to_step; [exact H1|]. intros ts' Hp.
      by apply (call_any_order _ st st' _ r (fun x => prog_bind (Ret x) (fun _ => Ret tt)) a). }
    by apply (crash_all c st' [Ret tt] ts). }
  intros Ha He Hl. destruct e; cbn in Ha, He;
    try (by first [subst st' | destruct He as [-> _]]).
  - destruct Ha as [id ->].
    apply (Hone _ (Put (membersPrefix +:+ id) v lease) x); [apply prog_register|done..].
  - destruct Ha as (info & l & -> & -> & ->).
    apply (Hone _ (Txn [CVersion leaderKey 0] [OpPut leaderKey info l] []) x); [apply prog_campaign|done..].
Qed.

Lemma nev_simulated c st ts X (e : NEv X) w x w' : nev_allowed e -> nev_ok e w x w' ->
  st = w_store w -> leads_to c st ts -> leads_to c (w_store w') ts.
Proof.
  intros Ha He -> Hl.
  assert (forall l, fresh_lease w l -> leads_to c (grant l (w_store w)) ts) as Hgrant.
  { intros l _. eapply leads_to_step; [exact Hl|]. intros ts' Hp. exists ts'.
    split; [apply step_grant|done]. }
  destruct e; cbn in Ha, He; try (by subst w'); try (by destruct He as [_ ->]);
    try (by destruct He as [-> _]).
  - destruct He as (st' & He & ->). by eapply one_request.
  - destruct x as [l|?].
    + destruct He as [Hf ->]. by apply Hgrant.
    + destruct He as [->|(l & Hf & ->)]; [done|by apply Hgrant].
  - destruct He as [->|[Hl0 ->]]; [done|]. eapply leads_to_step; [exact Hl|].
    intros ts' Hp. exists ts'. split; [by apply step_expire|done].
Qed.

(** The election goroutines of every node keep to their requests. *)
Definition nodes_allowed (c : Cluster) : Prop :=
  Forall (fun p => allowed (p_run p) /\ allowed (p_claims p)) (c_nodes c) /\
  Forall (fun q => Forall allowed (k_threads q)) (c_closing c).

Lemma nodes_allowed_step c c' : nodes_allowed c -> cl_step c c' -> nodes_allowed c'.
Proof.
  unfold nodes_allowed. intros [Hc Hk] Hs.
  assert (forall i p, c_nodes c !! i = Some p -> allowed (p_run p) /\ allowed (p_claims p)) as Hat
    by (intros; rewrite Forall_lookup in Hc; eauto).
  assert (forall i q, c_closing c !! i = Some q -> Forall allowed (k_threads q)) as Hth
    by (intros; rewrite Forall_lookup in Hk; eauto).
  destruct Hs as [i p X e k x w' Hi Hp He|i p X e k x w' Hi Hp He|i p j X e k x st' Hi Hj He Ha|
    i p q Hi Hq|i p j Hi|uid cfg turns fuel turns' fuel' Hu Hu' Hg|i|l Hl|
    i p Hi|i q j X e k x w' Hi Hj He|i q j X e k x st' Hi Hj He Ha|i];
    cbn [c_nodes c_closing c_update k_update c_set_nodes c_set_store c_set_closing];
    (split; [|try exact Hk]); try exact Hc.
  - apply Forall_insert; [done|]. destruct (Hat i p Hi) as [Hr Hcl]. rewrite Hp in Hr.
    split; [apply Hr|done].
  - apply Forall_insert; [done|]. destruct (Hat i p Hi) as [Hr Hcl]. rewrite Hp in Hcl.
    split; [done|apply Hcl].
  - apply Forall_insert; [done|]. by apply (Hat i p Hi).
  - apply Forall_insert; [done|]. by apply (Hat i p Hi).
  - apply Forall_insert; [done|]. by apply (Hat i p Hi).
  - apply Forall_app. split; [done|]. constructor; [|done].
    split; [apply allowed_node_main|apply allowed_MaintainClaims].
  - by apply Forall_delete.
  - by apply Forall_delete.
  - constructor; [|done]. destruct (Hat i p Hi) as [Hr Hcl].
    cbn [closing k_threads]. rewrite !Forall_cons. split_and!; [done|done|apply allowed_close_node|apply Forall_nil_2].
  - apply Forall_insert; [done|]. cbn [k_threads]. apply Forall_insert; [by eapply Hth|].
    pose proof (Hth i q Hi) as Hq. rewrite Forall_lookup in Hq. by apply (Hq j _ Hj).
  - apply Forall_insert; [done|]. exact (Hth i q Hi).
  - by apply Forall_delete.
Qed.

Lemma cl_step_simulated c0 c c' : nodes_allowed c -> cl_step c c' ->
  leads_to c0 (c_store c) (tasks_of c) -> leads_to c0 (c_store c') (tasks_of c').
Proof.
  intros [Hal Hth] Hs Hl. rewrite Forall_lookup in Hal. rewrite Forall_lookup in Hth.
  destruct Hs as [i p X e k x w' Hi Hp He|i p X e k x w' Hi Hp He|i p j X e k x st' Hi Hj He Ha|
    i p q Hi Hq|i p j Hi|uid cfg turns fuel turns' fuel' Hu Hu' Hg|i|l Hl'|
    i p Hi|i q j X e k x w' Hi Hj He|i q j X e k x st' Hi Hj He Ha|i];
    unfold tasks_of in *;
    cbn [c_nodes c_closing c_update k_update c_set_nodes c_set_store c_set_closing c_store w_store
         w_set_store];
    try (rewrite (tasks_at p_tasks _ _ _ Hi) in Hl; rewrite (tasks_update p_tasks _ _ _ _ Hi);
         cbn [p_tasks p_set_tasks]; rewrite <- app_assoc in Hl; rewrite <- app_assoc);
    try (rewrite (tasks_at k_tasks _ _ _ Hi), Permutation_app_swap_app in Hl;
         rewrite (tasks_update k_tasks _ _ _ _ Hi), Permutation_app_swap_app; cbn [k_tasks]).
  - destruct (Hal i p Hi) as [Hr _]. rewrite Hp in Hr. destruct Hr. by eapply nev_simulated.
  - destruct (Hal i p Hi) as [_ Hr]. rewrite Hp in Hr. destruct Hr. by eapply nev_simulated.
  - rewrite (insert_delete_Permutation _ _ _ (k x) Hj). rewrite (delete_Permutation _ _ _ Hj) in Hl.
    eapply leads_to_step; [exact Hl|]. intros ts Hts. by apply (call_any_order _ (c_store c) st' _ e k x).
  - eapply leads_to_step; [exact Hl|]. intros ts Hts. exists (q :: ts).
    split; [by apply step_start, prog_node|by rewrite Hts].
  - destruct (p_tasks p !! j) as [q|] eqn:Hj.
    + rewrite (delete_Permutation _ _ _ Hj) in Hl. by apply (crash_all c0 _ [q]).
    + by rewrite delete_out_of_range.
  - rewrite map_app, concat_app. cbn. by rewrite !app_nil_r.
  - destruct (c_nodes c !! i) as [p|] eqn:Hi.
    + rewrite (tasks_at p_tasks _ _ _ Hi), <- app_assoc in Hl. by apply (crash_all c0 _ (p_tasks p)).
    + by rewrite delete_out_of_range.
  - eapply leads_to_step; [exact Hl|]. intros ts Hts. exists ts. split; [by apply step_expire|done].
  - rewrite (tasks_at p_tasks _ _ _ Hi), <- app_assoc in Hl. cbn [map concat closing k_tasks].
    by rewrite Permutation_app_swap_app.
  - specialize (Hth i q Hi). rewrite Forall_lookup in Hth. destruct (Hth j _ Hj).
    by eapply nev_simulated.
  - rewrite (insert_delete_Permutation _ _ _ (k x) Hj). rewrite (delete_Permutation _ _ _ Hj) in Hl.
    eapply leads_to_step; [exact Hl|]. intros ts Hts. by apply (call_any_order _ (c_store c) st' _ e k x).
  - destruct (c_closing c !! i) as [q|] eqn:Hi.
    + rewrite (tasks_at k_tasks _ _ _ Hi), Permutation_app_swap_app in Hl.
      by apply (crash_all c0 _ (k_tasks q)).
    + by rewrite delete_out_of_range.
Qed.

(** C4: a cluster of whole nodes, with its sessions, mutexes, elections,
    crashes and nodes on their way out, is a system of programs: every state it reaches is one the system
    of its tasks reaches, with the same key space. What is proved of the system
    (no ticket lost, claims and leadership kept, ids never reused) therefore
    holds of the cluster. *)
Theorem cluster_refines_system st0 c : cl_reachable (empty_cluster st0) c ->
  exists ts, sys_reach (st0, []) (c_store c, ts) /\ ts ≡ₚ tasks_of c.
Proof.
  intros Hr. assert (nodes_allowed c /\ leads_to (st0, []) (c_store c) (tasks_of c)) as [_ H]; [|exact H].
  induction Hr as [|c c' _ [Hal Hl] Hs].
  - split; [by split|]. by apply leads_to_refl.
  - split; [by eapply nodes_allowed_step|by eapply cl_step_simulated].
Qed.
End cluster.
