(* ===== verification/ClusterSafety.v ===== *)
(** * The leadership is exclusive

    Each node leads only while it holds the leader key under its own session, or
    while that session's lease has already ended without the node knowing.  The
    invariant goes through every request of every goroutine of every node:
    whoever leads has a session, granted to it alone, and if the lease of that
    session is alive the leader key hangs on it.  A node on its way out is not
    counted among them, but makes its requests, which break nobody's promise. *)
From S2P Require Import Prelude GoStrings GoTime Model Config Etcd Exec System Effects Footprint.
From S2P Require Import Queue Jobs Scheduler Worker Api Cluster Programs ClusterSystem.

Open Scope string_scope.
Open Scope list_scope.
Open Scope orbix_scope.
Open Scope Z_scope.

(** ** What a lease means for the leader key *)

Definition leads (l : LeaseID) (st : Store) : Prop :=
  l ∈ leases st -> exists e, kvs st !! leaderKey = Some e /\ e_lease e = l.

(** The leases granted so far keep their meaning. *)
Definition keeps_leads (g : gmap LeaseID nat) (st st' : Store) : Prop :=
  forall l, is_Some (g !! l) -> leads l st -> leads l st'.

Lemma keeps_leads_refl g st : keeps_leads g st st.
Proof. by intros l _. Qed.

Lemma keeps_leads_same g st st' : kvs st' !! leaderKey = kvs st !! leaderKey ->
  leases st' = leases st -> keeps_leads g st st'.
Proof. intros Hk Hl l _ H. unfold leads in *. by rewrite Hk, Hl. Qed.

Lemma keeps_leads_expire g l st : keeps_leads g st (expire l st).
Proof.
  intros l' _ H Hin. cbn in Hin. apply elem_of_difference in Hin as [Hin Hne].
  destruct (H Hin) as (e & He & Hl). exists e. split; [|done].
  apply map_lookup_filter_Some. split; [done|]. cbn. rewrite Hl. by intros ->; apply Hne, elem_of_singleton.
Qed.

Lemma keeps_leads_grant g l st : g !! l = None -> keeps_leads g st (grant l st).
Proof.
  intros Hn l' Hs H Hin. cbn in Hin. apply elem_of_union in Hin as [->%elem_of_singleton|Hin]; [|by apply H].
  rewrite Hn in Hs. by destruct Hs.
Qed.

Lemma ev_ok_leases {X} (e : Ev X) st x st' : ev_ok e st x st' -> leases st' = leases st.
Proof.
  assert (forall c t f r, txn_ok c t f st r st' -> leases st' = leases st) as Htxn.
  { intros c t f r H. unfold txn_ok in H. destruct r; [by destruct H as (_ & _ & ->)|].
    by destruct H as [->|[_ ->]]. }
  destruct e; cbn; try (by intros ->); try (by intros [-> _]); apply Htxn.
Qed.

Lemma keeps_leads_elsewhere g {X} (e : Ev X) st x st' : ev_ok e st x st' ->
  leaderKey ∉ ev_keys e -> keeps_leads g st st'.
Proof.
  intros He Hk. apply keeps_leads_same; [by eapply ev_frame|by eapply ev_ok_leases].
Qed.

(** The campaign: only an absent key is written, and then under the lease. *)
Lemma campaign_ok g info l st r st' : store_wf st ->
  txn_ok [CVersion leaderKey 0] [OpPut leaderKey info l] [] st r st' ->
  keeps_leads g st st' /\ (r = Ok true -> leads l st').
Proof.
  intros Hwf H%txn_ok_cases. unfold txn_cases in H. cbv zeta in H. cbn [forallb] in H.
  rewrite andb_true_r in H.
  assert (cmp_holds (kvs st) (CVersion leaderKey 0) = true ->
    keeps_leads g st (apply_ops st [OpPut leaderKey info l]) /\
    leads l (apply_ops st [OpPut leaderKey info l])) as Hput.
  { intros Hc%cmp_version_0; [|done]. split.
    - intros l' _ Hl Hin. destruct (Hl Hin) as (e & He & _). congruence.
    - intros _. unfold apply_ops. cbn. rewrite lookup_insert_eq. eauto. }
  assert (keeps_leads g st (apply_ops st [])) as Hnil by (rewrite apply_ops_nil; apply keeps_leads_refl).
  destruct r as [[]|e].
  - destruct H as (Hc & _ & ->). destruct (Hput Hc). done.
  - by destruct H as (_ & _ & ->).
  - split; [|done]. destruct H as [->|[(Hc & _ & ->)|(_ & _ & ->)]]; [apply keeps_leads_refl|by apply Hput|done].
Qed.

(** ** The state of a node *)

Definition node_state (o : option LeaseID) (b : bool) (w : NWorld) : Prop :=
  store_wf (w_store w) /\ n_session (w_node w) = o /\ n_isLeader (w_node w) = b /\
  (forall l, o = Some l -> w_granted w !! l = Some (w_self w)) /\
  (b = true -> exists l, o = Some l /\ leads l (w_store w)).

Definition good (w : NWorld) : Prop := exists o b, node_state o b w.

(** Between two requests of the election, the others, the other goroutines of
    the node included, leave its session and its leadership alone. *)
Definition run_env (w w' : NWorld) : Prop :=
  store_wf (w_store w') /\ w_self w' = w_self w /\
  n_session (w_node w') = n_session (w_node w) /\ n_isLeader (w_node w') = n_isLeader (w_node w) /\
  w_granted w ⊆ w_granted w' /\ keeps_leads (w_granted w) (w_store w) (w_store w').

(** What a request of a node leaves to the others. *)
Definition node_guar (w w' : NWorld) : Prop :=
  store_wf (w_store w') /\ w_self w' = w_self w /\ w_granted w ⊆ w_granted w' /\
  (forall l u, w_granted w' !! l = Some u -> w_granted w !! l = Some u \/ u = w_self w) /\
  keeps_leads (w_granted w) (w_store w) (w_store w').

Definition run_guar (w w' : NWorld) : Prop := node_guar w w' /\ good w'.

Lemma run_env_refl w : store_wf (w_store w) -> run_env w w.
Proof. intros. split_and!; try done. apply keeps_leads_refl. Qed.

Lemma run_env_trans w1 w2 w3 : run_env w1 w2 -> run_env w2 w3 -> run_env w1 w3.
Proof.
  intros (_ & ? & ? & ? & Hg1 & Hk1) (? & ? & ? & ? & Hg2 & Hk2).
  split_and!; try congruence; [by etrans|].
  intros l Hl Hlead. apply Hk2; [|by apply Hk1]. destruct Hl as [u Hu].
  exists u. by eapply lookup_weaken.
Qed.

Lemma node_state_env o b w w' : run_env w w' -> node_state o b w -> node_state o b w'.
Proof.
  intros (? & Hs & Hse & Hle & Hg & Hk) (_ & Ho & Hb & Hown & Hlead).
  split_and!; [done|congruence|congruence|..].
  - intros l Hl. rewrite Hs. eapply lookup_weaken; [by apply Hown|done].
  - intros Hb'. destruct (Hlead Hb') as (l & Hl & Hll). exists l. split; [done|]. apply Hk; [|done].
    rewrite (Hown l Hl). by eexists.
Qed.

(** ** The program logic of the election *)

#[local] Abbreviation wpR := (wpE (@nev_ok) run_env run_guar).

Lemma run_vis {X A} o b (e : NEv X) (k : X -> NProg A) Q w : node_state o b w ->
  (forall w1 x w2, node_state o b w1 -> nev_ok e w1 x w2 -> run_guar w1 w2 /\ wpR (k x) Q w2) ->
  wpR (Vis e k) Q w.
Proof. intros Hs H w1 x w2 He Hx. eapply H; [|exact Hx]. by eapply node_state_env. Qed.

(** Requests that leave etcd, the session and the leadership as they are. *)
Definition quiet {X} (e : NEv X) : Prop :=
  forall w x w', nev_ok e w x w' ->
    w_store w' = w_store w /\ w_granted w' = w_granted w /\ w_self w' = w_self w /\
    n_session (w_node w') = n_session (w_node w) /\ n_isLeader (w_node w') = n_isLeader (w_node w).

Lemma quiet_state {X} (e : NEv X) o b w x w' : quiet e -> node_state o b w -> nev_ok e w x w' ->
  run_guar w w' /\ node_state o b w'.
Proof.
  intros Hq Hs He. destruct (Hq w x w' He) as (Hst & Hg & Hse & Hss & Hl).
  assert (node_state o b w') as Hs'.
  { destruct Hs as (? & ? & ? & ? & ?). unfold node_state. rewrite Hst, Hg, Hse, Hss, Hl. done. }
  split; [|done]. split; [|by exists o, b]. unfold node_guar. rewrite Hst, Hg, Hse.
  split_and!; [by destruct Hs|done|done|by left|apply keeps_leads_refl].
Qed.

Lemma run_quiet {X A} o b (e : NEv X) (k : X -> NProg A) Q w : quiet e -> node_state o b w ->
  (forall w1 x w2, nev_ok e w1 x w2 -> node_state o b w1 -> node_state o b w2 -> wpR (k x) Q w2) ->
  wpR (Vis e k) Q w.
Proof.
  intros Hq Hs Hk. eapply run_vis; [exact Hs|]. intros w1 x w2 Hs1 He.
  destruct (quiet_state e o b w1 x w2 Hq Hs1 He). split; [done|]. by eapply Hk.
Qed.

Ltac solve_quiet :=
  intros ? ? ?; cbn; intros H;
  repeat match goal with
  | H : _ /\ _ |- _ => destruct H
  | H : exists _, _ |- _ => destruct H
  end; subst; unfold emit; repeat case_match; split_and!; reflexivity.

(** Step over a quiet request. *)
Tactic Notation "quiet" ident(x) ident(w) ident(Hs) ident(He) :=
  eapply run_quiet; [solve_quiet|eassumption|];
  let before := fresh "before" in intros before x w He _ Hs; cbn in He.

Lemma quiet_read {X} (e : Ev X) : reads e -> quiet (NEtcd e).
Proof. intros Hr w x w' (st' & He & ->). by rewrite (Hr _ _ _ He). Qed.

(** Where a part of the election ends: its answer, with the session and the
    leadership of the node. *)
Definition endsN {A} (R : A -> option LeaseID -> bool -> Prop) : outcome A -> NWorld -> Prop :=
  ends (fun a w => exists o b, R a o b /\ node_state o b w).

Lemma wpN_seq {A B} (p : NProg A) (f : A -> NProg B) R Q w :
  wpR p (endsN R) w ->
  (forall a o b w', R a o b -> node_state o b w' -> wpR (f a) Q w') -> wpR (prog_bind p f) Q w.
Proof. intros Hp Hf. eapply wpE_seq; [exact Hp|]. intros a w' (o & b & HR & Hs). by eapply Hf. Qed.

Lemma wpN_ret {A} (R : A -> option LeaseID -> bool -> Prop) a o b w :
  R a o b -> node_state o b w -> wpR (Ret a) (endsN R) w.
Proof. intros. by exists o, b. Qed.

Lemma wp_locked {A} o b m (body : NProg A) R w : node_state o b w ->
  (forall w1, node_state o b w1 -> wpR body (endsN R) w1) -> wpR (locked m body) (endsN R) w.
Proof.
  intros Hs Hb. unfold locked. cbn [prog_bind call]. destruct m;
    (quiet x w1 Hs1 He; eapply wpN_seq; [by apply Hb|]; intros a o' b' w2 HR Hs2;
     cbn [prog_bind call]; quiet y w3 Hs3 He3; by eapply wpN_ret).
Qed.

(** *** Sessions *)

(** A new session is granted to this node alone. *)
Lemma new_session_ok ttl o b w x w' : node_state o b w -> nev_ok (NewSession ttl) w x w' ->
  run_guar w w' /\ node_state o b w' /\
  match x with Ok l => w_granted w' !! l = Some (w_self w') | Err _ => True end.
Proof.
  intros Hs He.
  assert (forall l, fresh_lease w l -> run_guar w (w_grant w l) /\ node_state o b (w_grant w l)) as Hgrant.
  { intros l (Hl0 & Hn & Hl). destruct Hs as (Hwf & Ho & Hb & Hown & Hlead).
    assert (node_state o b (w_grant w l)) as Hs'.
    { split_and!; [by apply store_wf_grant|done|done|..]; cbn.
      - intros l' Hl'. rewrite lookup_insert_ne; [by apply Hown|]. intros ->. rewrite (Hown l' Hl') in Hn. done.
      - intros Hb'. destruct (Hlead Hb') as (l' & Hl' & H). exists l'. split; [done|].
        apply (keeps_leads_grant (w_granted w)); [done| |done]. rewrite (Hown l' Hl'). by eexists. }
    split; [|done]. split; [|by exists o, b]. split_and!; cbn; [by apply store_wf_grant|done|..].
    - by apply insert_subseteq.
    - intros l' u Hu. rewrite lookup_insert in Hu. case_decide; [right; congruence|by left].
    - by apply keeps_leads_grant. }
  assert (run_guar w w) as Hrefl.
  { split; [|by exists o, b]. split_and!; [by destruct Hs|done|done|by left|apply keeps_leads_refl]. }
  destruct x as [l|e]; cbn in He.
  - destruct He as [Hf ->]. destruct (Hgrant l Hf). split_and!; [done..|].
    cbn. apply lookup_insert_eq.
  - destruct He as [->|(l & Hf & ->)]; [done|]. destruct (Hgrant l Hf). done.
Qed.

(** Closing a session may end its lease. *)
Lemma close_session_ok l o b w x w' : node_state o b w -> nev_ok (CloseSession l) w x w' ->
  run_guar w w' /\ node_state o b w'.
Proof.
  intros Hs He. destruct He as [->|[Hl ->]].
  - split; [|done]. split; [|by exists o, b].
    split_and!; [by destruct Hs|done|done|by left|apply keeps_leads_refl].
  - assert (run_env w (w_set_store w (expire l (w_store w)))) as Henv.
    { split_and!; try done; [apply store_wf_expire; by destruct Hs|apply keeps_leads_expire]. }
    pose proof (node_state_env o b _ _ Henv Hs) as Hs'. split; [|done]. split; [|by exists o, b].
    split_and!; [by destruct Hs'|done|done|by left|apply keeps_leads_expire].
Qed.

(** The claim session is no business of the election; its own session may be set
    to one it was granted, or given up when it does not lead. *)
Lemma store_session_ok m l' o b w x w' : node_state o b w -> nev_ok (StoreSession m l') w x w' ->
  (m = MuSession -> b = false /\ forall l, l' = Some l -> w_granted w !! l = Some (w_self w)) ->
  run_guar w w' /\ node_state (match m with MuSession => l' | MuClaim => o end) b w'.
Proof.
  intros (Hwf & Ho & Hb & Hown & Hlead) -> Hm.
  assert (node_state (match m with MuSession => l' | MuClaim => o end) b
    (w_set_node w (set_session m l' (w_node w)))) as Hs'.
  { destruct m.
    - destruct (Hm eq_refl) as [-> Hown']. by split_and!.
    - by split_and!. }
  split; [|done]. split; [|by eexists _, b].
  split_and!; [done|done|done|by left|apply keeps_leads_refl].
Qed.

Lemma wp_ensure fuel m ttl o b w : node_state o b w -> (m = MuSession -> b = false) ->
  wpR (ensure fuel m ttl)
    (endsN (fun ok o' b' => b' = b /\ (m = MuClaim -> o' = o) /\
       (m = MuSession -> ok = true -> is_Some o'))) w.
Proof.
  intros Hs Hm. unfold ensure. eapply wp_locked; [exact Hs|]. clear w Hs. intros w Hs.
  cbn [prog_bind call]. eapply run_quiet; [destruct m; solve_quiet|exact Hs|].
  clear w Hs. intros w cur w2 [-> ->] _ Hs. destruct (session_at m (w_node w)) as [l|] eqn:Ec.
  { apply (wpN_ret _ _ o b); [|done]. split_and!; [done|done|]. intros -> _. cbn in Ec.
    destruct Hs as (_ & <- & _). by rewrite Ec. }
  clear Ec. generalize Second as backoff. revert w Hs.
  induction fuel as [|fuel IH]; intros w Hs backoff; cbn [ensure_loop].
  { apply (wpN_ret _ _ o b); [|done]. by split_and!. }
  cbn [prog_bind call]. quiet stop w1 Hs1 He1. destruct stop.
  { apply (wpN_ret _ _ o b); [|done]. by split_and!. }
  cbn [prog_bind call]. eapply run_vis; [exact Hs1|]. intros w2 r w3 Hs2 He.
  destruct (new_session_ok _ _ _ _ _ _ Hs2 He) as (Hg & Hs3 & Hown). split; [done|].
  destruct r as [l|e]; cbn [prog_bind call].
  - intros w4 x w5 Henv Hx. pose proof (node_state_env _ _ _ _ Henv Hs3) as Hs4.
    destruct (store_session_ok m (Some l) o b w4 x w5 Hs4 Hx) as [Hg5 Hs5].
    { intros ->. split; [by apply Hm|]. intros l' [= <-]. destruct Henv as (_ & -> & _ & _ & Hsub & _).
      by eapply lookup_weaken. }
    split; [done|]. eapply wpN_ret; [|exact Hs5].
    destruct m; by split_and!.
  - quiet stop w4 Hs4 He4. destruct stop; [|by apply IH].
    apply (wpN_ret _ _ o b); [|done]. by split_and!.
Qed.

Lemma wp_drop m o b w : node_state o b w -> (m = MuSession -> b = false) ->
  wpR (drop_session m) (endsN (fun _ o' b' => b' = b /\ (m = MuClaim -> o' = o))) w.
Proof.
  intros Hs Hm. unfold drop_session. eapply wp_locked; [exact Hs|]. clear w Hs. intros w Hs.
  cbn [prog_bind call]. eapply run_quiet; [destruct m; solve_quiet|exact Hs|].
  clear w Hs. intros w cur w2 [-> ->] _ Hs. destruct (session_at m (w_node w)) as [l|].
  2: { by eapply wpN_ret. }
  cbn [prog_bind call]. eapply run_vis; [exact Hs|]. intros w1 x w3 Hs1 He.
  destruct (close_session_ok l _ _ _ _ _ Hs1 He) as [Hg Hs3]. split; [done|].
  eapply run_vis; [exact Hs3|]. intros w4 y w5 Hs4 He4.
  destruct (store_session_ok m None _ _ _ _ _ Hs4 He4) as [Hg5 Hs5].
  { intros ->. split; [by apply Hm|done]. }
  split; [done|]. eapply wpN_ret; [|exact Hs5]. split; [done|]. by intros ->.
Qed.

Lemma wp_sleep d o b w : node_state o b w ->
  wpR (sleep d) (endsN (fun _ o' b' => o' = o /\ b' = b)) w.
Proof. intros Hs. unfold sleep. cbn [prog_bind call]. quiet x w1 Hs1 He. by eapply wpN_ret. Qed.

Lemma wp_session_done m o b w : node_state o b w ->
  wpR (session_done m) (endsN (fun _ o' b' => o' = o /\ b' = b)) w.
Proof.
  intros Hs. unfold session_done. eapply wp_locked; [exact Hs|]. clear w Hs. intros w Hs.
  eapply run_quiet; [destruct m; solve_quiet|exact Hs|]. intros w1 x w2 _ _ Hs2.
  by eapply wpN_ret.
Qed.

Lemma wp_now o b w : node_state o b w ->
  wpR now_utc (endsN (fun _ o' b' => o' = o /\ b' = b)) w.
Proof.
  intros Hs. unfold now_utc, now_rfc3339. cbn [embed prog_bind call]. eapply run_quiet; [apply quiet_read; by intros ??? ->|exact Hs|].
  intros w1 x w2 _ _ Hs2. by eapply wpN_ret.
Qed.

Section election.
Context `{LJ : Json LeaderInfo leader_valid} `{MJ : Json Member member_valid}.
Context (cfg : Config).

Lemma wp_register o b w : node_state o b w ->
  wpR (registerMember cfg) (endsN (fun _ o' b' => o' = o /\ b' = b)) w.
Proof.
  intros Hs. unfold registerMember. eapply wpN_seq.
  { eapply wp_locked; [exact Hs|]. clear w Hs. intros w Hs.
    quiet x w1 Hs1 He. by apply (wpN_ret (fun _ o' b' => o' = o /\ b' = b) _ o b). }
  intros [l|] o' b' w1 [-> ->] Hs1; [|by eapply wpN_ret].
  eapply wpN_seq; [by apply wp_now|]. intros now o' b' w2 [-> ->] Hs2. cbn [embed register_put call].
  eapply run_vis; [exact Hs2|]. intros w3 x w4 Hs3 (st' & He & ->).
  assert (keeps_leads (w_granted w3) (w_store w3) st') as Hk.
  { eapply keeps_leads_elsewhere; [exact He|]. cbn.
    intros Hin%list_elem_of_singleton. symmetry in Hin. by apply (prefix_ne membersPrefix leaderKey _ "") in Hin. }
  assert (run_env w3 (w_set_store w3 st')) as Henv.
  { split_and!; try done. eapply ev_ok_wf; [|exact He]. by destruct Hs3. }
  pose proof (node_state_env _ _ _ _ Henv Hs3) as Hs4.
  split; [|by eapply wpN_ret]. split; [|by exists o, b].
  split_and!; [by destruct Hs4|done|done|by left|done].
Qed.

(** A campaign that is won: the leader key hangs on the lease of the session. *)
Lemma wp_campaign l b w : node_state (Some l) b w ->
  wpR (campaign cfg) (ends (fun r w' => node_state (Some l) b w' /\
    (r = Ok true -> leads l (w_store w')))) w.
Proof.
  intros Hs. unfold campaign. eapply wpN_seq; [by apply wp_now|]. intros now o' b' w1 [-> ->] Hs1.
  eapply wpN_seq with (R := fun x o' b' => x = l /\ o' = Some l /\ b' = b).
  { unfold node_LeaseID, session_lease. eapply wp_locked; [exact Hs1|]. clear w w1 Hs Hs1. intros w Hs.
    cbn [prog_bind call]. eapply run_quiet; [solve_quiet|exact Hs|].
    intros w1 cur w2 [-> ->] Hs1 Hs2. eapply wpN_ret; [|exact Hs2]. split; [|done].
    cbn. destruct Hs1 as (_ & -> & _). done. }
  intros x o' b' w2 (-> & -> & ->) Hs2. cbn [embed campaign_txn call].
  eapply run_vis; [exact Hs2|]. intros w3 r w4 Hs3 (st' & He & ->).
  assert (store_wf (w_store w3)) as Hwf by (by destruct Hs3).
  destruct (campaign_ok (w_granted w3) _ _ _ _ _ Hwf He) as [Hk Hwon].
  assert (run_env w3 (w_set_store w3 st')) as Henv.
  { split_and!; try done. eapply txn_ok_wf; [exact Hwf|exact He]. }
  pose proof (node_state_env _ _ _ _ Henv Hs3) as Hs4.
  split; [|done]. split; [|by exists (Some l), b].
  split_and!; [by destruct Hs4|done|done|by left|done].
Qed.

Lemma wp_lead l w : node_state (Some l) false w -> leads l (w_store w) ->
  wpR (lead cfg) (endsN (fun _ _ b' => b' = false)) w.
Proof.
  intros Hs Hl. unfold lead. apply wpE_call. intros w1 [] w2 Henv ->.
  pose proof (node_state_env _ _ _ _ Henv Hs) as Hs1.
  assert (node_state (Some l) true (w_set_node w1 (set_isLeader true (w_node w1)))) as Hs2.
  { destruct Hs1 as (? & ? & ? & Hown & _). split_and!; [done..|]. intros _. exists l. split; [done|].
    cbn. destruct Henv as (_ & _ & _ & _ & _ & Hk). apply Hk; [|done].
    destruct Hs as (_ & _ & _ & Hown0 & _). rewrite (Hown0 l eq_refl). by eexists. }
  split.
  { split; [|by exists (Some l), true]. split_and!; [by destruct Hs2|done|done|by left|apply keeps_leads_refl]. }
  eapply wpN_seq; [by apply wp_now|]. intros now o b w3 [-> ->] Hs3.
  cbn [prog_bind call]. quiet x w4 Hs4 He4. quiet y w5 Hs5 He5.
  eapply wpN_seq; [by apply wp_session_done|]. intros ended o b w6 [-> ->] Hs6.
  cbn [prog_bind call]. quiet z w7 Hs7 He7. eapply run_vis; [exact Hs7|]. intros v8 [] v9 Hs8 ->.
  assert (node_state (Some l) false (w_set_node v8 (set_isLeader false (w_node v8)))) as Hs9
    by (destruct Hs8 as (? & ? & ? & ? & _); by split_and!).
  split.
  { split; [|by exists (Some l), false]. split_and!; [by destruct Hs9|done|done|by left|apply keeps_leads_refl]. }
  quiet u v10 Hs10 He10. quiet t v11 Hs11 He11.
  eapply wpE_ends; [|by apply (wp_drop MuSession (Some l) false)].
  intros a w' (o & b & [-> _] & H). by exists o, false.
Qed.

(** The follower never leads. *)
Lemma wp_follow turns o w : node_state o false w ->
  wpR (follow turns) (endsN (fun _ _ b' => b' = false)) w.
Proof.
  assert (forall o v w, node_state o false w ->
    wpR (rememberLeader v) (endsN (fun _ o' b' => o' = o /\ b' = false)) w) as Hrem.
  { intros o0 v w0 Hs. unfold rememberLeader. destruct (unmarshal v) as [li|]; [|by eapply wpN_ret].
    quiet x w1 Hs1 He. by eapply wpN_ret. }
  assert (forall evs o w, node_state o false w ->
    wpR (follow_events evs) (endsN (fun _ o' b' => o' = o /\ b' = false)) w) as Hevs.
  { induction evs as [|[k v|k] evs IH]; intros o0 w0 Hs; cbn [follow_events]; [by eapply wpN_ret|..].
    - eapply wpN_seq; [by apply Hrem|]. intros [] o1 b1 w1 [-> ->] Hs1. by apply IH.
    - cbn [prog_bind call]. quiet x w1 Hs1 He. by eapply wpN_ret. }
  assert (forall d o w, node_state o false w ->
    wpR (follow_loop turns d) (endsN (fun _ _ b' => b' = false)) w) as Hloop.
  { induction turns as [|n IH]; intros d o0 w0 Hs; cbn [follow_loop]; [by eapply wpN_ret|].
    cbn [prog_bind call]. quiet ev w1 Hs1 He. destruct ev as [| | |evs].
    - by eapply wpN_ret.
    - eapply wpN_seq; [by apply (wp_drop MuSession o0 false)|]. intros [] o1 b1 w2 [-> _] Hs2.
      by eapply wpN_ret.
    - cbn [prog_bind call]. quiet stop w2 Hs2 He2. by eapply wpN_ret.
    - eapply wpN_seq; [by apply Hevs|]. intros deleted o1 b1 w2 [-> ->] Hs2.
      destruct deleted; [by eapply wpN_ret|by apply (IH d o0)]. }
  intros Hs. unfold follow. cbn [prog_bind call]. eapply run_quiet; [|exact Hs|].
  { intros w0 x w1 [-> _]. by split_and!. }
  clear w Hs. intros w0 [[[e|] rev]|e] w _ _ Hs.
  - eapply wpN_seq; [by apply Hrem|]. intros [] o1 b1 w2 [-> ->] Hs2. cbn [prog_bind call].
    quiet x w3 Hs3 He3. eapply wpN_seq; [by apply wp_session_done|].
    intros d o1 b1 w4 [-> ->] Hs4. by apply (Hloop d o).
  - cbn [prog_bind call]. quiet stop w2 Hs2 He2. by eapply wpN_ret.
  - eapply wpN_seq; [by apply (wp_drop MuSession o false)|]. intros [] o1 b1 w2 [-> _] Hs2.
    eapply wpN_seq; [by apply wp_sleep|]. intros [] o2 b2 w3 [-> ->] Hs3.
    cbn [prog_bind call]. quiet stop w4 Hs4 He4. by eapply wpN_ret.
Qed.

Lemma wp_start_over o w : node_state o false w ->
  wpR start_over (endsN (fun _ _ b' => b' = false)) w.
Proof.
  intros Hs. unfold start_over. eapply wpN_seq; [by apply (wp_drop MuSession o false)|].
  intros [] o1 b1 w2 [-> _] Hs2. eapply wpN_seq; [by apply wp_sleep|].
  intros [] o2 b2 w3 [-> ->] Hs3. by eapply wpN_ret.
Qed.

Lemma wp_run_turn fuel o w : node_state o false w ->
  wpR (run_turn cfg fuel) (endsN (fun _ _ b' => b' = false)) w.
Proof.
  intros Hs. unfold run_turn. eapply wpN_seq; [by apply (wp_ensure fuel MuSession _ o false)|].
  intros ok o1 b1 w1 (-> & _ & Hsome) Hs1. destruct ok; [|by eapply wpN_ret].
  destruct (Hsome eq_refl eq_refl) as [l ->]. cbn [negb].
  eapply wpN_seq; [by apply wp_register|]. intros reg o2 b2 w2 [-> ->] Hs2.
  destruct reg as [[]|e]; [|by eapply wp_start_over].
  eapply wpE_seq; [by apply wp_campaign|]. intros won w3 [Hs3 Hl].
  destruct won as [[]|e]; [|by eapply wp_follow|].
  - eapply wpN_seq; [by apply (wp_lead l); [|apply Hl]|]. intros [] o4 b4 w4 -> Hs4. by eapply wpN_ret.
  - cbn [prog_bind call]. quiet stop w4 Hs4 He4. destruct stop; [by eapply wpN_ret|by eapply wp_start_over].
Qed.

Lemma wp_node_main turns fuel o w : node_state o false w ->
  wpR (node_main cfg turns fuel) (endsN (fun _ _ b' => b' = false)) w.
Proof.
  intros Hs. unfold node_main. eapply wpN_seq with (R := fun _ _ b' => b' = false).
  { unfold Connect. cbn [prog_bind call]. quiet cli w1 Hs1 He1. destruct cli as [[]|e]; [|by eapply wpN_ret].
    cbn [prog_bind call]. quiet x w2 Hs2 He2.
    eapply wpN_seq; [by apply (wp_ensure fuel MuSession _ o false)|].
    intros ok o3 b3 w3 (-> & _ & _) Hs3. destruct ok; cbn [negb].
    - eapply wpN_seq; [by apply (wp_ensure fuel MuClaim _ o3 false)|].
      intros ok o4 b4 w4 (-> & _ & _) Hs4. destruct ok; cbn [negb]; [by eapply wpN_ret|].
      eapply wpN_seq; [by apply (wp_drop MuSession o4 false)|]. intros [] o5 b5 w5 [-> _] Hs5.
      cbn [prog_bind call]. quiet y w6 Hs6 He6. by eapply wpN_ret.
    - cbn [prog_bind call]. quiet y w6 Hs6 He6. by eapply wpN_ret. }
  intros [[]|e] o1 b1 w1 -> Hs1; [|by eapply wpN_ret].
  revert o1 w1 Hs1. induction turns as [|n IH]; intros o1 w1 Hs1; cbn [Node_Run]; [by eapply wpN_ret|].
  cbn [prog_bind call]. quiet stop w2 Hs2 He2. destruct stop; [by eapply wpN_ret|].
  eapply wpN_seq; [by eapply wp_run_turn|]. intros go_on o3 b3 w3 -> Hs3.
  destruct go_on; [by eapply IH|by eapply wpN_ret].
Qed.
End election.

(** ** The goroutine of the claim session *)

Definition claim_ev {X} (e : NEv X) : Prop :=
  match e with
  | NCtxDone | NSleep _ | NewSession _ | CloseSession _ | Lock _ | Unlock _ | LoadSession _
  | SelectDone _ => True
  | StoreSession m _ => m = MuClaim
  | _ => False
  end.

Fixpoint claims_only {A} (p : NProg A) : Prop :=
  match p with
  | Ret _ | Panic => True
  | Vis e k => claim_ev e /\ forall x, claims_only (k x)
  end.

Lemma claims_only_bind {A B} (p : NProg A) (f : A -> NProg B) :
  claims_only p -> (forall a, claims_only (f a)) -> claims_only (prog_bind p f).
Proof.
  induction p as [a| |X e k IH]; simpl; intros Hp Hf; [done..|].
  destruct Hp. split; [done|]. intros x. auto.
Qed.

Ltac claims_step :=
  match goal with
  | |- True => exact I
  | |- claims_only (Ret _) => exact I
  | |- claims_only (prog_bind (call _) _) => cbn [prog_bind call]
  | |- claims_only (Vis _ _) => split; [by cbn|intros ?]
  | |- claims_only (call _) => split; [by cbn|intros ?; exact I]
  | |- claims_only (prog_bind _ _) => apply claims_only_bind; [|intros ?]
  | |- claims_only (match ?x with _ => _ end) => destruct x
  end.

Lemma MaintainClaims_claims cfg turns fuel : claims_only (MaintainClaims cfg turns fuel).
Proof.
  assert (forall b, claims_only (ensure_loop fuel MuClaim (WorkerLeaseSec cfg) b)) as He.
  { induction fuel as [|n IH]; intros b; cbn [ensure_loop]; repeat first [claims_step|apply IH]. }
  induction turns as [|n IH]; cbn [MaintainClaims];
    unfold ensureClaimSession, ensure, session_done, dropClaimSession, drop_session, sleep, locked;
    repeat first [claims_step | apply He | apply IH].
Qed.

(** It leaves session and leadership alone, and keeps the promises of a node. *)
Lemma claim_ev_ok {X} (e : NEv X) w x w' : claim_ev e -> good w -> nev_ok e w x w' ->
  node_guar w w' /\ n_session (w_node w') = n_session (w_node w) /\
  n_isLeader (w_node w') = n_isLeader (w_node w).
Proof.
  intros Hc (o & b & Hs) He.
  assert (run_guar w w' /\ node_state o b w') as [[Hg _] Hs'].
  { destruct e; cbn in Hc; try done;
      try (refine (quiet_state _ _ _ _ _ _ _ Hs He); solve_quiet);
      try (refine (quiet_state _ _ _ _ _ _ _ Hs He); destruct m; solve_quiet).
    - destruct (new_session_ok _ _ _ _ _ _ Hs He) as (? & ? & _). done.
    - by eapply close_session_ok. }
  split; [done|]. destruct Hs as (_ & -> & -> & _). by destruct Hs' as (_ & -> & -> & _).
Qed.

(** ** The cluster *)

Section cluster.
Context `{TJ : Json Ticket ticket_valid} `{RJ : Json Result result_valid}
  `{JJ : Json Job job_valid} `{MJ : Json Member member_valid}
  `{LJ : Json LeaderInfo leader_valid}.
Context (loadLocation : string -> option Location).

Definition proc_ok (c : Cluster) (p : NodeProc) : Prop :=
  good (world_of c p) /\ wpR (p_run p) (fun _ _ => True) (world_of c p) /\
  claims_only (p_claims p) /\ Forall (footprint node_keys) (p_tasks p).

Definition cl_inv (c : Cluster) : Prop :=
  store_wf (c_store c) /\ NoDup (map p_uid (c_nodes c)) /\ Forall (proc_ok c) (c_nodes c).

Lemma good_env w w' : run_env w w' -> good w -> good w'.
Proof. intros He (o & b & Hs). exists o, b. by eapply node_state_env. Qed.

Lemma wpR_env {A} (p : NProg A) w w' : run_env w w' ->
  wpR p (fun _ _ => True) w -> wpR p (fun _ _ => True) w'.
Proof. intros He. apply wpE_env; [done| |done]. intros w1 w2 w3. apply run_env_trans. Qed.

(** What the cluster around a node may do to it. *)
Definition around (c c' : Cluster) : Prop :=
  store_wf (c_store c') /\ c_granted c ⊆ c_granted c' /\
  keeps_leads (c_granted c) (c_store c) (c_store c').

Lemma around_env c c' p : around c c' -> run_env (world_of c p) (world_of c' p).
Proof. intros (? & ? & ?). by split_and!. Qed.

Lemma proc_ok_around c c' p : around c c' -> proc_ok c p -> proc_ok c' p.
Proof.
  intros Ha (Hg & Hr & Hc & Ht). pose proof (around_env _ _ p Ha) as He.
  split_and!; [by eapply good_env|by eapply wpR_env|done|done].
Qed.

(** A step of one node: the others see it as a step around them. *)
Lemma update_inv c i p w' p' : cl_inv c -> c_nodes c !! i = Some p ->
  node_guar (world_of c p) w' -> p_uid p' = p_uid p -> w_self w' = p_uid p ->
  proc_ok (c_update c i w' p') p' -> cl_inv (c_update c i w' p').
Proof.
  intros (Hwf & Hnd & Hok) Hi (Hwf' & _ & Hsub & _ & Hk) Hu _ Hp'.
  assert (around c (c_update c i w' p')) as Ha by done.
  split; [done|]. split; cbn [c_nodes c_update].
  - rewrite list_fmap_insert, Hu. rewrite list_insert_id; [done|]. by rewrite list_lookup_fmap, Hi.
  - apply Forall_insert; [|done]. eapply Forall_impl; [exact Hok|]. intros q. by apply proc_ok_around.
Qed.

Lemma store_inv c c' : cl_inv c -> around c c' -> c_nodes c' = c_nodes c -> cl_inv c'.
Proof.
  intros (Hwf & Hnd & Hok) Ha Hn. split; [by destruct Ha|]. rewrite Hn. split; [done|].
  eapply Forall_impl; [exact Hok|]. intros q. by apply proc_ok_around.
Qed.

Lemma leader_not_node_key : ~ node_keys leaderKey.
Proof. unfold node_keys. by apply (bool_decide_unpack (~ in_families _ leaderKey)). Qed.

Lemma world_of_update c i (w' : NWorld) q : p_uid q = w_self w' -> p_node q = w_node w' ->
  world_of (c_update c i w' q) q = w'.
Proof. intros Hq Hn. unfold world_of. cbn. rewrite Hq, Hn. by destruct w'. Qed.

(** The election goroutine takes a step. *)
Lemma run_step_inv c i p X (e : NEv X) k x w' : cl_inv c -> c_nodes c !! i = Some p ->
  p_run p = Vis e k -> nev_ok e (world_of c p) x w' ->
  cl_inv (c_update c i w' (mkProc (p_uid p) (w_node w') (k x) (p_claims p) (p_tasks p))).
Proof.
  intros Hinv Hi Hp He. pose proof Hinv as (Hwf & _ & Hok). rewrite Forall_lookup in Hok.
  destruct (Hok i p Hi) as (Hgood & Hr & Hc & Ht). rewrite Hp in Hr.
  destruct (Hr _ x w' (run_env_refl (world_of c p) Hwf) He) as [[Hg Hgood'] Hk].
  assert (w_self w' = p_uid p) as Hself by (by destruct Hg as (_ & -> & _)).
  eapply update_inv; [done|exact Hi|exact Hg|done|done|]. unfold proc_ok.
  rewrite world_of_update by done. by split_and!.
Qed.

(** So does the one that keeps the claim session. *)
Lemma claims_step_inv c i p X (e : NEv X) k x w' : cl_inv c -> c_nodes c !! i = Some p ->
  p_claims p = Vis e k -> nev_ok e (world_of c p) x w' ->
  cl_inv (c_update c i w' (mkProc (p_uid p) (w_node w') (p_run p) (k x) (p_tasks p))).
Proof.
  intros Hinv Hi Hp He. pose proof Hinv as (Hwf & _ & Hok). rewrite Forall_lookup in Hok.
  destruct (Hok i p Hi) as (Hgood & Hr & Hc & Ht). rewrite Hp in Hc. destruct Hc as [Hc Hk].
  destruct (claim_ev_ok e _ x w' Hc Hgood He) as (Hg & Hss & Hle).
  assert (w_self w' = p_uid p) as Hself by (by destruct Hg as (_ & -> & _)).
  assert (run_env (world_of c p) w') as Henv by (destruct Hg as (? & ? & ? & ? & ?); by split_and!).
  eapply update_inv; [done|exact Hi|exact Hg|done|done|]. unfold proc_ok.
  rewrite world_of_update by done.
  split_and!; [by eapply good_env|by eapply wpR_env|apply Hk|done].
Qed.

(** And a scheduler, worker or request of the node: it writes elsewhere. *)
Lemma task_step_inv c i p j X (e : Ev X) k x st' : cl_inv c -> c_nodes c !! i = Some p ->
  p_tasks p !! j = Some (Vis e k) -> ev_ok e (c_store c) x st' ->
  cl_inv (c_update c i (w_set_store (world_of c p) st') (p_set_tasks p (<[j := k x]> (p_tasks p)))).
Proof.
  intros Hinv Hi Hj He. pose proof Hinv as (Hwf & _ & Hok). rewrite Forall_lookup in Hok.
  destruct (Hok i p Hi) as (Hgood & Hr & Hc & Ht). rewrite Forall_lookup in Ht.
  destruct (Ht j _ Hj) as [Hf Hk].
  assert (keeps_leads (c_granted c) (c_store c) st') as Hkl.
  { eapply keeps_leads_elsewhere; [exact He|]. intros Hin. rewrite Forall_forall in Hf.
    by apply leader_not_node_key, Hf. }
  assert (store_wf st') as Hwf' by (by eapply ev_ok_wf).
  assert (node_guar (world_of c p) (w_set_store (world_of c p) st')) as Hng
    by (split_and!; [done..|by left|done]).
  eapply update_inv; [done|exact Hi|exact Hng|done|done|].
  assert (around c (c_update c i (w_set_store (world_of c p) st') (p_set_tasks p (<[j:=k x]> (p_tasks p))))) as Har
    by done.
  destruct (proc_ok_around _ _ _ Har (Hok i p Hi)) as (? & ? & ? & _).
  split_and!; [done..|]. apply Forall_insert; [by apply Forall_lookup|].
  apply Hk. by exists (c_store c), st'.
Qed.

(** Tasks come and go. *)
Lemma tasks_inv c i p ts : cl_inv c -> c_nodes c !! i = Some p -> Forall (footprint node_keys) ts ->
  cl_inv (c_update c i (world_of c p) (p_set_tasks p ts)).
Proof.
  intros Hinv Hi Hts. pose proof Hinv as (Hwf & _ & Hok). rewrite Forall_lookup in Hok.
  destruct (Hok i p Hi) as (? & ? & ? & ?).
  apply (update_inv c i p (world_of c p)); try done.
  split_and!; [done..|by left|apply keeps_leads_refl].
Qed.

(** *** Nodes on their way out *)

Definition closing_ok (c : Cluster) : Prop :=
  nodes_allowed c /\ Forall (fun q => Forall (footprint node_keys) (k_tasks q)) (c_closing c).

(** Whatever the election code of a node asks for, whatever the node takes itself
    for, the promises of the others are kept. *)
Lemma nev_allowed_around {X} (e : NEv X) w x w' : nev_allowed e -> store_wf (w_store w) ->
  nev_ok e w x w' ->
  store_wf (w_store w') /\ w_granted w ⊆ w_granted w' /\
  keeps_leads (w_granted w) (w_store w) (w_store w').
Proof.
  intros Ha Hwf He.
  assert (forall l, fresh_lease w l -> store_wf (w_store (w_grant w l)) /\
    w_granted w ⊆ w_granted (w_grant w l) /\
    keeps_leads (w_granted w) (w_store w) (w_store (w_grant w l))) as Hgrant.
  { intros l (_ & Hn & _). split_and!; [by apply store_wf_grant|by apply insert_subseteq|].
    by apply keeps_leads_grant. }
  assert (store_wf (w_store w) /\ w_granted w ⊆ w_granted w /\
    keeps_leads (w_granted w) (w_store w) (w_store w)) as Hsame
    by (split_and!; [done|done|apply keeps_leads_refl]).
  destruct e as [Y e| | | | | | | | | | | | | | | | | | | |]; cbn in Ha, He;
    try (by subst w'); try (by destruct He as [_ ->]).
  - destruct He as (st' & He & ->). split_and!; [by eapply ev_ok_wf|done|]. cbn [w_store w_set_store].
    destruct e; cbn in Ha; try (eapply keeps_leads_elsewhere; [exact He|apply not_elem_of_nil]).
    + destruct Ha as [id ->]. eapply keeps_leads_elsewhere; [exact He|]. cbn.
      intros Hin%list_elem_of_singleton. symmetry in Hin.
      by apply (prefix_ne membersPrefix leaderKey _ "") in Hin.
    + destruct Ha as (info & l & -> & -> & ->). by apply (campaign_ok _ info l _ x).
  - by destruct He as [-> _].
  - destruct x as [l|?]; [destruct He as [Hf ->]; by apply Hgrant|].
    destruct He as [->|(l & Hf & ->)]; [done|by apply Hgrant].
  - destruct He as [->|[Hl ->]]; [done|].
    split_and!; [by apply store_wf_expire|done|apply keeps_leads_expire].
Qed.

(** A request of a task writes elsewhere. *)
Lemma task_around c X (e : Ev X) (k : X -> Prog unit) x st' : store_wf (c_store c) -> ev_ok e (c_store c) x st' ->
  footprint node_keys (Vis e k) ->
  store_wf st' /\ keeps_leads (c_granted c) (c_store c) st' /\ footprint node_keys (k x).
Proof.
  intros Hwf He [Hf Hk]. split_and!; [by eapply ev_ok_wf| |apply Hk; by exists (c_store c), st'].
  eapply keeps_leads_elsewhere; [exact He|]. intros Hin. rewrite Forall_forall in Hf.
  by apply leader_not_node_key, Hf.
Qed.

Lemma closing_ok_step c c' : store_wf (c_store c) -> Forall (proc_ok c) (c_nodes c) ->
  closing_ok c -> cl_step loadLocation c c' -> closing_ok c'.
Proof.
  intros Hwf Hok [Ha Ht] Hs. split; [by eapply nodes_allowed_step|]. rewrite Forall_lookup in Hok.
  destruct Hs as [i p X e k x w' Hi Hp He|i p X e k x w' Hi Hp He|i p j X e k x st' Hi Hj He Hn|
    i p q Hi Hq|i p j Hi|uid cfg turns fuel turns' fuel' Hu Hu' Hg|i|l Hl|
    i p Hi|i q j X e k x w' Hi Hj He|i q j X e k x st' Hi Hj He Hn|i];
    cbn [c_closing c_update k_update c_set_nodes c_set_store c_set_closing]; try exact Ht.
  - constructor; [|done]. by destruct (Hok i p Hi) as (_ & _ & _ & ?).
  - apply Forall_insert; [done|]. rewrite Forall_lookup in Ht. exact (Ht i q Hi).
  - apply Forall_insert; [done|]. cbn [k_tasks]. rewrite Forall_lookup in Ht.
    pose proof (Ht i q Hi) as Hq. apply Forall_insert; [done|]. rewrite Forall_lookup in Hq.
    by apply (task_around c X e k x st' Hwf He), (Hq j).
  - by apply Forall_delete.
Qed.

(** A node joins with an identity of its own. *)
Lemma join_inv c uid cfg turns fuel turns' fuel' : cl_inv c ->
  Forall (fun p => p_uid p <> uid) (c_nodes c) -> (forall l, c_granted c !! l <> Some uid) ->
  cl_inv (c_set_nodes c (c_nodes c ++
    [mkProc uid new_node (node_main cfg turns fuel) (MaintainClaims cfg turns' fuel') []])).
Proof.
  intros (Hwf & Hnd & Hok) Hu Hg. split; [done|]. cbn [c_nodes c_set_nodes]. split.
  - rewrite map_app. apply NoDup_app. split; [done|]. split; [|apply NoDup_singleton].
    intros u Hin ->%list_elem_of_singleton. apply list_elem_of_In, in_map_iff in Hin as (q & Hq & Hin).
    rewrite Forall_forall in Hu. by apply (Hu q); [apply list_elem_of_In|].
  - apply Forall_app. split; [done|]. constructor; [|done].
    assert (node_state None false (mkNWorld (c_store c) (c_granted c) uid new_node)) as Hs0 by done.
    split; [by exists None, false|]. split; [|split; [apply MaintainClaims_claims|done]].
    eapply wpE_mono; [|by apply (wp_node_main cfg turns fuel None)]. done.
Qed.

(** A node is gone from among those that run. *)
Lemma leave_inv c i ks : cl_inv c ->
  cl_inv (c_set_closing (c_set_nodes c (delete i (c_nodes c))) ks).
Proof.
  intros (Hwf & Hnd & Hok). split; [done|].
  cbn [c_nodes c_set_nodes c_set_closing]. split; [|by apply Forall_delete].
  eapply sublist_NoDup; [exact Hnd|]. change (sublist (p_uid <$> delete i (c_nodes c)) (p_uid <$> c_nodes c)).
  rewrite list_fmap_delete. apply sublist_delete.
Qed.

Lemma cl_step_inv c c' : cl_inv c -> closing_ok c -> cl_step loadLocation c c' -> cl_inv c'.
Proof.
  intros Hinv [[_ Hal] Hts] Hs. pose proof Hinv as (Hwf & Hnd & Hok).
  rewrite Forall_lookup in Hok. rewrite Forall_lookup in Hal. rewrite Forall_lookup in Hts.
  destruct Hs as [i p X e k x w' Hi Hp He|i p X e k x w' Hi Hp He|i p j X e k x st' Hi Hj He Ha|
    i p q Hi Hq|i p j Hi|uid cfg turns fuel turns' fuel' Hu Hu' Hg|i|l Hl|
    i p Hi|i q j X e k x w' Hi Hj He|i q j X e k x st' Hi Hj He Hn|i].
  - by apply (run_step_inv c i p X e k x w').
  - by apply (claims_step_inv c i p X e k x w').
  - by apply (task_step_inv c i p j X e k x st').
  - apply (tasks_inv c i p); [done..|]. destruct (Hok i p Hi) as (_ & _ & _ & ?).
    constructor; [by eapply fp_node_program|done].
  - apply (tasks_inv c i p); [done..|]. destruct (Hok i p Hi) as (_ & _ & _ & ?). by apply Forall_delete.
  - by apply join_inv.
  - by apply (leave_inv c i (c_closing c)).
  - apply (store_inv c); [done| |done].
    split_and!; [by apply store_wf_expire|done|apply keeps_leads_expire].
  - by apply leave_inv.
  - apply (store_inv c); [done| |done]. pose proof (Hal i q Hi) as Hq. rewrite Forall_lookup in Hq.
    destruct (Hq j _ Hj) as [Ha _]. by apply (nev_allowed_around e (world_of_closing c q) x w').
  - pose proof (Hts i q Hi) as Hq. rewrite Forall_lookup in Hq.
    destruct (task_around c X e k x st' Hwf He (Hq j _ Hj)) as (? & ? & _). by apply (store_inv c).
  - apply (store_inv c); [done| |done]. split_and!; [done|done|apply keeps_leads_refl].
Qed.

Lemma reachable_inv st0 c : store_wf st0 -> cl_reachable loadLocation (empty_cluster st0) c -> cl_inv c.
Proof.
  intros H0 Hr. assert (cl_inv c /\ closing_ok c) as [H _]; [|exact H].
  induction Hr as [|c c' _ [IH Hc] Hs].
  - split; [split_and!; [done|constructor..]|]. split; [by split|constructor].
  - split; [by eapply cl_step_inv|]. destruct IH as (Hwf & _ & Hok). by eapply closing_ok_step.
Qed.

(** C2: the leadership is exclusive. In every state a cluster can reach, nodes on
    their way out included in what happens: a running node that leads has a
    session of its own; while the lease of that session is
    alive the leader key is there and hangs on it; and no two running nodes
    lead with live sessions. *)
Theorem leader_exclusive st0 c i p : store_wf st0 ->
  cl_reachable loadLocation (empty_cluster st0) c -> c_nodes c !! i = Some p ->
  n_isLeader (p_node p) = true ->
  exists l, n_session (p_node p) = Some l /\
    (l ∈ leases (c_store c) ->
       (exists e, kvs (c_store c) !! leaderKey = Some e /\ e_lease e = l) /\
       forall j q l', c_nodes c !! j = Some q -> n_isLeader (p_node q) = true ->
         n_session (p_node q) = Some l' -> l' ∈ leases (c_store c) -> j = i).
Proof.
  intros H0 Hr Hi Hlead. destruct (reachable_inv st0 c H0 Hr) as (_ & Hnd & Hok).
  rewrite Forall_lookup in Hok. destruct (Hok i p Hi) as ((o & b & _ & Ho & Hb & Hown & Hl) & _).
  cbn in *. subst o b. destruct (Hl Hlead) as (l & Hs & Hkey). exists l. split; [done|].
  intros Hin. destruct (Hkey Hin) as (e & He & Hel). split; [by exists e|].
  intros j q l' Hj Hq Hs' Hin'.
  destruct (Hok j q Hj) as ((o & b & _ & Ho & Hb & Hown' & Hl') & _). cbn in *. subst o b.
  destruct (Hl' Hq) as (l2 & Hs2 & Hkey'). rewrite Hs' in Hs2. injection Hs2 as <-.
  destruct (Hkey' Hin') as (e' & He' & Hel'). rewrite He in He'. injection He' as <-.
  assert (l' = l) as -> by congruence.
  pose proof (Hown l Hs) as H1. pose proof (Hown' l Hs') as H2. rewrite H1 in H2. injection H2 as Huid.
  eapply NoDup_lookup; [exact Hnd| |]; rewrite list_lookup_fmap; [by rewrite Hj|by rewrite Hi, <- Huid].
Qed.
End cluster.
