(* ===== verification/ClusterRuns.v ===== *)
(** * Runs of a cluster

    [nafter n p w] runs a node's own program for [n] requests on a healthy etcd
    ([nhandle] chooses the answers); such runs are runs of the cluster.  One of
    them shows two nodes that both lead: the old leader does not know yet that
    its lease has ended, and nothing it writes is fenced by the leader key. *)
From S2P Require Import Prelude GoStrings GoTime Model Config Codec Etcd Exec System Effects.
From S2P Require Import Queue Jobs Scheduler Cluster Programs ClusterSystem.

Open Scope string_scope.
Open Scope list_scope.
Open Scope orbix_scope.
Open Scope Z_scope.

(** ** Healthy answers *)

#[export] Instance fresh_lease_dec w l : Decision (fresh_lease w l).
Proof. unfold fresh_lease. apply _. Defined.

(** The lease the next session gets. *)
Definition next_lease (w : NWorld) : LeaseID := Z.of_nat (size (w_granted w)) + 1.

Definition nhandle {X} (e : NEv X) (w : NWorld) : option (X * NWorld) :=
  match e in NEv X return option (X * NWorld) with
  | NEtcd e => let '(x, m) := mem_handle e (mem_of (w_store w)) in
               Some (x, w_set_store w (mem_store m))
  | NGetRev k => Some (Ok (kvs (w_store w) !! k, revision (w_store w)), w)
  | NDial _ _ => Some (Ok tt, w)
  | NCloseClient => Some (tt, w)
  | NCtxDone => Some (false, w)
  | NSleep _ => Some (false, w)
  | NewSession _ =>
      let l := next_lease w in
      if decide (fresh_lease w l) then Some (Ok l, w_grant w l) else None
  | CloseSession l => Some (tt, if decide (l = NoLease) then w else w_set_store w (expire l (w_store w)))
  | Lock m => if mu_held m (w_node w) then None
              else Some (tt, w_set_node w (set_mu m true (w_node w)))
  | Unlock m => Some (tt, w_set_node w (set_mu m false (w_node w)))
  | LoadSession m => Some (session_at m (w_node w), w)
  | StoreSession m o => Some (tt, w_set_node w (set_session m o (w_node w)))
  | LoadIsLeader => Some (n_isLeader (w_node w), w)
  | StoreIsLeader b => Some (tt, w_set_node w (set_isLeader b (w_node w)))
  | LoadLeader => Some (n_leader (w_node w), w)
  | StoreLeader i => Some (tt, w_set_node w (set_leader i (w_node w)))
  | Emit k => Some (tt, w_set_node w (emit k (w_node w)))
  | AwaitDone _ => Some (tt, w)
  | SelectDone _ => Some (false, w)
  | NWatch _ _ => Some (tt, w)
  | SelectFollow _ => Some (FWatchClosed, w)
  end.

Lemma nhandle_sound {X} (e : NEv X) w x w' : nhandle e w = Some (x, w') -> nev_ok e w x w'.
Proof.
  destruct e; cbn; try (by intros [= <- <-]).
  - pose proof (handle_sound _ e (mem_of (w_store w))) as Hs. cbn in Hs.
    destruct (mem_handle e (mem_of (w_store w))) as [y m]. intros [= <- <-]. by exists (mem_store m).
  - case_decide; [|done]. by intros [= <- <-].
  - intros [= <- <-]. case_decide; [by left|by right].
  - destruct (mu_held m (w_node w)); [done|]. by intros [= <- <-].
Qed.

Fixpoint nafter {A} (n : nat) (p : NProg A) (w : NWorld) : option (NProg A * NWorld) :=
  match n with
  | O => Some (p, w)
  | S n' => match p with
            | Vis e k => '(x, w') ← nhandle e w; nafter n' (k x) w'
            | _ => None
            end
  end.

(** The program still runs after [n] requests. *)
Definition runs_for {A} (n : nat) (p : NProg A) (w : NWorld) : bool :=
  match nafter n p w with Some _ => true | None => false end.

Section runs.
Context `{TJ : Json Ticket ticket_valid} `{RJ : Json Result result_valid}
  `{JJ : Json Job job_valid} `{MJ : Json Member member_valid}
  `{LJ : Json LeaderInfo leader_valid}.
Context (loadLocation : string -> option Location).

(** The election of the [i]-th node, run for [n] requests. *)
Lemma nafter_reachable n c0 c i p q w : cl_reachable loadLocation c0 c -> c_nodes c !! i = Some p ->
  nafter n (p_run p) (world_of c p) = Some (q, w) ->
  w_self w = p_uid p /\
  cl_reachable loadLocation c0
    (c_update c i w (mkProc (p_uid p) (w_node w) q (p_claims p) (p_tasks p))).
Proof.
  revert c p. induction n as [|n IH]; intros c p Hr Hi Hn; cbn [nafter] in Hn.
  - injection Hn as <- <-. split; [done|]. unfold c_update. cbn.
    rewrite list_insert_id; [by destruct c|]. by destruct p.
  - destruct (p_run p) as [a| |X e k] eqn:Hp; [done..|].
    destruct (nhandle e (world_of c p)) as [[x w1]|] eqn:Hh; [|done]. cbn in Hn.
    apply nhandle_sound in Hh. set (p1 := mkProc (p_uid p) (w_node w1) (k x) (p_claims p) (p_tasks p)).
    pose proof (cl_run loadLocation c i p X e k x w1 Hi Hp Hh) as Hs. fold p1 in Hs.
    assert (w_self w1 = p_uid p) as Hself.
    { clear -Hh. destruct e; cbn in Hh; repeat match goal with
        | H : _ /\ _ |- _ => destruct H | H : exists _, _ |- _ => destruct H
        | H : _ \/ _ |- _ => destruct H | H : match ?y with _ => _ end |- _ => destruct y
        end; by subst. }
    assert (c_nodes (c_update c i w1 p1) !! i = Some p1) as Hi1
      by (apply list_lookup_insert_eq; by eapply lookup_lt_Some).
    destruct (IH (c_update c i w1 p1) p1) as [Hself' Hr']; [by eapply clr_step|done| |].
    { unfold world_of. cbn. rewrite <- Hself. by destruct w1. }
    split; [done|]. unfold c_update in *. cbn in Hr'. by rewrite list_insert_insert_eq in Hr'.
Qed.
End runs.

(** ** The scheduler's writes are not fenced

    A node that believes it leads enqueues a fire whose ticket is not pending,
    whoever holds the leader key: the transaction compares nothing else. *)
Section writes.
Context `{TJ : Json Ticket ticket_valid} `{RJ : Json Result result_valid}
  `{JJ : Json Job job_valid} `{MJ : Json Member member_valid}
  `{LJ : Json LeaderInfo leader_valid}.
Context (loadLocation : string -> option Location).

Lemma cl_task_at c i p n X (e : Ev X) k x st' : c_nodes c !! i = Some p ->
  p_tasks p !! n = Some (Vis e k) -> ev_ok e (c_store c) x st' -> node_answer e (p_node p) x ->
  exists p', cl_step loadLocation c (mkCluster st' (c_granted c) (<[i := p']> (c_nodes c)) (c_closing c)) /\
    p_uid p' = p_uid p /\ p_node p' = p_node p /\ p_tasks p' !! n = Some (k x).
Proof.
  intros Hi Hn He Ha. exists (p_set_tasks p (<[n := k x]> (p_tasks p))).
  split; [by apply (cl_task loadLocation c i p n X e k x st')|]. split_and!; [done..|].
  apply list_lookup_insert_eq. by eapply lookup_lt_Some.
Qed.

Lemma leader_write_unfenced c0 c i p n (j : Job) f fires :
  cl_reachable loadLocation c0 c -> store_wf (c_store c) ->
  c_nodes c !! i = Some p -> n_isLeader (p_node p) = true ->
  p_tasks p !! n = Some (enqueue_all j (f :: fires)) ->
  kvs (c_store c) !! PendingKey (fire_ticket j f) = None ->
  exists c', cl_reachable loadLocation c0 c' /\
    kvs (c_store c') !! leaderKey = kvs (c_store c) !! leaderKey /\
    is_Some (kvs (c_store c') !! PendingKey (fire_ticket j f)).
Proof.
  intros Hr Hwf Hi Hl Hn Hk. cbn [enqueue_all prog_bind call] in Hn.
  destruct (cl_task_at c i p n _ _ _ true (c_store c) Hi Hn eq_refl (eq_sym Hl))
    as (p1 & Hs1 & Hu1 & Hn1 & Ht1). cbn [negb] in Ht1.
  set (c1 := mkCluster _ _ _ _) in Hs1.
  assert (c_nodes c1 !! i = Some p1) as Hi1
    by (apply list_lookup_insert_eq; by eapply lookup_lt_Some).
  unfold enqueueFire, EnqueueFire in Ht1. cbn [prog_bind call] in Ht1.
  set (ops := [OpPut _ _ _; OpPut _ _ _]) in Ht1.
  destruct (cl_task_at c1 i p1 n _ _ _ (Ok true) (apply_ops (c_store c) ops) Hi1 Ht1) as (p2 & Hs2 & _).
  { cbn [ev_ok]. unfold txn_ok. cbn [forallb c_store c1].
    assert (cmp_holds (kvs (c_store c)) (CVersion (PendingKey (fire_ticket j f)) 0) = true) as ->
      by (by apply cmp_version_0). cbn. split; [done|]. split; [|done].
    repeat constructor; by left. }
  { done. }
  eexists. split; [eapply clr_step; [by eapply clr_step|exact Hs2]|]. cbn [c_store]. split.
  - apply lookup_apply_ops_ne. subst ops. cbn [map op_key]. unfold PendingKey, WatermarkKey.
    rewrite !not_elem_of_cons. split_and!; [..|apply not_elem_of_nil];
      by apply not_leaderKey.
  - subst ops. unfold apply_ops. cbn [kvs foldl apply_op]. rewrite lookup_insert_ne, lookup_insert_eq; [by eexists|].
    by apply (prefix_ne WatermarkPrefix PendingPrefix).
Qed.
End writes.

(** ** Two leaders *)

Definition store_empty : Store := mkStore ∅ 0 ∅.

(** Requests from the start of a node to its first term. *)
Definition elected : nat := 29.

Definition world0 : NWorld := mkNWorld store_empty ∅ 0 new_node.

Definition run_node (name : string) (w : NWorld) : NProg unit * NWorld :=
  default (Panic, w) (nafter elected (node_main (Default name) 1 1) w).

(** The first node is elected; its lease ends; the second is elected. *)
Definition world_a : NWorld := (run_node "a" world0).2.
Definition world_b0 : NWorld :=
  mkNWorld (expire 1 (w_store world_a)) (w_granted world_a) 1 new_node.
Definition world_b : NWorld := (run_node "b" world_b0).2.

Lemma run_a : nafter elected (node_main (Default "a") 1 1) world0 =
    Some ((run_node "a" world0).1, world_a) /\
  n_isLeader (w_node world_a) = true /\ n_session (w_node world_a) = Some 1 /\
  (forall l, w_granted world_a !! l <> Some 1%nat) /\ 1 ∈ leases (w_store world_a).
Proof.
  assert (runs_for elected (node_main (Default "a") 1 1) world0 = true) as Hs by (by vm_compute).
  split_and!.
  - unfold world_a, world_b, run_node, runs_for in *. by destruct (nafter _ _ _) as [[]|].
  - by vm_compute.
  - by vm_compute.
  - intros l Hl. assert (bool_decide (map_Forall (fun _ u => u <> 1%nat) (w_granted world_a)) = true) as H
      by (by vm_compute). apply bool_decide_eq_true in H. by apply (H l 1%nat Hl).
  - assert (bool_decide (1 ∈ leases (w_store world_a)) = true) as H by (by vm_compute).
    by apply bool_decide_eq_true in H.
Qed.

Lemma run_b : nafter elected (node_main (Default "b") 1 1) world_b0 =
    Some ((run_node "b" world_b0).1, world_b) /\
  n_isLeader (w_node world_b) = true /\ n_session (w_node world_b) = Some 3 /\
  1 ∉ leases (w_store world_b).
Proof.
  assert (runs_for elected (node_main (Default "b") 1 1) world_b0 = true) as Hs by (by vm_compute).
  split_and!.
  - unfold world_a, world_b, run_node, runs_for in *. by destruct (nafter _ _ _) as [[]|].
  - by vm_compute.
  - by vm_compute.
  - assert (bool_decide (1 ∈ leases (w_store world_b)) = false) as H by (by vm_compute).
    by apply bool_decide_eq_false in H.
Qed.

#[local] Opaque run_node nafter.

Section two.
Context (loadLocation : string -> option Location).

(** A node that has just joined and the one it becomes. *)
Definition proc_start (name : string) (uid : nat) : NodeProc :=
  mkProc uid new_node (node_main (Default name) 1 1) (MaintainClaims (Default name) 1 1) [].

Definition proc_after (name : string) (uid : nat) (w : NWorld) : NodeProc :=
  mkProc uid (w_node (run_node name w).2) (run_node name w).1 (MaintainClaims (Default name) 1 1) [].

Definition one_leader : Cluster :=
  mkCluster (w_store world_a) (w_granted world_a) [proc_after "a" 0 world0] [].

Lemma one_leader_reachable : cl_reachable loadLocation (empty_cluster store_empty) one_leader.
Proof.
  pose (c1 := c_set_nodes (empty_cluster store_empty) [proc_start "a" 0]).
  assert (cl_reachable loadLocation (empty_cluster store_empty) c1) as H1.
  { eapply clr_step; [apply clr_refl|]. apply (cl_join loadLocation (empty_cluster store_empty) 0 (Default "a") 1 1 1 1); [constructor|constructor|done]. }
  destruct run_a as [Hrun _].
  exact (proj2 (nafter_reachable loadLocation elected _ c1 0 (proc_start "a" 0)
    (run_node "a" world0).1 world_a H1 eq_refl Hrun)).
Qed.

(** Finding: two nodes can lead at the same time, as far as they know: the
    lease of the first has ended, its session has not told it yet, the second has
    won the leader key, and [IsLeader] is true on both. *)
Theorem two_leaders : exists c i j p q,
  cl_reachable loadLocation (empty_cluster store_empty) c /\ i <> j /\
  c_nodes c !! i = Some p /\ c_nodes c !! j = Some q /\
  n_isLeader (p_node p) = true /\ n_isLeader (p_node q) = true /\
  exists l, n_session (p_node p) = Some l /\ l ∉ leases (c_store c).
Proof.
  pose (c3 := c_set_store one_leader (expire 1 (w_store world_a))).
  pose (c4 := c_set_nodes c3 [proc_after "a" 0 world0; proc_start "b" 1]).
  destruct run_a as (_ & Ha & Hsa & Hfree & _). destruct run_b as (Hrun & Hb & Hsb & Hgone).
  assert (cl_reachable loadLocation (empty_cluster store_empty) c4) as H4.
  { eapply clr_step; [eapply clr_step; [apply one_leader_reachable|by apply (cl_expire _ _ 1)]|].
    apply (cl_join loadLocation c3 1 (Default "b") 1 1 1 1); [by constructor|constructor|exact Hfree]. }
  pose proof (proj2 (nafter_reachable loadLocation elected _ c4 1 (proc_start "b" 1)
    (run_node "b" world_b0).1 world_b H4 eq_refl Hrun)) as H5.
  eexists _, 0%nat, 1%nat, (proc_after "a" 0 world0), (proc_after "b" 1 world_b0).
  split; [exact H5|]. split; [lia|]. split; [reflexivity|]. split; [reflexivity|].
  split; [exact Ha|]. split; [exact Hb|]. exists 1. by split.
Qed.
End two.
