(* ===== verification/SchedulerFacts.v ===== *)
(** * What the scheduler enqueues

    The fires collected since the watermark are exactly the matching instants,
    in order; what each policy does with them; and two policies that lose
    fires. *)
From S2P Require Import Prelude GoStrings GoTime Cron CronParse CronNext Model Codec Etcd Exec.
From S2P Require Import Queue QueueFacts Jobs JobFacts Scheduler System Footprint Programs.

Open Scope string_scope.
Open Scope list_scope.
Open Scope orbix_scope.
Open Scope Z_scope.

(** ** The fires that are due *)

Definition zone (loadLocation : string -> option Location) (tz : string) : option Location :=
  if String.eqb tz "" then Some UTC else loadLocation tz.

Lemma NextAfter_Next ll expr tz from nxt : NextAfter ll expr tz from = Ok nxt ->
  exists s loc, Parse expr = Ok s /\ zone ll tz = Some loc /\ Next s loc from = Some nxt.
Proof.
  unfold NextAfter, zone. destruct (Parse expr) as [s|]; [|done]. cbn [mbind result_bind].
  destruct (String.eqb tz "").
  - cbn [mbind result_bind]. destruct (Next s UTC from) as [t|] eqn:E; [|done].
    intros [= ->]. by exists s, UTC.
  - destruct (ll tz) as [loc|]; [|done]. cbn [opt_or mbind result_bind].
    destruct (Next s loc from) as [t|] eqn:E; [|done]. intros [= ->]. by exists s, loc.
Qed.

Definition due (s : Schedule) (loc : Location) (from now f : Time) : Prop :=
  candidate s f /\ from < f <= now /\ matches s loc f = true.

(** The fires up to [cur] that are due since [from]. *)
Definition collected (s : Schedule) (loc : Location) (from now : Time)
    (fires : list Time) (cur : Time) : Prop :=
  StronglySorted Z.lt fires /\ Forall (due s loc from now) fires /\
  (forall f, due s loc from now f -> f <= cur -> f ∈ fires) /\
  cur = default from (last fires) /\ Forall (fun f => f <= cur) fires /\ from <= cur.

Lemma StronglySorted_snoc l (x : Z) : StronglySorted Z.lt l -> Forall (fun y => y < x) l ->
  StronglySorted Z.lt (l ++ [x]).
Proof.
  induction 1 as [|y l Hs IH Hy]; intros Hx; simpl; [repeat constructor|].
  apply Forall_cons in Hx as [? Hx]. constructor; [by apply IH|].
  apply Forall_app. split; [done|]. by repeat constructor.
Qed.

Section collect.
Context (ll : string -> option Location) (expr tz : string) (s : Schedule) (loc : Location).
Context (Hparse : Parse expr = Ok s) (Hzone : zone ll tz = Some loc).
Context (Hloc : hasSeconds s = true -> hour_aligned loc).

Lemma NextAfter_first from nxt : NextAfter ll expr tz from = Ok nxt ->
  candidate s nxt /\ from < nxt /\ matches s loc nxt = true /\
  forall u, candidate s u -> from < u < nxt -> matches s loc u = false.
Proof.
  intros (s' & loc' & Hp & Hz & Hn)%NextAfter_Next.
  rewrite Hparse in Hp. injection Hp as <-. rewrite Hzone in Hz. injection Hz as <-.
  destruct (Next_sound _ _ _ _ Hn) as (? & ? & ?). split_and!; try done; [lia|].
  intros u Hu Hr. apply (Next_complete s loc from u Hloc Hu); [lia|]. rewrite Hn. lia.
Qed.

Lemma collected_step from now fires cur nxt : collected s loc from now fires cur ->
  NextAfter ll expr tz cur = Ok nxt -> nxt <= now ->
  collected s loc from now (fires ++ [nxt]) nxt.
Proof.
  intros (Hs & Hd & Hc & Hcur & Hle & Hfrom) (H1 & H2 & H3 & H4)%NextAfter_first Hnow.
  assert (Forall (fun y => y < nxt) fires) as Hlt
    by (eapply Forall_impl; [exact Hle|]; simpl; lia).
  split_and!.
  - by apply StronglySorted_snoc.
  - apply Forall_app. split; [done|]. repeat constructor; [done|lia..|done].
  - intros f Hf Hfn. apply elem_of_app. destruct (decide (f <= cur)) as [|Hn]; [left; auto|].
    destruct (decide (f = nxt)) as [->|Hne]; [right; left|].
    exfalso. destruct Hf as (Hf1 & Hf2 & Hf3). rewrite (H4 f Hf1) in Hf3; [done|lia].
  - by rewrite last_snoc.
  - apply Forall_app. split; [|by repeat constructor]. eapply Forall_impl; [exact Hlt|]. simpl. lia.
  - lia.
Qed.

Lemma collect_collected n from now fires cur fires' cur' future :
  collected s loc from now fires cur ->
  collect ll n expr tz now fires cur = Ok (fires', cur', future) ->
  collected s loc from now fires' cur' /\ (length fires' <= length fires + n)%nat /\
  ((future = zero_time /\ length fires' = (length fires + n)%nat) \/
   (now < future /\ NextAfter ll expr tz cur' = Ok future)).
Proof.
  revert fires cur. induction n as [|n IH]; intros fires cur Hc H; simpl in H.
  - injection H as <- <- <-. split; [done|]. split; [lia|]. left. split; [done|lia].
  - destruct (NextAfter ll expr tz cur) as [nxt|] eqn:En; [|done]. cbn [mbind result_bind] in H.
    destruct (now <? nxt) eqn:E; bool_prop.
    + injection H as <- <- <-. split; [done|]. split; [lia|]. by right.
    + apply IH in H as (H1 & H2 & H3); [|by eapply collected_step].
      rewrite length_app in H2, H3. simpl in H2, H3. split; [done|]. split; [lia|].
      destruct H3 as [[? ?]|?]; [left; split; [done|lia]|by right].
Qed.

End collect.

(** ** Times as keys *)

Definition whole_second (t : Time) : Prop := (Second | t).

Lemma whole_unix t : whole_second t -> unix t * Second = t.
Proof. intros [k ->]. unfold unix. by rewrite Z.div_mul. Qed.

Lemma Nano_whole t : whole_second t -> FormatRFC3339Nano t = FormatRFC3339 t.
Proof. intros [k ->]. unfold FormatRFC3339Nano. by rewrite Z.mod_mul. Qed.

Lemma Format_parse t : whole_second t -> four_digit_year t ->
  ParseRFC3339 (FormatRFC3339 t) = Some t.
Proof. intros Hw Hy. rewrite ParseRFC3339_Format by (by apply year_of_range). by rewrite whole_unix. Qed.

Lemma Format_inj t1 t2 : whole_second t1 -> whole_second t2 ->
  four_digit_year t1 -> four_digit_year t2 -> FormatRFC3339 t1 = FormatRFC3339 t2 -> t1 = t2.
Proof.
  intros ???? H. apply (f_equal ParseRFC3339) in H. rewrite !Format_parse in H by done.
  by injection H.
Qed.

Lemma four_digit_between a b t : four_digit_year a -> four_digit_year b -> a <= t <= b ->
  four_digit_year t.
Proof.
  unfold four_digit_year, unix. intros ?? [H1 H2].
  pose proof (Z.div_le_mono a t Second ltac:(done) H1).
  pose proof (Z.div_le_mono t b Second ltac:(done) H2). lia.
Qed.

Lemma candidate_whole s t : candidate s t -> whole_second t.
Proof.
  unfold candidate, whole_second, tick_of. intros H. destruct (hasSeconds s); [done|].
  apply (Z.divide_trans _ Minute); [by exists 60|done].
Qed.

(** In any zone, a fire [NextAfter] answers is a later whole second. *)
Lemma NextAfter_later ll expr tz from nxt : NextAfter ll expr tz from = Ok nxt ->
  from < nxt /\ whole_second nxt.
Proof.
  intros (s & loc & _ & _ & (Hc & ? & _)%Next_sound)%NextAfter_Next.
  split; [lia|]. by eapply candidate_whole.
Qed.

Lemma collect_later ll n expr tz now fires cur fires' cur' future from :
  from <= cur -> Forall (fun f => from < f <= now /\ whole_second f) fires ->
  collect ll n expr tz now fires cur = Ok (fires', cur', future) ->
  Forall (fun f => from < f <= now /\ whole_second f) fires'.
Proof.
  revert fires cur. induction n as [|n IH]; intros fires cur Hc Hf H; simpl in H.
  - by injection H as <- <- <-.
  - destruct (NextAfter ll expr tz cur) as [nxt|] eqn:En; [|done]. cbn [mbind result_bind] in H.
    apply NextAfter_later in En as [? ?].
    destruct (now <? nxt) eqn:E; bool_prop; [by injection H as <- <- <-|].
    eapply IH; [|..|exact H]; [lia|]. apply Forall_app. split; [done|]. repeat constructor; done || lia.
Qed.

(** The future fire is the zero time or an answer of [NextAfter]. *)
Lemma collect_last ll n expr tz now fires cur fires' cur' future :
  collect ll n expr tz now fires cur = Ok (fires', cur', future) ->
  future = zero_time \/ NextAfter ll expr tz cur' = Ok future.
Proof.
  revert fires cur. induction n as [|n IH]; intros fires cur H; simpl in H.
  - injection H as <- <- <-. by left.
  - destruct (NextAfter ll expr tz cur) as [nxt|] eqn:En; [|done]. cbn [mbind result_bind] in H.
    case_match; [injection H as <- <- <-; by right|by eapply IH].
Qed.

(** ** One job, one tick *)

Section ticks.
Context `{TJ : Json Ticket ticket_valid} `{RJ : Json Result result_valid}
  `{JJ : Json Job job_valid}.
Context (ll : string -> option Location).

Definition parse_watermark (wm : option string) : Time :=
  match wm with
  | Some s => match ParseRFC3339 s with Some t => t | None => zero_time end
  | None => zero_time
  end.

(** What [scheduleJob] does once it has read the watermark. *)
Definition with_watermark (j : Job) (now : Time) (from : Time) : Prog unit :=
  let policy := if String.eqb (j_CatchUp j) "" then CatchUpRunLatest else j_CatchUp j in
  if IsZero from then
    match NextAfter ll (j_Cron j) (j_Timezone j) now with
    | Err _ => Ret tt
    | Ok nxt => advance (j_ID j) nxt
    end
  else
    match collect ll maxCatchUpFires (j_Cron j) (j_Timezone j) now [] from with
    | Err _ => Ret tt
    | Ok (fires, from, future) =>
        if String.eqb policy CatchUpSkip then
          if (0 <? Z.of_nat (length fires)) then
            advance (j_ID j) (if IsZero future then from else future)
          else Ret tt
        else if String.eqb policy CatchUpRunAll then enqueue_all j fires
        else match last fires with
             | None => Ret tt
             | Some latest => enqueueFire j latest (if IsZero future then latest else future)
             end
    end.

Context `{WW : World W}.
Implicit Types (w : W).

(** A tick runs on the watermark it finds, or does nothing. *)
Lemma scheduleJob_run j now w :
  exists w', store_of w' = store_of w /\
  (run (scheduleJob ll j now) w = (Done tt, w') \/
   run (scheduleJob ll j now) w =
     run (with_watermark j now (parse_watermark (value_at (store_of w) (WatermarkKey (j_ID j))))) w').
Proof.
  unfold scheduleJob, Watermark. cbn [prog_bind call run]. run_step r w1 H.
  destruct H as [Hst Hr]. exists w1.
  split; [done|]. destruct r as [o|e]; [right|by left]. subst o. unfold value_at.
  by destruct (kvs (store_of w) !! WatermarkKey (j_ID j)).
Qed.

(** The keys a tick may write: the watermark, and the tickets of the fires. *)
Definition fire_keys (j : Job) (fires : Time -> Prop) (k : string) : Prop :=
  k = WatermarkKey (j_ID j) \/ exists f, fires f /\ k = PendingKey (fire_ticket j f).

Lemma fp_advance_keys j fires t : footprint (fire_keys j fires) (advance (j_ID j) t).
Proof. unfold advance, AdvanceWatermark. repeat footprint_step. by left. Qed.

Lemma fp_enqueueFire_keys j (fires : Time -> Prop) f wm : fires f ->
  footprint (fire_keys j fires) (enqueueFire j f wm).
Proof.
  intros Hf. unfold enqueueFire, EnqueueFire. repeat footprint_step; [right; eauto|by left].
Qed.

Lemma fp_enqueue_all_keys j (fires : Time -> Prop) l : Forall fires l ->
  footprint (fire_keys j fires) (enqueue_all j l).
Proof.
  induction 1 as [|f l Hf _ IH]; cbn [enqueue_all]; [done|].
  repeat first [footprint_step | apply IH | by apply fp_enqueueFire_keys].
Qed.

Lemma fp_with_watermark j now from :
  footprint (fire_keys j (fun f => from < f <= now /\ whole_second f)) (with_watermark j now from).
Proof.
  unfold with_watermark. destruct (IsZero from).
  { case_match; [apply fp_advance_keys|done]. }
  destruct (collect _ _ _ _ _ _ _) as [[[fires cur] future]|] eqn:Ec; [|done].
  apply (collect_later _ _ _ _ _ _ _ _ _ _ from) in Ec; [|lia|constructor].
  assert (forall latest, last fires = Some latest -> from < latest <= now /\ whole_second latest) as Hl.
  { intros latest El. apply last_Some_elem_of in El. rewrite Forall_forall in Ec. by apply Ec. }
  repeat first [ apply fp_advance_keys | by apply fp_enqueue_all_keys
               | by apply fp_enqueueFire_keys, Hl | done | case_match ].
Qed.

(** Fires up to the watermark are over: no tick touches their tickets. *)
Lemma past_fires_untouched j now w f F :
  value_at (store_of w) (WatermarkKey (j_ID j)) = Some (FormatRFC3339 F) ->
  whole_second F -> whole_second f -> four_digit_year f -> four_digit_year F ->
  four_digit_year now -> f <= F ->
  kvs (store_of (run (scheduleJob ll j now) w).2) !! PendingKey (fire_ticket j f)
  = kvs (store_of w) !! PendingKey (fire_ticket j f).
Proof.
  intros Hwm HF Hf Hyf HyF Hnow Hle.
  destruct (scheduleJob_run j now w) as (w' & Hst & [->| ->]); [by rewrite <- Hst|].
  rewrite Hwm. cbn [parse_watermark]. rewrite Format_parse by done.
  rewrite <- Hst. eapply footprint_frame; [apply fp_with_watermark|].
  intros [H|(g & [Hg Hgw] & H)]; [by symmetry in H; apply prefix_ne in H|].
  apply PendingKey_inj in H. apply stamp_of_inj in H as [_ H]. cbn [t_SchedAt fire_ticket] in H.
  rewrite !Nano_whole in H by done. apply Format_inj in H; try done; [lia|].
  apply (four_digit_between F now); [done..|lia].
Qed.

(** Finding: under [skip] no fire ever runs, not even one that is on time: a
    tick writes nothing but the watermark. *)
Theorem skip_never_enqueues j now w k :
  j_CatchUp j = CatchUpSkip -> k <> WatermarkKey (j_ID j) ->
  kvs (store_of (run (scheduleJob ll j now) w).2) !! k = kvs (store_of w) !! k.
Proof.
  intros Hskip Hk. apply (footprint_frame (fire_keys j (fun _ => False))).
  - unfold scheduleJob, Watermark. rewrite Hskip. cbn [prog_bind call].
    split; [constructor|]. intros [o|e] _; [|done]. cbn [wrap_err option_map].
    change (String.eqb CatchUpSkip "") with false.
    change (String.eqb CatchUpSkip CatchUpSkip) with true. cbn iota.
    repeat first [apply fp_advance_keys | done | case_match].
  - intros [?|(? & [] & _)]. done.
Qed.

(** C14: a tick enqueues only fires that are due: after the watermark it found and
    not after now, under every policy; nothing else but the watermark changes. *)
Theorem scheduleJob_only_due j now w k :
  let from := parse_watermark (value_at (store_of w) (WatermarkKey (j_ID j))) in
  k <> WatermarkKey (j_ID j) ->
  (forall f, from < f <= now -> k <> PendingKey (fire_ticket j f)) ->
  kvs (store_of (run (scheduleJob ll j now) w).2) !! k = kvs (store_of w) !! k.
Proof.
  intros from Hk Hf. destruct (scheduleJob_run j now w) as (w' & Hst & [-> | ->]).
  { by rewrite <- Hst. }
  fold from. clearbody from. rewrite <- Hst. eapply footprint_frame; [apply fp_with_watermark|].
  intros [->|(f & [Hr _] & ->)]; [done|]. by apply (Hf f).
Qed.
(** The write of a tick that moves the watermark to [X]. *)
Definition moves_watermark (j : Job) (now X : Time) (from : Time) : Prop :=
  if IsZero from then NextAfter ll (j_Cron j) (j_Timezone j) now = Ok X
  else (j_CatchUp j = "" \/ j_CatchUp j = CatchUpRunLatest) /\ now < X /\
    exists fires cur, fires <> [] /\
      collect ll maxCatchUpFires (j_Cron j) (j_Timezone j) now [] from = Ok (fires, cur, X).

Lemma enqueueFire_watermark j f wm w : store_wf (store_of w) ->
  let st' := store_of (run (enqueueFire j f wm) w).2 in
  value_at st' (WatermarkKey (j_ID j)) = value_at (store_of w) (WatermarkKey (j_ID j)) \/
  value_at st' (WatermarkKey (j_ID j)) = Some (FormatRFC3339 wm).
Proof.
  intros Hwf. unfold enqueueFire. rewrite run_bind.
  destruct (EnqueueFire_step (fire_ticket j f) (FormatRFC3339 wm) w Hwf) as (r & E & H).
  destruct (run (EnqueueFire _ _) w) as [o w1]. cbn [fst snd] in *. subst o. cbn [run snd].
  assert (store_of w1 = apply_ops (store_of w) (fire_ops (fire_ticket j f) (FormatRFC3339 wm)) ->
    value_at (store_of w1) (WatermarkKey (j_ID j)) = Some (FormatRFC3339 wm)) as Hput.
  { intros ->. unfold value_at, fire_ops. cbn [t_JobID fire_ticket]. by lookup_ops. }
  destruct r as [[]|e]; cbn [put_if_absent] in H.
  - right. apply Hput. by destruct H.
  - left. by destruct H as [_ ->].
  - destruct H as [->|[_ H]]; [by left|right; by apply Hput].
Qed.

Lemma advance_watermark id t w :
  let st' := store_of (run (advance id t) w).2 in
  value_at st' (WatermarkKey id) = value_at (store_of w) (WatermarkKey id) \/
  value_at st' (WatermarkKey id) = Some (FormatRFC3339 t).
Proof.
  unfold advance, AdvanceWatermark. cbn [prog_bind call run]. run_step r w1 H. simpl in H.
  cbn [run snd]. assert (store_of w1 = apply_ops (store_of w) [OpPut (WatermarkKey id) (FormatRFC3339 t) NoLease] ->
    value_at (store_of w1) (WatermarkKey id) = Some (FormatRFC3339 t)) as Hput.
  { intros ->. unfold value_at. by lookup_ops. }
  destruct r as [[]|e]; [destruct H as (_ & _ & H)|destruct H as [->|[_ H]]; [by left|]];
    right; by apply Hput.
Qed.

(** C40 (finding): the watermark is moved to a fire that is still to come, and fires
    are searched strictly after the watermark: the fire it is moved to is lost.
    This is so for the first fire of every job (the tick that finds no watermark)
    and, under [run_latest], for the fire after each one that is enqueued. *)
Theorem next_fire_is_lost j now X w now2 w2 :
  let wmk := WatermarkKey (j_ID j) in
  let st1 := store_of (run (scheduleJob ll j now) w).2 in
  store_wf (store_of w) -> four_digit_year X -> four_digit_year now2 -> X <> zero_time ->
  moves_watermark j now X (parse_watermark (value_at (store_of w) wmk)) ->
  value_at st1 wmk <> value_at (store_of w) wmk ->
  value_at (store_of w2) wmk = value_at st1 wmk ->
  now < X /\
  kvs (store_of (run (scheduleJob ll j now2) w2).2) !! PendingKey (fire_ticket j X)
    = kvs (store_of w2) !! PendingKey (fire_ticket j X).
Proof.
  intros wmk st1 Hwf HX Hnow2 Hnz Hmove Hchg Hw2.
  assert (now < X /\ whole_second X) as [Hlt Hwhole].
  { unfold moves_watermark in Hmove. case_match; [by eapply NextAfter_later|].
    destruct Hmove as (_ & ? & fires & cur & _ & Hc). split; [done|].
    destruct (collect_last _ _ _ _ _ _ _ _ _ _ Hc) as [Hz|Hn]; [by exfalso; apply Hnz|].
    by apply NextAfter_later in Hn as [_ ?]. }
  split; [done|]. apply (past_fires_untouched j now2 w2 X X); try done.
  fold wmk. rewrite Hw2. subst st1. revert Hchg.
  destruct (scheduleJob_run j now w) as (w' & Hst & [->| ->]); [by rewrite <- Hst|].
  fold wmk. rewrite <- Hst in *. set (from := parse_watermark _) in *.
  unfold moves_watermark in Hmove. unfold with_watermark.
  destruct (IsZero from).
  - rewrite Hmove. intros Hne. by destruct (advance_watermark (j_ID j) X w').
  - destruct Hmove as (Hpol & _ & fires & cur & Hne & Hc). rewrite Hc.
    assert (forall a b : Prog unit, (if String.eqb (if String.eqb (j_CatchUp j) "" then CatchUpRunLatest else j_CatchUp j)
      CatchUpSkip then a else b) = b) as -> by (by destruct Hpol as [-> | ->]).
    assert (forall a b : Prog unit, (if String.eqb (if String.eqb (j_CatchUp j) "" then CatchUpRunLatest else j_CatchUp j)
      CatchUpRunAll then a else b) = b) as -> by (by destruct Hpol as [-> | ->]).
    destruct (last fires) as [latest|] eqn:El; [|by apply last_None in El].
    assert (IsZero X = false) as -> by (unfold IsZero; by apply Z.eqb_neq).
    intros Hch. by destruct (enqueueFire_watermark j latest X w' Hwf).
Qed.
End ticks.
