(* ===== verification/SchedulerRuns.v ===== *)
(** * Runs of the scheduler

    [run_all] without faults, the same job under [run_latest] for six minutes,
    and the sweep of orphaned tickets. *)
From S2P Require Import Prelude GoStrings GoTime Cron CronParse CronNext Model Codec Etcd Exec.
From S2P Require Import System Footprint.
From S2P Require Import Queue QueueFacts Jobs JobFacts Scheduler Programs SchedulerFacts.

Open Scope string_scope.
Open Scope list_scope.
Open Scope orbix_scope.
Open Scope Z_scope.

Section runs.
Context `{TJ : Json Ticket ticket_valid} `{RJ : Json Result result_valid}
  `{JJ : Json Job job_valid}.
Context (ll : string -> option Location).

(** ** [run_all] *)

Definition fire_key (j : Job) (f : Time) : string := PendingKey (fire_ticket j f).

Definition not_pending (j : Job) (f : Time) (st : Store) : Prop := value_at st (fire_key j f) = None.

#[export] Instance not_pending_dec j f st : Decision (not_pending j f st).
Proof. unfold not_pending. apply _. Defined.

(** The fire waits in the queue: under the ticket that waited there before, or
    else under its own. *)
Definition queued (j : Job) (f : Time) (st st' : Store) : Prop :=
  value_at st' (fire_key j f) = Some (default (marshal (fire_ticket j f)) (value_at st (fire_key j f))).

Lemma enqueueFire_calm j f wm w : store_wf (mem_store w) -> calm w ->
  exists w', run (enqueueFire j f wm) w = (Done tt, w') /\ calm w' /\ store_wf (mem_store w') /\
    mem_leader w' = mem_leader w /\ queued j f (mem_store w) (mem_store w') /\
    value_at (mem_store w') (WatermarkKey (j_ID j)) =
      (if decide (not_pending j f (mem_store w)) then Some (FormatRFC3339 wm)
       else value_at (mem_store w) (WatermarkKey (j_ID j))) /\
    same_except [fire_key j f; WatermarkKey (j_ID j)] (mem_store w) (mem_store w').
Proof.
  intros Hwf Hc. unfold enqueueFire, EnqueueFire.
  cbn [prog_bind call run handle MemWorld_World mem_handle].
  set (ops := [OpPut (PendingKey (fire_ticket j f)) _ _; _]).
  unfold mem_txn. unfold calm in Hc. rewrite Hc. cbn [head tail forallb].
  fold (fire_key j f). rewrite andb_true_r. destruct (decide (not_pending j f (mem_store w))) as [Hn|Hn].
  - assert (cmp_holds (kvs (mem_store w)) (CVersion (fire_key j f) 0) = true) as ->
      by (apply cmp_version_0; [done|by apply value_at_None]).
    rewrite decide_True by (repeat constructor).
    eexists. split; [reflexivity|]. cbn [mem_store mem_leader]. subst ops. split_and!; try done.
    + by apply store_wf_apply_ops.
    + unfold queued. rewrite Hn. unfold fire_key, value_at. by lookup_ops.
    + unfold value_at. cbn [t_JobID fire_ticket]. by lookup_ops.
    + apply (same_except_ops [OpPut _ _ _; OpPut _ _ _]).
  - destruct (cmp_holds _ _) eqn:E.
    { apply cmp_version_0, value_at_None in E; done. }
    rewrite decide_True by (repeat constructor).
    eexists. split; [reflexivity|]. cbn [mem_store mem_leader apply_ops foldl]. split_and!; try done.
    unfold queued. unfold not_pending in Hn. by destruct (value_at _ (fire_key j f)).
Qed.

Lemma fire_key_not_watermark j f : fire_key j f <> WatermarkKey (j_ID j).
Proof. key_ne. Qed.

(** The last of the fires that was not pending moves the watermark. *)
Definition last_new (j : Job) (fires : list Time) (st : Store) : option Time :=
  last (filter (fun f => not_pending j f st) fires).

Lemma filter_not_pending_ext j (fires : list Time) st st' :
  (forall g, g ∈ fires -> value_at st' (fire_key j g) = value_at st (fire_key j g)) ->
  filter (fun f => not_pending j f st') fires = filter (fun f => not_pending j f st) fires.
Proof.
  induction fires as [|f fires IH]; intros H; [done|]. rewrite !filter_cons, IH
    by (intros g Hg; apply H; by right).
  apply decide_ext. unfold not_pending. by rewrite H by left.
Qed.

Lemma enqueue_all_calm j fires w : store_wf (mem_store w) -> calm w -> mem_leader w = [] ->
  NoDup (map (fire_key j) fires) ->
  exists w', run (enqueue_all j fires) w = (Done tt, w') /\
    Forall (fun f => queued j f (mem_store w) (mem_store w')) fires /\
    same_except (WatermarkKey (j_ID j) :: map (fire_key j) fires) (mem_store w) (mem_store w') /\
    value_at (mem_store w') (WatermarkKey (j_ID j)) =
      match last_new j fires (mem_store w) with
      | Some f => Some (FormatRFC3339 f)
      | None => value_at (mem_store w) (WatermarkKey (j_ID j))
      end.
Proof.
  revert w. induction fires as [|f fires IH]; intros w Hwf Hc Hl Hnd; [by exists w|].
  cbn [map] in Hnd. apply NoDup_cons in Hnd as [Hnew Hnd].
  cbn [enqueue_all prog_bind call run handle MemWorld_World mem_handle].
  rewrite Hl. cbn [head default tail]. rewrite run_bind.
  set (w0 := mkMem _ _ _ _ _ _ _).
  destruct (enqueueFire_calm j f f w0 Hwf Hc) as (w1 & -> & Hc1 & Hwf1 & Hl1 & He1 & Hw1 & Hs1).
  change (mem_store w0) with (mem_store w) in *.
  assert (forall g, g ∈ fires -> value_at (mem_store w1) (fire_key j g)
    = value_at (mem_store w) (fire_key j g)) as Hsame.
  { intros g Hg. unfold value_at. rewrite Hs1; [done|]. rewrite !not_elem_of_cons.
    split_and!; [|apply fire_key_not_watermark|apply not_elem_of_nil].
    intros E. apply Hnew. rewrite <- E. by apply list_elem_of_fmap_2. }
  destruct (IH w1 Hwf1 Hc1) as (w2 & -> & He2 & Hs2 & Hw2); [done|done|].
  exists w2. split; [done|]. split_and!.
  - constructor.
    + unfold queued, value_at at 1. rewrite Hs2; [exact He1|]. apply not_elem_of_cons.
      split; [apply fire_key_not_watermark|exact Hnew].
    + apply Forall_forall. intros g Hg. rewrite Forall_forall in He2. specialize (He2 g Hg).
      unfold queued in *. by rewrite He2, Hsame.
  - intros k Hk. cbn [map] in Hk. rewrite !not_elem_of_cons in Hk. destruct Hk as (Hk1 & Hk2 & Hk3).
    rewrite Hs2 by (by apply not_elem_of_cons). apply Hs1. rewrite !not_elem_of_cons.
    split_and!; [done..|apply not_elem_of_nil].
  - rewrite Hw2, Hw1. unfold last_new. rewrite (filter_not_pending_ext j fires _ _ Hsame).
    rewrite filter_cons. destruct (decide (not_pending j f (mem_store w))); [|done].
    rewrite last_cons. by destruct (last _).
Qed.

(** Different fires have different tickets. *)
Lemma fire_keys_distinct j from now fires : four_digit_year from -> four_digit_year now ->
  StronglySorted Z.lt fires -> Forall (fun f => from < f <= now /\ whole_second f) fires ->
  NoDup (map (fire_key j) fires).
Proof.
  intros Hy1 Hy2. induction 1 as [|f fires Hs IH Hlt]; intros Hf; cbn [map]; [constructor|].
  apply Forall_cons in Hf as [[Hr Hw] Hf]. constructor; [|by apply IH].
  intros Hin. apply list_elem_of_In, in_map_iff in Hin as (g & Hk & Hg). apply list_elem_of_In in Hg.
  rewrite Forall_forall in Hf, Hlt. destruct (Hf g Hg) as [Hgr Hgw]. specialize (Hlt g Hg).
  apply PendingKey_inj, stamp_of_inj in Hk as [_ Hk]. cbn [t_SchedAt fire_ticket] in Hk.
  rewrite !Nano_whole in Hk by done.
  apply Format_inj in Hk; try done; [lia|..]; apply (four_digit_between from now); done || lia.
Qed.

Lemma collect_sorted n expr tz now fires cur fires' cur' future :
  StronglySorted Z.lt fires -> Forall (fun f => f <= cur) fires ->
  collect ll n expr tz now fires cur = Ok (fires', cur', future) -> StronglySorted Z.lt fires'.
Proof.
  revert fires cur. induction n as [|n IH]; intros fires cur Hs Hf H; simpl in H.
  - by injection H as <- <- <-.
  - destruct (NextAfter ll expr tz cur) as [nxt|] eqn:En; [|done]. cbn [mbind result_bind] in H.
    apply NextAfter_later in En as [? _].
    case_match; [by injection H as <- <- <-|].
    assert (Forall (fun y => y < nxt) fires) by (eapply Forall_impl; [exact Hf|]; simpl; lia).
    eapply IH; [|..|exact H]; [by apply StronglySorted_snoc|].
    apply Forall_app. split; [|by repeat constructor]. eapply Forall_impl; [eassumption|]. simpl. lia.
Qed.

(** C13: under [run_all], while the node leads and etcd answers, one tick puts
    into the queue every fire it collects (the due ones, the eight oldest if
    there are more): a fire that is not pending gets its own ticket, one that is
    keeps the ticket it has.  The watermark ends at the last of the new ones, or
    stays where it was if there is none, and no other key changes. *)
Theorem run_all_enqueues_collected j now w F fires cur future :
  store_wf (mem_store w) -> calm w -> mem_leader w = [] -> j_CatchUp j = CatchUpRunAll ->
  value_at (mem_store w) (WatermarkKey (j_ID j)) = Some (FormatRFC3339 F) ->
  whole_second F -> four_digit_year F -> four_digit_year now -> F <> zero_time ->
  collect ll maxCatchUpFires (j_Cron j) (j_Timezone j) now [] F = Ok (fires, cur, future) ->
  let '(o, w') := run (scheduleJob ll j now) w in
  o = Done tt /\ Forall (fun f => queued j f (mem_store w) (mem_store w')) fires /\
  value_at (mem_store w') (WatermarkKey (j_ID j))
    = Some (FormatRFC3339 (default F (last_new j fires (mem_store w)))) /\
  same_except (WatermarkKey (j_ID j) :: map (fire_key j) fires) (mem_store w) (mem_store w').
Proof.
  intros Hwf Hc Hl Hpol Hwm HwF HyF Hyn Hz Hcol.
  assert (NoDup (map (fire_key j) fires)) as Hnd.
  { apply (fire_keys_distinct j F now); [done|done| |].
    - eapply collect_sorted; [constructor|constructor|exact Hcol].
    - eapply collect_later; [reflexivity|constructor|exact Hcol]. }
  destruct (enqueue_all_calm j fires w Hwf Hc Hl Hnd) as (w' & Hrun & He & Hs & Hw).
  assert (run (scheduleJob ll j now) w = run (enqueue_all j fires) w) as ->.
  { unfold scheduleJob, Watermark. cbn [prog_bind call run handle MemWorld_World mem_handle].
    rewrite mem_read_calm by done. cbn [wrap_err prog_bind]. unfold value_at in Hwm.
    destruct (kvs (mem_store w) !! WatermarkKey (j_ID j)) as [e|]; [|done].
    injection Hwm as Hwm. unfold id. cbn [option_map]. rewrite Hwm, Format_parse by done.
    assert (IsZero F = false) as -> by (unfold IsZero; by apply Z.eqb_neq).
    rewrite Hcol, Hpol. reflexivity. }
  rewrite Hrun. split; [done|]. split; [done|]. split; [|done]. rewrite Hw.
  by destruct (last_new j fires (mem_store w)).
Qed.

(** ** The sweep of orphans *)

Definition orphan (live : gset Z) (t : Ticket) : Prop := t_Manual t = false /\ t_JobID t ∉ live.

Definition orphan_keys (live : gset Z) (pending : list Ticket) (k : string) : Prop :=
  exists t, t ∈ pending /\ orphan live t /\ (k = PendingKey t \/ k = ResultKey t).

Lemma fp_sweep n live pending0 pending : pending ⊆ pending0 ->
  footprint (orphan_keys live pending0) (sweep n live pending).
Proof.
  induction pending as [|t pending IH]; intros Hsub; cbn [sweep prog_bind call]; [done|].
  assert (footprint (orphan_keys live pending0) (sweep n live pending)) as Hrest.
  { apply IH. intros x Hx. apply Hsub. by right. }
  split; [constructor|]. intros [] _; cbn [negb]; [|done].
  destruct (t_Manual t) eqn:Em; [done|]. cbn [orb].
  case_bool_decide as Hlive; [done|].
  assert (t ∈ pending0) as Ht by (apply Hsub; by left).
  apply footprint_bind; [|intros ?; exact Hrest]. unfold Abandon, now_rfc3339.
  assert (orphan live t) by done.
  repeat footprint_step; exists t; auto.
Qed.

Lemma Abandon_claimed n t t2 (w : MemWorld) : store_wf (mem_store w) ->
  is_Some (kvs (mem_store w) !! ClaimedKey t2) ->
  let st' := mem_store (run (Abandon n t) w).2 in
  store_wf st' /\ is_Some (kvs st' !! ClaimedKey t2) /\
  kvs st' !! PendingKey t2 = kvs (mem_store w) !! PendingKey t2.
Proof.
  intros Hwf Hc. destruct (Abandon_step (WW := MemWorld_World) n t w Hwf) as (started & r & _ & H).
  split; [exact (run_wf (Abandon n t) w Hwf)|].
  assert (kvs (mem_store w) !! ClaimedKey t = None -> PendingKey t <> PendingKey t2) as Hne.
  { intros Hn E. apply PendingKey_inj in E. unfold ClaimedKey in *. rewrite E in Hn.
    rewrite Hn in Hc. by destruct Hc. }
  assert (kvs (mem_store w) !! ClaimedKey t = None ->
    is_Some (kvs (apply_ops (mem_store w) (abandon_ops n t started)) !! ClaimedKey t2) /\
    kvs (apply_ops (mem_store w) (abandon_ops n t started)) !! PendingKey t2
    = kvs (mem_store w) !! PendingKey t2) as Hops.
  { intros Hn. specialize (Hne Hn). unfold abandon_ops. split; by lookup_ops. }
  cbn [store_of MemWorld_World] in H.
  destruct r as [[]|e]; cbn [put_if_absent] in H.
  - destruct H as [Hn ->]. by apply Hops.
  - by destruct H as [_ ->].
  - destruct H as [->|[Hn ->]]; [done|by apply Hops].
Qed.

(** The sweep closes orphans only: it touches no ticket that was triggered by
    hand or whose job is enabled, and none that is claimed, even if its job is
    gone. *)
Theorem sweep_spares_the_rest n live pending w : store_wf (mem_store w) ->
  let st' := mem_store (run (sweep n live pending) w).2 in
  (forall k, ~ orphan_keys live pending k -> kvs st' !! k = kvs (mem_store w) !! k) /\
  (forall t, is_Some (value_at (mem_store w) (ClaimedKey t)) ->
     kvs st' !! PendingKey t = kvs (mem_store w) !! PendingKey t).
Proof.
  intros Hwf. split.
  - intros k Hk. exact (@footprint_frame (orphan_keys live pending) MemWorld MemWorld_World _
      (sweep n live pending) w k (fp_sweep n live pending pending (reflexivity pending)) Hk).
  - intros t2 Hc. apply value_at_is_Some in Hc. revert w Hwf Hc.
    induction pending as [|t pending IH]; intros w Hwf Hc; [done|].
    cbn [sweep prog_bind call run handle MemWorld_World mem_handle].
    set (w0 := mkMem _ _ _ _ _ _ _). destruct (default true _); cbn [negb]; [|done].
    case_match; [by apply (IH w0)|]. rewrite run_bind.
    destruct (Abandon_claimed n t t2 w0 Hwf Hc) as (Hwf1 & Hc1 & Hp1).
    destruct (run (Abandon n t) w0) as [[r|] w1]; cbn [snd] in *; [|done].
    rewrite (IH w1 Hwf1 Hc1). exact Hp1.
Qed.
End runs.

(** ** Six minutes of [run_latest] and of [run_all] *)

Definition minutely (policy : string) : Job :=
  mkJob 1 "tick" "* * * * *" "" "true" 60 0 policy false true "" "" "".

(** A tick half a minute after each of the minutes 0 to 6 of 15 January 2026. *)
Definition six_minutes (policy : string) : Prog unit :=
  foldr (fun i p => let! _ := scheduleJob (fun _ => None) (minutely policy)
                                (1768435200 * Second + i * Minute + 30 * Second) in p)
    (Ret tt) (seqZ 0 7).

Definition empty_store : Store := mkStore ∅ 0 ∅.

Definition pending_after (p : Prog unit) : list string :=
  map fst (range (mem_store (run p (mem_of empty_store)).2) PendingPrefix None).

(** Finding: a job for every minute, ticked once a minute by a healthy leader,
    runs every second minute under [run_latest] (the default) and every minute
    but the first under [run_all]. *)
Theorem run_latest_runs_every_second_fire :
  pending_after (six_minutes "run_latest") =
    map (fun m => "/cron/tasks/pending/1@2026-01-15T00:0" +:+ FormatInt m +:+ ":00Z") [2; 4; 6] /\
  pending_after (six_minutes "run_all") =
    map (fun m => "/cron/tasks/pending/1@2026-01-15T00:0" +:+ FormatInt m +:+ ":00Z")
      [2; 3; 4; 5; 6] /\
  pending_after (six_minutes "skip") = [].
Proof. vm_compute. done. Qed.
