(* ===== verification/Retries.v ===== *)
(** * A ticket that keeps failing

    One worker, an etcd without faults, a ticket at the head of the queue: the
    rounds of a ticket whose command always fails, one after the other, until its
    retries are used up. *)
From S2P Require Import Prelude GoStrings GoTime Model Etcd Exec System.
From S2P Require Import Queue QueueFacts QueueFindings Jobs Worker WorkerFacts TicketSafety SchedulerFacts.

Open Scope string_scope.
Open Scope list_scope.
Open Scope orbix_scope.
Open Scope Z_scope.

(** What a worker meets in one round: the clock at its four readings, its claim
    lease and the outcome of the command. *)
Record Round := mkRound {
  rd_claim : Time;
  rd_start : Time;
  rd_ended : Time;
  rd_fail : Time;
  rd_lease : LeaseID;
  rd_cmd : CmdOutcome;
}.

Definition round_world (st : Store) (r : Round) : MemWorld :=
  mkMem st [] [rd_claim r; rd_start r; rd_ended r; rd_fail r] [] [rd_lease r; rd_lease r] []
    [rd_cmd r].

(** The command ran out of time or ended in an error. *)
Definition cmd_failed (c : CmdOutcome) : bool := co_deadline c || bool_decide (is_Some (co_err c)).

Definition round_ok (st : Store) (r : Round) : Prop :=
  cmd_failed (rd_cmd r) = true /\ (rd_lease r = NoLease \/ rd_lease r ∈ leases st) /\
  four_digit_year (rd_fail r) /\ four_digit_year (rd_fail r + 5 * Minute).

Section retries.
Context `{TJ : Json Ticket ticket_valid} `{RJ : Json Result result_valid}.
Context (goos n : string).

(** [t] waits, unclaimed, and is the first ticket of the queue in key order: the
    one a scan looks at first, whatever else is queued. *)
Definition head_of_queue (t : Ticket) (st : Store) : Prop :=
  store_wf st /\ value_at st (PendingKey t) = Some (marshal t) /\
  kvs st !! ClaimedKey t = None /\
  (t_NoOverlap t = true -> kvs st !! OverlapKey (t_JobID t) = None) /\
  forall k, HasPrefix k PendingPrefix = true -> is_Some (kvs st !! k) ->
    String.leb (PendingKey t) k = true.

Lemma head_range t st : head_of_queue t st ->
  exists e rest, range st PendingPrefix (Some claimScanLimit) = (PendingKey t, e) :: rest /\
    e_value e = marshal t /\ kvs st !! PendingKey t = Some e.
Proof.
  intros (_ & Hv & _ & _ & Hone). unfold value_at in Hv.
  destruct (kvs st !! PendingKey t) as [e|] eqn:E; [|done]. injection Hv as Hv.
  destruct (range_first st PendingPrefix (PendingKey t) e (pred claimScanLimit)) as [rest Hr];
    [done|unfold PendingKey; apply HasPrefix_app|done|].
  by exists e, rest.
Qed.

(** The claim of a round succeeds. *)
Lemma claim_calm t e w : calm w -> store_wf (mem_store w) ->
  (exists l, mem_lease w = [l; l] /\ (l = NoLease \/ l ∈ leases (mem_store w))) ->
  kvs (mem_store w) !! PendingKey t = Some e ->
  kvs (mem_store w) !! ClaimedKey t = None ->
  (t_NoOverlap t = true -> kvs (mem_store w) !! OverlapKey (t_JobID t) = None) ->
  exists w' l, run (claim n (PendingKey t) (e_modrev e) t) w = (Done (true, bump t), w') /\
    calm w' /\ mem_clock w' = mem_clock w /\ mem_cmds w' = mem_cmds w /\
    mem_store w' = apply_ops (mem_store w) (claim_ops n (stamp t) (bump t) l l).
Proof.
  intros Hc Hwf (l & Hl & Hlease) He Hcl Hov.
  assert (1 <= e_modrev e) as Hrev by (apply Hwf in He; lia).
  assert (forallb (cmp_holds (kvs (mem_store w))) (claim_cmps (stamp t) (e_modrev e) t) = true) as Hcmps.
  { apply claim_cmps_spec; [done..|]. split_and!; eauto. }
  assert (Forall (op_admissible (mem_store w)) (claim_ops n (stamp t) (bump t) l l)) as Hadm.
  { unfold claim_ops. destruct (t_NoOverlap _);
      repeat first [apply Forall_nil_2 | apply Forall_cons_2; [simpl; tauto|]]. }
  unfold claim, PendingKey. rewrite str_drop_app. fold (ClaimedKey t).
  cbn [prog_bind call run handle MemWorld_World mem_handle]. rewrite Hl. cbn [head default tail].
  fold (bump t). unfold claim_cmps, claim_ops in *.
  change (t_NoOverlap (bump t)) with (t_NoOverlap t) in *.
  unfold calm in Hc.
  destruct (t_NoOverlap t); cbn [prog_bind call run handle MemWorld_World mem_handle head default tail];
    unfold mem_txn; cbn [mem_store mem_faults mem_lease head tail default];
    rewrite Hc, ?app_nil_r in *; cbn [head tail mem_lease default id] in *;
    change (ClaimedPrefix +:+ stamp t) with (ClaimedKey t) in *;
    change (t_JobID (bump t)) with (t_JobID t) in *; unfold PendingKey in *;
    rewrite Hcmps, decide_True by done; cbn [run]; eexists _, l; by split_and!.
Qed.

Lemma claim_one_calm t st r : head_of_queue t st -> ticket_valid t -> round_ok st r ->
  not_yet t (rd_claim r) = false ->
  exists w' l, run (claim_one n) (round_world st r) = (Done (Some (bump t)), w') /\
    calm w' /\ mem_clock w' = [rd_start r; rd_ended r; rd_fail r] /\ mem_cmds w' = [rd_cmd r] /\
    mem_store w' = apply_ops st (claim_ops n (stamp t) (bump t) l l).
Proof.
  intros Ha Hv (_ & Hl & _) Hn. destruct (head_range t st Ha) as (e & rest & Hr & He & Hk).
  destruct Ha as (Hwf & _ & Hcl & Hov & _).
  unfold claim_one, ClaimNext. cbn [prog_bind call run handle MemWorld_World mem_handle].
  rewrite mem_read_calm by done. unfold round_world.
  cbn [mem_clock mem_store mem_faults mem_leader mem_lease mem_rand mem_cmds head tail default id].
  rewrite Hr.
  cbn [prog_bind claim_scan]. rewrite He, unmarshal_marshal, Hn by done.
  set (w0 := mkMem st _ _ _ _ _ _).
  destruct (claim_calm t e w0) as (w' & l & Hrun & Hc & Hcl' & Hcmd & Hst);
    [done|done|by exists (rd_lease r)|done..|].
  rewrite !run_bind, Hrun. cbn [run]. by exists w', l.
Qed.

Lemma FinishFailure_calm t res now w : calm w -> value_at (mem_store w) (ClaimedKey t) = Some n ->
  exists w', run (FinishFailure n t res now) w = (Done (Ok tt), w') /\
    mem_store w' = apply_ops (mem_store w)
      (finish_ops (if t_MaxRetries t <? t_Attempt t then None else Some (marshal (retry_ticket t now)))
         t (marshal (r_set_Status res (failure_status t res)))).
Proof.
  intros Hc Hown. unfold FinishFailure. cbn [prog_bind call run handle MemWorld_World mem_handle].
  set (ops := (if t_MaxRetries t <? t_Attempt t then _ else _) ++ overlapRelease t).
  assert (forallb (cmp_holds (kvs (mem_store w))) [CValue (ClaimedKey t) n] = true) as Hh.
  { cbn [forallb]. rewrite andb_true_r. by apply cmp_value. }
  assert (Forall (op_admissible (mem_store w)) ops) as Hadm.
  { subst ops. unfold overlapRelease. destruct (_ <? _), (t_NoOverlap t); cbn [negb app];
      repeat first [apply Forall_nil_2 | apply Forall_cons_2; [simpl; tauto|]]. }
  unfold mem_txn. rewrite Hc, Hh. cbn [head tail]. rewrite decide_True by done. cbn [run wrap_err].
  eexists. split; [done|]. subst ops. cbn [mem_store]. unfold finish_ops.
  by destruct (t_MaxRetries t <? t_Attempt t).
Qed.

(** What a round leaves: the ticket waits for its next attempt, or it is gone. *)
Definition given_up (t : Ticket) (st : Store) : Prop :=
  value_at st (PendingKey t) = None /\ value_at st (ClaimedKey t) = None /\
  exists res, value_at st (ResultKey t) = Some (marshal res) /\
    r_Status res = StatusFailedPermanent /\ r_Attempt res = t_Attempt t.

Definition play (r : Round) (st : Store) : Store :=
  mem_store (run (worker_job goos n) (round_world st r)).2.

Lemma run_failed t start ended fail c w : calm w ->
  mem_clock w = [start; ended; fail] -> mem_cmds w = [c] -> cmd_failed c = true ->
  value_at (mem_store w) (ClaimedKey t) = Some n ->
  exists w' res, run (execute goos n t) w = (Done tt, w') /\ r_Attempt res = t_Attempt t /\
    mem_store w' = apply_ops (mem_store w)
      (finish_ops (if t_MaxRetries t <? t_Attempt t then None else Some (marshal (retry_ticket t fail)))
         t (marshal (r_set_Status res (failure_status t res)))).
Proof.
  intros Hc Hclock Hcmd Hf Hown. unfold execute, Executor_Run.
  cbn [prog_bind call run handle MemWorld_World mem_handle].
  rewrite Hclock. cbn [head tail default mem_clock mem_cmds id]. rewrite Hcmd.
  cbn [head tail default mem_clock mem_cmds id].
  set (res := run_result n t start ended _).
  assert (String.eqb (r_Status res) StatusSuccess = false) as ->.
  { subst res. unfold run_result, classify, cmd_failed in *. cbn [r_Status].
    destruct (co_deadline c); [done|]. by destruct (co_err c). }
  cbn [prog_bind call run handle MemWorld_World mem_handle head tail default mem_clock id].
  match goal with |- context [run _ ?w1] => set (w1' := w1) end.
  rewrite run_bind. destruct (FinishFailure_calm t res fail w1') as (w' & -> & Hst); [done|done|].
  cbn [run]. by exists w', res.
Qed.

Lemma play_store t st r : head_of_queue t st -> ticket_valid t -> round_ok st r ->
  not_yet t (rd_claim r) = false ->
  exists l res, r_Attempt res = t_Attempt (bump t) /\
    play r st = apply_ops (apply_ops st (claim_ops n (stamp t) (bump t) l l))
      (finish_ops (if t_MaxRetries t <? t_Attempt (bump t) then None
                   else Some (marshal (retry_ticket (bump t) (rd_fail r))))
         (bump t) (marshal (r_set_Status res (failure_status (bump t) res)))).
Proof.
  intros Ha Hv Hr Hn. destruct (claim_one_calm t st r Ha Hv Hr Hn)
    as (w1 & l & H1 & Hc & Hclock & Hcmds & Hst).
  destruct (run_failed (bump t) _ _ _ _ w1 Hc Hclock Hcmds) as (w2 & res & H2 & Hres & Hst2).
  - by destruct Hr.
  - rewrite Hst. unfold value_at, claim_ops. change (ClaimedKey (bump t)) with (ClaimedKey t).
    change (ClaimedPrefix +:+ stamp t) with (ClaimedKey t).
    change (PendingPrefix +:+ stamp t) with (PendingKey t).
    destruct (t_NoOverlap (bump t)); by lookup_ops.
  - exists l, res. split; [done|]. unfold play, worker_job. rewrite run_bind, H1, H2. cbn [snd].
    rewrite Hst2, Hst. done.
Qed.

(** The keys of a ticket, with the results of all its attempts. *)
Definition own_key (t : Ticket) (k : string) : Prop :=
  k ∈ [PendingKey t; ClaimedKey t; OverlapKey (t_JobID t)] \/
  HasPrefix k (ResultsPrefix +:+ (stamp t +:+ "#")) = true.

(** Only the keys of the ticket change. *)
Definition only_own (t : Ticket) (st st' : Store) : Prop :=
  forall k, ~ own_key t k -> kvs st' !! k = kvs st !! k.

Lemma own_result t : own_key t (ResultKey t).
Proof.
  right. apply HasPrefix_spec. exists (FormatInt (t_Attempt t)).
  by rewrite !string_app_assoc.
Qed.

Lemma ops_frame ops t st : Forall (fun o => own_key t (op_key o)) ops ->
  only_own t st (apply_ops st ops).
Proof.
  intros Hops k Hk. apply lookup_apply_ops_ne. intros Hin.
  apply list_elem_of_fmap in Hin as (o & -> & Ho). rewrite Forall_forall in Hops. by apply Hk, Hops.
Qed.

(** Each operation is on a key of the ticket. *)
Ltac own_ops :=
  destruct (t_NoOverlap _); cbn [negb app];
  repeat first [apply Forall_nil_2 | apply Forall_cons_2;
    [first [apply own_result | left; cbn [op_key]; set_solver] |]].

Lemma claim_ops_own m t l1 l2 :
  Forall (fun o => own_key t (op_key o)) (claim_ops m (stamp t) (bump t) l1 l2).
Proof.
  unfold claim_ops. change (t_JobID (bump t)) with (t_JobID t).
  change (ClaimedPrefix +:+ stamp t) with (ClaimedKey t).
  change (PendingPrefix +:+ stamp t) with (PendingKey t). own_ops.
Qed.

Lemma finish_ops_own o t rb : Forall (fun o => own_key t (op_key o)) (finish_ops o t rb).
Proof. unfold finish_ops, overlapRelease, pending_op. destruct o; own_ops. Qed.

Lemma only_own_trans t st1 st2 st3 : only_own t st1 st2 -> only_own t st2 st3 -> only_own t st1 st3.
Proof. intros H1 H2 k Hk. by rewrite H2, H1. Qed.

Lemma pending_kept t st st' k : only_own t st st' ->
  HasPrefix k PendingPrefix = true -> k <> PendingKey t -> kvs st' !! k = kvs st !! k.
Proof.
  intros Hs Hp Hne. apply Hs. intros [Hin|Hr].
  - rewrite !elem_of_cons in Hin. destruct Hin as [->|[->|[->|H]]]; [done..|by apply elem_of_nil in H].
  - apply HasPrefix_spec in Hr as [x ->]. done.
Qed.

Lemma play_frame t st r : head_of_queue t st -> ticket_valid t -> round_ok st r ->
  not_yet t (rd_claim r) = false -> only_own t st (play r st).
Proof.
  intros Ha Hv Hr Hn. destruct (play_store t st r Ha Hv Hr Hn) as (l & res & _ & ->).
  eapply only_own_trans; [apply ops_frame, claim_ops_own|].
  change (only_own t) with (only_own (bump t)). apply ops_frame, finish_ops_own.
Qed.

(** One round of a ticket that is due and fails. *)
Lemma play_step t st r : head_of_queue t st -> ticket_valid t -> round_ok st r ->
  not_yet t (rd_claim r) = false -> 0 <= t_Attempt t <= 32 ->
  leases (play r st) = leases st /\
  if t_MaxRetries t <? t_Attempt t + 1 then given_up (bump t) (play r st)
  else head_of_queue (retry_ticket (bump t) (rd_fail r)) (play r st).
Proof.
  intros Ha Hv Hr Hn Hat. pose proof (play_frame t st r Ha Hv Hr Hn) as Hframe. destruct (play_store t st r Ha Hv Hr Hn) as (l & res & Hres & Hplay).
  rewrite Hplay in *.
  assert (t_Attempt (bump t) = t_Attempt t + 1) as Hb by (cbn; rewrite wrap64_id; lia).
  split; [done|]. set (st1 := apply_ops st _). set (rb := marshal (r_set_Status _ _)).
  rewrite Hb. pose proof (finish_ops_effect (if t_MaxRetries t <? t_Attempt t + 1 then None
    else Some (marshal (retry_ticket (bump t) (rd_fail r)))) (bump t) rb st1) as (Hp & Hcl & Hrb & Hov & _).
  destruct (t_MaxRetries t <? t_Attempt t + 1) eqn:E.
  - split_and!; [done..|]. eexists. split; [exact Hrb|]. split; [|done].
    cbn [r_Status r_set_Status]. unfold failure_status.
    change (t_MaxRetries (bump t)) with (t_MaxRetries t). by rewrite Hb, E.
  - rewrite Hb, E in Hframe. destruct Ha as (Hwf & _ & _ & _ & Hone). split_and!.
    + by apply store_wf_apply_ops, store_wf_apply_ops.
    + exact Hp.
    + by apply value_at_None.
    + intros Ho. by apply value_at_None, Hov.
    + intros k Hk Hs. destruct (decide (k = PendingKey t)) as [->|Hne].
      * destruct (String.leb_total (PendingKey t) (PendingKey t)) as [Hle|Hle]; exact Hle.
      * apply (Hone k Hk). by rewrite <- (pending_kept t _ _ k Hframe Hk Hne).
Qed.

(** ** The rounds *)

(** Every round starts after the longest backoff of the one before. *)
Fixpoint paced (rounds : list Round) : Prop :=
  match rounds with
  | r :: ((r' :: _) as rest) => rd_fail r + 5 * Minute <= rd_claim r' /\ paced rest
  | _ => True
  end.

Definition play_all (rounds : list Round) (st : Store) : Store :=
  foldl (fun st r => play r st) st rounds.

(** A ticket put back is due five minutes later. *)
Lemma retry_due t fail now : 0 <= t_Attempt t <= 33 ->
  four_digit_year fail -> four_digit_year (fail + 5 * Minute) ->
  fail + 5 * Minute <= now -> not_yet (retry_ticket t fail) now = false.
Proof.
  intros Ha Hy1 Hy2 Hnow. unfold not_yet, retry_ticket, Backoff. cbn [t_NotBefore t_set_NotBefore].
  destruct (backoff_bounds (t_Attempt t) Ha) as (_ & Hd & _).
  destruct (String.eqb _ ""); [done|].
  assert (four_digit_year (fail + backoff_delay (t_Attempt t))) as Hy.
  { unfold four_digit_year, unix, Minute, Second in *. div_lia. }
  rewrite ParseRFC3339_Format by (by apply year_of_range). apply Z.ltb_ge.
  unfold unix, Minute, Second in *. div_lia.
Qed.

(** C9: with one worker, an etcd without faults and rounds that start at least
    five minutes (the longest backoff) after the round before, a ticket that is
    first in key order among the queued ones, has at most 32 retries and whose
    command fails every time comes to an end: it is run once more after every
    failure and is still queued in between, until it has been run
    [MaxRetries + 1] times; that run publishes [failed_permanent] and takes the
    ticket away.  Only keys of the ticket
    change: its pending and claim keys, the overlap lock of its job and the
    results of its attempts. *)
Theorem failing_ticket_ends t st r rounds :
  head_of_queue t st -> ticket_valid t -> 0 <= t_Attempt t <= t_MaxRetries t -> t_MaxRetries t <= 32 ->
  not_yet t (rd_claim r) = false -> Forall (round_ok st) (r :: rounds) -> paced (r :: rounds) ->
  Z.of_nat (length (r :: rounds)) = t_MaxRetries t + 1 - t_Attempt t ->
  given_up (t_set_Attempt t (t_MaxRetries t + 1)) (play_all (r :: rounds) st) /\
  (forall k, (k <= length rounds)%nat ->
    is_Some (value_at (play_all (take k (r :: rounds)) st) (PendingKey t))) /\
  only_own t st (play_all (r :: rounds) st).
Proof.
  revert t st r. induction rounds as [|r2 rounds IH];
    intros t st r Ha Hv Hat Hmax Hn Hok Hpace Hlen; apply Forall_cons in Hok as [Hr Hok];
    pose proof (play_frame t st r Ha Hv Hr Hn) as Hframe;
    destruct (play_step t st r Ha Hv Hr Hn) as [Hls Hstep]; [lia| |lia|];
    assert (forall k, (k <= 0)%nat -> is_Some (value_at (play_all (take k (r :: [])) st) (PendingKey t)))
      as H0 by (intros k Hk; replace k with O by lia; destruct Ha as (_ & E & _); exists (marshal t); exact E).
  - simpl in Hlen. replace (t_MaxRetries t <? t_Attempt t + 1) with true in Hstep by lia.
    split; [|split; [exact H0|exact Hframe]]. unfold bump in Hstep. rewrite wrap64_id in Hstep by lia.
    by replace (t_MaxRetries t + 1) with (t_Attempt t + 1) by (simpl in Hlen; lia).
  - cbn [length] in Hlen. replace (t_MaxRetries t <? t_Attempt t + 1) with false in Hstep by lia.
    destruct Hr as (_ & _ & Hy1 & Hy2). destruct Hpace as [Hp Hpace].
    assert (t_Attempt (bump t) = t_Attempt t + 1) as Hb by (cbn; rewrite wrap64_id; lia).
    destruct (IH (retry_ticket (bump t) (rd_fail r)) (play r st) r2) as (Hend & Hmid & Hrest).
    + done.
    + by apply retry_ticket_valid, bump_valid.
    + cbn [t_Attempt t_MaxRetries retry_ticket t_set_NotBefore]. rewrite Hb.
      change (t_MaxRetries (bump t)) with (t_MaxRetries t). lia.
    + done.
    + apply retry_due; [lia|done..].
    + eapply Forall_impl; [exact Hok|]. intros x Hx. unfold round_ok in *. by rewrite Hls.
    + done.
    + cbn [length t_Attempt t_MaxRetries retry_ticket t_set_NotBefore]. rewrite Hb.
      change (t_MaxRetries (bump t)) with (t_MaxRetries t). lia.
    + split; [exact Hend|]. split; [|exact (only_own_trans _ _ _ _ Hframe Hrest)].
      intros [|k] Hk; [apply (H0 O); lia|].
      apply (Hmid k). simpl in Hk. lia.
Qed.
End retries.
