(* ===== verification/Main.v ===== *)
(** * The process: [cmd/orbixd/main.go] and [Drain] of [worker/worker.go]

    [main] connects the parts: configuration, node, store, Docker client, six
    goroutines, and the way out.  Its requests ([MainEv]) are those of the parts,
    the start of a goroutine with what it is given, and the waits.  [log.Fatalf]
    leaves the process at once, without the deferred calls; they are written
    where the function returns.

    The process is more than [main]: the goroutine that serves HTTP is part of
    the same function and can end the process itself ([http_goroutine]), and a
    panic in any goroutine ends it too.  [process_step] interleaves [main] and
    that goroutine, and [process_ends] says when the process is over. *)
From S2P Require Import Prelude GoStrings GoPath GoTime Model Config Etcd Effects Queue.
From S2P Require Import History Docker Cluster Worker Server.

Open Scope string_scope.
Open Scope list_scope.
Open Scope orbix_scope.
Open Scope Z_scope.

(** A goroutine, with the values it is started with. *)
Inductive Goroutine :=
| GNode
| GMaintainClaims
| GMirror
| GScheduler (tick : Duration)
| GWorker (nodeID : string) (interval : Duration) (w : Worker)
| GHttp (addr : string) (dock : Client).

(** The error of [ListenAndServe]: after a shutdown, or any other. *)
Inductive ServeErr := ErrServerClosed | ServeError (msg : string).

Inductive MainEv : Type -> Type :=
| MainNode {X} (e : NEv X) : MainEv X
| MainDb {X} (e : DbEv X) : MainEv X
| MainDocker {X} (e : DkEv X) : MainEv X
| Go (g : Goroutine) : MainEv unit
| CancelRun : MainEv unit
| StopSignals : MainEv unit
| WaitRunDone : MainEv unit
| ListenAndServe (addr : string) : MainEv (option ServeErr)
| HttpShutdown (timeout : Duration) : MainEv unit
| WaitRuns (timeout : Duration) : MainEv bool.

Abbreviation MainProg := (ProgE MainEv).

Definition on_node {A} (p : NProg A) : MainProg A := embed (@MainNode) p.
Definition on_db {A} (p : ProgE DbEv A) : MainProg A := embed (@MainDb) p.
Definition on_dock {A} (p : DkProg A) : MainProg A := embed (@MainDocker) p.

(** How the process ends. *)
Inductive Exit := Fatal (msg : string) | Bye.

(** [Drain]: wait for the runs in progress, or give up; [WaitRuns] answers
    whether they ended in time. *)
Definition Drain (timeout : Duration) : MainProg unit :=
  let! _ := call (WaitRuns timeout) in Ret tt.

(** [Close] of the store. *)
Definition store_Close : MainProg unit := call (MainDb CloseDb).

(** The function literal that serves HTTP: it returns, or takes the process with
    it. *)
Definition http_goroutine (addr : string) : MainProg (option Exit) :=
  let! err := call (ListenAndServe addr) in
  match err with
  | Some (ServeError _) => Ret (Some (Fatal "http"))
  | Some ErrServerClosed | None => Ret None
  end.

Fixpoint go_all (gs : list Goroutine) : MainProg unit :=
  match gs with
  | [] => Ret tt
  | g :: rest => let! _ := call (Go g) in go_all rest
  end.

(** The goroutines of a node, in the order they are started. *)
Definition goroutines (cfg : Config) (dock : Client) : list Goroutine :=
  [GNode; GMaintainClaims; GMirror; GScheduler (TickInterval cfg);
   GWorker (ID cfg) (ClaimInterval cfg) (New (MaxConcurrent cfg)); GHttp (HTTPListen cfg) dock].

Section main.
Context (host : string) (readFile : string -> FileResult)
  (yaml : string -> Config -> result string Config) (getenv : string -> string)
  (cfgPath : string) (parse_message : string -> string).

(** The deferred calls, last first. *)
Definition deferred : MainProg unit :=
  let! _ := store_Close in
  let! _ := on_node Close in
  let! _ := call StopSignals in
  call CancelRun.

(** From the end of [runCtx] to the end of the process. *)
Definition shut_down : MainProg Exit :=
  let! _ := call (HttpShutdown (5 * Second)) in
  let! _ := Drain (10 * Second) in
  let! _ := on_node Close in
  let! _ := deferred in
  Ret Bye.

(** [attempts] bounds the retries of [Connect]. *)
Definition main (attempts : nat) : MainProg Exit :=
  match Load host readFile yaml getenv cfgPath with
  | Err _ => Ret (Fatal "config")
  | Ok cfg =>
      let! node := on_node (Connect cfg attempts) in
      match node with
      | Err _ => Ret (Fatal "etcd")
      | Ok _ =>
          let! st := on_db (Open (DBPath cfg)) in
          match st with
          | Err _ => Ret (Fatal "store")
          | Ok _ =>
              let! dock := on_dock (Docker.New parse_message) in
              let! _ := go_all (goroutines cfg dock) in
              let! _ := call WaitRunDone in
              shut_down
          end
      end
  end.
End main.

(** ** The process *)

(** [main], the goroutines it has started, and those of its own literal. *)
Record Process := mkProcess {
  p_main : MainProg Exit;
  p_started : list Goroutine;
  p_http : list (MainProg (option Exit));
}.

Definition process_of (p : MainProg Exit) : Process := mkProcess p [] [].

Definition starts {X} (e : MainEv X) : list Goroutine := match e with Go g => [g] | _ => [] end.

Definition serves {X} (e : MainEv X) : list (MainProg (option Exit)) :=
  match e with Go (GHttp addr _) => [http_goroutine addr] | _ => [] end.

Section process.
Context {W : Type} (ok : forall X, MainEv X -> W -> X -> W -> Prop).

(** One request, of [main] or of the goroutine that serves HTTP. *)
Inductive process_step : Process * W -> Process * W -> Prop :=
| main_moves X (e : MainEv X) k gs hs w x w' : ok X e w x w' ->
    process_step (mkProcess (Vis e k) gs hs, w)
                 (mkProcess (k x) (gs ++ starts e) (hs ++ serves e), w')
| http_moves X (e : MainEv X) k m gs hs1 hs2 w x w' : ok X e w x w' ->
    process_step (mkProcess m gs (hs1 ++ Vis e k :: hs2), w)
                 (mkProcess m gs (hs1 ++ k x :: hs2), w').

(** The process is over when [main] returns or calls [log.Fatalf], when the
    goroutine that serves HTTP does, and when any goroutine panics. *)
Inductive process_ends : Process -> outcome Exit -> Prop :=
| main_returns ex gs hs : process_ends (mkProcess (Ret ex) gs hs) (Done ex)
| main_panics gs hs : process_ends (mkProcess Panic gs hs) Panicked
| http_exits m gs hs ex : Ret (Some ex) ∈ hs -> process_ends (mkProcess m gs hs) (Done ex)
| goroutine_panics m gs hs g : g ∈ gs -> process_ends (mkProcess m gs hs) Panicked.

(** A run of the process that starts with [p]. *)
Definition process_run (p : MainProg Exit) (w : W) (o : outcome Exit) (w' : W) : Prop :=
  exists s, rtc process_step (process_of p, w) (s, w') /\ process_ends s o.
End process.

(** ** [routes] *)

Inductive Mount := MApi | MApiRedirect | MHealthz | MReadyz | MMetrics | MStatic.

(** Segments of a path; a pattern that ends in a slash takes everything below. *)
Definition routes (segs : list string) : Mount :=
  match segs with
  | [a] =>
      if String.eqb a "healthz" then MHealthz
      else if String.eqb a "readyz" then MReadyz
      else if String.eqb a "metrics" then MMetrics
      else if String.eqb a "api" then MApiRedirect
      else MStatic
  | a :: _ :: _ => if String.eqb a "api" then MApi else MStatic
  | [] => MStatic
  end.
