(* ===== verification/MainFacts.v ===== *)
(** * What starts, what stops, and in which order

    The world of these theorems is the trace of what [main] does to the outside:
    goroutines started, waits, and what is closed.  Every request may be answered
    in any way. *)
From S2P Require Import Prelude GoStrings GoPath GoTime Model Config Etcd Effects Queue.
From S2P Require Import History Docker Cluster Worker Server Main.

Open Scope string_scope.
Open Scope list_scope.
Open Scope orbix_scope.
Open Scope Z_scope.

Inductive Label :=
| LStart (g : Goroutine)
| LWait
| LHttpShutdown
| LDrain
| LCloseSession (l : LeaseID)
| LCloseClient
| LCloseDb.

Definition node_label {X} (e : NEv X) : list Label :=
  match e with
  | CloseSession l => [LCloseSession l]
  | NCloseClient => [LCloseClient]
  | _ => []
  end.

Definition db_label {X} (e : DbEv X) : list Label :=
  match e with CloseDb => [LCloseDb] | _ => [] end.

Definition label_of {X} (e : MainEv X) : list Label :=
  match e with
  | MainNode e => node_label e
  | MainDb e => db_label e
  | Go g => [LStart g]
  | WaitRunDone => [LWait]
  | HttpShutdown _ => [LHttpShutdown]
  | WaitRuns _ => [LDrain]
  | _ => []
  end.

(** The trace grows by the labels of the requests. *)
Definition traced {E : Type -> Type} (lab : forall X, E X -> list Label) {X} (e : E X)
    (tr : list Label) (_ : X) (tr' : list Label) : Prop := tr' = tr ++ lab X e.

Abbreviation node_ok := (fun X => @traced NEv (@node_label) X).
Abbreviation db_trace := (fun X => @traced DbEv (@db_label) X).
Abbreviation main_ok := (fun X => @traced MainEv (@label_of) X).

Definition is_start (l : Label) : bool := match l with LStart _ => true | _ => false end.

(** Labels of a closing node: its sessions, then its client. *)
Definition closings (ls : list Label) : Prop :=
  exists sessions, ls = map LCloseSession sessions ++ [LCloseClient] /\ (length sessions <= 2)%nat.

(** ** Parts *)

Lemma embed_exec {E F : Type -> Type} (labE : forall X, E X -> list Label)
    (labF : forall X, F X -> list Label) (g : forall X, E X -> F X) {A} (p : ProgE E A) tr o tr' :
  (forall X (e : E X), labF X (g X e) = labE X e) ->
  execE (@traced F labF) eq (embed g p) tr o tr' -> execE (@traced E labE) eq p tr o tr'.
Proof.
  intros Hg. revert tr. induction p as [a| |X e k IH]; simpl; intros tr; [done..|].
  intros (w1 & x & w2 & <- & Hok & H). exists tr, x, w2. split; [done|]. split; [|by apply IH].
  unfold traced in *. by rewrite <- Hg.
Qed.

Lemma ensure_trace attempts m ttl tr :
  wpE node_ok eq (fun _ _ => True) (ensure attempts m ttl) (ends (fun _ tr' => tr' = tr)) tr.
Proof.
  unfold ensure, locked, traced. simpl. intros t1 [] t2 <- ->. split; [done|].
  intros t3 cur t4 <- ->. split; [done|]. simpl. rewrite !app_nil_r.
  destruct cur as [l|]; [by intros t5 [] t6 <- ->; simpl; rewrite app_nil_r|].
  generalize Second as backoff. induction attempts as [|k IH]; intros backoff; simpl.
  { intros t5 [] t6 <- ->. by rewrite app_nil_r. }
  intros t5 stop t6 <- ->. split; [done|]. rewrite app_nil_r. destruct stop; simpl.
  { intros t5 [] t6 <- ->. by rewrite app_nil_r. }
  intros t5 sess t6 <- ->. split; [done|]. rewrite app_nil_r. destruct sess as [l|e]; simpl.
  { intros t5 [] t6 <- ->. split; [done|]. intros t5 [] t7 <- ->. by rewrite !app_nil_r. }
  intros t5 stop t6 <- ->. split; [done|]. rewrite app_nil_r. destruct stop; simpl; [|apply IH].
  intros t5 [] t6 <- ->. by rewrite app_nil_r.
Qed.

Lemma drop_session_trace m tr o tr' : execE node_ok eq (drop_session m) tr o tr' ->
  o = Done tt /\ exists ls, tr' = tr ++ map LCloseSession ls /\ (length ls <= 1)%nat.
Proof.
  unfold drop_session, locked, traced. simpl.
  intros (w1 & [] & w2 & <- & -> & w3 & cur & w4 & <- & -> & H). rewrite !app_nil_r in H.
  destruct cur as [l|]; simpl in H.
  - destruct H as (w5 & [] & w6 & <- & -> & w7 & [] & w8 & <- & -> & w9 & [] & w10 & <- & -> & -> & ->).
    rewrite !app_nil_r. split; [done|]. by exists [l].
  - destruct H as (w5 & [] & w6 & <- & -> & -> & ->). rewrite app_nil_r. split; [done|].
    exists []. rewrite app_nil_r. split; [done|simpl; lia].
Qed.

Lemma Close_trace tr o tr' : execE node_ok eq Close tr o tr' ->
  o = Done tt /\ exists ls, closings ls /\ tr' = tr ++ ls.
Proof.
  unfold Close. intros H. apply execE_bind in H as [([] & w1 & H1 & H)|[_ H1]];
    apply drop_session_trace in H1 as (? & l1 & -> & Hl1); [|done].
  apply execE_bind in H as [([] & w1 & H2 & H)|[_ H2]];
    apply drop_session_trace in H2 as (? & l2 & -> & Hl2); [|done].
  simpl in H. destruct H as (w2 & [] & w3 & <- & -> & -> & ->). simpl. split; [done|].
  exists (map LCloseSession (l1 ++ l2) ++ [LCloseClient]). split.
  - exists (l1 ++ l2). split; [done|]. rewrite length_app. lia.
  - by rewrite map_app, <- !app_assoc.
Qed.

(** Nothing was started. *)
Definition unstarted (ls : list Label) : Prop := Forall (fun l => is_start l = false) ls.

Lemma sessions_unstarted ls : unstarted (map LCloseSession ls).
Proof. apply Forall_forall. intros l Hl. by apply list_elem_of_fmap in Hl as (x & -> & _). Qed.

Lemma closings_unstarted ls : closings ls -> unstarted ls.
Proof.
  intros (sessions & -> & _). apply Forall_app. split; [apply sessions_unstarted|].
  by repeat constructor.
Qed.

Lemma Connect_trace cfg k tr o tr' : execE node_ok eq (Connect cfg k) tr o tr' ->
  (o = Done (Ok tt) /\ tr' = tr) \/
  ((exists e, o = Done (Err e)) /\ exists ls, tr' = tr ++ ls /\ unstarted ls).
Proof.
  intros H. unfold Connect in H. cbn [prog_bind call execE negb] in H. destruct H as (t1 & r & t2 & <- & Ht & H).
  unfold traced in Ht. rewrite app_nil_r in Ht. subst t2.
  destruct r as [[]|e]; [|destruct H as [-> ->]; right; split; [eauto|exists []; rewrite app_nil_r; by split; [|constructor]]].
  cbn [prog_bind call execE negb] in H. destruct H as (t1 & [] & t2 & <- & Ht & H).
  unfold traced in Ht. rewrite app_nil_r in Ht. subst t2.
  apply execE_bind in H as [(ok & t1 & H1 & H)|[-> H1]];
    apply (wpE_sound _ _ _ _ _ _ _ _ (ensure_trace _ _ _ _)) in H1; [cbn in H1; subst t1|done].
  destruct ok; cbn [prog_bind call execE negb] in H.
  2: { destruct H as (t1 & [] & t2 & <- & -> & -> & ->). right. split; [eauto|].
       eexists. split; [done|]. by repeat constructor. }
  apply execE_bind in H as [(ok & t1 & H1 & H)|[-> H1]];
    apply (wpE_sound _ _ _ _ _ _ _ _ (ensure_trace _ _ _ _)) in H1; [cbn in H1; subst t1|done].
  destruct ok; cbn [prog_bind call execE negb] in H; [by left; destruct H as [-> ->]|].
  apply execE_bind in H as [([] & t1 & H1 & H)|[-> H1]];
    apply drop_session_trace in H1 as (? & ls & -> & _); [|done].
  cbn [prog_bind call execE negb] in H. destruct H as (t1 & [] & t2 & <- & -> & -> & ->). right. split; [eauto|].
  exists (map LCloseSession ls ++ [LCloseClient]). rewrite app_assoc. split; [done|].
  apply Forall_app. split; [apply sessions_unstarted|by repeat constructor].
Qed.

Lemma exec_pragmas_trace l tr :
  wpE db_trace eq (fun _ _ => True) (exec_pragmas l)
    (ends (fun r tr' => match r with Ok _ => tr' = tr | Err _ => tr' = tr ++ [LCloseDb] end)) tr.
Proof.
  induction l as [|s l IH]; simpl; [done|]. unfold traced.
  intros t1 r t2 <- ->. split; [done|]. rewrite app_nil_r. destruct r as [[]|e]; [apply IH|].
  simpl. by intros t3 [] t4 <- ->.
Qed.

(** A store that is answered is open; otherwise it is closed, if it ever was open. *)
Lemma Open_trace path tr :
  wpE db_trace eq (fun _ _ => True) (Open path)
    (ends (fun r tr' => match r with
       | Ok _ => tr' = tr
       | Err _ => exists ls, tr' = tr ++ ls /\ ls ⊆ [LCloseDb] end)) tr.
Proof.
  unfold Open, traced. cbn [prog_bind call wpE]. intros t1 r t2 <- ->. split; [done|]. rewrite app_nil_r.
  assert (exists ls, tr = tr ++ ls /\ ls ⊆ [LCloseDb]) as Hnil
    by (exists []; rewrite app_nil_r; split; [done|set_solver]).
  destruct r; [|done]. cbn [prog_bind call wpE]. intros t1 r t2 <- ->. split; [done|]. rewrite app_nil_r.
  destruct r; [|done]. cbn [prog_bind call wpE]. intros t1 [] t2 <- ->. split; [done|]. rewrite app_nil_r.
  eapply wpE_seq; [apply exec_pragmas_trace|]. intros r t1 Ht. destruct r; [|by exists [LCloseDb]].
  subst t1. cbn [prog_bind call wpE]. intros t1 r t2 <- ->. split; [done|]. rewrite app_nil_r.
  destruct r; [done|]. cbn [prog_bind call wpE]. intros t1 [] t2 <- ->. split; [done|]. by exists [LCloseDb].
Qed.

Lemma go_all_trace gs tr o tr' : execE main_ok eq (go_all gs) tr o tr' ->
  o = Done tt /\ tr' = tr ++ map LStart gs.
Proof.
  revert tr. induction gs as [|g gs IH]; simpl; intros tr.
  - intros [-> ->]. by rewrite app_nil_r.
  - intros (t1 & [] & t2 & <- & -> & H). apply IH in H as [-> ->]. by rewrite <- app_assoc.
Qed.

Definition dk_label {X} (_ : DkEv X) : list Label := [].
Abbreviation dk_trace := (fun X => @traced DkEv (@dk_label) X).

Lemma New_trace pm tr :
  wpE dk_trace eq (fun _ _ => True) (Docker.New pm) (ends (fun _ tr' => tr' = tr)) tr.
Proof.
  unfold Docker.New, ping, request, do_request, traced, dk_label. cbn [prog_bind call wpE].
  intros t1 there t2 <- ->. split; [done|]. rewrite app_nil_r. destruct there; [|done].
  cbn [negb prog_bind call wpE]. intros t1 h t2 <- ->. split; [done|]. rewrite app_nil_r.
  cbn [Available c_http negb prog_bind call wpE]. intros t1 r t2 <- ->. split; [done|].
  by rewrite app_nil_r.
Qed.

(** ** [main] *)

Section main.
Context (host : string) (readFile : string -> FileResult)
  (yaml : string -> Config -> result string Config) (getenv : string -> string)
  (cfgPath : string) (parse_message : string -> string).

Lemma node_closes tr o tr' : execE main_ok eq (on_node Close) tr o tr' ->
  o = Done tt /\ exists ls, closings ls /\ tr' = tr ++ ls.
Proof. intros H. eapply Close_trace, (embed_exec (@node_label)), H. done. Qed.

Lemma shut_down_trace tr o tr' : execE main_ok eq shut_down tr o tr' ->
  o = Done Bye /\ exists c1 c2, closings c1 /\ closings c2 /\
    tr' = tr ++ [LHttpShutdown; LDrain] ++ c1 ++ [LCloseDb] ++ c2.
Proof.
  unfold shut_down, Drain, deferred, store_Close. cbn [prog_bind call execE].
  intros (t1 & [] & t2 & <- & -> & t3 & b & t4 & <- & -> & H).
  apply execE_bind in H as [([] & t1 & H1 & H)|[_ H1]];
    apply node_closes in H1 as (? & c1 & Hc1 & ->); [|done].
  cbn [prog_bind call execE] in H. destruct H as (t1 & [] & t2 & <- & -> & H).
  apply execE_bind in H as [([] & t1 & H1 & H)|[_ H1]];
    [|apply execE_bind in H1 as [([] & t1 & H2 & (w1 & x & w2 & <- & -> & w3 & x2 & w4 & <- & -> & H3))|[_ H2]];
      [by destruct H3|by apply node_closes in H2 as (? & _)]].
  apply execE_bind in H1 as [([] & t2 & H2 & (w1 & x & w2 & <- & -> & w3 & x2 & w4 & <- & -> & H3))|[? _]];
    [|done].
  apply node_closes in H2 as (_ & c2 & Hc2 & ->). destruct H3 as [_ ->], H as [-> ->].
  split; [done|]. exists c1, c2. split_and!; [done..|]. cbn [label_of db_label].
  by rewrite !app_nil_r, <- !app_assoc.
Qed.

(** [main] alone, when nobody else ends the process. *)
Lemma main_trace attempts o tr :
  execE main_ok eq (main host readFile yaml getenv cfgPath parse_message attempts) [] o tr ->
  match Load host readFile yaml getenv cfgPath with
  | Err _ => o = Done (Fatal "config") /\ tr = []
  | Ok cfg =>
      (o = Done (Fatal "etcd") /\ unstarted tr) \/
      (o = Done (Fatal "store") /\ tr ⊆ [LCloseDb]) \/
      (o = Done Bye /\ exists dock c1 c2, closings c1 /\ closings c2 /\
         tr = map LStart (goroutines cfg dock) ++
              [LWait; LHttpShutdown; LDrain] ++ c1 ++ [LCloseDb] ++ c2)
  end.
Proof.
  unfold main. destruct (Load _ _ _ _ _) as [cfg|e]; [|by intros [-> ->]]. intros H.
  apply execE_bind in H as [(r & t1 & H1 & H)|[-> H1]];
    apply (embed_exec (@node_label)) in H1; [|done| |done];
    apply Connect_trace in H1 as [[Ho ->]|[[e Ho] (ls & -> & Hls)]]; [| |done|done].
  2: { injection Ho as ->. destruct H as [-> ->]. by left. }
  injection Ho as ->. apply execE_bind in H as [(st & t1 & H1 & H)|[-> H1]];
    apply (embed_exec (@db_label)) in H1; [|done| |done];
    apply (wpE_sound _ _ _ _ _ _ _ _ (Open_trace _ _)) in H1; [|done].
  destruct st as [[]|e]; cbn in H1.
  2: { destruct H1 as (ls & -> & Hls). destruct H as [-> ->]. right. by left. }
  subst t1. apply execE_bind in H as [(dock & t1 & H1 & H)|[-> H1]];
    apply (embed_exec (@dk_label)) in H1; [|done| |done];
    apply (wpE_sound _ _ _ _ _ _ _ _ (New_trace _ _)) in H1; [|done].
  cbn in H1. subst t1.
  apply execE_bind in H as [([] & t1 & H1 & H)|[_ H1]];
    apply go_all_trace in H1 as [? ->]; [|done].
  cbn [prog_bind call execE] in H. destruct H as (t1 & [] & t2 & <- & -> & H).
  apply shut_down_trace in H as (-> & c1 & c2 & Hc1 & Hc2 & ->). right. right. split; [done|].
  exists dock, c1, c2. split_and!; [done..|]. cbn [label_of]. by rewrite <- !app_assoc.
Qed.
(** *** The process *)

(** A goroutine that leaves no trace and ends the process at most by the error of
    HTTP. *)
Fixpoint quiet_http (h : MainProg (option Exit)) : Prop :=
  match h with
  | Ret r => r = None \/ r = Some (Fatal "http")
  | Panic => False
  | Vis e k => label_of e = [] /\ forall x, quiet_http (k x)
  end.

Lemma http_goroutine_quiet addr : quiet_http (http_goroutine addr).
Proof. split; [done|]. intros [[|msg]|]; [by left|by right|by left]. Qed.

(** What is left of [main], carried on, is a run of the whole [main]; whoever
    runs was started. *)
Definition process_inv (p : MainProg Exit) (s : Process) (tr : list Label) : Prop :=
  (forall o tr', execE main_ok eq (p_main s) tr o tr' -> execE main_ok eq p [] o tr') /\
  (forall g, g ∈ p_started s -> LStart g ∈ tr) /\
  forall h, h ∈ p_http s -> quiet_http h /\ exists addr dock, LStart (GHttp addr dock) ∈ tr.

Lemma starts_label {X} (e : MainEv X) : map LStart (starts e) ⊆ label_of e.
Proof. destruct e; cbn; set_solver. Qed.

Lemma serves_label {X} (e : MainEv X) h : h ∈ serves e ->
  quiet_http h /\ exists addr dock, LStart (GHttp addr dock) ∈ label_of e.
Proof.
  destruct e; try (by intros ?%elem_of_nil). destruct g; try (by intros ?%elem_of_nil).
  intros ->%list_elem_of_singleton. split; [apply http_goroutine_quiet|].
  exists addr, dock. by left.
Qed.

Lemma process_inv_reach p s tr :
  rtc (process_step main_ok) (process_of p, []) (s, tr) -> process_inv p s tr.
Proof.
  change (rtc (process_step main_ok) (process_of p, []) (s, tr) ->
          process_inv p (s, tr).1 (s, tr).2).
  generalize (s, tr) as c. clear s tr. apply rtc_ind_r.
  { cbn. split_and!; [done|intros g Hg; by apply elem_of_nil in Hg|].
    intros h Hh. by apply elem_of_nil in Hh. }
  intros c1 c2 _ Hstep (Hmain & Hst & Hh).
  destruct Hstep as [X e k gs hs w x w' Hok|X e k m gs hs1 hs2 w x w' Hok];
    cbn [fst snd p_main p_started p_http] in *; pose proof Hok as Ht; unfold traced in Ht.
  - split_and!.
    + intros o tr' H. apply Hmain. by exists w, x, w'.
    + intros g [Hg|Hg]%elem_of_app; rewrite Ht, elem_of_app; [left; auto|right].
      apply starts_label. by apply list_elem_of_fmap_2.
    + intros h [Hin|Hin]%elem_of_app.
      * destruct (Hh h Hin) as (? & addr & dock & Hs). split; [done|]. exists addr, dock.
        rewrite Ht, elem_of_app. by left.
      * apply serves_label in Hin as (? & addr & dock & Hs). split; [done|]. exists addr, dock.
        rewrite Ht, elem_of_app. by right.
  - destruct (Hh (Vis e k)) as [[Hlab Hk] Hs]; [rewrite elem_of_app; right; left|].
    rewrite Hlab, app_nil_r in Ht. subst w'.
    split_and!; [done|done|]. intros h Hin. apply elem_of_app in Hin as [Hin|[->|Hin]%elem_of_cons].
    + apply Hh. rewrite elem_of_app. by left.
    + by split; [apply Hk|].
    + apply Hh. rewrite elem_of_app. right. by right.
Qed.

(** Requests have answers, so a run can always be carried on; the trace grows. *)
Lemma ev_answer {X} (e : Ev X) : inhabited X.
Proof. by destruct e; repeat constructor. Qed.

Lemma main_answer {X} (e : MainEv X) : inhabited X.
Proof.
  destruct e; try (by repeat constructor); destruct e; try (by repeat constructor).
  by apply ev_answer in e.
Qed.

Lemma run_on {A} (p : MainProg A) tr : exists o tr', execE main_ok eq p tr o tr'.
Proof.
  revert tr. induction p as [a| |X e k IH]; intros tr; [by eexists _, _..|].
  destruct (main_answer e) as [x]. destruct (IH x (tr ++ label_of e)) as (o & tr' & H).
  exists o, tr', tr, x, (tr ++ label_of e). by split_and!.
Qed.

Lemma trace_grows {A} (p : MainProg A) tr o tr' : execE main_ok eq p tr o tr' -> tr `prefix_of` tr'.
Proof.
  revert tr. induction p as [a| |X e k IH]; intros tr; [by intros [_ ->]..|].
  intros (w1 & x & w2 & <- & -> & H). etransitivity; [|by eapply IH]. by eexists.
Qed.

(** A run of [main] is one of the process; so is a run of [main] in part, after
    which the goroutine that serves HTTP fails. *)
Lemma main_alone p gs hs tr o tr' : execE main_ok eq p tr o tr' ->
  exists s, rtc (process_step main_ok) (mkProcess p gs hs, tr) (s, tr') /\ process_ends s o.
Proof.
  revert gs hs tr. induction p as [a| |X e k IH]; intros gs hs tr.
  - intros [-> ->]. eexists. split; [reflexivity|constructor].
  - intros [-> ->]. eexists. split; [reflexivity|constructor].
  - intros (w1 & x & w2 & <- & Hok & H).
    destruct (IH x (gs ++ starts e) (hs ++ serves e) w2 H) as (s & Hr & He).
    exists s. split; [|done]. eapply rtc_l; [|exact Hr]. by constructor.
Qed.

(** [main] answered by [h], for [n] requests. *)
Fixpoint advance (h : forall X, MainEv X -> X) (n : nat) (s : Process) (tr : list Label)
    : Process * list Label :=
  match n, p_main s with
  | S n, Vis e k =>
      advance h n (mkProcess (k (h _ e)) (p_started s ++ starts e) (p_http s ++ serves e))
        (tr ++ label_of e)
  | _, _ => (s, tr)
  end.

Lemma advance_run h n s tr : rtc (process_step main_ok) (s, tr) (advance h n s tr).
Proof.
  revert s tr. induction n as [|n IH]; intros s tr; [done|].
  cbn [advance]. destruct s as [p gs hs]. destruct p as [a| |X e k]; cbn [p_main]; [done..|].
  eapply rtc_l; [|apply IH]. by constructor.
Qed.

Lemma http_fails p s tr addr (msg : string) : rtc (process_step main_ok) (process_of p, []) (s, tr) ->
  p_http s = [http_goroutine addr] -> process_run main_ok p [] (Done (Fatal "http")) tr.
Proof.
  intros Hr Hh. destruct s as [m gs hs]. cbn [p_http] in Hh. subst hs.
  exists (mkProcess m gs [Ret (Some (Fatal "http"))]). split; [|constructor; by left].
  eapply rtc_r; [exact Hr|].
  apply (http_moves main_ok _ (ListenAndServe addr)
    (fun err => match err with
                | Some (ServeError _) => Ret (Some (Fatal "http"))
                | Some ErrServerClosed | None => Ret None
                end) m gs [] [] tr (Some (ServeError msg)) tr).
  unfold traced. cbn [label_of]. by rewrite app_nil_r.
Qed.

(** A trace in which HTTP was started has all six starts. *)
Lemma all_started cfg dock tr stop addr dock' :
  tr `prefix_of` map LStart (goroutines cfg dock) ++ stop -> LStart (GHttp addr dock') ∈ tr ->
  exists done, done `prefix_of` stop /\ tr = map LStart (goroutines cfg dock) ++ done.
Proof.
  intros [z Hz] Hin. cbn [goroutines map app] in *.
  do 5 (destruct tr as [|? tr]; [by apply elem_of_nil in Hin|];
        injection Hz as <- Hz; apply elem_of_cons in Hin as [?|Hin]; [discriminate|]).
  destruct tr as [|l tr]; [by apply elem_of_nil in Hin|]. injection Hz as <- ->.
  exists tr. split; [by exists z|done].
Qed.

(** A prefix of a run of [main] in which a goroutine was started. *)
Lemma started_trace attempts cfg g tr o tr' :
  Load host readFile yaml getenv cfgPath = Ok cfg ->
  execE main_ok eq (main host readFile yaml getenv cfgPath parse_message attempts) [] o tr' ->
  tr `prefix_of` tr' -> LStart g ∈ tr ->
  exists dock c1 c2, closings c1 /\ closings c2 /\
    tr `prefix_of` map LStart (goroutines cfg dock) ++
                     [LWait; LHttpShutdown; LDrain] ++ c1 ++ [LCloseDb] ++ c2.
Proof.
  intros Hcfg H Hp Hg. apply main_trace in H. rewrite Hcfg in H.
  assert (LStart g ∈ tr') as Hg' by (destruct Hp as [z ->]; apply elem_of_app; by left).
  destruct H as [[_ H]|[[_ H]|(_ & dock & c1 & c2 & H1 & H2 & ->)]].
  - unfold unstarted in H. rewrite Forall_forall in H. by apply H in Hg'.
  - apply H, list_elem_of_singleton in Hg'. done.
  - by exists dock, c1, c2.
Qed.

(** C19: the process of a node: [main], the goroutines it starts and the one that
    serves HTTP, whose error other than a shutdown ends the process.  Without a
    configuration within its bounds nothing is touched; without etcd or the
    store nothing is started (when the store cannot be opened the sessions
    [Connect] made are not closed).  Otherwise the six goroutines are started
    with the values of the configuration; told to stop, the process shuts HTTP
    down, waits for the runs in progress, closes the node and closes the
    database, in this order.  When HTTP cannot be served the process ends at
    once, with all six started and any part of the stop done; a goroutine that
    panics ends it anywhere after the first start. *)
Theorem main_spec attempts o tr :
  process_run main_ok (main host readFile yaml getenv cfgPath parse_message attempts) [] o tr ->
  match Load host readFile yaml getenv cfgPath with
  | Err _ => o = Done (Fatal "config") /\ tr = []
  | Ok cfg =>
      (o = Done (Fatal "etcd") /\ unstarted tr) \/
      (o = Done (Fatal "store") /\ tr ⊆ [LCloseDb]) \/
      exists dock c1 c2, closings c1 /\ closings c2 /\
        let begin := map LStart (goroutines cfg dock) in
        let stop := [LWait; LHttpShutdown; LDrain] ++ c1 ++ [LCloseDb] ++ c2 in
        (o = Done Bye /\ tr = begin ++ stop) \/
        (o = Done (Fatal "http") /\ exists part, part `prefix_of` stop /\ tr = begin ++ part) \/
        (o = Panicked /\ tr <> [] /\ tr `prefix_of` begin ++ stop)
  end.
Proof.
  intros (s & Hr & Hend). apply process_inv_reach in Hr as (Hmain & Hst & Hh).
  destruct (run_on (p_main s) tr) as (o' & tr' & Hrun).
  pose proof (trace_grows _ _ _ _ Hrun) as Hp. pose proof (Hmain _ _ Hrun) as Hfull.
  destruct Hend as [ex gs hs|gs hs|m gs hs ex Hex|m gs hs g Hg]; cbn [p_main p_started p_http] in *.
  - clear o' tr' Hrun Hp Hfull. specialize (Hmain (Done ex) tr (conj eq_refl eq_refl)).
    apply main_trace in Hmain. destruct (Load _ _ _ _ _) as [cfg|]; [|done].
    destruct Hmain as [?|[?|(? & dock & c1 & c2 & ? & ? & ?)]]; [by left|by right; left|].
    right. right. exists dock, c1, c2. split_and!; [done..|]. by left.
  - specialize (Hmain Panicked tr (conj eq_refl eq_refl)). apply main_trace in Hmain. exfalso.
    destruct (Load _ _ _ _ _) as [cfg|]; [|by destruct Hmain].
    by destruct Hmain as [[? _]|[[? _]|[? _]]].
  - destruct (Hh _ Hex) as [Hq (addr & dock' & Hl)]. destruct Hq as [?|[= ->]]; [done|].
    destruct (Load _ _ _ _ _) as [cfg|] eqn:Ec.
    + destruct (started_trace _ _ _ _ _ _ Ec Hfull Hp Hl) as (dock & c1 & c2 & H1 & H2 & H3).
      right. right. exists dock, c1, c2. split_and!; [done..|]. right. left. split; [done|].
      by eapply all_started.
    + apply main_trace in Hfull. rewrite Ec in Hfull. destruct Hfull as [_ ->].
      apply prefix_nil_inv in Hp as ->. by apply elem_of_nil in Hl.
  - apply Hst in Hg. destruct (Load _ _ _ _ _) as [cfg|] eqn:Ec.
    + destruct (started_trace _ _ _ _ _ _ Ec Hfull Hp Hg) as (dock & c1 & c2 & H1 & H2 & H3).
      right. right. exists dock, c1, c2. split_and!; [done..|]. right. right.
      split_and!; [done| |done]. intros ->. by apply elem_of_nil in Hg.
    + apply main_trace in Hfull. rewrite Ec in Hfull. destruct Hfull as [_ ->].
      apply prefix_nil_inv in Hp as ->. by apply elem_of_nil in Hg.
Qed.
End main.
