(* ===== verification/Witnesses.v ===== *)
(** * Concrete instances of the theorems

    One instance for each theorem that has hypotheses, at an input where they
    hold: the theorem is applied to it and its hypotheses are computed.  Stores
    are written with the codec of [Codec.v]. *)
From S2P Require Import Prelude GoStrings GoTime Cron CronParse CronNext Model Codec Etcd Exec.
From S2P Require Import System Footprint Queue QueueFacts QueueGC ClaimRuns QueueFindings.
From S2P Require Import Jobs JobFacts Scheduler Worker WorkerFacts Api Programs.
From S2P Require Import TicketProtocol TicketSafety JobProtocol SchedulerFacts SchedulerRuns.
From Stdlib Require Import Ascii.

Open Scope string_scope.
Open Scope list_scope.
Open Scope orbix_scope.
Open Scope Z_scope.

(** ** Cron *)

Lemma parseField_denotes_witness :
  ((exists bits, parseField "1-5/2,9" 0 59 0 None "minute" = Ok bits) <->
   Forall (fun part => exists from to step, item_text 0 59 None part from to step)
     ["1-5/2"; "9"]) /\
  (Z.testbit 554 5 = true <-> Exists (fun part => in_item 0 59 None 0 part 5) ["1-5/2"; "9"]).
Proof.
  destruct (parseField_denotes 0 59 0 None "minute" "1-5/2,9") as [Hacc Hbits]; [lia|lia|].
  split; [exact Hacc|]. apply (Hbits 554 5).
  - apply small_steps_fit; [lia|lia|]. vm_compute. reflexivity.
  - vm_compute. reflexivity.
  - lia.
Defined.

Lemma field_loop_terminates_witness :
  run_loop (field_step 59 20 0) 8 (5, 0) = inr (set_range 5 59 20 0 0).
Proof.
  apply (field_loop_terminates "5/20" 0 59 0 None "minute" 5 59 20 0); [lia|lia|].
  vm_compute. reflexivity.
Defined.

Lemma Parse_wf_witness : sched_wf every_other_day /\ sched_in_range every_other_day.
Proof.
  destruct (Parse_wf "0 0 */2 * *" every_other_day) as [Hwf Hin]; [vm_compute; reflexivity|].
  split; [exact Hwf|]. apply Hin. vm_compute. reflexivity.
Defined.

Lemma parseField_print_witness :
  exists bits, parseField (print_field [IOne 10 (Some 20); IRange 1 3 None]) 0 59 0 None "minute"
    = Ok bits /\
  forall b, 0 <= b -> Z.testbit bits b = true <->
    Exists (fun it => item_denotes 0 59 0 it b) [IOne 10 (Some 20); IRange 1 3 None].
Proof.
  apply (parseField_print 0 59 0 None "minute"); [lia|lia| |done|].
  - intros n _. reflexivity.
  - repeat constructor; simpl; try lia; naive_solver lia.
Defined.

(** A schedule for nine o'clock on weekdays. *)
Definition weekdays_at_nine : Schedule := mkSchedule 0 1 512 4294967294 8190 62 true false false.

Definition thursday : Time := 1768435200 * Second.

Lemma Next_terminates_witness :
  run_loop (next_step weekdays_at_nine UTC (AddYears UTC thursday 4)) 60
    (first_candidate weekdays_at_nine thursday) = inr (Next weekdays_at_nine UTC thursday).
Proof. apply (Next_terminates weekdays_at_nine UTC thursday 60). vm_compute. lia. Defined.

Lemma Next_first_fire_witness :
  match Next weekdays_at_nine UTC thursday with
  | Some t => first_fire weekdays_at_nine UTC thursday (AddYears UTC thursday 4) t
  | None => forall u, candidate weekdays_at_nine u -> thursday < u < AddYears UTC thursday 4 ->
              matches weekdays_at_nine UTC u = false
  end.
Proof. apply (Next_first_fire weekdays_at_nine UTC thursday). discriminate. Defined.

(** ** Queue *)

Definition node1 := "node1".
Definition node2 := "node2".

Definition ticket0 : Ticket :=
  mkTicket 7 "backup" "true" 60 3 true "2026-01-15T10:00:00Z" 0 "" false.

Definition ticket1 : Ticket := bump ticket0.

(** Lease 5 is alive. *)
Definition store0 : Store := grant 5 (mkStore ∅ 0 ∅).

(** The ticket waits. *)
Definition store1 : Store := apply_ops store0 [OpPut (PendingKey ticket0) (marshal ticket0) NoLease].

(** The ticket runs on [node1], under lease 5. *)
Definition store2 : Store :=
  apply_ops store1 (claim_ops node1 (stamp ticket0) ticket1 5 5).

Lemma store0_wf : store_wf store0.
Proof. split; [done|]. intros k e He. cbn [kvs store0 grant] in He. by rewrite lookup_empty in He. Qed.

Lemma store1_wf : store_wf store1.
Proof. apply store_wf_apply_ops, store0_wf. Qed.

Lemma store2_wf : store_wf store2.
Proof. apply store_wf_apply_ops, store1_wf. Qed.

(** No faults; every claim lease is 5. *)
Definition world (st : Store) : MemWorld := mkMem st [] [] [] [5; 5] [] [].

Lemma decode_claim_witness :
  decode_claim (ClaimedKey ticket0, mkEntry node1 1 1 5)
  = Some (mkClaim 7 "2026-01-15T10:00:00Z" node1).
Proof. apply (decode_claim_roundtrip ticket0 (mkEntry node1 1 1 5)). reflexivity. Defined.

Lemma EnqueueFire_atomic_witness :
  value_at store0 (PendingKey ticket0) = None /\
  value_at (store_of (run (EnqueueFire ticket0 "2026-01-15T10:00:00Z") (world store0)).2)
    (PendingKey ticket0) = Some (marshal ticket0) /\
  value_at (store_of (run (EnqueueFire ticket0 "2026-01-15T10:00:00Z") (world store0)).2)
    (WatermarkKey 7) = Some "2026-01-15T10:00:00Z" /\
  same_except [PendingKey ticket0; WatermarkKey 7] store0
    (store_of (run (EnqueueFire ticket0 "2026-01-15T10:00:00Z") (world store0)).2).
Proof. apply (EnqueueFire_atomic (WW := MemWorld_World) ticket0 "2026-01-15T10:00:00Z" (world store0) store0_wf). Defined.

Lemma Enqueue_idempotent_witness :
  store_of (run (Enqueue ticket0)
    (run (EnqueueFire ticket0 "2026-01-15T10:00:00Z") (world store0)).2).2
  = store_of (run (EnqueueFire ticket0 "2026-01-15T10:00:00Z") (world store0)).2.
Proof.
  apply (Enqueue_idempotent (WW := MemWorld_World) ticket0 ticket0 "2026-01-15T10:00:00Z" (world store0) store0_wf).
  - reflexivity.
  - vm_compute. reflexivity.
Defined.

Lemma claim_exclusive_witness :
  claimed_by node1 (stamp ticket0) ticket1 store1
    (store_of (run (claim node1 (PendingPrefix +:+ stamp ticket0) 1 ticket0) (world store1)).2).
Proof.
  pose proof (claim_exclusive (WW := MemWorld_World) node1 (stamp ticket0) 1 ticket0 (world store1) store1_wf ltac:(lia)) as H.
  assert ((run (claim node1 (PendingPrefix +:+ stamp ticket0) 1 ticket0) (world store1)).1
    = Done (true, ticket1)) as E by (vm_compute; reflexivity).
  cbv zeta in H. destruct (run (claim _ _ _ _) (world store1)) as [o w']. cbn [fst snd] in *. subst o.
  by destruct H as (_ & _ & ?).
Defined.

Lemma Abandon_spec_witness :
  store_of (run (Abandon node2 ticket0) (world store2)).2 = store2.
Proof.
  pose proof (Abandon_spec (WW := MemWorld_World) node2 ticket0 (world store2) store2_wf) as H. cbv zeta in H.
  destruct (run (Abandon node2 ticket0) (world store2)) as [o w']. destruct H as (_ & H & _).
  apply H. exists node1. vm_compute. reflexivity.
Defined.

Lemma backoff_delay_bounds_witness :
  backoff_delay 5 = Z.min (2 ^ 5 * Second) (5 * Minute) /\
  Second <= backoff_delay 5 <= 5 * Minute /\
  backoff_delay 5 <= backoff_delay (Z.min 33 6).
Proof. apply (backoff_delay_bounds 5). lia. Defined.

Lemma ClaimNext_atomic_witness :
  exists body t e st1 st2,
    later store1 st1 /\ later st2 store2 /\
    kvs st1 !! (PendingPrefix +:+ body) = Some e /\ unmarshal (e_value e) = Some t /\
    not_yet t 0 = false /\ ticket1 = bump t /\
    value_at st1 (ClaimedPrefix +:+ body) = None /\
    (t_NoOverlap t = true -> value_at st1 (OverlapKey (t_JobID t)) = None) /\
    claimed_by node1 body ticket1 st1 st2.
Proof.
  apply (ClaimNext_atomic node1 0 store1 ticket1 store2 store1_wf).
  pose proof (@run_exec MemWorld MemWorld_World _ (ClaimNext node1 0) (world store1) store1_wf) as H.
  assert ((run (ClaimNext node1 0) (world store1)).1 = Done (Ok (Some ticket1))) as E
    by (vm_compute; reflexivity).
  rewrite E in H.
  assert (store_of (run (ClaimNext node1 0) (world store1)).2 = store2) as Es
    by (vm_compute; reflexivity).
  by rewrite Es in H.
Defined.

(** *** Findings *)

Lemma running_ticket_is_skipped_witness :
  exists w' started, run (claim_scan node2 [(PendingKey ticket1, mkEntry (marshal ticket1) 2 2 0)] 0)
      (world store2) = run (claim_scan node2 [] 0) w' /\
  value_at (mem_store w') (PendingKey ticket1) = None /\
  value_at (mem_store w') (ResultKey (bump ticket1))
    = Some (marshal (skipped_result node2 ticket1 started)) /\
  value_at (mem_store w') (ClaimedKey ticket1) = Some node1 /\
  forall l, lease_at store2 (ClaimedKey ticket1) = Some l ->
    value_at (expire l (mem_store w')) (PendingKey ticket1) = None /\
    value_at (expire l (mem_store w')) (ClaimedKey ticket1) = None.
Proof.
  apply (running_ticket_is_skipped node1 node2 ticket1 (mkEntry (marshal ticket1) 2 2 0) 0 []
    (world store2) store2_wf).
  - reflexivity.
  - reflexivity.
  - split_and!; vm_compute; reflexivity.
Defined.

Lemma claim_without_lease_witness :
  value_at (expire 5 (mem_store (run (claim node1 (PendingKey ticket0) 1 ticket0)
    (mkMem store1 [] [] [] [NoLease; NoLease] [] [])).2)) (ClaimedKey ticket0) = Some node1.
Proof.
  pose proof (claim_without_lease_never_expires node1 ticket0 1
    (mkMem store1 [] [] [] [NoLease; NoLease] [] []) eq_refl eq_refl store1_wf ltac:(lia)) as H.
  destruct (run _ _) as [o w']. apply H; [|done]. split_and!.
  - vm_compute. reflexivity.
  - exists (mkEntry (marshal ticket0) 1 1 0). split; vm_compute; reflexivity.
  - intros _. vm_compute. reflexivity.
Defined.

Lemma claim_with_dead_lease_witness :
  (run (claim node1 (PendingKey ticket0) 1 ticket0) (mkMem store1 [] [] [] [9; 9] [] [])).1
  = Panicked.
Proof.
  apply (claim_with_dead_lease_panics node1 ticket0 1 (mkMem store1 [] [] [] [9; 9] [] []) 9 9
    eq_refl eq_refl store1_wf ltac:(lia)).
  - split_and!.
    + vm_compute. reflexivity.
    + exists (mkEntry (marshal ticket0) 1 1 0). split; vm_compute; reflexivity.
    + intros _. vm_compute. reflexivity.
  - done.
  - intros H. apply (bool_decide_pack _) in H. revert H. vm_compute. done.
Defined.

Definition ticket2 : Ticket := bump ticket1.

(** The second run of the ticket, on [node1] again. *)
Definition store3 : Store :=
  apply_ops store1 (claim_ops node1 (stamp ticket0) ticket2 5 5).

Definition failed_result : Result :=
  mkResult 7 "2026-01-15T10:00:00Z" 1 node1 "failed" 1 "" "" 0 "" "".

Lemma stale_run_witness :
  value_at (mem_store (run (FinishFailure node1 ticket1 failed_result thursday) (world store3)).2)
    (ClaimedKey ticket2) = None.
Proof.
  pose proof (stale_run_releases_later_claim node1 ticket1 ticket2
    (mkEntry (marshal ticket2) 2 2 0) failed_result thursday (world store3) eq_refl eq_refl
    ltac:(vm_compute; reflexivity) ltac:(vm_compute; discriminate)) as H.
  destruct (run _ _) as [o w']. apply H.
  - split_and!; reflexivity.
  - vm_compute. reflexivity.
  - vm_compute. reflexivity.
  - vm_compute. reflexivity.
Defined.

(** ** Jobs *)

Definition no_zones : string -> option Location := fun _ => None.

Definition new_job : Job :=
  mkJob 0 "backup" "0 9 * * *" "" "true" 60 3 "run_all" true false "" "" "".

Definition job_world : MemWorld := mkMem store0 [] [thursday] [] [] [] [].

Definition created_job : Job := fresh_job new_job "2026-01-15T00:00:00Z" 1.

Definition job_store : Store := apply_ops store0 (create_ops created_job).

Lemma Create_atomic_witness :
  job_accepted no_zones new_job /\
  exists st1 st2 now, later store0 st1 /\ later st2 job_store /\
    created_job = fresh_job new_job now (wrap64 (counter st1 + 1)) /\
    value_at st2 idCounterKey = Some (FormatInt (wrap64 (counter st1 + 1))) /\
    value_at st2 (key (wrap64 (counter st1 + 1))) = Some (marshal created_job) /\
    same_except [idCounterKey; key (wrap64 (counter st1 + 1))] st1 st2.
Proof.
  apply (Create_atomic no_zones new_job store0 created_job job_store store0_wf).
  pose proof (@run_exec MemWorld MemWorld_World _ (Create no_zones new_job) job_world store0_wf) as H.
  assert ((run (Create no_zones new_job) job_world).1 = Done (Ok created_job)) as E
    by (vm_compute; reflexivity).
  rewrite E in H.
  assert (store_of (run (Create no_zones new_job) job_world).2 = job_store) as Es
    by (vm_compute; reflexivity).
  by rewrite Es in H.
Defined.

Lemma Create_then_Get_witness :
  job_at (store_of (run (Create no_zones new_job) job_world).2) 1 = Some created_job.
Proof.
  pose proof (Create_then_Get (WW := MemWorld_World) no_zones new_job job_world store0_wf
    ltac:(split_and!; reflexivity)) as H.
  assert ((run (Create no_zones new_job) job_world).1 = Done (Ok created_job)) as E
    by (vm_compute; reflexivity).
  destruct (run (Create no_zones new_job) job_world) as [o w1]. cbn [fst snd] in *. subst o.
  by destruct H as (_ & _ & _ & ? & _).
Defined.

(** ** Scheduler *)

Definition minutes_job (policy : string) : Job :=
  mkJob 1 "tick" "* * * * *" "" "true" 60 0 policy false true "" "" "".

Definition every_minute : Schedule :=
  mkSchedule 0 1152921504606846975 16777215 4294967294 8190 127 true true false.

Lemma every_minute_parses : Parse "* * * * *" = Ok every_minute.
Proof. vm_compute. reflexivity. Qed.


(** The watermark of job 1 stands at midnight. *)
Definition watermark_store : Store :=
  apply_ops store0 [OpPut (WatermarkKey 1) "2026-01-15T00:00:00Z" NoLease].

Lemma watermark_store_wf : store_wf watermark_store.
Proof. apply store_wf_apply_ops, store0_wf. Qed.

Lemma thursday_year d : 0 <= d <= Hour -> four_digit_year (thursday + d).
Proof. unfold four_digit_year, unix, thursday, Hour, Minute, Second. intros. div_lia. Qed.

Lemma scheduleJob_only_due_witness :
  kvs (store_of (run (scheduleJob no_zones (minutes_job "run_all") (thursday + 90 * Second))
    (world watermark_store)).2) !! ClaimedKey ticket0 = None.
Proof.
  rewrite (scheduleJob_only_due (WW := MemWorld_World) no_zones (minutes_job "run_all")
    (thursday + 90 * Second) (world watermark_store) (ClaimedKey ticket0)).
  - vm_compute. reflexivity.
  - discriminate.
  - intros f _. key_ne.
Defined.

Lemma run_all_enqueues_collected_witness :
  let st' := mem_store (run (scheduleJob no_zones (minutes_job "run_all") (thursday + 2 * Minute))
    (world watermark_store)).2 in
  queued (minutes_job "run_all") (thursday + 2 * Minute) watermark_store st' /\
  value_at st' (WatermarkKey 1) = Some (FormatRFC3339 (thursday + 2 * Minute)).
Proof.
  pose proof (run_all_enqueues_collected no_zones (minutes_job "run_all") (thursday + 2 * Minute)
    (world watermark_store) thursday [thursday + Minute; thursday + 2 * Minute]
    (thursday + 2 * Minute) (thursday + 3 * Minute)
    watermark_store_wf eq_refl eq_refl eq_refl) as H.
  destruct (run _ (world watermark_store)) as [o w']. destruct H as (_ & H & Hw & _).
  - vm_compute. reflexivity.
  - exists (thursday / Second). vm_compute. reflexivity.
  - replace thursday with (thursday + 0) by lia. apply thursday_year. unfold Hour, Minute, Second. lia.
  - apply thursday_year. unfold Hour, Minute, Second. lia.
  - vm_compute. discriminate.
  - vm_compute. reflexivity.
  - split.
    + apply Forall_cons in H as [_ H]. by apply Forall_cons in H as [H _].
    + refine (eq_trans Hw _). vm_compute. reflexivity.
Defined.

Lemma next_fire_is_lost_witness :
  thursday + 30 * Second < thursday + Minute /\
  kvs (store_of (run (scheduleJob no_zones (minutes_job "run_all") (thursday + Minute))
    (world (store_of (run (scheduleJob no_zones (minutes_job "run_all") (thursday + 30 * Second))
      (world store0)).2))).2) !! PendingKey (fire_ticket (minutes_job "run_all") (thursday + Minute))
  = None.
Proof.
  pose proof (next_fire_is_lost (WW := MemWorld_World) no_zones (minutes_job "run_all")
    (thursday + 30 * Second) (thursday + Minute) (world store0) (thursday + Minute)
    (world (store_of (run (scheduleJob no_zones (minutes_job "run_all") (thursday + 30 * Second))
      (world store0)).2)) store0_wf) as H.
  destruct H as [H1 H2].
  - apply thursday_year. unfold Hour, Minute, Second. lia.
  - apply thursday_year. unfold Hour, Minute, Second. lia.
  - vm_compute. discriminate.
  - vm_compute. reflexivity.
  - vm_compute. discriminate.
  - reflexivity.
  - split; [exact H1|]. rewrite H2. vm_compute. reflexivity.
Defined.

Lemma skip_never_enqueues_witness :
  kvs (store_of (run (scheduleJob no_zones (minutes_job "skip") (thursday + Minute))
    (world watermark_store)).2)
    !! PendingKey (fire_ticket (minutes_job "skip") (thursday + Minute)) = None.
Proof.
  rewrite (skip_never_enqueues (WW := MemWorld_World) no_zones (minutes_job "skip")
    (thursday + Minute) (world watermark_store)); [vm_compute; reflexivity|reflexivity|discriminate].
Defined.

Lemma sweep_spares_the_rest_witness :
  kvs (mem_store (run (sweep node2 ∅ [ticket1]) (world store2)).2) !! PendingKey ticket1
  = kvs store2 !! PendingKey ticket1.
Proof.
  apply (sweep_spares_the_rest node2 ∅ [ticket1] (world store2) store2_wf).
  exists node1. vm_compute. reflexivity.
Defined.

(** ** Worker *)

Lemma worker_slots_bounded_witness :
  Busy (mkWorker 2 1 [ticket1]) = 1 /\ 0 <= 1 <= 2 /\ 2 = Z.max 1 2.
Proof.
  apply (worker_slots_bounded (WW := MemWorld_World) "linux" node1 2 (mkWorker 2 1 [ticket1])
    (run (tryClaim node1 (New 2)) (world store1)).2).
  eapply worker_moves; [apply (worker_start _ _ 2 (world store1))|].
  apply step_poll. vm_compute. reflexivity.
Defined.

Lemma truncate_spec_witness : exists p, truncate "abcdef" 4 = p +:+ "…[truncated]" /\
  Z.of_nat (String.length p) = 4 /\ HasPrefix "abcdef" p = true.
Proof. apply (truncate_spec "abcdef" 4); [lia|]. vm_compute. reflexivity. Defined.

Lemma executor_contract_witness :
  x_ExitCode (classify (effective_timeout (wrap64 (60 * Second)))
    (mkCmd "" "no such file" 1000000 false (Some (Some 2)))) = Z.max (-1) 2.
Proof.
  apply (executor_contract 60 (mkCmd "" "no such file" 1000000 false (Some (Some 2)))); [lia|..];
    reflexivity.
Defined.

(** ** The running cluster

    A worker of [node1] claims the waiting ticket, runs it and finishes it, one
    request at a time. *)

Definition the_worker : Prog unit := worker_job "linux" node1.

Definition worker_at (n : nat) : config :=
  (store_of (after n the_worker (world store1)).2, [(after n the_worker (world store1)).1]).

Lemma worker_reach n : reachable (orbix_program no_zones) (store1, []) (worker_at n).
Proof.
  apply (@after_reachable MemWorld MemWorld_World _ the_worker (world store1) n []).
  apply started_reachable, prog_node, prog_worker.
Qed.

Lemma store1_tickets : tickets_inv store1.
Proof.
  split; [apply store1_wf|]. intros k e Hp He. unfold store1, apply_ops in He. cbn [kvs foldl apply_op] in He.
  apply lookup_insert_Some in He as [[<- <-]|[_ He]].
  2: { cbn [kvs store0 grant] in He. by rewrite lookup_empty in He. }
  split; [done|]. cbn [e_value]. apply own_key_marshal. split_and!; reflexivity.
Qed.

Lemma worker_last_step : sys_step (orbix_program no_zones) (worker_at 8) (worker_at 9).
Proof. apply (@after_step MemWorld MemWorld_World _ the_worker (world store1) 8 []). vm_compute. reflexivity. Qed.

Lemma no_ticket_lost_witness : closed (worker_at 9).1 (PendingKey ticket0).
Proof.
  apply (no_ticket_lost no_zones store1 (worker_at 8) (worker_at 9) (PendingKey ticket0)
    store1_tickets (worker_reach 8) worker_last_step).
  - apply HasPrefix_app.
  - vm_compute. by eexists.
  - vm_compute. reflexivity.
Defined.

Lemma claims_never_change_hands_witness :
  value_at (worker_at 9).1 (ClaimedKey ticket0) = Some node1 \/
  value_at (worker_at 9).1 (ClaimedKey ticket0) = None.
Proof.
  apply (claims_never_change_hands no_zones store1 (worker_at 8) (worker_at 9) (ClaimedKey ticket0) node1
    store1_tickets (worker_reach 8) worker_last_step).
  - left. by exists ticket0.
  - vm_compute. reflexivity.
Defined.

Lemma pending_tickets_durable_witness :
  kvs (expire 5 (worker_at 5).1) !! PendingKey ticket0 = Some (mkEntry (marshal ticket1) 2 2 0).
Proof.
  apply (pending_tickets_durable no_zones store1 (worker_at 5) (PendingKey ticket0)
    (mkEntry (marshal ticket1) 2 2 0) store1_tickets (worker_reach 5)).
  - apply HasPrefix_app.
  - vm_compute. reflexivity.
  - done.
Defined.

Definition the_creation : Prog unit := forget (createJob no_zones (Some new_job)).

Definition creation_at (n : nat) : config :=
  (store_of (after n the_creation job_world).2, [(after n the_creation job_world).1]).

Lemma creation_reach n : reachable (orbix_program no_zones) (store0, []) (creation_at n).
Proof.
  apply (@after_reachable MemWorld MemWorld_World _ the_creation job_world n []).
  apply started_reachable, prog_node, prog_createJob.
Qed.

Lemma store0_jobs : jobs_inv store0.
Proof.
  split; [apply store0_wf|]. intros _. split_and!; [done|done| |].
  - intros e He. cbn [kvs store0 grant] in He. by rewrite lookup_empty in He.
  - intros id [e He]. cbn [kvs store0 grant] in He. by rewrite lookup_empty in He.
Qed.

Lemma job_ids_never_reused_witness :
  (counter (creation_at 3).1 = counter (creation_at 2).1 \/
   (counter (creation_at 3).1 = counter (creation_at 2).1 + 1 /\
    ~ stored (creation_at 2).1 (counter (creation_at 3).1) /\
    stored (creation_at 3).1 (counter (creation_at 3).1))) /\
  counter (creation_at 3).1 <= counter (creation_at 3).1 /\
  forall id, stored (creation_at 3).1 id -> id <= counter (creation_at 3).1.
Proof.
  apply (job_ids_never_reused no_zones store0 (creation_at 2) (creation_at 3) (creation_at 3)
    store0_jobs (creation_reach 2)).
  - apply (@after_step MemWorld MemWorld_World _ the_creation job_world 2 []). vm_compute. reflexivity.
  - apply reach_refl.
  - vm_compute. reflexivity.
Defined.
