(* ===== verification/NodeWitnesses.v ===== *)
(** * Concrete instances of the theorems on nodes, history and the server

    As in [Witnesses]: each theorem with hypotheses, applied where they hold.
    Runs are computed by handlers, shown to answer as the theorems assume. *)
From S2P Require Import Prelude GoStrings GoPath GoTime Cron CronParse CronNext Model Config Codec.
From S2P Require Import Etcd Exec System Effects Queue QueueFacts History HistoryFacts.
From S2P Require Import Docker DockerFacts Cluster Jobs Worker Api Server NodeViews ServerFacts.
From S2P Require Import Programs ClusterSystem ClusterSafety ClusterRuns Retries Main MainFacts Witnesses.
From Stdlib Require Import Ascii.

Open Scope string_scope.
Open Scope list_scope.
Open Scope orbix_scope.
Open Scope Z_scope.

(** ** Cron *)


(** ** The cluster *)

Definition no_zones (_ : string) : option Location := None.

Lemma store_empty_wf : store_wf store_empty.
Proof. split; [done|]. intros k e He. cbn in He. by rewrite lookup_empty in He. Qed.

Lemma leader_exclusive_witness :
  exists l, n_session (p_node (proc_after "a" 0 world0)) = Some l /\
    (l ∈ leases (c_store one_leader) ->
       exists e, kvs (c_store one_leader) !! leaderKey = Some e /\ e_lease e = l).
Proof.
  destruct (leader_exclusive no_zones store_empty one_leader 0 (proc_after "a" 0 world0)
    store_empty_wf (one_leader_reachable no_zones) eq_refl) as (l & Hs & H).
  - exact (proj1 (proj2 run_a)).
  - exists l. split; [exact Hs|]. intros Hl. apply (H Hl).
Defined.

Lemma cluster_refines_system_witness :
  exists ts, reachable (orbix_program no_zones) (store_empty, []) (c_store one_leader, ts) /\ ts ≡ₚ tasks_of one_leader.
Proof. apply (cluster_refines_system no_zones store_empty), one_leader_reachable. Defined.

(** ** A ticket that keeps failing *)

Definition failing : CmdOutcome := mkCmd "" "boom" Second false (Some (Some 1)).

Definition round_at (t : Time) : Round := mkRound t t (t + Second) (t + Second) 5 failing.

Definition doomed : Ticket :=
  mkTicket 7 "backup" "false" 60 1 false "2026-01-15T10:00:00Z" 0 "" false.

(** A ticket of another job waits behind it. *)
Definition behind : Ticket :=
  mkTicket 8 "report" "true" 60 1 false "2026-01-15T10:00:00Z" 0 "" false.

Definition doomed_store : Store :=
  apply_ops store0 [OpPut (PendingKey doomed) (marshal doomed) NoLease;
    OpPut (PendingKey behind) (marshal behind) NoLease].

Lemma doomed_first : head_of_queue doomed doomed_store.
Proof.
  split_and!; [apply store_wf_apply_ops, store0_wf|reflexivity|reflexivity|done|].
  intros k _ [e He]. unfold doomed_store in He. cbn [apply_ops kvs foldl apply_op] in He.
  apply lookup_insert_Some in He as [[<- _]|[_ He]]; [by vm_compute|].
  apply lookup_insert_Some in He as [[<- _]|[_ He]]; [by vm_compute|].
  cbn [kvs store0 grant] in He. by rewrite lookup_empty in He.
Qed.

Lemma round_at_ok t : 0 <= t < 100 * Hour -> round_ok doomed_store (round_at t).
Proof.
  intros Ht. unfold round_ok, round_at, four_digit_year, unix, Hour, Minute, Second in *.
  cbn [rd_cmd rd_lease rd_fail leases doomed_store apply_ops].
  split_and!; [done|right; set_solver|div_lia..].
Qed.

Lemma failing_ticket_ends_witness :
  let st := play_all "linux" node1 [round_at 0; round_at (10 * Minute)] doomed_store in
  given_up (t_set_Attempt doomed 2) st /\ value_at st (PendingKey behind) = Some (marshal behind).
Proof.
  destruct (failing_ticket_ends "linux" node1 doomed doomed_store (round_at 0)
    [round_at (10 * Minute)]) as (Hend & _ & Hrest).
  9:{ split; [exact Hend|]. unfold value_at. rewrite Hrest; [reflexivity|].
      intros [Hin|Hp]; [|by vm_compute in Hp].
      rewrite !elem_of_cons, elem_of_nil in Hin.
      destruct Hin as [H|[H|[H|[]]]]; by vm_compute in H. }
  - apply doomed_first.
  - vm_compute. by split_and!.
  - vm_compute. by split.
  - done.
  - done.
  - repeat constructor; unfold Hour, Minute, Second; try lia; try (right; set_solver); by vm_compute.
  - vm_compute. by split.
  - done.
Defined.

(** ** The run history *)

Definition statuses (db : Db) : list string := map (fun row => r_Status (run_Result row)) db.

(** SQLite without errors, on a table in memory. *)
Definition db_handle {X} (e : DbEv X) : Db -> X * Db :=
  match e in DbEv X return Db -> X * Db with
  | MkdirAll _ | SqlOpen _ | ExecStmt _ => fun db => (Ok tt, db)
  | SetMaxOpenConns _ | CloseDb => fun db => (tt, db)
  | InsertOrIgnore row => fun db => (Ok tt, insert_or_ignore row db)
  | SelectRuns job limit => fun db => (Ok (select_runs job limit db), db)
  | SelectCounts => fun db =>
      (Ok (map (fun st => (st, Z.of_nat (length (with_status st db)))) (remove_dups (statuses db))), db)
  end.

Lemma db_handle_ok strict X (e : DbEv X) db : db_ok strict e db (db_handle e db).1 (db_handle e db).2.
Proof.
  destruct e; try done. split; [done|]. cbn [db_handle fst]. split.
  - rewrite map_map. cbn [fst]. rewrite map_id. apply NoDup_remove_dups.
  - intros st n.
    assert (st ∈ statuses db <-> 0 < Z.of_nat (length (with_status st db))) as Hst.
    { unfold statuses, with_status. rewrite list_elem_of_fmap. split.
      - intros (row & -> & Hrow).
        assert (row ∈ filter (fun r => r_Status (run_Result r) = r_Status (run_Result row)) db) as Hin
          by (by apply list_elem_of_filter).
        destruct (filter _ _); [by apply not_elem_of_nil in Hin|simpl; lia].
      - intros Hlen. destruct (filter _ db) as [|row l] eqn:E; [simpl in Hlen; lia|].
        exists row. assert (row ∈ row :: l) as Hin by (by left). rewrite <- E in Hin.
        by apply list_elem_of_filter in Hin as [<- ?]. }
    rewrite list_elem_of_fmap. split.
    + intros (st' & [= -> ->] & Hin). rewrite elem_of_remove_dups in Hin. by rewrite <- Hst.
    + intros [Hn ->]. exists st. split; [done|]. rewrite elem_of_remove_dups. by apply Hst.
Qed.

(** Two results, one put after the listing. *)
Definition result_of (id : Z) : Result := mkResult id "2026-01-15T10:00:00Z" 1 node1 "success" 0 "" "" 5 "" "".

Definition history0 : list (Z * WatchEvent) :=
  [(3, EvPut "/cron/results/1" (marshal (result_of 1)))].
Definition mirror0 : MWorld := mkMWorld history0 4 0 [].

(** etcd, with all it has at once in every response. *)
Definition mirror_handle {X} (e : MEv X) : MWorld -> X * MWorld :=
  match e in MEv X return MWorld -> X * MWorld with
  | MCtxDone => fun w => (false, w)
  | MGetPrefix _ => fun w => (Ok (map_to_list (contents (mw_hist w)), mw_rev w), w)
  | MWatch _ rev => fun w => (tt, mw_set_pos w (length (filter (fun p => p.1 < rev) (mw_hist w))))
  | MNext => fun w => let evs := map snd (drop (mw_pos w) (mw_hist w)) in
                      (Some evs, mw_set_pos w (mw_pos w + length evs))
  | MSql e => fun w => let '(x, db) := db_handle e (mw_db w) in (x, mw_set_db w db)
  | MWait _ => fun w => (tt, w)
  end.

Lemma mirror_handle_ok strict X (e : MEv X) w :
  mirror_ok strict e w (mirror_handle e w).1 (mirror_handle e w).2.
Proof.
  destruct e; try done.
  - cbn [mirror_ok mirror_handle fst snd]. split; [|done].
    by rewrite length_map, take_ge.
  - cbn [mirror_ok mirror_handle]. pose proof (db_handle_ok strict _ e (mw_db w)) as H.
    destruct (db_handle e (mw_db w)) as [x db]. by exists db.
Qed.

Lemma mirror_env_refl w : mirror_env w w.
Proof. split_and!; [done..|]. exists []. by rewrite app_nil_r. Qed.

Definition mirror_run {A} (p : ProgE MEv A) : outcome A * MWorld := runE (@mirror_handle) p mirror0.

Lemma mirror_runs strict {A} (p : ProgE MEv A) :
  execE (@mirror_ok strict) mirror_env p mirror0 (mirror_run p).1 (mirror_run p).2.
Proof. apply runE_exec; [apply mirror_env_refl|]. intros. apply mirror_handle_ok. Qed.

Lemma mirror0_wf : mirror_wf mirror0.
Proof. by repeat constructor. Qed.

Lemma mirror0_sound : sound mirror0.
Proof. split; [constructor|]. intros row Hrow. by apply not_elem_of_nil in Hrow. Qed.

Lemma mirror_sound_witness :
  (mirror_run (Mirror_Run 2 1)).1 = Done tt /\ NoDup (map run_Key (mw_db (mirror_run (Mirror_Run 2 1)).2)).
Proof.
  destruct (mirror_sound true 2 1 mirror0 (mirror_run (Mirror_Run 2 1)).1
    (mirror_run (Mirror_Run 2 1)).2 mirror0_wf mirror0_sound (mirror_runs true (Mirror_Run 2 1)))
    as (H1 & _ & H2 & _). split; [exact H1|exact H2].
Defined.

Lemma mirror_no_gap_witness :
  exists snap, (snap <= mw_pos (mirror_run (mirror_session 1)).2)%nat /\
  forall k v (r : Result), unmarshal v = Some r ->
    contents (take snap (mw_hist (mirror_run (mirror_session 1)).2)) !! k = Some v ->
    has_key k (mw_db (mirror_run (mirror_session 1)).2) = true.
Proof.
  destruct (mirror_no_gap 1 mirror0 (mirror_run (mirror_session 1)).2 mirror0_wf mirror0_sound
    (mirror_runs true (mirror_session 1))) as (snap & [_ Hs] & H).
  exists snap. split; [exact Hs|]. intros k v r Hr Hk. apply (H k v r Hr). by left.
Defined.

Definition three_rows : Db := [mkRun (result_of 1) "a"; mkRun (result_of 2) "b"; mkRun (result_of 1) "c"].

Lemma ListRuns_spec_witness :
  exists older, rev (rows_for 1 three_rows) = [mkRun (result_of 1) "c"; mkRun (result_of 1) "a"] ++ older.
Proof.
  destruct (ListRuns_spec true 1 20 three_rows _ _ (runE_exec (@db_handle) (@db_ok true) eq
    (ListRuns 1 20) three_rows (fun _ => eq_refl) (db_handle_ok true))) as (_ & (older & H & _) & _).
  exists older. exact H.
Defined.

(** ** Docker *)

(** A daemon that answers reads by [get] and accepts what is posted. *)
Definition dk_handle (get : string -> result string HttpResp) {X} (e : DkEv X)
    : list Post -> X * list Post :=
  match e in DkEv X return list Post -> X * list Post with
  | StatSock => fun w => (true, w)
  | OsHostname => fun w => (Some "111111111111", w)
  | DockerDo method path body => fun w =>
      if String.eqb method "POST" then
        let answer := Ok (mkResp 201 "201 Created" "edge") in (answer, w ++ [mkPost path body answer])
      else (get path, w)
  | RangeKeys keys => fun w => (elements keys, w)
  end.

Lemma dk_handle_ok get X (e : DkEv X) w : dk_ok get e w (dk_handle get e w).1 (dk_handle get e w).2.
Proof. destruct e; try done. cbn. by destruct (String.eqb method "POST"). Qed.

Definition demo_created (_ : string) : result string string := Ok "eeeeeeeeeeee".

Definition demo_add (nodeID : string) : outcome (result DockerErr NodeContainer) * list Post :=
  runE (@dk_handle demo_get)
    (AddNode demo_message demo_inspect demo_ids demo_created demo_client nodeID) [].

Lemma demo_in_compose : in_compose demo_message demo_inspect demo_get demo_client demo_node1.
Proof.
  split; [reflexivity|]. split; [discriminate|]. split; [discriminate|].
  cbn [in_Networks demo_node1 demo_container]. split; [|set_solver].
  intros E. assert ("orbix_default" ∈ (∅ : gset string)) as H by (rewrite <- E; set_solver).
  set_solver.
Qed.

(** [node1] is there already; [node7] is created and started. *)
Lemma AddNode_spec_witness :
  (demo_add "node1").2 = [] /\
  exists n, (demo_add "node7").1 = Done (Ok n) /\
    node_added demo_message demo_inspect demo_created demo_get demo_client "node7" demo_node1
      (demo_add "node7").2 n.
Proof.
  pose proof (fun id => AddNode_spec demo_message demo_inspect demo_ids demo_created demo_get
    demo_client demo_node1 id [] (demo_add id).1 (demo_add id).2 demo_in_compose
    (runE_exec (@dk_handle demo_get) (@dk_ok demo_get) eq _ [] (fun _ => eq_refl)
       (dk_handle_ok demo_get))) as H.
  split.
  - apply (H "node1"). rewrite demo_first_match. discriminate.
  - assert (exists n, (demo_add "node7").1 = Done (Ok n)) as [n E] by (vm_compute; eexists; reflexivity).
    exists n. split; [exact E|].
    destruct (H "node7") as (_ & _ & [[_ Hno]|(posts & -> & _ & Hn)]); [by destruct (Hno n)|].
    exact (Hn n E).
Defined.

(** ** The API server *)

Definition no_message (_ : string) : string := "".
Definition no_inspect (_ : string) : result string inspect := Err "eof".
Definition no_ids (_ : string) : result string (list string) := Err "eof".
Definition no_created (_ : string) : result string string := Err "eof".
Definition no_scan (_ : string) : option Z := None.
Definition no_reads (_ : string) : result string HttpResp := Err "no daemon".
Definition offline : Client := mkClient false "".

(** etcd is up and empty; SQLite fails. *)
Definition etcd_empty {X} (e : Ev X) : X -> Prop :=
  match e in Ev X return X -> Prop with
  | GetPrefix _ _ => fun x => x = Ok []
  | _ => fun _ => True
  end.
Definition db_down {X} (e : DbEv X) : X -> Prop :=
  match e in DbEv X return X -> Prop with
  | SelectRuns _ _ => fun x => x = Err (AtQuery "disk I/O error")
  | SelectCounts => fun x => x = Err (AtQuery "disk I/O error")
  | _ => fun _ => True
  end.

Abbreviation srv := (fun X => @srv_ok false no_leader (@etcd_empty) (@db_down) no_reads X).

Definition srv0 : SWorld := mkSWorld 0 0 0 [].

Lemma Readyz_spec_witness : exists e s,
  execE srv eq (Readyz (Default node1)) srv0 (Done (503, ReadyBody false node1 e s)) srv0 /\
  e = "ok" /\ s <> "ok".
Proof.
  assert (execE srv eq (Readyz (Default node1)) srv0
    (Done (503, ReadyBody false node1 "ok" "error: store: counts: disk I/O error")) srv0) as H.
  { eexists _, _, _. split; [done|]. split; [by split|]. eexists _, _, _. split; [done|].
    split; [by split|]. by split. }
  exists "ok", "error: store: counts: disk I/O error". split; [exact H|].
  destruct (Readyz_spec (Default node1) false no_leader _ _ _ _ _ _ H)
    as (members & _ & rows & e & s & Hm & Hd & Ho & He & Hs).
  cbn in Hm, Hd. subst members rows. injection Ho as <- <-. split; [by apply He|].
  intros E. by apply Hs in E.
Defined.

(** [GET /api/runs], which fails with 500. *)
Definition get_runs : Request := mkReq "GET" ["api"; "runs"] (fun _ => "") None "".

Lemma Handler_counts_witness : exists body,
  execE srv eq (Handler no_zones no_scan no_message no_inspect no_ids no_created (Default node1) "0.1.0"
    offline true get_runs) srv0 (Done (500, SErrBody body)) (mkSWorld 1 1 0 []) /\
  s_fail (mkSWorld 1 1 0 []) = s_fail srv0 + 1.
Proof.
  exists (StoreError "store: list runs: disk I/O error").
  assert (execE srv eq (Handler no_zones no_scan no_message no_inspect no_ids no_created
    (Default node1) "0.1.0" offline true get_runs) srv0
    (Done (500, SErrBody (StoreError "store: list runs: disk I/O error"))) (mkSWorld 1 1 0 [])) as H.
  { eexists _, tt, _. split; [done|]. split; [done|]. eexists _, _, _. split; [done|].
    split; [by split|]. eexists _, tt, _. by split_and!. }
  split; [exact H|]. eapply Handler_counts in H. exact (proj2 H).
Defined.

(** Without Docker, a node asked to kill itself leaves; any other is refused. *)
Lemma killNode_spec_witness : exists w',
  execE srv eq (killNode no_message no_inspect no_ids (Default node1) offline true node1) srv0
    (Done (202, LeavingBody node1)) w' /\ s_left w' = s_left srv0 + 1.
Proof.
  assert (execE srv eq (killNode no_message no_inspect no_ids (Default node1) offline true node1) srv0
    (Done (202, LeavingBody node1)) (mkSWorld 0 0 1 [])) as H.
  { eexists _, tt, _. split; [done|]. split; [done|]. by split. }
  eexists. split; [exact H|].
  exact (proj1 (proj2 (proj2 (proj2 (killNode_spec _ _ _ _ _ _ _ _ _ _ _ _ _ _ _ H))))).
Defined.

(** *** Computed runs of the server *)

(** An etcd without keys, a node on its own. *)
Definition quiet_ev {X} (e : Ev X) : X :=
  match e in Ev X return X with
  | Etcd.Get _ => Ok None
  | GetPrefix _ _ => Ok []
  | CountPrefix _ => Ok 0
  | Put _ _ _ => Ok tt
  | Txn _ _ _ => Ok true
  | Now => 0
  | RandIntn _ => 0
  | Etcd.IsLeader => false
  | ClaimLease => NoLease
  | Command _ _ => failing
  end.

Definition quiet_node {X} (e : NEv X) : X :=
  match e in NEv X return X with
  | NEtcd e => quiet_ev e
  | NGetRev _ => Ok (None, 0)
  | NDial _ _ => Ok tt
  | NCtxDone | NSleep _ | SelectDone _ => false
  | NewSession _ => Ok 1
  | LoadSession _ => None
  | LoadIsLeader => false
  | LoadLeader => no_leader
  | SelectFollow _ => FCtxDone
  | _ => tt
  end.

Definition quiet_db {X} (e : DbEv X) : X := (db_handle e []).1.

Definition any_db {X} (_ : DbEv X) (_ : X) : Prop := True.

Definition srv_handle {X} (e : SEv X) : SWorld -> X * SWorld :=
  match e in SEv X return SWorld -> X * SWorld with
  | SNode e => fun w => (quiet_node e, w)
  | SSql e => fun w => (quiet_db e, w)
  | SDocker e => fun w => let '(x, posts) := dk_handle demo_get e (s_posts w) in (x, s_set_posts w posts)
  | SBusy => fun w => (0, w)
  | AddTotal => fun w => (tt, mkSWorld (s_total w + 1) (s_fail w) (s_left w) (s_posts w))
  | AddFail => fun w => (tt, mkSWorld (s_total w) (s_fail w + 1) (s_left w) (s_posts w))
  | LoadTotal => fun w => (s_total w, w)
  | LoadFail => fun w => (s_fail w, w)
  | SRange keys => fun w => (elements keys, w)
  | SLeave => fun w => (tt, mkSWorld (s_total w) (s_fail w) (s_left w + 1) (s_posts w))
  end.

Abbreviation srv_demo := (fun X => @srv_ok false no_leader (@etcd_empty) (@any_db) demo_get X).

Lemma srv_handle_ok X (e : SEv X) w : srv_demo X e w (srv_handle e w).1 (srv_handle e w).2.
Proof.
  destruct e as [X e|X e|X e| | | | | | |]; try done.
  - split; [|done]. by destruct e as [X e| | | | | | | | | | | | | | | | | | | |]; [destruct e|..].
  - cbn [srv_ok srv_handle]. pose proof (dk_handle_ok demo_get _ e (s_posts w)) as H.
    destruct (dk_handle demo_get e (s_posts w)) as [x posts]. by exists posts.
Qed.

Lemma srv_runs {A} (p : SProg A) :
  execE srv_demo eq p srv0 (runE (@srv_handle) p srv0).1 (runE (@srv_handle) p srv0).2.
Proof. apply runE_exec; [done|apply srv_handle_ok]. Qed.

Definition demo_list : SProg SResponse :=
  listNodes demo_message demo_inspect demo_ids (Default node1) demo_client.

Lemma listNodes_spec_witness : exists resp views,
  (runE (@srv_handle) demo_list srv0).1 = Done resp /\
  resp = (200, NodesBody views true node1) /\ Sorted view_le views /\ length views = 2%nat.
Proof.
  assert (exists views, (runE (@srv_handle) demo_list srv0).1 = Done (200, NodesBody views true node1)
    /\ length views = 2%nat) as (views & E & Hlen) by (vm_compute; eexists; split; reflexivity).
  pose proof (srv_runs demo_list) as H. rewrite E in H.
  destruct (listNodes_spec demo_message demo_inspect demo_ids (Default node1) demo_client false
    no_leader (@etcd_empty) (@any_db) demo_get _ _ _ H) as (_ & m & c & v & _ & _ & Hv & Hs & _).
  exists (200, NodesBody views true node1), v. injection Hv as -> ?. by split_and!.
Defined.

Definition demo_post (nodeID : string) : SProg SResponse :=
  addNode demo_message demo_inspect demo_ids demo_created demo_client nodeID.

(** The server answers 201 to the addition of [node7]: a container was created
    and started. *)
Lemma addNode_spec_witness : exists self posts n,
  nodeIDRe "node7" = true /\
  s_posts (runE (@srv_handle) (demo_post "node7") srv0).2 = posts /\
  node_added demo_message demo_inspect demo_created demo_get demo_client "node7" self posts n.
Proof.
  assert (exists body, (runE (@srv_handle) (demo_post "node7") srv0).1 = Done (StatusCreated, body))
    as [body Hb] by (vm_compute; eexists; reflexivity).
  pose (r := runE (@srv_handle) (demo_post "node7") srv0).
  assert (execE srv_demo eq (demo_post "node7") srv0 r.1 r.2) as Hr by apply srv_runs.
  change (r.1 = Done (StatusCreated, body)) in Hb. change (exists self posts n,
    nodeIDRe "node7" = true /\ s_posts r.2 = posts /\
    node_added demo_message demo_inspect demo_created demo_get demo_client "node7" self posts n).
  clearbody r.
  destruct (addNode_spec demo_message demo_inspect demo_ids demo_created demo_client false no_leader
    (@etcd_empty) (@any_db) demo_get "node7" srv0 r.1 r.2 Hr)
    as (_ & _ & _ & [[_ Hno]|(id & self & posts & Hid & Hname & _ & Hp & _ & Hn)]);
    [by destruct (Hno body)|].
  assert (id = "node7") as -> by (apply Hname; discriminate).
  destruct (Hn body Hb) as (n & Hadd & _). exists self, posts, n. split_and!; [exact Hid|exact Hp|exact Hadd].
Defined.

Lemma route_unambiguous_witness : route "HEAD" ["api"; "jobs"; "7"; "runs"] = Some (RJobRuns "7").
Proof.
  apply (route_unambiguous ("GET", [Lit "api"; Lit "jobs"; Wild; Lit "runs"], RJobRuns)).
  - unfold patterns. do 9 right. left.
  - reflexivity.
Defined.

Lemma next_id_fresh_witness :
  (next_id ["node3"; "edge"; "node12"] ∉ ["node3"; "edge"; "node12"]) /\
  nodeIDRe (next_id ["node3"; "edge"; "node12"]) = true.
Proof. apply (next_id_fresh ["node3"; "edge"; "node12"]). vm_compute. reflexivity. Defined.

(** ** The process *)

Definition main_answer_of {X} (e : MainEv X) : X :=
  match e in MainEv X return X with
  | MainNode e => quiet_node e
  | MainDb e => quiet_db e
  | MainDocker e => (dk_handle demo_get e []).1
  | WaitRuns _ => true
  | ListenAndServe _ => Some (ServeError "address already in use")
  | _ => tt
  end.

Definition main_handle {X} (e : MainEv X) (tr : list Label) : X * list Label :=
  (main_answer_of e, tr ++ label_of e).

Definition demo_main : MainProg Exit :=
  main node1 (fun _ => FileNotExist) (fun _ _ => Err "") (fun _ => "") "" demo_message 1.

Definition demo_trace : list Label := (runE (@main_handle) demo_main []).2.

(** The process in the state in which HTTP has just been started. *)
Definition demo_serving : Process * list Label := advance (@main_answer_of) 30 (process_of demo_main) [].

(** A run to the end of [main], and one that HTTP ends. *)
Lemma main_spec_witness :
  (exists dock c1 c2, demo_trace = map LStart (goroutines (Default node1) dock) ++
    [LWait; LHttpShutdown; LDrain] ++ c1 ++ [LCloseDb] ++ c2) /\
  exists dock part, demo_serving.2 = map LStart (goroutines (Default node1) dock) ++ part.
Proof.
  assert (Load node1 (fun _ => FileNotExist) (fun _ _ => Err "") (fun _ => "") "" = Ok (Default node1))
    as Hload by (vm_compute; reflexivity).
  split.
  - assert (execE (fun X => @traced MainEv (@label_of) X) eq demo_main [] (Done Bye) demo_trace) as E.
    { replace (Done Bye) with (runE (@main_handle) demo_main []).1 by (vm_compute; reflexivity).
      apply runE_exec; [done|]. intros X e w. reflexivity. }
    pose proof (main_spec node1 (fun _ => FileNotExist) (fun _ _ => Err "") (fun _ => "") "" demo_message
      1 (Done Bye) demo_trace (main_alone demo_main [] [] [] _ _ E)) as H.
    clear E. rewrite Hload in H. clear Hload.
    destruct H as [[H _]|[[H _]|(dock & c1 & c2 & _ & _ & [[_ H]|[[H _]|[H _]]])]]; try discriminate.
    exists dock, c1, c2. exact H.
  - pose proof (main_spec node1 (fun _ => FileNotExist) (fun _ _ => Err "") (fun _ => "") "" demo_message
      1 (Done (Fatal "http")) demo_serving.2
      (http_fails demo_main demo_serving.1 demo_serving.2 ":8080" "address already in use"
        ltac:(rewrite <- surjective_pairing; apply advance_run) ltac:(vm_compute; reflexivity))) as H.
    rewrite Hload in H. clear Hload. generalize dependent (demo_serving.2). intros l H.
    destruct H as [[H _]|[[H _]|(dock & c1 & c2 & _ & _ & [[H _]|[(_ & part & _ & H)|[H _]]])]];
      try discriminate.
    exists dock, part. exact H.
Defined.
